(* ===== verification/_CoqProject ===== *)
-Q . S2P
Prelude.v
Result.v
Checked.v
Text.v
Bytes.v
Crc32c.v
LockAudit.v
LockAuditTheorems.v
Json.v
JsonBounds.v
JsonWriter.v
JsonRoundTrip.v
Identity.v
Time.v
Evidence.v
Sample.v
Counter.v
Metadata.v
Event.v
Limits.v
Decode.v
DecodeTheorems.v
SampleRoundTrip.v
Policy.v
Rules.v
Explanation.v
Classification.v
Protocol.v
Ring.v
History.v
Window.v
OrderedMap.v
Admission.v
Store.v
StoreOps.v
Queries.v
Contention.v
StoreInvariant.v
StoreStages.v
StoreIngest.v
StoreExample.v
StoreTheorems.v
StoreBatches.v
QueryTheorems.v
Ingest.v
Runtime.v
RuntimeInvariant.v
RuntimeTheorems.v
Codec.v
Format.v
FormatBytes.v
SegmentBytes.v
SegmentTheorems.v
SegmentSound.v
SegmentExample.v
Recovery.v
RecoveryTheorems.v
RecoveryExample.v
Persistence.v
PersistenceView.v
PersistenceTheorems.v
PersistenceRuns.v
PersistenceExample.v
Lifecycle.v
LifecycleTheorems.v
Export.v
ExportTheorems.v
Report.v
ReportTheorems.v
Transport.v
TransportTheorems.v
TransportSession.v
Serve.v
ServeTheorems.v
ServeOutcomes.v
ServeExample.v
CommandLine.v
Commands.v
CommandTheorems.v
TransportTools.v
