(* ===== verification/Prelude.v ===== *)
(** * Queue Observatory: a verification development

    Queue Observatory collects telemetry about the queues of network devices,
    decides for each queue what pressure its evidence shows, keeps a bounded
    history, and answers queries about it.  This library models the program,
    file by file, as executable functions and step relations, and proves what
    makes it correct.  Paths below are relative to the repository.

    ** How the program works

    A document is a sequence of lines, each a JSON object: a sample (a queue, the
    fields that were measured, a source and its incarnation, generation and
    sequence number) or a table of class metadata.  The runtime decodes a document
    and hands its tables and samples to the store, at once ([ingest_document]) or
    through a queue of documents that worker threads empty in the order of their
    tickets ([submit]).  [QueueStore::ingest] fences a sample against what it knows
    of the source, opens the queue within its limits, resolves the queue's classes
    against the metadata, turns each counter reading into a delta or a refusal to
    claim one, assesses the evidence, looks for a peer source that disagrees,
    classifies the queue by the policy's rules, appends a record to the queue's
    history ring, and logs events.  Queries read the same state; windows are
    recomputed from the history when they are asked for; an export writes a page
    of rows as lines of JSON.  When the runtime stops, and when it is asked to, the
    store's state is written to a segment, a file of checksummed records that the
    next start reads back.  The transport's server accepts connections, reassembles
    frames, and answers each batch frame with the report of its ingestion; a lock
    audit checks the order in which the threads take their locks.  Three programs
    wrap all this: the command line [qobs], a server and a client.

    ** The files, bottom up

    - Prelude (this file): machine integers and the tactics and generic lemmas
      that the components share.
    - Result, Checked, Text, Bytes, Crc32c, Identity, Time, Limits: the [core/]
      directory (Identity also has [model/Identity]).  Text is a list of 8-bit
      characters ([string]); a byte is a [Z] below 256.
    - LockAudit: [core/LockAudit], each thread's stack of ranks and the counters of
      all threads; LockAuditTheorems: programs of locks, their interleaving, and
      what a clean audit excludes.
    - Json, JsonWriter: [core/Json], the values and the parser, and the writer's
      state machine; JsonBounds and JsonRoundTrip: what the parser accepts, and that
      it reads what the writer wrote.
    - Evidence, Sample, Counter, Metadata, Event: the [model/] directory.
    - Policy, Rules, Explanation, Classification: the [policy/] directory.  Each
      rule of [classify] is a function to a [Verdict]; [run_rules] is the sequence
      of [record]s and early returns.
    - Decode: [ingest/Decode] and [ingest/Wire], the line loop, the records with
      every refusal, and both encoders.  DecodeTheorems and SampleRoundTrip: what a
      document gives, and the round trip of samples through their text, by the
      round trip of flat objects that it begins with.
    - Ingest: [ingest/Ingest], and that what is decoded is well typed.
    - Ring: the ring buffer that [HistoryRing], [BucketAccumulator] and the event
      log each write out by hand; History and Window are the first two
      ([store/History], [store/Window]).
    - OrderedMap: [std::map], an association list in key order.
    - Admission, Store, StoreOps: [store/Store.hpp] and the part of [store/Store.cpp]
      that changes the store.  [Store] is the record of its members; every member
      function is a function to the new store.  [ingest_locked] is split into the
      stages its comments name, composed in the order of the code.  StoreOps has
      the public operations and [reachable], the states that runs of them reach.
    - Queries, Contention: the read-only part of [store/Store.cpp], the latter with
      [store/Correlation].
    - StoreInvariant, StoreStages, StoreIngest: what each stage of [ingest_locked]
      preserves and does, up to [ingest_handled], one lemma about a whole call that
      names its [Ending] (rejected, fenced or accepted).
    - StoreExample: a small configuration and a run, for the witnesses.
    - StoreTheorems, StoreBatches, QueryTheorems: the theorems about the store.
    - Runtime: the ticket queue of [runtime/Observatory], with the workers, the
      callers of [submit] and [drain], and [stop], as steps under the queue's lock;
      RuntimeInvariant and RuntimeTheorems: its invariant, and order, progress and
      shutdown.
    - Codec, Format: [persist/Format], the byte reader and writer, the enumerators
      as they are stored, every record of a segment and the segment; FormatBytes,
      SegmentBytes, SegmentTheorems, SegmentSound, SegmentExample: round trip,
      truncation, damage, and what the decoder can return.
    - Recovery: [runtime/Engine] and the snapshot of a store ([persist/Format.cpp]);
      RecoveryTheorems, RecoveryExample.
    - Persistence: [persist/Persistence], a directory of segments with every state
      of the disk that its operations go through; PersistenceView,
      PersistenceTheorems, PersistenceRuns, PersistenceExample.
    - Lifecycle, LifecycleTheorems: creation, start, stop and status of an
      observatory with a persistence directory, and what a restart keeps.
    - Export, ExportTheorems: [QueueStore::export_data]; Report, ReportTheorems: the
      renderers of [runtime/Export].
    - Protocol: [transport/Protocol], and the receive loop of
      [TransportServer::handle_connection] around it ([feed], [drain]).
    - Transport: [transport/Socket], [transport/Server] and [transport/Client] as far
      as one connection; TransportTheorems, TransportSession: what goes over it.
    - Serve: the accept loop and the workers of [TransportServer::serve], with the
      handling of a connection cut into the steps at which threads interleave;
      ServeTheorems, ServeOutcomes, ServeExample.
    - CommandLine, Commands, CommandTheorems: [apps/qobs/main.cpp], its options, its
      commands and the process around them; TransportTools: the server's and the
      client's programs ([apps/qobs_transport_server], [apps/qobs_transport_client]).

    ** What is shown

    - The store stays within its configuration in every reachable state, and loses
      or counts twice no sample ([store_bounded], [every_sample_accounted]).
    - A refused sample changes no observation; an accepted one appends exactly one
      record and advances its source; a replay is not accepted while its
      incarnation is remembered, that is until its source has come with four others
      ([refused_changes_no_observation], [accepted_appends_record],
      [accepted_advances_source], [replay_is_refused]).
    - A batch is a prefix of its samples, one by one, and its report is exact;
      recovered samples never define the present; metadata only moves forward
      ([batch_is_prefix], [recovery_establishes_no_present],
      [metadata_moves_forward]).
    - Classification: a state about the present needs speaking evidence, levels are
      integer comparisons, a product beyond 64 bits reaching none, more occupancy
      never looks better, and the trace is the path taken; a stored decision can be derived again from what the store
      keeps ([present_state_needs_evidence], [levels_exact],
      [classification_monotone], [trace_is_the_path], [explain_rederives]).
    - Counters never claim progress the device did not make, and under a rate bound
      what they claim is exact ([counter_never_invents_progress],
      [counter_movement_exact]).
    - The ring of a queue holds its newest records; the window accumulator refines
      a list of buckets ([observe] against [observe_view]), is bounded, and detects
      exactly the bursts that were observed ([history_keeps_newest],
      [history_since_filter], [observe_refines], [window_bounded],
      [burst_detected_iff]).
    - Queries: a page is the slice it claims to be; contention is claimed only
      between sibling queues with enough buckets in which both histories contend, and
      its ratio is in lowest terms; the lines of an export parse back to its rows; a
      report has nothing in it but the lines it means to print, without control
      characters, the label of a window apart ([page_exact],
      [contention_claims_hold], [reduce_fraction_lowest], [export_lines_parse],
      [reports_are_line_oriented]).
    - JSON: the parser answers every text, within every limit, and reads back what
      the writer wrote; samples survive encoding and decoding
      ([parse_json_within_limits], [json_round_trip], [sample_round_trip]).
    - Runtime: the store is that of synchronous ingestion of the documents in the
      order of their tickets; what is accepted is finished; stop accounts for every
      document ([documents_applied_in_order], [accepted_work_finishes],
      [stop_accounts_for_documents]).
    - Segments: round trip; truncation and short damage cost the records they touch
      and those behind them; the decoder returns durable data only, whatever the
      bytes ([segment_round_trip], [truncated_segment_keeps_whole_records],
      [damaged_record_stops_reading], [decoded_snapshot_well_formed]).
    - Persistence: wherever a process dies, recovery finds the snapshot being
      written or the one before; what was last written with success, or later, is
      what is recovered; a restart readmits the history that could be written, and
      a segment whose enumerators are known ones establishes none of the present
      ([crash_leaves_old_or_new], [last_written_snapshot_is_recovered],
      [written_snapshot_is_kept], [restart_readmits_history],
      [recovered_segment_establishes_no_present]).
    - Frames survive the wire in any fragmentation, and short corruptions are
      refused, because the table-driven checksum is CRC-32C division
      ([frame_round_trip], [reassembly], [corruption_is_refused],
      [crc32c_is_division], [crc_detects_short_burst], [crc_feed_pieces]).
    - A client's calls and the server's handling of the connection together are the
      ingestion of the client's documents; the pool loses no connection and no
      wake-up, and comes to an end but for workers that wait for silent peers;
      batches of several connections keep their tickets apart ([batches_over_the_wire], [connections_all_served],
      [batches_side_by_side]).  The whole handling of a connection is a run of its
      steps ([handler_refines_connection]).
    - Lock programs whose audit stays at zero cannot deadlock, under any scheduler
      ([clean_audit_excludes_deadlock]).
    - The command line reads exactly the spellings of its options; ingesting files
      is ingesting their documents in order, up to the first that fails; no command
      touches the disk that was not asked to ([command_line_exact], [ingest_command_exact],
      [observing_keeps_disk]).
    - Identities, metadata resolution and checked arithmetic: [path_print_parse],
      [resolution_correct], [checked_operations_exact].

    Lemmas whose names say so record where the code departs from its intent or its
    documents:
    - counters, policy, time and windows: [wide_first_reading_invents],
      [unchanged_hides_a_turn], [huge_rate_is_no_rate], [huge_limit_is_normal],
      [authority_is_not_asked], [late_bucket_out_of_order], [aggregate_sums_wrap],
      [coverage_is_one_sided], [time_examples];
    - the store and decoding: [rejected_sample_consumes_its_sequence],
      [fenced_sample_moves_the_source], [forgotten_incarnation_is_accepted],
      [encoder_accepts_what_decoder_refuses];
    - persistence: [unknown_enumerator_decodes], [reserved_bytes_unchecked],
      [sample_count_held_to_record_limit], [snapshot_misses_later_pages],
      [recovery_fences_other_queues], [last_sequence_hides_later_snapshots],
      [unlistable_directory_opens], [dangling_link_stops_listing],
      [records_are_not_counted];
    - export, reports, locks and transport: [text_export_has_no_history],
      [window_label_is_not_sanitized], [deep_nesting_is_miscounted],
      [leaf_deadlock_is_clean], [long_payload_is_truncated], [bye_depends_on_reads],
      [crowded_pool], [silent_client_holds_serve];
    - the programs: [history_needs_a_window], [help_option_is_refused],
      [unknown_option_takes_the_command], [document_hides_missing_port].

    ** Conventions

    A [std::uint64_t] or a [Nanos] is a [Z]; additions and subtractions that can
    leave the width are written with the wrapping operators of [word_scope]
    below, and a checked operation returns an option.  Indices and sizes of
    containers are [nat].  A function that fills in a reference parameter returns
    it; a [Status] comes last.  The n-th reading of the clock is [clock n], where
    [clock] and [record_bytes], the [sizeof] of a history record, are arguments of
    the store's definitions.

    A critical section is one atomic step: a store operation holds the exclusive
    lock from beginning to end, so interleavings of threads are sequences of
    [Operation]s; the queues of the runtime and of the server change only under
    their mutexes, and their threads are step relations ([step], [serve_step]).
    Those relations have spurious wake-ups; the ones that progress is measured on
    ([progress], [pool_step]) leave them out, since a thread may sleep on for ever
    between them.  [start] and the phases of [stop] are one step each.

    What the system does is an argument: the outcome of each call of the file
    system ([ReadIo], [WriteIo], [ProcessIo]) and the order in which a directory is
    listed, the answers to [send] and [recv] and the bytes that arrive, what a
    document file holds, which numbers a [double] can represent, and which peers
    leave a worker waiting for ever in [recv] or [send] ([waiting]).  A failed call
    changes nothing; one process owns the persistence directory; the stream of a
    connection that is followed by itself ([handle_connection], the client's calls)
    ends when nothing more arrives.  A [FileOp] returns every state of the disk that it goes through, which are the
    states a crash can leave.  An enumerator that the
    decoder does not test is the byte that was stored.  What a process prints, and
    its exit code, are its result.  The lock audit's reads past the end of its array
    have no result.

    Loops whose number of turns is not structural run on fuel: the gcd on 129
    turns (a remainder halves every two steps, so 64-bit operands need at most 128
    and one to stop), expiry on the number of buckets held (each turn drops one),
    [drain] and [handle_frames] on one more than the bytes buffered (each frame takes
    sixteen or more), the JSON parser on twice the length of the text and one (each
    nested call consumes a byte or follows one that did), [decode_records] on one
    more than the bytes of the payload (each record has a header), [send_loop] on the
    bytes to send (a call that sends none ends it), [receive_loop] and
    [connection_loop] on the chunks still to arrive and the end of the stream.  The
    theorems about them hold at that fuel without a side condition.

    ** What is not modelled

    The system clocks, the making of sockets and the resolution of addresses, and
    what the compiler says of the build are the platform's, and are arguments where
    they are used.  Of directories: symbolic links other than dangling ones,
    exceptions thrown while a listing goes on, and the durability of a rename.
    Floating-point JSON numbers are kept as their text.  The examples and the
    benchmarks call the library with fixed inputs.  [parse_u64_option] of the command
    line is never called. *)

From Stdlib Require Export ZArith Lia.
From stdpp Require Export base numbers list strings option.

#[global] Set Default Goal Selector "1".

(** ** Machine integers

    A [std::uint64_t], [std::int64_t] (and [Nanos]) is a [Z]; the operators
    below are the ones whose result the width of the type changes.  Unsigned
    arithmetic wraps modulo [2^64].  Signed overflow is undefined in C++; where
    the source can reach it the model wraps to two's complement, and the
    theorems either exclude it or say that it is reached. *)

Definition u64_max : Z := 18446744073709551615.
Definition u32_max : Z := 4294967295.
Definition u16_max : Z := 65535.
Definition i64_max : Z := 9223372036854775807.
Definition i64_min : Z := -9223372036854775808.

Definition wrap_u64 (x : Z) : Z := x mod 18446744073709551616.
Definition wrap_u32 (x : Z) : Z := x mod 4294967296.
Definition wrap_i64 (x : Z) : Z :=
  (x + 9223372036854775808) mod 18446744073709551616 - 9223372036854775808.

Declare Scope word_scope.
Delimit Scope word_scope with word.
Notation "a +u b" := (wrap_u64 (a + b)) (at level 50, left associativity) : word_scope.
Notation "a -u b" := (wrap_u64 (a - b)) (at level 50, left associativity) : word_scope.
Notation "a *u b" := (wrap_u64 (a * b)) (at level 40, left associativity) : word_scope.
Notation "a +s b" := (wrap_i64 (a + b)) (at level 50, left associativity) : word_scope.
Notation "a -s b" := (wrap_i64 (a - b)) (at level 50, left associativity) : word_scope.
Notation "a *s b" := (wrap_i64 (a * b)) (at level 40, left associativity) : word_scope.

Definition is_u64 (x : Z) : Prop := (0 <= x <= u64_max)%Z.
Definition is_i64 (x : Z) : Prop := (i64_min <= x <= i64_max)%Z.

(** [word_lia]: linear arithmetic with the machine limits unfolded. *)
Ltac word_unfold :=
  unfold is_u64, is_i64, u64_max, u32_max, u16_max, i64_max, i64_min in *.
Ltac word_lia := word_unfold; lia.
Ltac word_nia := word_unfold; nia.

(** [bool_cases]: case analysis on every boolean test the goal branches on. *)
Ltac bool_case :=
  match goal with
  | |- context [if ?b then _ else _] =>
      lazymatch type of b with
      | bool => destruct b eqn:?
      | _ => case_decide
      end
  end.
Ltac bool_cases := repeat bool_case.

(** [is_true e], [is_false e]: replace the test [e] by its value, which linear
    arithmetic gives. *)
Ltac solve_true :=
  first [apply Z.ltb_lt | apply Z.leb_le | apply Z.eqb_eq
        | apply Nat.ltb_lt | apply Nat.leb_le | apply Nat.eqb_eq]; word_lia.
Ltac solve_false :=
  first [apply Z.ltb_ge | apply Z.leb_gt | apply Z.eqb_neq
        | apply Nat.ltb_ge | apply Nat.leb_gt | apply Nat.eqb_neq]; word_lia.
Tactic Notation "is_true" uconstr(e) := replace e with true by (symmetry; solve_true).
Tactic Notation "is_false" uconstr(e) := replace e with false by (symmetry; solve_false).

Create HintDb qobs.
Create Rewrite HintDb qobs.

Lemma wrap_u64_id x : is_u64 x → wrap_u64 x = x.
Proof. intros H. unfold wrap_u64. apply Z.mod_small. word_lia. Qed.

Lemma wrap_u64_range x : is_u64 (wrap_u64 x).
Proof.
  unfold wrap_u64. pose proof (Z.mod_pos_bound x 18446744073709551616 ltac:(lia)). word_lia.
Qed.

Lemma wrap_i64_id x : is_i64 x → wrap_i64 x = x.
Proof. intros H. unfold wrap_i64. rewrite Z.mod_small; word_lia. Qed.

Lemma wrap_i64_range x : is_i64 (wrap_i64 x).
Proof.
  unfold wrap_i64.
  pose proof (Z.mod_pos_bound (x + 9223372036854775808) 18446744073709551616 ltac:(lia)). word_lia.
Qed.

(** Every wrapped value differs from the exact one by a multiple of [2^64]. *)
Lemma wrap_i64_eq x : ∃ k, (wrap_i64 x = x + k * 18446744073709551616)%Z.
Proof.
  exists (- ((x + 9223372036854775808) / 18446744073709551616))%Z. unfold wrap_i64.
  pose proof (Z.div_mod (x + 9223372036854775808) 18446744073709551616 ltac:(lia)). lia.
Qed.

Lemma wrap_u64_add_l x y : wrap_u64 (wrap_u64 x + y) = wrap_u64 (x + y).
Proof. unfold wrap_u64. by rewrite Zplus_mod_idemp_l. Qed.

#[export] Hint Resolve wrap_u64_range wrap_i64_range : qobs.
#[export] Hint Rewrite wrap_u64_id wrap_i64_id using (word_lia) : qobs.

(** ** Lists *)

(** The last [n] elements. *)
Definition keep_last {A} (n : nat) (xs : list A) : list A := drop (length xs - n) xs.

Lemma keep_last_length {A} n (xs : list A) : length (keep_last n xs) <= n.
Proof. unfold keep_last. rewrite length_drop. lia. Qed.

Lemma keep_last_all {A} n (xs : list A) : length xs <= n → keep_last n xs = xs.
Proof. intros H. unfold keep_last. by replace (length xs - n) with 0 by lia. Qed.

Lemma keep_last_app {A} n (xs : list A) x : keep_last n (keep_last n xs ++ [x]) = keep_last n (xs ++ [x]).
Proof.
  unfold keep_last. rewrite !length_app, length_drop. cbn [length].
  destruct (decide (length xs <= n)).
  - replace (length xs - n) with 0 by lia. rewrite drop_0. do 2 f_equal. lia.
  - destruct (decide (n = 0)) as [->|].
    + rewrite !Nat.sub_0_r, Nat.sub_diag. cbn. rewrite drop_all. cbn.
      rewrite drop_ge; [done|]. rewrite length_app. cbn. lia.
    + replace (length xs - (length xs - n) + 1 - n) with 1 by lia.
      rewrite <- (drop_app_le xs [x] (length xs - n)) by lia. rewrite drop_drop.
      do 2 f_equal. lia.
Qed.
