(* ===== verification/Result.v ===== *)
(** * Errors, statuses and results

    [core/Result.hpp] and [core/Result.cpp]: the error codes, an [Error] (a code
    with its message), a [Status] (an error whose code may be [Ok]) and a
    [Result] (a value or an error), with the two propagation macros. *)

From S2P Require Import Prelude.

Module ErrorCode.
Inductive ErrorCode : Set :=
| Ok | InvalidArgument | OutOfRange | Overflow | NotSupported | NotFound | AlreadyExists
| IntegrityFailure | VersionMismatch | ParseError | LimitExceeded | Fenced | Stale | Conflict
| Incomplete | Unknown | Cancelled | NotRunning | Busy | IoError | Internal.

#[export] Instance ErrorCode_eq_dec : EqDecision ErrorCode.
Proof. solve_decision. Defined.

Definition to_string (code : ErrorCode) : string :=
  match code with
  | Ok => "ok"
  | InvalidArgument => "invalid_argument"
  | OutOfRange => "out_of_range"
  | Overflow => "overflow"
  | NotSupported => "not_supported"
  | NotFound => "not_found"
  | AlreadyExists => "already_exists"
  | IntegrityFailure => "integrity_failure"
  | VersionMismatch => "version_mismatch"
  | ParseError => "parse_error"
  | LimitExceeded => "limit_exceeded"
  | Fenced => "fenced"
  | Stale => "stale"
  | Conflict => "conflict"
  | Incomplete => "incomplete"
  | Unknown => "unknown"
  | Cancelled => "cancelled"
  | NotRunning => "not_running"
  | Busy => "busy"
  | IoError => "io_error"
  | Internal => "internal"
  end.
End ErrorCode.
#[export] Existing Instance ErrorCode.ErrorCode_eq_dec.
Abbreviation ErrorCode := ErrorCode.ErrorCode.

Record Error := mkError { code : ErrorCode; message : string }.

#[export] Instance Error_eq_dec : EqDecision Error.
Proof. solve_decision. Defined.

Definition is_failure (c : ErrorCode) : bool := bool_decide (c ≠ ErrorCode.Ok).

Definition error_to_string (e : Error) : string :=
  ErrorCode.to_string (code e) +:+ ": " +:+ message e.

(** A [Status] is an [Error]; the default one is a success. *)
Abbreviation Status := Error.
Definition success : Status := mkError ErrorCode.Ok "".
Definition failure (c : ErrorCode) (m : string) : Status := mkError c m.
Definition ok (s : Status) : bool := bool_decide (code s = ErrorCode.Ok).

(** [QOBS_TRY(expr)]: return the status when it is a failure, else go on. *)
Definition try_status (s : Status) (k : Status) : Status := if ok s then k else s.
Notation "'TRY' s ;; k" := (try_status s k) (at level 10, s at level 99, k at level 200).

(** [Result<T>]: a value, or an error. *)
Inductive Result (A : Type) : Type :=
| Value (a : A)
| Failure (e : Error).
Arguments Value {A} a.
Arguments Failure {A} e.

Definition fail {A} (c : ErrorCode) (m : string) : Result A := Failure (mkError c m).

(** [QOBS_TRY_ASSIGN(name, expr)] is the bind of this monad. *)
#[export] Instance Result_ret : MRet Result := @Value.
#[export] Instance Result_bind : MBind Result := λ _ _ f r,
  match r with Value a => f a | Failure e => Failure e end.

(** [QOBS_TRY_RESULT(expr)] *)
Definition try_result {A} (s : Status) (k : Result A) : Result A :=
  if ok s then k else Failure s.

Definition has_value {A} (r : Result A) : bool :=
  match r with Value _ => true | Failure _ => false end.
Definition result_option {A} (r : Result A) : option A :=
  match r with Value a => Some a | Failure _ => None end.
Definition result_code {A} (r : Result A) : ErrorCode :=
  match r with Value _ => ErrorCode.Ok | Failure e => code e end.

#[export] Instance Result_eq_dec {A} `{EqDecision A} : EqDecision (Result A).
Proof. solve_decision. Defined.

Lemma ok_success : ok success = true.
Proof. reflexivity. Qed.

Lemma ok_failure c m : c ≠ ErrorCode.Ok → ok (failure c m) = false.
Proof. intros H. unfold ok. by apply bool_decide_eq_false. Qed.

(** A chain of [QOBS_TRY] succeeds exactly when every link does. *)
Lemma ok_try s k : ok (try_status s k) = ok s && ok k.
Proof. unfold try_status. by destruct (ok s) eqn:?. Qed.

Lemma error_code_to_string_inj a b :
  ErrorCode.to_string a = ErrorCode.to_string b → a = b.
Proof. by destruct a, b. Qed.

#[export] Hint Rewrite ok_success ok_try : qobs.
