(* ===== verification/Checked.v ===== *)
(** * Checked arithmetic

    [core/Checked.hpp] and [core/Checked.cpp].  Each operation is written with
    the machine operators of the prelude, exactly as the source tests before it
    computes; the theorems say that the tests are the right ones, so that what
    is returned is the exact result or nothing. *)

From S2P Require Import Prelude Result.
Open Scope Z_scope.
Open Scope word_scope.

Definition add_u64 (a b : Z) : option Z :=
  if u64_max -u b <? a then None else Some (a +u b).

Definition sub_u64 (a b : Z) : option Z :=
  if a <? b then None else Some (a -u b).

Definition mul_u64 (a b : Z) : option Z :=
  if (a =? 0) || (b =? 0) then Some 0
  else if u64_max / b <? a then None else Some (a *u b).

Definition div_ceil_u64 (a b : Z) : option Z :=
  if b =? 0 then None
  else
    let quotient := a / b in
    let remainder := a mod b in
    if remainder =? 0 then Some quotient else add_u64 quotient 1.

Definition add_i64 (a b : Z) : option Z :=
  if (0 <? b) && (i64_max -s b <? a) then None
  else if (b <? 0) && (a <? i64_min -s b) then None
  else Some (a +s b).

Definition sub_i64 (a b : Z) : option Z :=
  if b =? i64_min then
    if 0 <=? a then None else add_i64 (a +s i64_max) 1
  else add_i64 a (wrap_i64 (- b)).

(** C++ division truncates: [Z.quot]. *)
Definition mul_i64 (a b : Z) : option Z :=
  if (a =? 0) || (b =? 0) then Some 0
  else if (a =? -1) && (b =? i64_min) then None
  else if (b =? -1) && (a =? i64_min) then None
  else
    let result := a *s b in
    if negb (Z.quot result b =? a) then None else Some result.

(** [std::size_t] is 64 bits wide on the platforms the model covers. *)
Definition fits_size_t (value : Z) : bool := value <=? u64_max.
Definition to_size (value : Z) : option Z :=
  if negb (fits_size_t value) then None else Some value.

(** [narrow_u<T>], [T] given by its greatest value. *)
Definition narrow_u (max value : Z) : option Z :=
  if max <? value then None else Some value.

Definition checked_add (a b : Z) (context : string) : Result Z :=
  match add_u64 a b with
  | None => fail ErrorCode.Overflow (context +:+ ": addition overflow")
  | Some sum => Value sum
  end.

Definition checked_mul (a b : Z) (context : string) : Result Z :=
  match mul_u64 a b with
  | None => fail ErrorCode.Overflow (context +:+ ": multiplication overflow")
  | Some product => Value product
  end.

Definition checked_size (value : Z) (context : string) : Result Z :=
  match to_size value with
  | None => fail ErrorCode.OutOfRange (context +:+ ": value does not fit in size_t")
  | Some converted => Value converted
  end.

Definition clamp (value low high : Z) : Z :=
  if value <? low then low else if high <? value then high else value.

(** ** Each unsigned operation is exact or refuses *)

Lemma add_u64_spec a b :
  is_u64 a → is_u64 b →
  add_u64 a b = if a + b <=? u64_max then Some (a + b) else None.
Proof.
  intros Ha Hb. unfold add_u64.
  rewrite (wrap_u64_id (u64_max - b)) by word_lia.
  bool_cases; try word_lia; [done|]. by rewrite wrap_u64_id by word_lia.
Qed.

Lemma add_u64_Some a b c :
  is_u64 a → is_u64 b → add_u64 a b = Some c → c = a + b ∧ is_u64 c.
Proof.
  intros Ha Hb. rewrite add_u64_spec by done. bool_cases; intros; simplify_eq.
  split; [done|word_lia].
Qed.

Lemma sub_u64_spec a b :
  is_u64 a → is_u64 b → sub_u64 a b = if b <=? a then Some (a - b) else None.
Proof.
  intros Ha Hb. unfold sub_u64. bool_cases; try word_lia; [done|].
  by rewrite wrap_u64_id by word_lia.
Qed.

Lemma mul_u64_spec a b :
  is_u64 a → is_u64 b →
  mul_u64 a b = if a * b <=? u64_max then Some (a * b) else None.
Proof.
  intros Ha Hb. unfold mul_u64.
  destruct (Z.eqb_spec a 0) as [->|Ha0]; [done|].
  destruct (Z.eqb_spec b 0) as [->|Hb0]; [by rewrite Z.mul_0_r|]. simpl.
  assert (u64_max / b < a ↔ u64_max < a * b) as Hiff.
  { split; intros H.
    - assert (u64_max < b * a); [|lia]. apply Z.lt_nge. intros Hle.
      apply Z.div_le_lower_bound in Hle; word_lia.
    - apply Z.div_lt_upper_bound; word_lia. }
  bool_cases; try (exfalso; word_lia); [done|]. rewrite wrap_u64_id; [done|word_nia].
Qed.

(** [div_ceil_u64] is the least number of [b]-sized parts that cover [a]. *)
Lemma div_ceil_u64_spec a b :
  is_u64 a → is_u64 b →
  div_ceil_u64 a b = if b =? 0 then None else Some ((a + b - 1) / b).
Proof.
  intros Ha Hb. unfold div_ceil_u64. destruct (Z.eqb_spec b 0) as [->|Hb0]; [done|].
  pose proof (Z.div_mod a b Hb0) as Hdm.
  pose proof (Z.mod_pos_bound a b ltac:(word_lia)) as Hm.
  assert (0 <= a / b) by (apply Z.div_pos; word_lia).
  destruct (Z.eqb_spec (a mod b) 0) as [Hr|Hr].
  - f_equal. apply (Z.div_unique_pos _ _ _ (b - 1)); lia.
  - assert (b <> 1) by (intros ->; rewrite Z.mod_1_r in Hr; done).
    assert (a / b <= a / 2) by (apply Z.div_le_compat_l; word_lia).
    pose proof (Z.div_mod a 2 ltac:(lia)). pose proof (Z.mod_pos_bound a 2 ltac:(lia)).
    rewrite add_u64_spec by word_lia.
    bool_cases; [|word_lia]. f_equal.
    apply (Z.div_unique_pos _ _ _ (a mod b - 1)); lia.
Qed.

(** ** The signed operations *)

Lemma add_i64_spec a b :
  is_i64 a → is_i64 b →
  add_i64 a b = if (i64_min <=? a + b) && (a + b <=? i64_max) then Some (a + b) else None.
Proof.
  intros Ha Hb. unfold add_i64.
  destruct (Z.ltb_spec 0 b); simpl.
  - rewrite (wrap_i64_id (i64_max - b)) by word_lia.
    destruct (Z.ltb_spec b 0); [word_lia|]. simpl.
    bool_cases; try word_lia; [done|]. by rewrite wrap_i64_id by word_lia.
  - destruct (Z.ltb_spec b 0); simpl.
    + rewrite (wrap_i64_id (i64_min - b)) by word_lia.
      bool_cases; try word_lia; [done|]. by rewrite wrap_i64_id by word_lia.
    + bool_cases; [|word_lia]. by rewrite wrap_i64_id by word_lia.
Qed.

Lemma sub_i64_spec a b :
  is_i64 a → is_i64 b →
  sub_i64 a b = if (i64_min <=? a - b) && (a - b <=? i64_max) then Some (a - b) else None.
Proof.
  intros Ha Hb. unfold sub_i64. destruct (Z.eqb_spec b i64_min) as [->|Hne].
  - destruct (Z.leb_spec 0 a).
    + bool_cases; [word_lia|done].
    + rewrite (wrap_i64_id (a + i64_max)) by word_lia. rewrite add_i64_spec by word_lia.
      bool_cases; try word_lia. f_equal. word_lia.
  - rewrite (wrap_i64_id (- b)) by word_lia. rewrite add_i64_spec by word_lia. done.
Qed.

(** A truncated quotient that gives [a] back leaves no room for a multiple of
    [2^64]: the source's after-the-fact test is sound on wrapped products. *)
Lemma quot_recovers_product r a b :
  is_i64 a → is_i64 b → b ≠ 0 → (∃ k, r = a * b + k * 18446744073709551616) →
  Z.quot r b = a → r = a * b.
Proof.
  intros Ha Hb Hb0 [k Hk] Hq.
  pose proof (Z.quot_rem r b Hb0) as Hqr.
  pose proof (Z.rem_bound_abs r b Hb0) as Hr.
  rewrite Hq in Hqr.
  assert (Z.rem r b = k * 18446744073709551616) by lia.
  assert (k = 0) by word_lia. lia.
Qed.

(** Exactness of the signed product, under two's complement
    wrap-around of the intermediate product. *)
Lemma mul_i64_spec a b :
  is_i64 a → is_i64 b →
  mul_i64 a b = if (i64_min <=? a * b) && (a * b <=? i64_max) then Some (a * b) else None.
Proof.
  intros Ha Hb. unfold mul_i64.
  destruct (Z.eqb_spec a 0) as [->|Ha0]; [done|].
  destruct (Z.eqb_spec b 0) as [->|Hb0]; [by rewrite Z.mul_0_r|]. simpl.
  destruct ((a =? -1) && (b =? i64_min)) eqn:E1; [bool_cases; [word_lia|done]|].
  destruct ((b =? -1) && (a =? i64_min)) eqn:E2; [bool_cases; [word_lia|done]|].
  destruct (wrap_i64_eq (a * b)) as [k Hk].
  destruct (Z.eqb_spec (Z.quot (a *s b) b) a) as [Hq|Hq]; simpl.
  - assert (a *s b = a * b) as Heq by (eapply quot_recovers_product; eauto).
    pose proof (wrap_i64_range (a * b)). rewrite Heq in *.
    bool_cases; [done|word_lia].
  - bool_cases; [|done]. exfalso. apply Hq. rewrite wrap_i64_id by word_lia.
    by apply Z.quot_mul.
Qed.

#[export] Hint Rewrite add_u64_spec sub_u64_spec mul_u64_spec using word_lia : qobs.

(** Every checked operation on 64-bit integers returns the exact
    mathematical result when it fits the type and nothing otherwise: sums,
    differences and products, unsigned and signed, and the rounded-up quotient.
    (The signed product is computed before it is tested; the statement reads the
    intermediate overflow as two's complement wrap-around.) *)
Theorem checked_operations_exact (a b : Z) :
  (is_u64 a → is_u64 b →
     add_u64 a b = (if a + b <=? u64_max then Some (a + b) else None) ∧
     sub_u64 a b = (if 0 <=? a - b then Some (a - b) else None) ∧
     mul_u64 a b = (if a * b <=? u64_max then Some (a * b) else None) ∧
     div_ceil_u64 a b = (if b =? 0 then None else Some (- (- a / b)))) ∧
  (is_i64 a → is_i64 b →
     let exact r := if (i64_min <=? r) && (r <=? i64_max) then Some r else None in
     add_i64 a b = exact (a + b) ∧ sub_i64 a b = exact (a - b) ∧ mul_i64 a b = exact (a * b)).
Proof.
  split; intros Ha Hb.
  - rewrite add_u64_spec, sub_u64_spec, mul_u64_spec, div_ceil_u64_spec by done.
    split_and!; [done| |done|].
    + bool_cases; try lia; done.
    + destruct (Z.eqb_spec b 0) as [|Hb0]; [done|]. f_equal.
      pose proof (Z.div_mod (a + b - 1) b Hb0).
      pose proof (Z.mod_pos_bound (a + b - 1) b ltac:(word_lia)).
      assert (- ((a + b - 1) / b) = - a / b) as <-; [|lia].
      apply (Z.div_unique_pos _ _ _ (b - 1 - (a + b - 1) mod b)); lia.
  - rewrite add_i64_spec, sub_i64_spec, mul_i64_spec by done. done.
Qed.

Lemma checked_operations_exact_witness :
  mul_i64 i64_min (-1) = None ∧ mul_i64 3037000500 3037000500 = None ∧
  mul_i64 (-3037000499) 3037000499 = Some (-9223372030926249001) ∧
  sub_i64 (-1) i64_min = Some i64_max.
Proof.
  split_and!;
    [ rewrite (proj2 (proj2 (proj2 (checked_operations_exact i64_min (-1)) ltac:(word_lia)
                               ltac:(word_lia)))); reflexivity
    | rewrite (proj2 (proj2 (proj2 (checked_operations_exact 3037000500 3037000500)
                               ltac:(word_lia) ltac:(word_lia)))); reflexivity
    | rewrite (proj2 (proj2 (proj2 (checked_operations_exact (-3037000499) 3037000499)
                               ltac:(word_lia) ltac:(word_lia)))); reflexivity
    | rewrite (proj1 (proj2 (proj2 (checked_operations_exact (-1) i64_min)
                               ltac:(word_lia) ltac:(word_lia)))); reflexivity ].
Defined.
