(* ===== verification/Text.v ===== *)
(** * Text utilities

    [core/Text.hpp] and [core/Text.cpp]: prefix tests, trimming, splitting and
    joining, hexadecimal and decimal conversions, JSON escaping, display
    sanitizing and the FNV-1a hash; and the decimal printing of the standard
    library's [std::to_string], which the sources use throughout.

    A [std::string_view] is a [string]; a [char] is read through its unsigned
    byte value [byte_value]. *)

From Stdlib Require Export Ascii.
From stdpp Require Export strings.
From S2P Require Import Prelude.
Open Scope Z_scope.

Definition byte_value (c : ascii) : Z := Z.of_N (N_of_ascii c).
Definition byte_char (b : Z) : ascii := ascii_of_N (Z.to_N b).

Definition is_digit (c : ascii) : bool := (48 <=? byte_value c) && (byte_value c <=? 57).
Definition digit_value (c : ascii) : Z := byte_value c - 48.
Definition hex_digit (d : Z) : ascii := if d <? 10 then byte_char (48 + d) else byte_char (87 + d).

(** ** Substrings, as [std::string_view] has them *)

Fixpoint str_drop (n : nat) (s : string) : string :=
  match n, s with
  | O, _ => s
  | S n, String _ s => str_drop n s
  | S _, EmptyString => EmptyString
  end.

Fixpoint str_take (n : nat) (s : string) : string :=
  match n, s with
  | S n, String c s => String c (str_take n s)
  | _, _ => EmptyString
  end.

Fixpoint find_char (sep : ascii) (s : string) : option nat :=
  match s with
  | EmptyString => None
  | String c s => if decide (c = sep) then Some O else S <$> find_char sep s
  end.

Fixpoint str_rev_app (s acc : string) : string :=
  match s with EmptyString => acc | String c s => str_rev_app s (String c acc) end.
Definition str_rev (s : string) : string := str_rev_app s EmptyString.

Fixpoint str_map (f : ascii → ascii) (s : string) : string :=
  match s with EmptyString => EmptyString | String c s => String (f c) (str_map f s) end.

Fixpoint str_repeat (c : ascii) (n : nat) : string :=
  match n with O => EmptyString | S n => String c (str_repeat c n) end.

Fixpoint str_forallb (f : ascii → bool) (s : string) : bool :=
  match s with EmptyString => true | String c s => f c && str_forallb f s end.

Fixpoint str_bind (f : ascii → string) (s : string) : string :=
  match s with EmptyString => EmptyString | String c s => f c +:+ str_bind f s end.

(** ** The functions of [namespace text] *)

Definition starts_with (value prefix : string) : bool :=
  (String.length prefix <=? String.length value)%nat &&
  bool_decide (str_take (String.length prefix) value = prefix).

Definition ends_with (value suffix : string) : bool :=
  (String.length suffix <=? String.length value)%nat &&
  bool_decide (str_drop (String.length value - String.length suffix) value = suffix).

Definition is_space (c : ascii) : bool :=
  (byte_value c =? 32) || (byte_value c =? 9) || (byte_value c =? 13) || (byte_value c =? 10).

Fixpoint trim_front (value : string) : string :=
  match value with
  | String c rest => if is_space c then trim_front rest else value
  | EmptyString => EmptyString
  end.
Definition trim (value : string) : string := str_rev (trim_front (str_rev (trim_front value))).

Definition to_lower_ascii (value : string) : string :=
  str_map (λ c, if (65 <=? byte_value c) && (byte_value c <=? 90)
                then byte_char (byte_value c - 65 + 97) else c) value.
Definition to_upper_ascii (value : string) : string :=
  str_map (λ c, if (97 <=? byte_value c) && (byte_value c <=? 122)
                then byte_char (byte_value c - 97 + 65) else c) value.

(** The [while (true)] of [split]: [value] is what [start] has not passed. *)
Fixpoint split_loop (fuel : nat) (value : string) (separator : ascii) : list string :=
  match fuel with
  | O => []
  | S fuel =>
      match find_char separator value with
      | None => [value]
      | Some position =>
          str_take position value :: split_loop fuel (str_drop (S position) value) separator
      end
  end.
Definition split (value : string) (separator : ascii) : list string :=
  split_loop (S (String.length value)) value separator.

Fixpoint join_rest (parts : list string) (separator : string) : string :=
  match parts with
  | [] => EmptyString
  | part :: parts => separator +:+ part +:+ join_rest parts separator
  end.
Definition join (parts : list string) (separator : string) : string :=
  match parts with [] => EmptyString | part :: parts => part +:+ join_rest parts separator end.

Fixpoint to_hex_bytes (bytes : list Z) : string :=
  match bytes with
  | [] => EmptyString
  | b :: bytes =>
      String (hex_digit (Z.land (Z.shiftr b 4) 15)) (String (hex_digit (Z.land b 15))
        (to_hex_bytes bytes))
  end.

Definition pad_left_with (c : ascii) (width : nat) (s : string) : string :=
  str_repeat c (width - String.length s) +:+ s.

(** The digits are produced least significant first and reversed at the end;
    [acc] holds them reversed. *)
Fixpoint hex_digits (fuel : nat) (remaining : Z) (acc : string) : string :=
  match fuel with
  | O => acc
  | S fuel =>
      let acc := String (hex_digit (Z.land remaining 15)) acc in
      let remaining := Z.shiftr remaining 4 in
      if remaining =? 0 then acc else hex_digits fuel remaining acc
  end.
(** Sixteen nibbles are all a 64-bit value has. *)
Definition to_hex (value : Z) (min_digits : nat) : string :=
  pad_left_with "0"%char min_digits (hex_digits 16 value EmptyString).

Definition quote : ascii := "034"%char.
Definition backslash : ascii := "092"%char.

Definition escape_char (c : ascii) : string :=
  let b := byte_value c in
  if b =? 34 then String backslash (String quote EmptyString)
  else if b =? 92 then String backslash (String backslash EmptyString)
  else if b =? 8 then String backslash "b"
  else if b =? 12 then String backslash "f"
  else if b =? 10 then String backslash "n"
  else if b =? 13 then String backslash "r"
  else if b =? 9 then String backslash "t"
  else if b <? 32 then
    String backslash ("u00" +:+ String (hex_digit (Z.land (Z.shiftr b 4) 15))
                                  (String (hex_digit (Z.land b 15)) EmptyString))
  else String c EmptyString.
Definition escape_json (value : string) : string := str_bind escape_char value.

Definition sanitize_char (c : ascii) : ascii :=
  if (byte_value c <? 32) || (byte_value c =? 127) then "."%char else c.
Definition sanitize_for_display (value : string) (limit : nat) : string :=
  str_map sanitize_char (str_take (Nat.min (String.length value) limit) value) +:+
  (if (limit <? String.length value)%nat then "..." else EmptyString).

Definition pad_right (value : string) (width : nat) : string :=
  value +:+ str_repeat " "%char (width - String.length value).
Definition pad_left (value : string) (width : nat) : string :=
  pad_left_with " "%char width value.

Fixpoint parse_u64_loop (accumulator : Z) (value : string) : option Z :=
  match value with
  | EmptyString => Some accumulator
  | String c value =>
      if negb (is_digit c) then None
      else
        let digit := digit_value c in
        if (u64_max - digit) / 10 <? accumulator then None
        else parse_u64_loop (wrap_u64 (accumulator * 10 + digit)) value
  end.
Definition parse_u64 (value : string) : option Z :=
  match value with EmptyString => None | _ => parse_u64_loop 0 value end.

Definition parse_i64 (value : string) : option Z :=
  match value with
  | EmptyString => None
  | String c rest =>
      if byte_value c =? 43 then None
      else
        let negative := byte_value c =? 45 in
        let digits := if negative then rest else value in
        match parse_u64 digits with
        | None => None
        | Some magnitude =>
            let positive_limit := i64_max in
            if negative then
              if positive_limit + 1 <? magnitude then None
              else if magnitude =? positive_limit + 1 then Some i64_min
              else Some (- magnitude)
            else if positive_limit <? magnitude then None
            else Some magnitude
        end
  end.

Definition hex_value (c : ascii) : option Z :=
  let b := byte_value c in
  if (48 <=? b) && (b <=? 57) then Some (b - 48)
  else if (97 <=? b) && (b <=? 102) then Some (b - 97 + 10)
  else if (65 <=? b) && (b <=? 70) then Some (b - 65 + 10)
  else None.
Fixpoint parse_hex_loop (accumulator : Z) (digits : string) : option Z :=
  match digits with
  | EmptyString => Some accumulator
  | String c digits =>
      match hex_value c with
      | None => None
      | Some digit => parse_hex_loop (Z.lor (wrap_u64 (Z.shiftl accumulator 4)) digit) digits
      end
  end.
Definition parse_hex_u64 (value : string) : option Z :=
  let digits :=
    if starts_with value "0x" || starts_with value "0X" then str_drop 2 value else value in
  if (String.length digits =? 0)%nat || (16 <? String.length digits)%nat then None
  else parse_hex_loop 0 digits.

Fixpoint fnv1a64_loop (hash : Z) (value : string) : Z :=
  match value with
  | EmptyString => hash
  | String c value =>
      fnv1a64_loop (wrap_u64 (Z.lxor hash (byte_value c) * 1099511628211)) value
  end.
Definition fnv1a64 (value : string) : Z := fnv1a64_loop 14695981039346656037 value.

(** [std::to_string] on unsigned and signed 64-bit integers. *)
Fixpoint dec_digits (fuel : nat) (n : Z) (acc : string) : string :=
  match fuel with
  | O => acc
  | S fuel =>
      let acc := String (byte_char (48 + n mod 10)) acc in
      if n / 10 =? 0 then acc else dec_digits fuel (n / 10) acc
  end.
(** Twenty digits are enough for [2^64 - 1]. *)
Definition u64_to_string (n : Z) : string := dec_digits 20 n EmptyString.
Definition i64_to_string (n : Z) : string :=
  if n <? 0 then String "-"%char (u64_to_string (- n)) else u64_to_string n.
Definition size_to_string (n : nat) : string := u64_to_string (Z.of_nat n).

Example text_examples :
  u64_to_string 18446744073709551615 = "18446744073709551615" ∧
  i64_to_string i64_min = "-9223372036854775808" ∧
  parse_u64 "18446744073709551616" = None ∧ parse_u64 "007" = Some 7 ∧
  parse_i64 "-9223372036854775808" = Some i64_min ∧
  to_hex 48879 8 = "0000beef" ∧ parse_hex_u64 "0xBEEF" = Some 48879 ∧
  split "a||b" "|"%char = ["a"; ""; "b"] ∧ trim "  x y " = "x y" ∧
  fnv1a64 "a" = 12638187200555641996.
Proof. vm_compute. repeat split. Qed.

(** ** Bytes *)

Lemma byte_value_char b : 0 <= b < 256 → byte_value (byte_char b) = b.
Proof. intros H. unfold byte_value, byte_char. rewrite N_ascii_embedding; lia. Qed.

Lemma byte_char_value c : byte_char (byte_value c) = c.
Proof. unfold byte_value, byte_char. rewrite N2Z.id. apply ascii_N_embedding. Qed.

Lemma byte_value_range c : 0 <= byte_value c < 256.
Proof. unfold byte_value. pose proof (N_ascii_bounded c). lia. Qed.

Lemma byte_value_inj a b : byte_value a = byte_value b → a = b.
Proof. intros H. by rewrite <- (byte_char_value a), H, byte_char_value. Qed.

#[export] Hint Rewrite byte_value_char using lia : qobs.

Lemma string_app_cons (x : ascii) (a b : string) : String x a +:+ b = String x (a +:+ b).
Proof. done. Qed.

Lemma string_app_assoc (a b c : string) : (a +:+ b) +:+ c = a +:+ (b +:+ c).
Proof. induction a as [|x a IH]; [done|]. rewrite !string_app_cons. by rewrite IH. Qed.

Lemma string_app_nil_r (a : string) : a +:+ EmptyString = a.
Proof. induction a as [|x a IH]; [done|]. rewrite string_app_cons. by rewrite IH. Qed.

Lemma string_length_app (a b : string) :
  String.length (a +:+ b) = (String.length a + String.length b)%nat.
Proof. induction a as [|x a IH]; [done|]. rewrite string_app_cons. cbn. by rewrite IH. Qed.

(** ** Decimal numbers *)

(** The value a run of digits denotes, with no width. *)
Fixpoint dec_value (acc : Z) (s : string) : Z :=
  match s with EmptyString => acc | String c s => dec_value (acc * 10 + digit_value c) s end.

Lemma is_digit_value c : is_digit c = true → 0 <= digit_value c <= 9.
Proof. unfold is_digit, digit_value. lia. Qed.

Lemma dec_value_ge acc s : 0 <= acc → str_forallb is_digit s = true → acc <= dec_value acc s.
Proof.
  revert acc. induction s as [|c s IH]; cbn; intros acc Hacc H; [lia|].
  apply andb_prop in H as [Hc Hs]. apply is_digit_value in Hc.
  specialize (IH (acc * 10 + digit_value c) ltac:(lia) Hs). lia.
Qed.

Lemma parse_u64_loop_spec s acc :
  is_u64 acc →
  parse_u64_loop acc s =
    if str_forallb is_digit s && (dec_value acc s <=? u64_max) then Some (dec_value acc s)
    else None.
Proof.
  revert acc. induction s as [|c s IH]; cbn -[Z.mul Z.div]; intros acc Hacc.
  { bool_cases; [done|word_lia]. }
  destruct (is_digit c) eqn:Hc; cbn -[Z.mul Z.div]; [|done].
  pose proof (is_digit_value c Hc).
  destruct (Z.ltb_spec ((u64_max - digit_value c) / 10) acc) as [Hlt|Hge].
  - assert (u64_max < acc * 10 + digit_value c).
    { pose proof (Z.mod_pos_bound (u64_max - digit_value c) 10 ltac:(lia)).
      pose proof (Z.div_mod (u64_max - digit_value c) 10 ltac:(lia)). lia. }
    destruct (str_forallb is_digit s) eqn:Hs; [|done].
    pose proof (dec_value_ge (acc * 10 + digit_value c) s ltac:(word_lia) Hs).
    bool_cases; [word_lia|done].
  - assert (acc * 10 + digit_value c <= u64_max).
    { pose proof (Z.mod_pos_bound (u64_max - digit_value c) 10 ltac:(lia)).
      pose proof (Z.div_mod (u64_max - digit_value c) 10 ltac:(lia)). lia. }
    rewrite wrap_u64_id by word_lia. apply IH. word_lia.
Qed.

(** [parse_u64] accepts exactly the non-empty digit runs whose value fits, and
    returns that value. *)
Lemma parse_u64_spec s :
  parse_u64 s =
    if negb (bool_decide (s = EmptyString)) && str_forallb is_digit s
       && (dec_value 0 s <=? u64_max)
    then Some (dec_value 0 s) else None.
Proof.
  destruct s as [|c s]; [done|]. unfold parse_u64. rewrite parse_u64_loop_spec by word_lia.
  done.
Qed.

Lemma dec_digits_value fuel n acc :
  0 <= n < 10 ^ Z.of_nat fuel →
  dec_value 0 (dec_digits fuel n acc) = dec_value n acc.
Proof.
  revert n acc. induction fuel as [|fuel IH]; intros n acc Hn.
  { cbn in *. by replace n with 0 by lia. }
  cbn [dec_digits]. rewrite Nat2Z.inj_succ, Z.pow_succ_r in Hn by lia.
  pose proof (Z.div_mod n 10 ltac:(lia)). pose proof (Z.mod_pos_bound n 10 ltac:(lia)).
  assert (∀ a, dec_value a (String (byte_char (48 + n mod 10)) acc)
               = dec_value (a * 10 + n mod 10) acc) as Hstep.
  { intros a. cbn [dec_value]. unfold digit_value. rewrite byte_value_char by lia.
    f_equal. lia. }
  destruct (Z.eqb_spec (n / 10) 0).
  - rewrite Hstep. f_equal. lia.
  - rewrite IH by (split; [apply Z.div_pos; lia|apply Z.div_lt_upper_bound; lia]).
    rewrite Hstep. f_equal. lia.
Qed.

Lemma dec_digits_digits fuel n acc :
  str_forallb is_digit acc = true → str_forallb is_digit (dec_digits fuel n acc) = true.
Proof.
  revert n acc. induction fuel as [|fuel IH]; intros n acc H; [done|].
  cbn [dec_digits]. pose proof (Z.mod_pos_bound n 10 ltac:(lia)).
  assert (str_forallb is_digit (String (byte_char (48 + n mod 10)) acc) = true).
  { cbn [str_forallb]. rewrite H, andb_true_r. unfold is_digit. rewrite byte_value_char by lia.
    lia. }
  bool_cases; [done|]. by apply IH.
Qed.

Lemma dec_digits_cons fuel n c acc : ∃ d rest, dec_digits fuel n (String c acc) = String d rest.
Proof.
  revert n c acc. induction fuel as [|fuel IH]; intros; cbn [dec_digits]; [by eauto|].
  bool_cases; eauto.
Qed.

Lemma u64_to_string_cons n : ∃ c s, u64_to_string n = String c s.
Proof.
  assert (∀ fuel, ∃ c s, dec_digits (S fuel) n EmptyString = String c s) as H; [|apply H].
  intros fuel. cbn [dec_digits]. bool_cases; [by eauto|]. apply dec_digits_cons.
Qed.

Lemma u64_to_string_digits n : str_forallb is_digit (u64_to_string n) = true.
Proof. by apply dec_digits_digits. Qed.

Lemma u64_to_string_value n : is_u64 n → dec_value 0 (u64_to_string n) = n.
Proof.
  intros H. unfold u64_to_string. rewrite dec_digits_value; [done|].
  change (10 ^ Z.of_nat 20) with 100000000000000000000. word_lia.
Qed.

Lemma parse_print_u64 n : is_u64 n → parse_u64 (u64_to_string n) = Some n.
Proof.
  intros H. rewrite parse_u64_spec, u64_to_string_digits, u64_to_string_value by done.
  rewrite bool_decide_eq_false_2
    by (destruct (u64_to_string_cons n) as (c & s & ->); congruence).
  cbn. bool_cases; [done|word_lia].
Qed.

Lemma u64_to_string_inj a b :
  is_u64 a → is_u64 b → u64_to_string a = u64_to_string b → a = b.
Proof.
  intros Ha Hb H. apply (f_equal parse_u64) in H.
  rewrite !parse_print_u64 in H by done. by simplify_eq.
Qed.

Lemma parse_print_i64 n : is_i64 n → parse_i64 (i64_to_string n) = Some n.
Proof.
  intros H. unfold i64_to_string. destruct (Z.ltb_spec n 0) as [Hn|Hn].
  - unfold parse_i64. change (byte_value "-" =? 43) with false.
    change (byte_value "-" =? 45) with true. cbn -[u64_to_string].
    rewrite parse_print_u64 by word_lia. bool_cases; try word_lia; f_equal; word_lia.
  - pose proof (parse_print_u64 n ltac:(word_lia)) as Hp.
    pose proof (u64_to_string_digits n) as Hd.
    destruct (u64_to_string_cons n) as (c & s & Heq). rewrite Heq in *.
    cbn [str_forallb] in Hd. apply andb_prop in Hd as [Hc _]. unfold is_digit in Hc.
    unfold parse_i64. replace (byte_value c =? 43) with false by lia.
    replace (byte_value c =? 45) with false by lia. rewrite Hp.
    bool_cases; [word_lia|done].
Qed.

(** ** Splitting *)

Lemma find_char_None sep s :
  find_char sep s = None ↔ str_forallb (λ c, negb (bool_decide (c = sep))) s = true.
Proof.
  induction s as [|c s IH]; cbn; [done|].
  destruct (decide (c = sep)) as [->|Hne].
  - by rewrite bool_decide_eq_true_2.
  - rewrite bool_decide_eq_false_2 by done. cbn. rewrite <- IH.
    by destruct (find_char sep s).
Qed.

Lemma find_char_Some sep s n :
  find_char sep s = Some n →
  s = str_take n s +:+ String sep (str_drop (S n) s) ∧
  str_forallb (λ c, negb (bool_decide (c = sep))) (str_take n s) = true ∧
  (n < String.length s)%nat.
Proof.
  revert n. induction s as [|c s IH]; intros n; [done|]. cbn [find_char].
  destruct (decide (c = sep)) as [->|Hne].
  - intros [= <-]. repeat split. cbn. lia.
  - destruct (find_char sep s) as [m|] eqn:E; cbn; [|done]. intros [= <-].
    destruct (IH m eq_refl) as (Heq & Hall & Hlt).
    repeat split; cbn.
    + rewrite string_app_cons. by rewrite <- Heq at 1.
    + by rewrite bool_decide_eq_false_2.
    + lia.
Qed.

Lemma str_drop_length n s : String.length (str_drop n s) = (String.length s - n)%nat.
Proof. revert n. induction s as [|c s IH]; intros [|n]; cbn; auto. Qed.

(** A string with one separator in front of [rest]: the first field, then the
    fields of [rest]. *)
Lemma find_char_app sep a rest :
  str_forallb (λ c, negb (bool_decide (c = sep))) a = true →
  find_char sep (a +:+ String sep rest) = Some (String.length a) ∧
  str_take (String.length a) (a +:+ String sep rest) = a ∧
  str_drop (S (String.length a)) (a +:+ String sep rest) = rest.
Proof.
  induction a as [|c a IH].
  - intros _. change (EmptyString +:+ String sep rest) with (String sep rest).
    cbn. by rewrite decide_True by done.
  - intros H. cbn [str_forallb] in H. apply andb_prop in H as [Hc Ha].
    destruct (IH Ha) as (H1 & H2 & H3). rewrite string_app_cons.
    case_bool_decide as Hcs; [done|]. split_and!.
    + cbn [find_char]. by rewrite decide_False, H1 by done.
    + cbn. by rewrite H2.
    + apply H3.
Qed.

Definition no_sep (sep : ascii) (s : string) : Prop :=
  str_forallb (λ c, negb (bool_decide (c = sep))) s = true.

Lemma split_loop_fuel fuel1 fuel2 s sep :
  (String.length s < fuel1)%nat → (String.length s < fuel2)%nat →
  split_loop fuel1 s sep = split_loop fuel2 s sep.
Proof.
  revert fuel2 s. induction fuel1 as [|f1 IH]; intros [|f2] s H1 H2; try lia. cbn [split_loop].
  destruct (find_char sep s) as [n|] eqn:E; [|done].
  apply find_char_Some in E as (_ & _ & Hlt). f_equal.
  apply IH; rewrite str_drop_length; lia.
Qed.

Lemma split_no_sep sep s : no_sep sep s → split s sep = [s].
Proof. intros H. unfold split. cbn [split_loop]. by rewrite (proj2 (find_char_None sep s) H). Qed.

Lemma split_cons sep a rest :
  no_sep sep a → split (a +:+ String sep rest) sep = a :: split rest sep.
Proof.
  intros H. unfold split at 1. cbn [split_loop].
  destruct (find_char_app sep a rest H) as (-> & -> & ->). f_equal.
  apply split_loop_fuel; [|lia].
  rewrite string_length_app. cbn. lia.
Qed.

(** Every piece is free of the separator and no longer than the whole. *)
Lemma split_pieces sep s :
  Forall (λ piece, no_sep sep piece ∧ (String.length piece <= String.length s)%nat) (split s sep).
Proof.
  unfold split. generalize (S (String.length s)) as fuel. intros fuel. revert s.
  induction fuel as [|fuel IH]; intros s; cbn [split_loop]; [constructor|].
  destruct (find_char sep s) as [n|] eqn:E.
  - destruct (find_char_Some _ _ _ E) as (Heq & Hno & Hlt).
    assert (String.length (str_take n s) <= String.length s)%nat as Ht.
    { rewrite Heq at 2. rewrite string_length_app. lia. }
    constructor; [done|]. eapply Forall_impl; [|apply IH].
    intros piece [? Hle]. split; [done|]. rewrite str_drop_length in Hle. lia.
  - constructor; [|constructor]. split; [by apply find_char_None|lia].
Qed.

(** Joining separator-free parts and splitting again gives the parts back, the
    empty ones included. *)
Lemma split_join sep parts :
  parts ≠ [] → Forall (no_sep sep) parts →
  split (join parts (String sep EmptyString)) sep = parts.
Proof.
  destruct parts as [|p parts]; [done|]. intros _ H.
  assert (no_sep sep p ∧ Forall (no_sep sep) parts) as [Hp Hps] by (inversion H; done).
  cbn [join]. clear H. revert p Hp. induction Hps as [|q parts Hq _ IH]; intros p Hp.
  - cbn [join_rest]. rewrite string_app_nil_r. by apply split_no_sep.
  - cbn [join_rest].
    rewrite string_app_cons.
    replace (EmptyString +:+ (q +:+ join_rest parts (String sep EmptyString)))
      with (q +:+ join_rest parts (String sep EmptyString)) by done.
    rewrite split_cons by done. by rewrite IH.
Qed.

(** ** Trimming *)

Lemma str_rev_app_spec s acc : str_rev_app s acc = str_rev s +:+ acc.
Proof.
  unfold str_rev. revert acc. induction s as [|c s IH]; intros acc; [done|]. cbn [str_rev_app].
  rewrite (IH (String c acc)), (IH (String c EmptyString)), string_app_assoc. done.
Qed.
Lemma str_rev_snoc s c : str_rev (s +:+ String c EmptyString) = String c (str_rev s).
Proof.
  induction s as [|d s IH]; [done|]. rewrite string_app_cons. unfold str_rev in *. cbn [str_rev_app].
  rewrite !(str_rev_app_spec _ (String d EmptyString)). unfold str_rev. by rewrite IH.
Qed.
Lemma str_rev_involutive s : str_rev (str_rev s) = s.
Proof.
  induction s as [|c s IH]; [done|]. unfold str_rev at 2. cbn [str_rev_app].
  by rewrite str_rev_app_spec, str_rev_snoc, IH.
Qed.

(** A text that begins and ends with other characters is left as it is. *)
Lemma trim_id c s d :
  is_space c = false → is_space d = false →
  trim (String c (s +:+ String d EmptyString)) = String c (s +:+ String d EmptyString).
Proof.
  intros Hc Hd. unfold trim. cbn [trim_front]. rewrite Hc.
  rewrite <- string_app_cons, str_rev_snoc. cbn [trim_front]. rewrite Hd.
  by rewrite <- str_rev_snoc, str_rev_involutive.
Qed.

Lemma str_drop_app a b : str_drop (String.length a) (a +:+ b) = b.
Proof. induction a as [|c a IH]; [done|]. rewrite string_app_cons. exact IH. Qed.

Lemma no_sep_digits sep n : is_digit sep = false → no_sep sep (u64_to_string n).
Proof.
  intros Hs. pose proof (u64_to_string_digits n) as H. unfold no_sep. revert H.
  generalize (u64_to_string n) as s. induction s as [|c s IH]; [done|].
  cbn. intros [Hc H]%andb_prop. rewrite IH by done.
  rewrite bool_decide_eq_false_2; [done|congruence].
Qed.
