(* ===== verification/Bytes.v ===== *)
(** * Bytes and little-endian integers

    The byte layouts that [transport/Protocol.cpp] and the CRC share: a byte is
    a [Z] in [0..255], a buffer a list of them, and an integer is stored least
    significant byte first. *)

From S2P Require Import Prelude.
Open Scope Z_scope.

Definition is_byte (b : Z) : Prop := 0 <= b < 256.
Definition bytes_ok (bs : list Z) : Prop := Forall is_byte bs.

#[export] Instance is_byte_dec b : Decision (is_byte b).
Proof. unfold is_byte. apply _. Defined.

(** [for (index = 0; index < n; ++index) out[index] = (value >> (8 * index)) & 0xFF] *)
Fixpoint store_le_at (index : Z) (n : nat) (value : Z) : list Z :=
  match n with
  | O => []
  | S n => Z.land (Z.shiftr value (8 * index)) 255 :: store_le_at (index + 1) n value
  end.
Definition store_le (n : nat) (value : Z) : list Z := store_le_at 0 n value.

(** [value |= in[index] << (8 * index)], over the bytes of [bs] *)
Fixpoint load_le_at (index value : Z) (bs : list Z) : Z :=
  match bs with
  | [] => value
  | b :: bs => load_le_at (index + 1) (Z.lor value (Z.shiftl b (8 * index))) bs
  end.
Definition load_le (bs : list Z) : Z := load_le_at 0 0 bs.

(** The same integer, by recursion on the bytes. *)
Fixpoint le_value (bs : list Z) : Z :=
  match bs with [] => 0 | b :: bs => Z.lor b (Z.shiftl (le_value bs) 8) end.

(** [bitwise]: an equation between bit expressions, bit by bit. *)
Ltac bitwise :=
  apply Z.bits_inj'; let n := fresh "n" in let Hn := fresh "Hn" in intros n Hn;
  repeat first [rewrite Z.lor_spec | rewrite Z.lxor_spec | rewrite Z.land_spec
               | rewrite Z.shiftr_spec by lia | rewrite Z.shiftl_spec by lia].

Lemma is_byte_testbit b n : is_byte b → 8 <= n → Z.testbit b n = false.
Proof.
  intros H Hn. destruct (decide (b = 0)) as [->|]; [apply Z.bits_0|].
  apply Z.bits_above_log2; [unfold is_byte in H; lia|].
  assert (Z.log2 b < 8); [|lia]. apply Z.log2_lt_pow2; unfold is_byte in H; lia.
Qed.

Lemma land_255_testbit x n : 0 <= n → Z.testbit (Z.land x 255) n = (n <? 8) && Z.testbit x n.
Proof.
  intros Hn. change 255 with (Z.ones 8). rewrite Z.land_spec, Z.testbit_ones_nonneg by lia.
  apply andb_comm.
Qed.

Lemma land_255_byte x : is_byte (Z.land x 255).
Proof.
  change 255 with (Z.ones 8). rewrite Z.land_ones by lia. apply Z.mod_pos_bound. lia.
Qed.

Lemma store_le_at_ok index n value : bytes_ok (store_le_at index n value).
Proof.
  revert index. induction n as [|n IH]; intros index; cbn; [constructor|].
  constructor; [apply land_255_byte|apply IH].
Qed.

Lemma store_le_at_length index n value : length (store_le_at index n value) = n.
Proof. revert index. induction n; intros; cbn; auto. Qed.

Lemma load_le_at_value index value bs :
  0 <= index →
  load_le_at index value bs = Z.lor value (Z.shiftl (le_value bs) (8 * index)).
Proof.
  revert index value. induction bs as [|b bs IH]; intros index value Hi; cbn [load_le_at le_value].
  { by rewrite Z.shiftl_0_l, Z.lor_0_r. }
  rewrite IH by lia. bitwise. rewrite <- orb_assoc. do 2 f_equal.
  destruct (Z.ltb_spec n (8 * index)).
  - rewrite (Z.testbit_neg_r _ (n - 8 * (index + 1))), (Z.testbit_neg_r _ (n - 8 * index)) by lia.
    done.
  - rewrite Z.shiftl_spec by lia. f_equal; lia.
Qed.

Lemma load_le_value bs : load_le bs = le_value bs.
Proof. unfold load_le. rewrite load_le_at_value, Z.shiftl_0_r by lia. apply Z.lor_0_l. Qed.

Lemma store_le_at_shift index n value :
  0 <= index → store_le_at index n value = store_le_at 0 n (Z.shiftr value (8 * index)).
Proof.
  revert index value. induction n as [|n IH]; intros index value Hi; cbn [store_le_at]; [done|].
  rewrite Z.shiftr_0_r. f_equal.
  rewrite (IH (index + 1)), (IH (0 + 1)) by lia. f_equal.
  rewrite Z.shiftr_shiftr by lia. f_equal. lia.
Qed.

Lemma le_value_store n value : le_value (store_le n value) = value mod 2 ^ (8 * Z.of_nat n).
Proof.
  unfold store_le. revert value. induction n as [|n IH]; intros value; cbn [store_le_at le_value].
  { by rewrite Z.mod_1_r. }
  rewrite store_le_at_shift, IH by lia. rewrite <- !Z.land_ones by lia.
  bitwise. change 255 with (Z.ones 8).
  rewrite !Z.testbit_ones by lia.
  rewrite Nat2Z.inj_succ. replace (n0 + 8 * 0) with n0 by lia. replace (0 <=? n0) with true by lia.
  destruct (Z.ltb_spec n0 8).
  - rewrite (Z.testbit_neg_r _ (n0 - 8)) by lia.
    is_true (n0 <? 8 * Z.succ (Z.of_nat n)). cbn. by rewrite orb_false_r.
  - rewrite Z.shiftr_spec by lia. replace (n0 - 8 + 8 * (0 + 1)) with n0 by lia.
    rewrite andb_false_r. cbn [orb]. f_equal.
    is_true (0 <=? n0 - 8). cbn [andb].
    destruct (Z.ltb_spec (n0 - 8) (8 * Z.of_nat n)); symmetry; [solve_true|solve_false].
Qed.

(** Storing an integer of [n] bytes and loading it back gives it back. *)
Lemma load_store_le n value :
  0 <= value < 2 ^ (8 * Z.of_nat n) → load_le (store_le n value) = value.
Proof. intros H. rewrite load_le_value, le_value_store. by apply Z.mod_small. Qed.

Lemma le_value_cons_testbit b bs n :
  is_byte b → 0 <= n →
  Z.testbit (le_value (b :: bs)) n = if n <? 8 then Z.testbit b n else Z.testbit (le_value bs) (n - 8).
Proof.
  intros Hb Hn. cbn [le_value]. rewrite Z.lor_spec, Z.shiftl_spec by lia.
  destruct (Z.ltb_spec n 8).
  - by rewrite (Z.testbit_neg_r _ (n - 8)), orb_false_r by lia.
  - by rewrite (is_byte_testbit b n) by done || lia.
Qed.

Lemma le_value_inj bs1 bs2 :
  bytes_ok bs1 → bytes_ok bs2 → length bs1 = length bs2 →
  le_value bs1 = le_value bs2 → bs1 = bs2.
Proof.
  intros H1. revert bs2. induction H1 as [|b bs1 Hb _ IH]; intros [|c bs2]; try done.
  intros H2 Hlen Heq. assert (is_byte c ∧ bytes_ok bs2) as [Hc H2'] by (inversion H2; done).
  assert (∀ n, 0 <= n → Z.testbit (le_value (b :: bs1)) n = Z.testbit (le_value (c :: bs2)) n)
    as Hbits by (intros; by rewrite Heq).
  f_equal.
  - apply Z.bits_inj'. intros n Hn. specialize (Hbits n Hn).
    rewrite !le_value_cons_testbit in Hbits by done.
    destruct (Z.ltb_spec n 8); [done|]. by rewrite !is_byte_testbit by done.
  - apply IH; [done|by simplify_eq/=|]. apply Z.bits_inj'. intros n Hn.
    specialize (Hbits (n + 8) ltac:(lia)). rewrite !le_value_cons_testbit in Hbits by (done || lia).
    replace (n + 8 <? 8) with false in Hbits by lia. by replace (n + 8 - 8) with n in Hbits by lia.
Qed.

Lemma le_value_bound bs : bytes_ok bs → 0 <= le_value bs < 2 ^ (8 * Z.of_nat (length bs)).
Proof.
  intros H. assert (0 <= le_value bs) as Hpos.
  { induction H as [|b bs Hb _ IH]; cbn; [lia|]. apply Z.lor_nonneg. unfold is_byte in Hb.
    rewrite Z.shiftl_nonneg. lia. }
  split; [done|].
  rewrite <- (Z.mod_small (le_value bs) (2 ^ (8 * Z.of_nat (length bs)))) at 1;
    [apply Z.mod_pos_bound; lia|]. split; [done|].
  induction H as [|b bs Hb Hbs IH]; [done|]. cbn [le_value length] in *.
  apply Z.lor_nonneg in Hpos as [_ Hpos]. rewrite Z.shiftl_nonneg in Hpos.
  specialize (IH Hpos). rewrite Z.shiftl_mul_pow2 by lia.
  assert (Z.lor b (le_value bs * 2 ^ 8) <= b + le_value bs * 2 ^ 8).
  { rewrite <- Z.lxor_lor; [|].
    - rewrite <- Z.add_nocarry_lxor; [lia|].
      bitwise. rewrite Z.bits_0. rewrite <- Z.shiftl_mul_pow2, Z.shiftl_spec by lia.
      destruct (Z.ltb_spec n 8); [by rewrite (Z.testbit_neg_r _ (n - 8)), andb_false_r by lia|].
      by rewrite (is_byte_testbit b n).
    - bitwise. rewrite Z.bits_0. rewrite <- Z.shiftl_mul_pow2, Z.shiftl_spec by lia.
      destruct (Z.ltb_spec n 8); [by rewrite (Z.testbit_neg_r _ (n - 8)), andb_false_r by lia|].
      by rewrite (is_byte_testbit b n). }
  replace (8 * Z.of_nat (S (length bs))) with (8 * Z.of_nat (length bs) + 8) by lia.
  rewrite Z.pow_add_r by lia. unfold is_byte in Hb. change (2 ^ 8) with 256 in *. lia.
Qed.

(** A loaded integer is a value of its width. *)
Lemma load_le_bound bs : bytes_ok bs → 0 <= load_le bs < 2 ^ (8 * Z.of_nat (length bs)).
Proof. rewrite load_le_value. apply le_value_bound. Qed.

#[export] Hint Resolve land_255_byte store_le_at_ok : qobs.
