(* ===== verification/Crc32c.v ===== *)
(** * CRC-32C

    [core/Crc32c.hpp] and [core/Crc32c.cpp]: the 256-entry table, the one-shot
    function and the incremental class.  The specification is the polynomial
    division itself, one bit per step ([crc_shift]): the register after [n]
    bytes is [8 n] shifts of the initial register xor-ed with the message read
    as a little-endian integer ([crc_update_shifts]).  From it follow that the
    table is the right one, that feeding a message in pieces gives the value of
    the whole, and that a corruption confined to four consecutive bytes always
    changes the checksum. *)

From S2P Require Import Prelude Bytes Text.
Open Scope Z_scope.

Definition kPolynomial : Z := 2197175160. (* 0x82F63B78 *)

(** One turn of the table's inner loop: the reflected division by one bit. *)
Definition crc_shift (value : Z) : Z :=
  if negb (Z.land value 1 =? 0) then Z.lxor (Z.shiftr value 1) kPolynomial
  else Z.shiftr value 1.

Definition table_entry (index : Z) : Z := Nat.iter 8 crc_shift index.
Definition kTable : list Z := map (λ i, table_entry (Z.of_nat i)) (seq 0 256).

Definition crc_step (state byte : Z) : Z :=
  Z.lxor (nth (Z.to_nat (Z.land (Z.lxor state byte) 255)) kTable 0) (Z.shiftr state 8).

Definition complement32 (x : Z) : Z := Z.lxor x u32_max.

Definition crc_update (state : Z) (bytes : list Z) : Z := fold_left crc_step bytes state.

(** [crc32c(std::span<const std::byte>)] *)
Definition crc32c (bytes : list Z) : Z := complement32 (crc_update u32_max bytes).

(** [class Crc32c]: the running state and the number of bytes. *)
Record Crc32c := mkCrc { crc_state : Z; crc_bytes : Z }.
Definition crc_init : Crc32c := mkCrc u32_max 0.
Definition crc_feed (c : Crc32c) (bytes : list Z) : Crc32c :=
  mkCrc (crc_update (crc_state c) bytes) (wrap_u64 (crc_bytes c + Z.of_nat (length bytes))).
Definition crc_value (c : Crc32c) : Z := complement32 (crc_state c).

Definition text_bytes (s : string) : list Z := map byte_value (String.list_ascii_of_string s).

(** The check value of CRC-32C. *)
Example crc32c_check : crc32c (text_bytes "123456789") = 3808858755. (* 0xE3069283 *)
Proof. vm_compute. reflexivity. Qed.

(** ** The bit step is linear over xor *)

Lemma land_1_odd x : negb (Z.land x 1 =? 0) = Z.testbit x 0.
Proof.
  change 1 with (Z.ones 1). rewrite Z.land_ones by lia. change (2 ^ 1) with 2.
  rewrite Zmod_odd, Z.bit0_odd. by destruct (Z.odd x).
Qed.

Lemma crc_shift_eq x :
  crc_shift x = Z.lxor (Z.shiftr x 1) (if Z.testbit x 0 then kPolynomial else 0).
Proof. unfold crc_shift. rewrite land_1_odd. destruct (Z.testbit x 0); by rewrite ?Z.lxor_0_r. Qed.

Lemma crc_shift_lxor x y : crc_shift (Z.lxor x y) = Z.lxor (crc_shift x) (crc_shift y).
Proof.
  rewrite !crc_shift_eq, Z.shiftr_lxor, Z.lxor_spec.
  destruct (Z.testbit x 0), (Z.testbit y 0); cbn [xorb]; bitwise;
    rewrite ?Z.bits_0; repeat (destruct (Z.testbit _ _)); done.
Qed.

Lemma crc_shifts_lxor n x y :
  Nat.iter n crc_shift (Z.lxor x y) = Z.lxor (Nat.iter n crc_shift x) (Nat.iter n crc_shift y).
Proof. induction n as [|n IH]; [done|]. rewrite !Nat.iter_succ. by rewrite IH, crc_shift_lxor. Qed.

(** Shifting out zero bits is a plain shift. *)
Lemma crc_shifts_shiftl n x : Nat.iter n crc_shift (Z.shiftl x (Z.of_nat n)) = x.
Proof.
  revert x. induction n as [|n IH]; intros x; [apply Z.shiftl_0_r|].
  rewrite Nat.iter_succ_r.
  replace (crc_shift (Z.shiftl x (Z.of_nat (S n)))) with (Z.shiftl x (Z.of_nat n)); [apply IH|].
  rewrite crc_shift_eq, Z.shiftl_spec, Z.testbit_neg_r, Z.lxor_0_r by lia.
  rewrite Z.shiftr_shiftl_l by lia. f_equal. lia.
Qed.

Lemma crc_shifts_add m n x :
  Nat.iter (m + n) crc_shift x = Nat.iter n crc_shift (Nat.iter m crc_shift x).
Proof. rewrite Nat.add_comm. apply Nat.iter_add. Qed.

(** ** The table is the division by eight bits *)

Lemma kTable_nth i : is_byte i → nth (Z.to_nat i) kTable 0 = table_entry i.
Proof.
  intros H. unfold kTable. rewrite (nth_indep _ 0 (table_entry (Z.of_nat 0)))
    by (rewrite length_map, length_seq; unfold is_byte in H; lia).
  rewrite (map_nth (λ i, table_entry (Z.of_nat i))).
  rewrite seq_nth by (unfold is_byte in H; lia). f_equal. unfold is_byte in H. lia.
Qed.

Lemma crc_split_low x : x = Z.lxor (Z.land x 255) (Z.shiftl (Z.shiftr x 8) 8).
Proof.
  bitwise. change 255 with (Z.ones 8). rewrite Z.testbit_ones_nonneg by lia.
  destruct (Z.ltb_spec n 8).
  - rewrite (Z.testbit_neg_r _ (n - 8)) by lia. by rewrite andb_true_r, xorb_false_r.
  - rewrite Z.shiftr_spec by lia. rewrite andb_false_r, xorb_false_l. f_equal. lia.
Qed.

Lemma crc_step_shifts state byte :
  is_byte byte → crc_step state byte = Nat.iter 8 crc_shift (Z.lxor state byte).
Proof.
  intros Hb. unfold crc_step. rewrite kTable_nth by apply land_255_byte. unfold table_entry.
  rewrite (crc_split_low (Z.lxor state byte)) at 2. rewrite crc_shifts_lxor.
  rewrite (crc_shifts_shiftl 8). f_equal. rewrite Z.shiftr_lxor.
  replace (Z.shiftr byte 8) with 0; [by rewrite Z.lxor_0_r|].
  symmetry. apply Z.bits_inj'. intros n Hn. rewrite Z.shiftr_spec, Z.bits_0 by lia.
  apply is_byte_testbit; [done|lia].
Qed.

(** The register after a message: [8 n] bit steps of the initial register
    xor-ed with the message as a little-endian integer. *)
Lemma crc_update_shifts bytes state :
  bytes_ok bytes →
  crc_update state bytes = Nat.iter (8 * length bytes) crc_shift (Z.lxor state (le_value bytes)).
Proof.
  intros H. revert state. induction H as [|b bytes Hb Hbs IH]; intros state.
  { cbn. by rewrite Z.lxor_0_r. }
  cbn [crc_update fold_left]. fold (crc_update (crc_step state b) bytes). rewrite IH.
  cbn [length]. replace (8 * S (length bytes))%nat with (8 + 8 * length bytes)%nat by lia.
  rewrite crc_shifts_add. f_equal. rewrite crc_step_shifts by done.
  cbn [le_value].
  assert (Z.lor b (Z.shiftl (le_value bytes) 8) = Z.lxor b (Z.shiftl (le_value bytes) 8)) as ->.
  { bitwise. destruct (Z.ltb_spec n 8).
    - rewrite (Z.testbit_neg_r _ (n - 8)) by lia. by rewrite orb_false_r, xorb_false_r.
    - by rewrite (is_byte_testbit b n) by done. }
  rewrite <- Z.lxor_assoc, (crc_shifts_lxor 8 (Z.lxor state b)). f_equal.
  by rewrite (crc_shifts_shiftl 8).
Qed.

(** ** The register keeps its width, and no step loses information *)

Definition is_u32 (x : Z) : Prop := 0 <= x < 4294967296.

Lemma is_u32_testbit x n : is_u32 x → 32 <= n → Z.testbit x n = false.
Proof.
  intros H Hn. destruct (decide (x = 0)) as [->|]; [apply Z.bits_0|].
  apply Z.bits_above_log2; [unfold is_u32 in H; lia|].
  assert (Z.log2 x < 32); [|lia]. apply Z.log2_lt_pow2; unfold is_u32 in H; lia.
Qed.

Lemma is_u32_bits x : 0 <= x → (∀ n, 32 <= n → Z.testbit x n = false) → is_u32 x.
Proof.
  intros H0 Hb. unfold is_u32. replace x with (x mod 4294967296);
    [apply Z.mod_pos_bound; lia|].
  change 4294967296 with (2 ^ 32). rewrite <- Z.land_ones by lia.
  bitwise. rewrite Z.testbit_ones_nonneg by lia.
  destruct (Z.ltb_spec n 32); [apply andb_true_r|]. by rewrite Hb.
Qed.

Lemma is_u32_lxor x y : is_u32 x → is_u32 y → is_u32 (Z.lxor x y).
Proof.
  intros Hx Hy. apply is_u32_bits.
  - apply Z.lxor_nonneg. unfold is_u32 in *. lia.
  - intros n Hn. rewrite Z.lxor_spec, !is_u32_testbit by done. done.
Qed.

Lemma is_u32_shiftr x k : 0 <= k → is_u32 x → is_u32 (Z.shiftr x k).
Proof.
  intros Hk Hx. apply is_u32_bits; [apply Z.shiftr_nonneg; unfold is_u32 in Hx; lia|].
  intros n Hn. rewrite Z.shiftr_spec by lia. apply is_u32_testbit; [done|lia].
Qed.

Lemma kPolynomial_u32 : is_u32 kPolynomial.
Proof. unfold is_u32, kPolynomial. lia. Qed.

Lemma crc_shift_u32 x : is_u32 x → is_u32 (crc_shift x).
Proof.
  intros Hx. rewrite crc_shift_eq. apply is_u32_lxor; [by apply is_u32_shiftr|].
  destruct (Z.testbit x 0); [apply kPolynomial_u32|unfold is_u32; lia].
Qed.

Lemma crc_shifts_u32 n x : is_u32 x → is_u32 (Nat.iter n crc_shift x).
Proof. intros H. induction n as [|n IH]; [done|]. by apply crc_shift_u32. Qed.

Lemma lxor_cancel_r x y z : Z.lxor x z = Z.lxor y z → x = y.
Proof.
  intros H. apply (f_equal (λ t, Z.lxor t z)) in H.
  by rewrite !Z.lxor_assoc, Z.lxor_nilpotent, !Z.lxor_0_r in H.
Qed.

Lemma lxor_cancel_l x y z : Z.lxor z x = Z.lxor z y → x = y.
Proof. rewrite !(Z.lxor_comm z). apply lxor_cancel_r. Qed.

(** The polynomial's top bit tells, after a step, which bit was shifted out. *)
Lemma crc_shift_inj x y : is_u32 x → is_u32 y → crc_shift x = crc_shift y → x = y.
Proof.
  intros Hx Hy H.
  assert (∀ z, is_u32 z → Z.testbit (crc_shift z) 31 = Z.testbit z 0) as Htop.
  { intros z Hz. rewrite crc_shift_eq, Z.lxor_spec, Z.shiftr_spec by lia.
    rewrite (is_u32_testbit z (31 + 1)) by (done || lia).
    by destruct (Z.testbit z 0). }
  assert (Z.testbit x 0 = Z.testbit y 0) as H0 by (by rewrite <- !Htop, H by done).
  rewrite !crc_shift_eq, H0 in H. apply lxor_cancel_r in H.
  apply Z.bits_inj'. intros n Hn. destruct (Z.eqb_spec n 0) as [->|]; [done|].
  replace n with (n - 1 + 1) by lia. rewrite <- !Z.shiftr_spec by lia. by rewrite H.
Qed.

Lemma crc_shifts_inj n x y :
  is_u32 x → is_u32 y → Nat.iter n crc_shift x = Nat.iter n crc_shift y → x = y.
Proof.
  intros Hx Hy. induction n as [|n IH]; [done|]. rewrite !Nat.iter_succ. intros H.
  apply IH. apply crc_shift_inj; [by apply crc_shifts_u32..|done].
Qed.

Lemma crc_update_app state a b :
  crc_update state (a ++ b) = crc_update (crc_update state a) b.
Proof. apply fold_left_app. Qed.

Lemma crc_step_u32 state byte : is_u32 state → is_byte byte → is_u32 (crc_step state byte).
Proof.
  intros Hs Hb. rewrite crc_step_shifts by done. apply crc_shifts_u32, is_u32_lxor; [done|].
  unfold is_u32, is_byte in *. lia.
Qed.

Lemma crc_update_u32 bytes state : is_u32 state → bytes_ok bytes → is_u32 (crc_update state bytes).
Proof.
  intros Hs H. revert state Hs. induction H as [|b bytes Hb _ IH]; intros state Hs; [done|].
  apply IH. by apply crc_step_u32.
Qed.

Lemma crc_update_inj_state bytes s1 s2 :
  bytes_ok bytes → is_u32 s1 → is_u32 s2 →
  crc_update s1 bytes = crc_update s2 bytes → s1 = s2.
Proof.
  intros H. revert s1 s2. induction H as [|b bytes Hb _ IH]; intros s1 s2 H1 H2 Heq; [done|].
  apply (lxor_cancel_r _ _ b). apply (crc_shifts_inj 8);
    [apply is_u32_lxor; [done|unfold is_u32, is_byte in *; lia]..|].
  rewrite <- !crc_step_shifts by done. apply IH; [by apply crc_step_u32..|done].
Qed.

Lemma complement32_inj x y : complement32 x = complement32 y → x = y.
Proof. apply lxor_cancel_r. Qed.

Lemma u32_max_u32 : is_u32 u32_max.
Proof. unfold is_u32, u32_max. lia. Qed.

Lemma complement32_u32 x : is_u32 x → is_u32 (complement32 x).
Proof. intros H. apply is_u32_lxor; [done|apply u32_max_u32]. Qed.

#[export] Hint Resolve u32_max_u32 crc_update_u32 complement32_u32 : qobs.

(** C18: the table-driven checksum is the CRC-32C polynomial division carried
    out one bit at a time on the message read as a little-endian integer. *)
Theorem crc32c_is_division (bytes : list Z) :
  bytes_ok bytes →
  crc32c bytes
    = complement32 (Nat.iter (8 * length bytes) crc_shift (Z.lxor u32_max (le_value bytes)))
  ∧ is_u32 (crc32c bytes).
Proof.
  intros H. unfold crc32c. split; [by rewrite crc_update_shifts|]. eauto with qobs.
Qed.

Lemma crc32c_is_division_witness :
  bytes_ok [49; 50; 51] ∧ is_u32 (crc32c [49; 50; 51]).
Proof.
  assert (bytes_ok [49; 50; 51]) as H by (apply (bool_decide_unpack _); reflexivity).
  split; [exact H|]. apply (crc32c_is_division [49; 50; 51]). exact H.
Defined.

Lemma crc_feed_two a b : crc_value (crc_feed (crc_feed crc_init a) b) = crc32c (a ++ b).
Proof. unfold crc_value, crc32c, crc_feed. cbn [crc_state]. by rewrite crc_update_app. Qed.

(** A message fed to the incremental class in any number of pieces has the
    checksum of the whole message. *)
Theorem crc_feed_pieces (pieces : list (list Z)) :
  crc_value (fold_left crc_feed pieces crc_init) = crc32c (concat pieces).
Proof.
  unfold crc_value, crc32c. f_equal.
  change u32_max with (crc_state crc_init). generalize crc_init as c.
  induction pieces as [|p pieces IH]; intros c; [done|].
  cbn [fold_left concat]. rewrite IH, crc_update_app. done.
Qed.

(** A register that differs in a burst of at most four bytes stays different. *)
Lemma crc_burst_changes (before burst burst' after : list Z) :
  bytes_ok (before ++ burst ++ after) → bytes_ok burst' →
  length burst' = length burst → (length burst <= 4)%nat → burst ≠ burst' →
  crc32c (before ++ burst ++ after) ≠ crc32c (before ++ burst' ++ after).
Proof.
  intros Hok Hb' Hlen Hshort Hne Heq. apply Forall_app in Hok as [Hbefore Hok].
  apply Forall_app in Hok as [Hb Hafter].
  apply complement32_inj in Heq. rewrite !crc_update_app in Heq.
  assert (is_u32 (crc_update u32_max before)) as Hs by eauto with qobs.
  apply crc_update_inj_state in Heq; [|done|eauto with qobs..].
  rewrite (crc_update_shifts burst), (crc_update_shifts burst'), Hlen in Heq by done.
  assert (∀ bs, bytes_ok bs → length bs = length burst → is_u32 (le_value bs)) as Hu.
  { intros bs Hbs Hl. pose proof (le_value_bound bs Hbs) as Hbd. unfold is_u32.
    assert (2 ^ (8 * Z.of_nat (length bs)) <= 2 ^ 32)
      by (apply Z.pow_le_mono_r; lia). lia. }
  apply crc_shifts_inj, lxor_cancel_l in Heq; [|apply is_u32_lxor; auto..].
  apply Hne. by apply le_value_inj.
Qed.

(** Corrupting up to four consecutive bytes of a message, in any way and
    anywhere in it, always changes its checksum. *)
Theorem crc_detects_short_burst (before burst burst' after : list Z) :
  bytes_ok (before ++ burst ++ after) → bytes_ok burst' →
  length burst' = length burst → (length burst <= 4)%nat → burst ≠ burst' →
  crc32c (before ++ burst ++ after) ≠ crc32c (before ++ burst' ++ after).
Proof. apply crc_burst_changes. Qed.

Lemma crc_detects_short_burst_witness :
  crc32c ([1; 2] ++ [3; 4; 5; 6] ++ [7]) ≠ crc32c ([1; 2] ++ [6; 5; 4; 3] ++ [7]).
Proof.
  apply (crc_detects_short_burst [1; 2] [3; 4; 5; 6] [6; 5; 4; 3] [7]).
  - apply (bool_decide_unpack _). reflexivity.
  - apply (bool_decide_unpack _). reflexivity.
  - reflexivity.
  - apply Nat.leb_le. reflexivity.
  - discriminate.
Defined.
