(* ===== verification/LockAudit.v ===== *)
(** * The lock audit

    [core/LockAudit.hpp] and [core/LockAudit.cpp]: the stack of ranks that each thread keeps,
    the checks on acquisition, release and callback, and the global counters.

    The stack has room for 64 ranks.  [enter] reads as many of its places as the depth says,
    so it may read past the end, which has no meaning: the operation is then [None]. *)

From stdpp Require Import list.
From S2P Require Import Prelude Result Checked Text.
Open Scope Z_scope.
Open Scope word_scope.

#[local] Set Warnings "-register-all".

Definition kRankNone : Z := 0.
Definition kRankLeaf : Z := 1.
Definition kRankSources : Z := 10.
Definition kRankStore : Z := 20.
Definition kRankPersistence : Z := 30.
Definition kRankTransport : Z := 40.
Definition kRankWorker : Z := 50.

Definition lock_rank_name (rank : Z) : string :=
  if rank =? kRankNone then "none" else if rank =? kRankLeaf then "leaf"
  else if rank =? kRankSources then "sources" else if rank =? kRankStore then "store"
  else if rank =? kRankPersistence then "persistence"
  else if rank =? kRankTransport then "transport" else if rank =? kRankWorker then "worker"
  else "unranked".

Definition kMaxTrackedDepth : nat := 64.

Record ThreadState := mkThread { th_stack : list Z; th_depth : nat }.
Definition new_thread : ThreadState := mkThread (replicate kMaxTrackedDepth 0) 0.

Record AuditCounters := mkAudit {
  au_descending : Z;
  au_same_rank : Z;
  au_callback : Z;
  au_unbalanced : Z
}.
Definition audit_reset : AuditCounters := mkAudit 0 0 0 0.

Definition is_leaf (rank : Z) : bool := rank =? kRankLeaf.

Definition record_descending (c : AuditCounters) : AuditCounters :=
  mkAudit (au_descending c +u 1) (au_same_rank c) (au_callback c) (au_unbalanced c).
Definition record_same_rank (c : AuditCounters) : AuditCounters :=
  mkAudit (au_descending c) (au_same_rank c +u 1) (au_callback c) (au_unbalanced c).
Definition record_callback (c : AuditCounters) : AuditCounters :=
  mkAudit (au_descending c) (au_same_rank c) (au_callback c +u 1) (au_unbalanced c).
Definition record_unbalanced (c : AuditCounters) : AuditCounters :=
  mkAudit (au_descending c) (au_same_rank c) (au_callback c) (au_unbalanced c +u 1).

(** The places below the depth, read by a loop that does not look at the size of the array,
    and by the loops that do. *)
Definition held_ranks (t : ThreadState) : option (list Z) :=
  if (kMaxTrackedDepth <? th_depth t)%nat then None else Some (take (th_depth t) (th_stack t)).
Definition tracked_ranks (t : ThreadState) : list Z := take (th_depth t) (th_stack t).

(** Whether the rank is held, and the highest rank held, leaves left out. *)
Definition scan_step (rank : Z) (found : bool * Z) (held : Z) : bool * Z :=
  if is_leaf held then found
  else ((held =? rank) || found.1, if found.2 <? held then held else found.2).
Definition scan (rank : Z) (held : list Z) : bool * Z := fold_left (scan_step rank) held (false, kRankNone).

Definition check_order (rank : Z) (held : list Z) (c : AuditCounters) : AuditCounters :=
  let '(same_rank_held, highest_non_leaf) := scan rank held in
  let c := if same_rank_held then record_same_rank c else c in
  if negb (highest_non_leaf =? kRankNone) && (rank <? highest_non_leaf) then record_descending c else c.

Definition push_rank (rank : Z) (t : ThreadState) : ThreadState :=
  mkThread
    (if (th_depth t <? kMaxTrackedDepth)%nat then <[th_depth t := rank]> (th_stack t) else th_stack t)
    (S (th_depth t)).

Abbreviation Audit := (ThreadState * AuditCounters)%type.

Section audit.
Context (enabled : bool).

Definition enter (rank : Z) (a : Audit) : option Audit :=
  let '(t, c) := a in
  if negb enabled || (rank =? kRankNone) then Some (t, c)
  else if is_leaf rank then Some (push_rank rank t, c)
  else held ← held_ranks t; Some (push_rank rank t, check_order rank held c).

Definition leave (rank : Z) (a : Audit) : Audit :=
  let '(t, c) := a in
  if negb enabled || (rank =? kRankNone) then (t, c)
  else
    match th_depth t with
    | O => (t, record_unbalanced c)
    | S top_index =>
        let top := if (top_index <? kMaxTrackedDepth)%nat then nth top_index (th_stack t) 0
                   else kRankNone in
        (mkThread (th_stack t) top_index, if top =? rank then c else record_unbalanced c)
    end.

Definition holds_any (t : ThreadState) : bool :=
  enabled && existsb (λ held, negb (is_leaf held)) (tracked_ranks t).

Definition note_callback (a : Audit) : Audit :=
  let '(t, c) := a in (t, if holds_any t then record_callback c else c).

Definition highest_rank (t : ThreadState) : Z :=
  if enabled then
    fold_left (λ highest held, if highest <? held then held else highest) (tracked_ranks t) kRankNone
  else kRankNone.

Definition audit_depth (t : ThreadState) : nat := if enabled then th_depth t else 0.

Definition total_violations (c : AuditCounters) : Z :=
  au_descending c +u au_same_rank c +u au_callback c +u au_unbalanced c.

Definition audit_snapshot (c : AuditCounters) : string :=
  "lock_audit{enabled=" +:+ (if enabled then "true" else "false") +:+
  ", descending=" +:+ u64_to_string (au_descending c) +:+
  ", same_rank=" +:+ u64_to_string (au_same_rank c) +:+
  ", callback_under_lock=" +:+ u64_to_string (au_callback c) +:+
  ", unbalanced=" +:+ u64_to_string (au_unbalanced c) +:+ "}".

(** ** What a thread does

    A [LockRankGuard] calls [enter] when it is made and [leave] at the end of its block, so
    what a thread tells the audit is a block structure. *)
Inductive Locking : Set :=
| Finished
| Guarded (rank : Z) (body rest : Locking)
| Calling (rest : Locking).

Inductive AuditCall : Set := Enter (rank : Z) | Leave (rank : Z) | NoteCallback.

Fixpoint audit_calls (p : Locking) : list AuditCall :=
  match p with
  | Finished => []
  | Guarded rank body rest => Enter rank :: audit_calls body ++ Leave rank :: audit_calls rest
  | Calling rest => NoteCallback :: audit_calls rest
  end.

Definition audit_call (call : AuditCall) (a : Audit) : option Audit :=
  match call with
  | Enter rank => enter rank a
  | Leave rank => Some (leave rank a)
  | NoteCallback => Some (note_callback a)
  end.
Fixpoint run_calls (calls : list AuditCall) (a : Audit) : option Audit :=
  match calls with
  | [] => Some a
  | call :: calls => a ← audit_call call a; run_calls calls a
  end.

(** The threads, and the counters they share; a trace says which thread makes each call. *)
Definition run_call (call : nat * AuditCall) (st : list ThreadState * AuditCounters) :
    option (list ThreadState * AuditCounters) :=
  t ← st.1 !! call.1;
  '(t, c) ← audit_call call.2 (t, st.2);
  Some (<[call.1 := t]> st.1, c).
Fixpoint run_trace (trace : list (nat * AuditCall)) (st : list ThreadState * AuditCounters) :
    option (list ThreadState * AuditCounters) :=
  match trace with
  | [] => Some st
  | call :: trace => st ← run_call call st; run_trace trace st
  end.
End audit.

(** The audit does nothing where it is not compiled in. *)
Definition calls_of (i : nat) (trace : list (nat * AuditCall)) : list AuditCall :=
  map snd (List.filter (λ call, bool_decide (call.1 = i)) trace).
