(* ===== verification/LockAuditTheorems.v ===== *)
(** * What a clean audit shows

    The counters count exactly the acquisitions and callbacks that break the rules, as long
    as no thread holds more than 64 locks.  A run whose counters stay at zero therefore shows
    that the same programs of locks cannot deadlock on ranked locks in any other schedule. *)

From stdpp Require Import list.
From S2P Require Import Prelude Result Checked Text LockAudit.
Open Scope Z_scope.
Open Scope word_scope.

#[local] Set Warnings "-register-all".

(** ** The rules *)

Definition same_rank_held (rank : Z) (held : list Z) : bool :=
  existsb (λ h, negb (is_leaf h) && (h =? rank)) held.
Definition higher_rank_held (rank : Z) (held : list Z) : bool :=
  existsb (λ h, negb (is_leaf h) && (rank <? h)) held.
Definition non_leaf_held (held : list Z) : bool := existsb (λ h, negb (is_leaf h)) held.

(** What acquiring a rank while holding others adds to the counters, and a whole program. *)
Definition acquisition (rank : Z) (held : list Z) (c : AuditCounters) : AuditCounters :=
  if is_leaf rank then c
  else
    let c := if same_rank_held rank held then record_same_rank c else c in
    if higher_rank_held rank held then record_descending c else c.
Fixpoint violations (held : list Z) (p : Locking) (c : AuditCounters) : AuditCounters :=
  match p with
  | Finished => c
  | Guarded rank body rest =>
      violations held rest (violations (held ++ [rank]) body (acquisition rank held c))
  | Calling rest => violations held rest (if non_leaf_held held then record_callback c else c)
  end.

Fixpoint ranked (p : Locking) : Prop :=
  match p with
  | Finished => True
  | Guarded rank body rest => 0 < rank ∧ ranked body ∧ ranked rest
  | Calling rest => ranked rest
  end.
Fixpoint nesting (p : Locking) : nat :=
  match p with
  | Finished => 0
  | Guarded _ body rest => Nat.max (S (nesting body)) (nesting rest)
  | Calling rest => nesting rest
  end.

(** The discipline of the header's four rules. *)
Fixpoint disciplined (held : list Z) (p : Locking) : Prop :=
  match p with
  | Finished => True
  | Guarded rank body rest =>
      (is_leaf rank = false → ∀ h, h ∈ held → is_leaf h = false → h < rank) ∧
      disciplined (held ++ [rank]) body ∧ disciplined held rest
  | Calling rest => non_leaf_held held = false ∧ disciplined held rest
  end.

(** The thread's stack holds these ranks, the innermost last. *)
Definition holds (t : ThreadState) (held : list Z) : Prop :=
  th_depth t = length held ∧ take (length held) (th_stack t) = held ∧
  length (th_stack t) = kMaxTrackedDepth.

Lemma new_thread_holds : holds new_thread [].
Proof. done. Qed.

Lemma holds_take t held : holds t held → take (th_depth t) (th_stack t) = held.
Proof. by intros (-> & H & _). Qed.

Lemma holds_push t held rank :
  holds t held → (length held < kMaxTrackedDepth)%nat → holds (push_rank rank t) (held ++ [rank]).
Proof.
  intros (Hd & Hs & Hl) Hlt. unfold holds, push_rank. cbn [th_depth th_stack]. rewrite Hd.
  rewrite (proj2 (Nat.ltb_lt _ _) Hlt), length_app, length_insert. split_and!; [cbn; lia| |done].
  cbn [length]. rewrite Nat.add_1_r. rewrite (take_S_r _ _ rank) by (apply list_lookup_insert_eq; lia).
  by rewrite take_insert_ge, Hs by lia.
Qed.

Lemma holds_pop t held rank :
  holds t (held ++ [rank]) → holds (mkThread (th_stack t) (length held)) held.
Proof.
  intros (_ & Hs & Hl). split_and!; [done| |done]. cbn [th_stack]. rewrite length_app in Hs.
  cbn [length] in Hs. assert (take (length held) (take (length held + 1) (th_stack t)) = held) as H
    by (by rewrite Hs, take_app_length). by rewrite take_take, Nat.min_l in H by lia.
Qed.

Lemma holds_top t held rank : holds t (held ++ [rank]) → nth (length held) (th_stack t) 0 = rank.
Proof.
  intros (_ & Hs & Hl). apply nth_lookup_Some. rewrite <- (lookup_take_lt _ (length (held ++ [rank]))).
  - rewrite Hs. by apply list_lookup_middle.
  - rewrite length_app. cbn. lia.
Qed.

(** ** The scan *)

Lemma scan_spec rank held found :
  let result := fold_left (scan_step rank) held found in
  result.1 = found.1 || same_rank_held rank held ∧
  (0 <= found.2 → found.2 <= result.2 ∧
   (rank <? result.2) = (rank <? found.2) || higher_rank_held rank held) ∧ (Forall (λ h, 0 < h) held → 0 <= found.2 → 0 <= result.2).
Proof.
  revert found. induction held as [|h held IH]; intros found; cbn [fold_left].
  { cbn. rewrite !orb_false_r. split_and!; [done|intros; split; [lia|done]|done]. }
  specialize (IH (scan_step rank found h)). cbv zeta in IH. destruct IH as (IH1 & IH2 & IH3).
  unfold scan_step, same_rank_held, higher_rank_held in *. cbn [existsb].
  destruct (is_leaf h); cbn [negb andb fst snd orb] in *.
  { split_and!; [done|done|]. intros [_ ?]%Forall_cons ?. by apply IH3. }
  split_and!.
  - rewrite IH1. by destruct (h =? rank), found.1.
  - intros H0. destruct (Z.ltb_spec found.2 h).
    + destruct IH2 as [IHa IHb]; [lia|]. split; [lia|]. rewrite IHb.
      destruct (Z.ltb_spec rank h), (Z.ltb_spec rank found.2); cbn; done || lia.
    + destruct IH2 as [IHa IHb]; [lia|]. split; [lia|]. rewrite IHb.
      destruct (Z.ltb_spec rank h), (Z.ltb_spec rank found.2); cbn; done || lia.
  - intros [? ?]%Forall_cons ?. apply IH3; [done|]. destruct (_ <? _); lia.
Qed.

Lemma check_order_spec rank held c :
  0 < rank → is_leaf rank = false → check_order rank held c = acquisition rank held c.
Proof.
  intros H0 Hleaf. unfold check_order, acquisition. rewrite Hleaf.
  destruct (scan_spec rank held (false, kRankNone)) as (H1 & H2 & _). cbv zeta in *. fold (scan rank held) in *.
  destruct H2 as [_ H2]; [done|]. destruct (scan rank held) as [same highest]. cbn [fst snd] in *.
  rewrite H1. cbn [orb]. unfold kRankNone in *. replace (rank <? 0) with false in H2 by (symmetry; lia).
  cbn [orb] in H2. rewrite H2. destruct (Z.eqb_spec highest 0) as [->|]; cbn [negb andb]; [|done].
  rewrite <- H2. by is_false (rank <? 0).
Qed.

(** ** A thread's program *)

Lemma enter_spec t held rank c :
  holds t held → (length held < kMaxTrackedDepth)%nat → 0 < rank →
  ∃ t', enter true rank (t, c) = Some (t', acquisition rank held c) ∧ holds t' (held ++ [rank]).
Proof.
  intros Ht Hlt H0. exists (push_rank rank t). split; [|by apply holds_push].
  unfold enter, acquisition. cbn [negb orb]. unfold kRankNone. is_false (rank =? 0).
  destruct (is_leaf rank) eqn:Hleaf; [done|].
  unfold held_ranks. rewrite (holds_take _ _ Ht). destruct Ht as (-> & _).
  rewrite (proj2 (Nat.ltb_ge _ _)) by lia. cbn.
  rewrite check_order_spec by done. unfold acquisition. by rewrite Hleaf.
Qed.

Lemma leave_spec t held rank c :
  holds t (held ++ [rank]) → (length held < kMaxTrackedDepth)%nat → 0 < rank →
  ∃ t', leave true rank (t, c) = (t', c) ∧ holds t' held.
Proof.
  intros Ht Hlt H0. exists (mkThread (th_stack t) (length held)). split; [|by apply (holds_pop _ _ rank)].
  unfold leave. cbn [negb orb]. unfold kRankNone at 1. is_false (rank =? 0).
  pose proof (holds_top _ _ _ Ht) as Htop. destruct Ht as (Hd & _). rewrite length_app in Hd.
  cbn [length] in Hd. rewrite Nat.add_1_r in Hd. rewrite Hd, (proj2 (Nat.ltb_lt _ _) Hlt), Htop, Z.eqb_refl.
  done.
Qed.

Lemma callback_spec t held c :
  holds t held → note_callback true (t, c) = (t, if non_leaf_held held then record_callback c else c).
Proof.
  intros Ht. unfold note_callback, holds_any, tracked_ranks. by rewrite (holds_take _ _ Ht).
Qed.

(** The audit counts exactly the violations of the program, and the stack is as before. *)
Lemma audit_counts p held t c calls :
  ranked p → (length held + nesting p <= kMaxTrackedDepth)%nat → holds t held →
  ∃ t', holds t' held ∧
    run_calls true (audit_calls p ++ calls) (t, c) = run_calls true calls (t', violations held p c).
Proof.
  revert held t c calls. induction p as [|rank body IHb rest IHr|rest IHr]; intros held t c calls Hp Hn Ht.
  - by exists t.
  - destruct Hp as (H0 & Hb & Hr). cbn [nesting] in Hn. cbn [audit_calls violations app run_calls].
    destruct (enter_spec t held rank c Ht) as (t1 & E1 & Ht1); [lia|done|]. cbn [audit_call].
    rewrite E1. cbn. rewrite <- app_assoc. cbn [app].
    destruct (IHb (held ++ [rank]) t1 (acquisition rank held c) (Leave rank :: audit_calls rest ++ calls))
      as (t2 & Ht2 & ->); [done|rewrite length_app; cbn; lia|done|].
    cbn [run_calls audit_call].
    destruct (leave_spec t2 held rank (violations (held ++ [rank]) body (acquisition rank held c)) Ht2)
      as (t3 & -> & Ht3); [lia|done|]. cbn.
    apply IHr; [done|lia|done].
  - cbn [audit_calls violations app run_calls audit_call]. rewrite (callback_spec _ _ _ Ht). cbn.
    by apply IHr.
Qed.

(** ** Counting without wrapping around *)

Definition sum_of (c : AuditCounters) : Z :=
  au_descending c + au_same_rank c + au_callback c + au_unbalanced c.
Definition counts (c : AuditCounters) : Prop :=
  0 <= au_descending c ∧ 0 <= au_same_rank c ∧ 0 <= au_callback c ∧ 0 <= au_unbalanced c.

(** From [c] to [c'] exactly [n] violations are counted. *)
Definition counted (n : Z) (c c' : AuditCounters) : Prop :=
  counts c → sum_of c + n <= u64_max → counts c' ∧ sum_of c' = sum_of c + n.

Lemma counted_none c : counted 0 c c.
Proof. intros H _. split; [done|lia]. Qed.
Lemma counted_then n m a b c : 0 <= n → 0 <= m → counted n a b → counted m b c → counted (n + m) a c.
Proof. intros Hn Hm H1 H2 Hc Hs. destruct (H1 Hc) as [Hb Eb]; [lia|]. destruct (H2 Hb); [lia|]. split; [done|lia]. Qed.

Ltac counted_one := intros (? & ? & ? & ?) ?; unfold counts, sum_of in *; cbn in *;
  rewrite wrap_u64_id by word_lia; split_and!; lia.
Lemma counted_descending c : counted 1 c (record_descending c).
Proof. counted_one. Qed.
Lemma counted_same_rank c : counted 1 c (record_same_rank c).
Proof. counted_one. Qed.
Lemma counted_callback c : counted 1 c (record_callback c).
Proof. counted_one. Qed.
Lemma counted_unbalanced c : counted 1 c (record_unbalanced c).
Proof. counted_one. Qed.

Lemma counted_if (b : bool) c f : counted 1 c (f c) → counted (Z.b2z b) c (if b then f c else c).
Proof. intros H. destruct b; [done|apply counted_none]. Qed.

Definition acquisition_count (rank : Z) (held : list Z) : Z :=
  if is_leaf rank then 0
  else Z.b2z (same_rank_held rank held) + Z.b2z (higher_rank_held rank held).
Lemma acquisition_count_range rank held : 0 <= acquisition_count rank held <= 2.
Proof.
  unfold acquisition_count. destruct (is_leaf rank), (same_rank_held rank held), (higher_rank_held rank held); cbn; lia.
Qed.

Lemma counted_acquisition rank held c :
  counted (acquisition_count rank held) c (acquisition rank held c).
Proof.
  unfold acquisition_count, acquisition. destruct (is_leaf rank); [apply counted_none|].
  eapply counted_then; [by destruct (same_rank_held rank held)|by destruct (higher_rank_held rank held)| |].
  - apply counted_if, counted_same_rank.
  - apply counted_if, counted_descending.
Qed.

Fixpoint faults (held : list Z) (p : Locking) : Z :=
  match p with
  | Finished => 0
  | Guarded rank body rest =>
      acquisition_count rank held + (faults (held ++ [rank]) body + faults held rest)
  | Calling rest => Z.b2z (non_leaf_held held) + faults held rest
  end.
Lemma faults_nonneg held p : 0 <= faults held p.
Proof.
  revert held. induction p as [|rank body IHb rest IHr|rest IHr]; intros held; cbn [faults]; [lia| |].
  - pose proof (acquisition_count_range rank held). specialize (IHb (held ++ [rank])). specialize (IHr held). lia.
  - specialize (IHr held). destruct (non_leaf_held held); cbn; lia.
Qed.

Lemma counted_violations held p c : counted (faults held p) c (violations held p c).
Proof.
  revert held c. induction p as [|rank body IHb rest IHr|rest IHr]; intros held c; cbn [faults violations].
  - apply counted_none.
  - pose proof (acquisition_count_range rank held). pose proof (faults_nonneg (held ++ [rank]) body).
    pose proof (faults_nonneg held rest).
    eapply counted_then; [lia..|apply counted_acquisition|]. by eapply counted_then.
  - pose proof (faults_nonneg held rest).
    eapply counted_then; [by destruct (non_leaf_held held)|done| |apply IHr].
    apply counted_if, counted_callback.
Qed.

Lemma existsb_none {A} (f : A → bool) xs : existsb f xs = false ↔ ∀ x, x ∈ xs → f x = false.
Proof.
  split.
  - intros H x Hx. destruct (f x) eqn:E; [|done]. exfalso.
    assert (existsb f xs = true) as H'; [|congruence]. apply existsb_exists. exists x.
    by rewrite <- list_elem_of_In.
  - intros H. destruct (existsb f xs) eqn:E; [|done]. apply existsb_exists in E as (x & Hx & Hf).
    apply list_elem_of_In in Hx. by rewrite H in Hf.
Qed.

Lemma no_faults_disciplined held p : faults held p = 0 → disciplined held p.
Proof.
  revert held. induction p as [|rank body IHb rest IHr|rest IHr]; intros held; cbn [faults disciplined]; [done| |].
  - pose proof (acquisition_count_range rank held). pose proof (faults_nonneg (held ++ [rank]) body).
    pose proof (faults_nonneg held rest). intros H3.
    split_and!; [|apply IHb; lia|apply IHr; lia]. intros Hleaf h Hh Hhl.
    assert (acquisition_count rank held = 0) as Hc by lia. unfold acquisition_count in Hc.
    rewrite Hleaf in Hc. assert (same_rank_held rank held = false ∧ higher_rank_held rank held = false)
      as [Hsame Hhigher] by (by destruct (same_rank_held rank held), (higher_rank_held rank held)).
    pose proof (proj1 (existsb_none _ _) Hsame h Hh) as E1.
    pose proof (proj1 (existsb_none _ _) Hhigher h Hh) as E2. cbv beta in E1, E2. rewrite Hhl in E1, E2.
    cbn [negb andb] in E1, E2. lia.
  - pose proof (faults_nonneg held rest). intros H1.
    destruct (non_leaf_held held); cbn in *; [lia|]. split; [done|by apply IHr].
Qed.

(** ** Threads *)

(** A call changes its thread alike whatever the counters, and adds alike to them. *)
Lemma call_frame call t c t' c' c0 :
  audit_call true call (t, c) = Some (t', c') →
  ∃ c0' n, audit_call true call (t, c0) = Some (t', c0') ∧ 0 <= n <= 2 ∧
    counted n c c' ∧ counted n c0 c0'.
Proof.
  destruct call as [rank|rank|]; cbn [audit_call].
  - unfold enter. cbn [negb orb]. destruct (rank =? kRankNone).
    { intros [= <- <-]. exists c0, 0. split_and!; [done|lia..|apply counted_none|apply counted_none]. }
    destruct (is_leaf rank).
    { intros [= <- <-]. exists c0, 0. split_and!; [done|lia..|apply counted_none|apply counted_none]. }
    destruct (held_ranks t) as [held|]; [|done]. cbn. intros [= <- <-].
    unfold check_order. destruct (scan rank held) as [same highest].
    eexists _, (Z.b2z same + Z.b2z (negb (highest =? kRankNone) && (rank <? highest))).
    split; [done|]. split; [destruct same, (_ && _); cbn; lia|].
    split; (eapply counted_then; [by destruct same|by destruct (_ && _)| |]);
      solve [apply counted_if, counted_same_rank|apply counted_if, counted_descending].
  - unfold leave. cbn [negb orb]. destruct (rank =? kRankNone).
    { intros [= <- <-]. exists c0, 0. split_and!; [done|lia..|apply counted_none|apply counted_none]. }
    destruct (th_depth t) as [|top].
    { intros [= <- <-]. exists (record_unbalanced c0), 1.
      split_and!; [done|lia..|apply counted_unbalanced|apply counted_unbalanced]. }
    intros [= <- <-]. destruct (_ =? rank).
    + exists c0, 0. split_and!; [done|lia..|apply counted_none|apply counted_none].
    + exists (record_unbalanced c0), 1.
      split_and!; [done|lia..|apply counted_unbalanced|apply counted_unbalanced].
  - unfold note_callback. intros [= <- <-]. eexists _, (Z.b2z (holds_any true t)).
    split; [done|]. split; [by destruct (holds_any true t)|].
    split; apply counted_if, counted_callback.
Qed.

(** Each thread's own calls, run alone, end as in the trace, with no more violations. *)
Lemma trace_splits trace ts c ts' c' i t c0 :
  run_trace true trace (ts, c) = Some (ts', c') → ts !! i = Some t → counts c → counts c0 →
  sum_of c + 2 * Z.of_nat (length trace) <= u64_max →
  sum_of c0 + 2 * Z.of_nat (length trace) <= u64_max →
  ∃ t' c0', run_calls true (calls_of i trace) (t, c0) = Some (t', c0') ∧ counts c' ∧ counts c0' ∧
    0 <= sum_of c0' - sum_of c0 <= sum_of c' - sum_of c ∧
    sum_of c' - sum_of c <= 2 * Z.of_nat (length trace).
Proof.
  revert ts c t c0. induction trace as [|[j call] trace IH]; intros ts c t c0; cbn [run_trace].
  { intros [= <- <-] Ht Hc Hc0 _ _. exists t, c0. split_and!; [done..|lia|lia|lia]. }
  cbn [length]. unfold run_call. cbn [fst snd]. intros H Ht Hc Hc0 Hs Hs0.
  destruct (ts !! j) as [tj|] eqn:Hj; [|done]. cbn in H.
  destruct (audit_call true call (tj, c)) as [[tj' c1]|] eqn:Hcall; [|done]. cbn in H.
  destruct (call_frame _ _ _ _ _ c0 Hcall) as (c01 & n & Hcall0 & Hn & Hk & Hk0).
  destruct Hk as [Hc1 Es]; [done|lia|]. destruct Hk0 as [Hc01 Es0]; [done|lia|].
  unfold calls_of. cbn [List.filter fst]. case_bool_decide as Hij; cbn [map snd].
  - subst j. replace tj with t in * by congruence. cbn [run_calls]. rewrite Hcall0. cbn.
    destruct (IH (<[i:=tj']> ts) c1 tj' c01 H) as (t' & c0' & Hrun & ? & ? & ? & ?); try done; try lia.
    { apply list_lookup_insert_eq. by eapply lookup_lt_Some. }
    exists t', c0'. fold (calls_of i trace). split_and!; [done..|lia|lia|lia].
  - destruct (IH (<[j:=tj']> ts) c1 t c0 H) as (t' & c0' & Hrun & ? & ? & ? & ?); try done; try lia.
    { by rewrite list_lookup_insert_ne. }
    exists t', c0'. fold (calls_of i trace). split_and!; [done..|lia|lia|lia].
Qed.

Lemma faults_bound held p : faults held p <= 2 * Z.of_nat (length (audit_calls p)).
Proof.
  revert held. induction p as [|rank body IHb rest IHr|rest IHr]; intros held; cbn [faults audit_calls];
    cbn [length].
  - lia.
  - rewrite length_app. cbn [length]. pose proof (acquisition_count_range rank held).
    specialize (IHb (held ++ [rank])). specialize (IHr held). lia.
  - specialize (IHr held). destruct (non_leaf_held held); cbn [Z.b2z]; lia.
Qed.

Lemma calls_of_length i trace : (length (calls_of i trace) <= length trace)%nat.
Proof. unfold calls_of. rewrite length_map. apply List.filter_length_le. Qed.

Lemma total_zero c :
  counts c → sum_of c <= u64_max → total_violations c = 0 → sum_of c = 0.
Proof.
  destruct c as [a b d e]. unfold total_violations, sum_of, counts. cbn. intros (H1 & H2 & H3 & H4) Hs.
  rewrite (wrap_u64_id (a + b)), (wrap_u64_id (a + b + d)), (wrap_u64_id (a + b + d + e)) by word_lia.
  lia.
Qed.

(** Where a program waits for a lock: the ranks it holds, and the one it asks for. *)
Inductive acquires : list Z → Locking → list Z → Z → Prop :=
| acquires_here held rank body rest : acquires held (Guarded rank body rest) held rank
| acquires_inside held rank body rest held' rank' :
    acquires (held ++ [rank]) body held' rank' → acquires held (Guarded rank body rest) held' rank'
| acquires_later held rank body rest held' rank' :
    acquires held rest held' rank' → acquires held (Guarded rank body rest) held' rank'
| acquires_after_call held rest held' rank' :
    acquires held rest held' rank' → acquires held (Calling rest) held' rank'.

Lemma disciplined_acquires held p held' rank' :
  acquires held p held' rank' → disciplined held p → is_leaf rank' = false →
  ∀ h, h ∈ held' → is_leaf h = false → h < rank'.
Proof.
  induction 1 as [held rank body rest|? ? ? ? ? ? ? IH|? ? ? ? ? ? ? IH|? ? ? ? ? IH]; cbn [disciplined];
    intros Hd Hleaf; [|apply IH; tauto..].
  by destruct Hd as [Hd _]; apply Hd.
Qed.

(** A thread that waits at a point of its program. *)
Record Blocked := mkBlocked { bl_thread : nat; bl_held : list Z; bl_wanted : Z }.

Lemma highest_wanted (waiting : list Blocked) :
  waiting ≠ [] → ∃ w, w ∈ waiting ∧ ∀ w', w' ∈ waiting → bl_wanted w' <= bl_wanted w.
Proof.
  induction waiting as [|w waiting IH]; [done|]. intros _. destruct waiting as [|w2 waiting].
  { exists w. split; [by left|]. intros w' ->%list_elem_of_singleton. lia. }
  destruct IH as (m & Hm & Hmax); [done|]. destruct (Z.le_ge_cases (bl_wanted w) (bl_wanted m)).
  - exists m. split; [by right|]. intros w' [->|Hw']%elem_of_cons; [done|by apply Hmax].
  - exists w. split; [by left|]. intros w' [->|Hw']%elem_of_cons; [lia|]. specialize (Hmax _ Hw'). lia.
Qed.

Lemma clean_run_disciplined programs trace ts c i p :
  Forall ranked programs → Forall (λ p, nesting p <= kMaxTrackedDepth)%nat programs →
  (∀ i p, programs !! i = Some p → calls_of i trace = audit_calls p) →
  2 * Z.of_nat (length trace) <= u64_max →
  run_trace true trace (replicate (length programs) new_thread, audit_reset) = Some (ts, c) →
  total_violations c = 0 → programs !! i = Some p → disciplined [] p.
Proof.
  intros Hranked Hnest Hcalls Hlen Hrun Htotal Hp.
  pose proof (Forall_lookup_1 _ _ _ _ Hranked Hp) as Hr.
  pose proof (Forall_lookup_1 _ _ _ _ Hnest Hp) as Hn. cbv beta in Hn.
  assert (replicate (length programs) new_thread !! i = Some new_thread) as Ht.
  { apply lookup_replicate. split; [done|by eapply lookup_lt_Some]. }
  assert (counts audit_reset) as Hc0 by done.
  destruct (trace_splits trace _ _ _ _ i new_thread audit_reset Hrun Ht Hc0 Hc0) as
    (t' & c0' & Hown & Hc & _ & Hsum & Hbound); [change (sum_of audit_reset) with 0; lia..|].
  change (sum_of audit_reset) with 0 in *.
  pose proof (calls_of_length i trace) as Hshort. rewrite (Hcalls i p Hp) in Hown, Hshort.
  destruct (audit_counts p [] new_thread audit_reset [] Hr) as (t1 & _ & Hspec);
    [cbn; lia|apply new_thread_holds|].
  rewrite app_nil_r in Hspec. rewrite Hspec in Hown. cbn [run_calls] in Hown. injection Hown as _ <-.
  apply no_faults_disciplined. pose proof (faults_nonneg [] p). pose proof (faults_bound [] p).
  pose proof (total_zero c Hc ltac:(lia) Htotal).
  destruct (counted_violations [] p audit_reset Hc0) as [_ Hfaults]; change (sum_of audit_reset) with 0 in *; lia.
Qed.

(** C31: a clean audit excludes deadlocks on ranked locks.  Threads run programs of nested
    locks, at most 64 deep, interleaved in any way; if the audit's total is zero at the end
    of that one run, then in no schedule of the same programs do threads wait for each
    other in a circle: however each is stopped at an acquisition of a lock that is not a
    leaf, one of them asks for a rank that none of them holds. *)
Theorem clean_audit_excludes_deadlock (programs : list Locking) (trace : list (nat * AuditCall))
    (ts : list ThreadState) (c : AuditCounters) (waiting : list Blocked) :
  Forall ranked programs → Forall (λ p, nesting p <= kMaxTrackedDepth)%nat programs →
  (∀ i p, programs !! i = Some p → calls_of i trace = audit_calls p) →
  2 * Z.of_nat (length trace) <= u64_max →
  run_trace true trace (replicate (length programs) new_thread, audit_reset) = Some (ts, c) →
  total_violations c = 0 →
  waiting ≠ [] →
  (∀ w, w ∈ waiting → is_leaf (bl_wanted w) = false ∧
     ∃ p, programs !! bl_thread w = Some p ∧ acquires [] p (bl_held w) (bl_wanted w)) →
  ∃ w, w ∈ waiting ∧ ∀ w', w' ∈ waiting → bl_wanted w ∉ bl_held w'.
Proof.
  intros Hranked Hnest Hcalls Hlen Hrun Htotal Hne Hwait.
  assert (∀ i p, programs !! i = Some p → disciplined [] p) as Hdisc.
  { intros i p Hp. by apply (clean_run_disciplined programs trace ts c i). }
  destruct (highest_wanted waiting Hne) as (w & Hw & Hmax). exists w. split; [done|].
  intros w' Hw' Hheld. destruct (Hwait w' Hw') as (Hleaf' & p & Hp & Hacq).
  destruct (Hwait w Hw) as (Hleaf & _). specialize (Hmax w' Hw').
  pose proof (disciplined_acquires _ _ _ _ Hacq (Hdisc _ _ Hp) Hleaf' _ Hheld Hleaf). lia.
Qed.

(** Two threads that take the store's lock and then the one of persistence, interleaved. *)
Definition store_then_persistence : Locking :=
  Guarded kRankStore (Guarded kRankPersistence Finished Finished) Finished.
Definition example_trace : list (nat * AuditCall) :=
  [(0%nat, Enter 20); (0%nat, Enter 30); (0%nat, Leave 30); (0%nat, Leave 20);
   (1%nat, Enter 20); (1%nat, Enter 30); (1%nat, Leave 30); (1%nat, Leave 20)].

Lemma clean_audit_excludes_deadlock_witness :
  ∃ w, w ∈ [mkBlocked 0 [20] 30; mkBlocked 1 [] 20] ∧
    ∀ w', w' ∈ [mkBlocked 0 [20] 30; mkBlocked 1 [] 20] → bl_wanted w ∉ bl_held w'.
Proof.
  apply (clean_audit_excludes_deadlock [store_then_persistence; store_then_persistence] example_trace
    (replicate 2 (mkThread (20 :: 30 :: replicate 62 0) 0)) audit_reset).
  - repeat constructor.
  - repeat constructor; cbn; unfold kMaxTrackedDepth; lia.
  - intros [|[|i]] p [= <-]; reflexivity.
  - cbn. word_lia.
  - reflexivity.
  - reflexivity.
  - discriminate.
  - intros w [->|[->|[]%not_elem_of_nil]%elem_of_cons]%elem_of_cons;
      (split; [reflexivity|]; exists store_then_persistence; split; [reflexivity|]).
    + apply acquires_inside, acquires_here.
    + apply acquires_here.
Defined.

(** ** What the audit does not see *)

(** A leaf may be taken under any lock and any lock under a leaf: two threads that take the
    store and a leaf in opposite orders are clean, and can wait for each other for ever. *)
Lemma leaf_deadlock_is_clean :
  let a := Guarded kRankLeaf (Guarded kRankStore Finished Finished) Finished in
  let b := Guarded kRankStore (Guarded kRankLeaf Finished Finished) Finished in
  (∃ t, run_calls true (audit_calls a ++ audit_calls b) (new_thread, audit_reset) = Some (t, audit_reset)) ∧
  acquires [] a [kRankLeaf] kRankStore ∧ acquires [] b [kRankStore] kRankLeaf.
Proof.
  split; [eexists; vm_compute; reflexivity|].
  split; apply (acquires_inside [] _ (Guarded _ Finished Finished)), acquires_here.
Qed.

(** The 65th nested lock is not stored, so its release is counted as unbalanced; under it
    [enter] reads past the end of the array. *)
Fixpoint nested (n : nat) (rank : Z) : Locking :=
  match n with O => Finished | S n => Guarded rank (nested n (rank + 1)) Finished end.
Lemma deep_nesting_is_miscounted :
  (∃ t, run_calls true (audit_calls (nested 65 2)) (new_thread, audit_reset) =
     Some (t, mkAudit 0 0 0 1)) ∧
  run_calls true (audit_calls (nested 66 2)) (new_thread, audit_reset) = None.
Proof. split; [eexists; vm_compute; reflexivity|vm_compute; reflexivity]. Qed.
