(* ===== verification/Json.v ===== *)
(** * JSON values and the parser

    [JsonValue], [JsonLimits], [parse_json] and [parse_json_prefix] of
    [core/Json.hpp] and [core/Json.cpp].

    The parser's [index] is the text that is left, so [text_.size() - index] is its
    length.  A number that is not an integer keeps its text ([JDouble]): no code
    reads its value, and whether [std::from_chars] accepts it is the argument
    [double_in_range] (what it accepts is finite, so the test after it never fails). *)

From S2P Require Import Prelude Result Checked Text.
Open Scope Z_scope.

#[local] Set Warnings "-register-all".

Inductive JsonValue : Type :=
| JNull
| JBool (b : bool)
| JInt (v : Z)
| JUint (v : Z)
| JDouble (text : string)
| JString (s : string)
| JArray (children : list JsonValue)
| JObject (keys : list string) (children : list JsonValue).

Record JsonLimits := mkJsonLimits {
  jl_max_document_bytes : Z;
  jl_max_depth : Z;
  jl_max_nodes : Z;
  jl_max_string_bytes : Z;
  jl_max_object_members : Z;
  jl_max_array_elements : Z
}.
Definition default_json_limits : JsonLimits := mkJsonLimits 8388608 32 200000 4096 256 4096.

(** ** Values *)

Definition json_is_object (v : JsonValue) : bool := match v with JObject _ _ => true | _ => false end.
Definition json_is_array (v : JsonValue) : bool := match v with JArray _ => true | _ => false end.
Definition json_is_string (v : JsonValue) : bool := match v with JString _ => true | _ => false end.

(** The default member initialisers are what the accessors of another type see. *)
Definition as_bool (v : JsonValue) : bool := match v with JBool b => b | _ => false end.
Definition as_int (v : JsonValue) : Z := match v with JInt n => n | _ => 0 end.
Definition as_uint (v : JsonValue) : Z := match v with JUint n => n | _ => 0 end.
Definition as_string (v : JsonValue) : string := match v with JString s => s | _ => EmptyString end.
Definition items (v : JsonValue) : list JsonValue :=
  match v with JArray children | JObject _ children => children | _ => [] end.
Definition keys (v : JsonValue) : list string := match v with JObject ks _ => ks | _ => [] end.

Fixpoint find_member (key : string) (ks : list string) (children : list JsonValue) :
    option JsonValue :=
  match ks, children with
  | k :: ks, child :: children =>
      if bool_decide (k = key) then Some child else find_member key ks children
  | _, _ => None
  end.
Definition json_find (key : string) (v : JsonValue) : option JsonValue :=
  match v with JObject ks children => find_member key ks children | _ => None end.

Definition json_size (v : JsonValue) : nat :=
  match v with
  | JArray children | JObject _ children => length children
  | JString s => String.length s
  | _ => O
  end.
Definition key_at (index : nat) (v : JsonValue) : string := nth index (keys v) EmptyString.
Definition value_at (index : nat) (v : JsonValue) : JsonValue := nth index (items v) JNull.

(** Appending to an array, and a member to an object. *)
Definition json_push (child v : JsonValue) : JsonValue :=
  match v with JArray children => JArray (children ++ [child]) | _ => v end.
Definition json_set (key : string) (child v : JsonValue) : JsonValue :=
  match v with JObject ks children => JObject (ks ++ [key]) (children ++ [child]) | _ => v end.

Definition type_name (v : JsonValue) : string :=
  match v with
  | JNull => "null" | JBool _ => "boolean" | JInt _ | JUint _ => "integer" | JDouble _ => "number"
  | JString _ => "string" | JArray _ => "array" | JObject _ _ => "object"
  end.

(** ** Characters *)

Definition is_json_whitespace (c : ascii) : bool :=
  let b := byte_value c in (b =? 32) || (b =? 9) || (b =? 10) || (b =? 13).

Fixpoint skip_whitespace (rest : string) : string :=
  match rest with
  | String c tail => if is_json_whitespace c then skip_whitespace tail else rest
  | EmptyString => EmptyString
  end.

Definition byte_string (bytes : list Z) : string :=
  fold_right (λ b s, String (byte_char b) s) EmptyString bytes.

Definition append_utf8 (code_point : Z) : string :=
  let continuation shift := Z.lor 128 (Z.land (Z.shiftr code_point shift) 63) in
  byte_string
    (if code_point <? 128 then [code_point]
     else if code_point <? 2048 then [Z.lor 192 (Z.shiftr code_point 6); continuation 0]
     else if code_point <? 65536
     then [Z.lor 224 (Z.shiftr code_point 12); continuation 6; continuation 0]
     else [Z.lor 240 (Z.shiftr code_point 18); continuation 12; continuation 6; continuation 0]).

Definition simple_escape (c : ascii) : option ascii :=
  let b := byte_value c in
  if (b =? 34) || (b =? 92) || (b =? 47) then Some c
  else if b =? 98 then Some (byte_char 8)
  else if b =? 102 then Some (byte_char 12)
  else if b =? 110 then Some (byte_char 10)
  else if b =? 114 then Some (byte_char 13)
  else if b =? 116 then Some (byte_char 9)
  else None.

Definition hex4 (a b c d : ascii) : option Z :=
  match hex_value a, hex_value b, hex_value c, hex_value d with
  | Some a, Some b, Some c, Some d =>
      Some (Z.lor (Z.shiftl (Z.lor (Z.shiftl (Z.lor (Z.shiftl a 4) b) 4) c) 4) d)
  | _, _, _, _ => None
  end.

Definition parse_error {A} (message : string) : Result A := fail ErrorCode.ParseError message.
Definition limit_error {A} (message : string) : Result A := fail ErrorCode.LimitExceeded message.

(** The longest run of digits at the front. *)
Fixpoint span_digits (rest : string) : string * string :=
  match rest with
  | String c tail =>
      if is_digit c then let '(digits, rest) := span_digits tail in (String c digits, rest)
      else (EmptyString, rest)
  | EmptyString => (EmptyString, EmptyString)
  end.

Definition starts_digit (rest : string) : bool :=
  match rest with String c _ => is_digit c | EmptyString => false end.

Section parser.
Context (limits : JsonLimits) (double_in_range : string → bool).

(** [out.push_back] and the size test after it. *)
Definition push_text (out text : string) : Result string :=
  let out := out +:+ text in
  if jl_max_string_bytes limits <? Z.of_nat (String.length out)
  then limit_error "JSON string exceeds the configured limit" else Value out.

(** The loop of [parse_string], after the opening quote. *)
Fixpoint parse_string (rest out : string) : Result (string * string) :=
  match rest with
  | EmptyString => parse_error "unterminated JSON string"
  | String c rest =>
      let b := byte_value c in
      if b =? 34 then Value (out, rest)
      else if b <? 32 then parse_error "unescaped control character in a JSON string"
      else if negb (b =? 92) then
        out ← push_text out (String c EmptyString); parse_string rest out
      else
        match rest with
        | EmptyString => parse_error "unterminated escape sequence in a JSON string"
        | String escape rest =>
            match simple_escape escape with
            | Some c => out ← push_text out (String c EmptyString); parse_string rest out
            | None =>
                if negb (byte_value escape =? 117) then
                  parse_error "unknown escape sequence in a JSON string"
                else
                  match rest with
                  | String a (String b (String c (String d rest))) =>
                      match hex4 a b c d with
                      | None => parse_error "non-hexadecimal digit in a unicode escape"
                      | Some code_point =>
                          if (55296 <=? code_point) && (code_point <=? 56319) then
                            match rest with
                            | String x (String y rest) =>
                                if negb ((byte_value x =? 92) && (byte_value y =? 117)) then
                                  parse_error "high surrogate is not followed by a low surrogate escape"
                                else
                                  match rest with
                                  | String a (String b (String c (String d rest))) =>
                                      match hex4 a b c d with
                                      | None => parse_error "non-hexadecimal digit in a unicode escape"
                                      | Some low =>
                                          if (low <? 56320) || (57343 <? low) then
                                            parse_error "invalid low surrogate in a JSON string"
                                          else
                                            out ← push_text out
                                              (append_utf8 (65536 + Z.shiftl (code_point - 55296) 10
                                                            + (low - 56320)));
                                            parse_string rest out
                                      end
                                  | _ => parse_error "truncated unicode escape in a JSON string"
                                  end
                            | _ => parse_error "high surrogate is not followed by a low surrogate escape"
                            end
                          else if (56320 <=? code_point) && (code_point <=? 57343) then
                            parse_error "unpaired low surrogate in a JSON string"
                          else
                            out ← push_text out (append_utf8 code_point); parse_string rest out
                      end
                  | _ => parse_error "truncated unicode escape in a JSON string"
                  end
            end
        end
  end.

Definition parse_literal (literal : string) (value : JsonValue) (rest : string) :
    Result (JsonValue * string) :=
  if starts_with rest literal then Value (value, str_drop (String.length literal) rest)
  else parse_error "malformed JSON literal".

(** The digits after the decimal point, and the exponent: the text they add to the
    number, empty when the number has no such part. *)
Definition parse_fraction_part (rest : string) : Result (string * string) :=
  match rest with
  | String c tail =>
      if byte_value c =? 46 then
        if starts_digit tail then
          let '(digits, rest) := span_digits tail in Value (String c digits, rest)
        else parse_error "JSON number has no digits after the decimal point"
      else Value (EmptyString, rest)
  | EmptyString => Value (EmptyString, rest)
  end.

Definition exponent_sign (rest : string) : string * string :=
  match rest with
  | String c tail =>
      if (byte_value c =? 43) || (byte_value c =? 45) then (String c EmptyString, tail)
      else (EmptyString, rest)
  | EmptyString => (EmptyString, rest)
  end.

Definition parse_exponent (rest : string) : Result (string * string) :=
  match rest with
  | String c tail =>
      if (byte_value c =? 101) || (byte_value c =? 69) then
        let '(sign, tail) := exponent_sign tail in
        if starts_digit tail then
          let '(digits, rest) := span_digits tail in Value (String c (sign +:+ digits), rest)
        else parse_error "JSON number has no digits in its exponent"
      else Value (EmptyString, rest)
  | EmptyString => Value (EmptyString, rest)
  end.

Definition parse_whole (rest : string) : Result (string * string) :=
  match rest with
  | String c tail =>
      if negb (is_digit c) then parse_error "malformed JSON number"
      else if byte_value c =? 48 then
        if starts_digit tail then parse_error "JSON numbers must not have leading zeros"
        else Value (String c EmptyString, tail)
      else Value (span_digits rest)
  | EmptyString => parse_error "malformed JSON number"
  end.

(** [std::from_chars] on a run of digits, signed and unsigned. *)
Definition integer_value (negative : bool) (digits : string) : Result JsonValue :=
  let magnitude := dec_value 0 digits in
  if negative then
    if magnitude <=? i64_max + 1 then Value (JInt (- magnitude))
    else fail ErrorCode.OutOfRange "JSON integer is outside the signed 64-bit range"
  else if magnitude <=? u64_max then Value (JUint magnitude)
  else fail ErrorCode.OutOfRange "JSON integer is outside the unsigned 64-bit range".

Definition number_sign (rest : string) : bool * string :=
  match rest with
  | String c tail => if byte_value c =? 45 then (true, tail) else (false, rest)
  | EmptyString => (false, rest)
  end.

Definition parse_number (rest : string) : Result (JsonValue * string) :=
  let '(negative, rest) := number_sign rest in
  '(whole, rest) ← parse_whole rest;
  '(fraction, rest) ← parse_fraction_part rest;
  '(exponent, rest) ← parse_exponent rest;
  if bool_decide (fraction = EmptyString) && bool_decide (exponent = EmptyString) then
    value ← integer_value negative whole; Value (value, rest)
  else
    let text := (if negative then "-" else EmptyString) +:+ whole +:+ fraction +:+ exponent in
    if double_in_range text then Value (JDouble text, rest)
    else parse_error "JSON number cannot be represented as a double".

(** What a value, a member or an element read gives: the value, the text left and the
    member [nodes_]. *)
Definition Parsed : Type := Result (JsonValue * string * Z).

(** The [switch] of [parse_value] on the character at [index], with the opening of
    [parse_object] and [parse_array]. *)
Definition value_switch (members elements : Z → JsonValue → Z → string → Z → Parsed) (depth : Z)
    (c : ascii) (tail : string) (nodes : Z) : Parsed :=
  let with_nodes r := '(value, rest) ← r; Value (value, rest, nodes) in
  let b := byte_value c in
  if b =? 123 then
    match skip_whitespace tail with
    | String c rest =>
        if byte_value c =? 125 then Value (JObject [] [], rest, nodes)
        else members depth (JObject [] []) 0 (String c rest) nodes
    | EmptyString => members depth (JObject [] []) 0 EmptyString nodes
    end
  else if b =? 91 then
    match skip_whitespace tail with
    | String c rest =>
        if byte_value c =? 93 then Value (JArray [], rest, nodes)
        else elements depth (JArray []) 0 (String c rest) nodes
    | EmptyString => elements depth (JArray []) 0 EmptyString nodes
    end
  else if b =? 34 then
    '(s, rest) ← parse_string tail EmptyString; Value (JString s, rest, nodes)
  else if b =? 116 then with_nodes (parse_literal "true" (JBool true) (String c tail))
  else if b =? 102 then with_nodes (parse_literal "false" (JBool false) (String c tail))
  else if b =? 110 then with_nodes (parse_literal "null" JNull (String c tail))
  else if (b =? 45) || is_digit c then with_nodes (parse_number (String c tail))
  else parse_error "unexpected character where a JSON value was expected".

Definition value_call (members elements : Z → JsonValue → Z → string → Z → Parsed) (depth : Z)
    (rest : string) (nodes : Z) : Parsed :=
  if jl_max_depth limits <? depth then
    limit_error "JSON nesting depth exceeds the configured limit"
  else
    let nodes := nodes + 1 in
    if jl_max_nodes limits <? nodes then
      limit_error "JSON node count exceeds the configured limit"
    else
      match skip_whitespace rest with
      | EmptyString => parse_error "unexpected end of JSON input"
      | String c tail => value_switch members elements depth c tail nodes
      end.

(** One turn of the loop of [parse_object], and of [parse_array]: [more] is the next. *)
Definition member_turn (value : Z → string → Z → Parsed)
    (more : Z → JsonValue → Z → string → Z → Parsed) (depth : Z) (object : JsonValue)
    (members : Z) (rest : string) (nodes : Z) : Parsed :=
  let no_name := parse_error "object member name must be a JSON string" in
  match skip_whitespace rest with
  | EmptyString => no_name
  | String c tail =>
      if negb (byte_value c =? 34) then no_name
      else
        '(key_text, rest) ← parse_string tail EmptyString;
        if bool_decide (json_find key_text object ≠ None) then
          parse_error "duplicate object member name"
        else
          let no_colon := parse_error "expected a colon after the object member name" in
          match skip_whitespace rest with
          | EmptyString => no_colon
          | String c tail =>
              if negb (byte_value c =? 58) then no_colon
              else
                '(value, rest, nodes) ← value (depth + 1) tail nodes;
                let object := json_set key_text value object in
                let members := members + 1 in
                if jl_max_object_members limits <? members then
                  limit_error "object member count exceeds the configured limit"
                else
                  match skip_whitespace rest with
                  | EmptyString => parse_error "unterminated JSON object"
                  | String c rest =>
                      if byte_value c =? 44 then more depth object members rest nodes
                      else if byte_value c =? 125 then Value (object, rest, nodes)
                      else parse_error "expected a comma or a closing brace in a JSON object"
                  end
          end
  end.

Definition element_turn (value : Z → string → Z → Parsed)
    (more : Z → JsonValue → Z → string → Z → Parsed) (depth : Z) (array : JsonValue)
    (elements : Z) (rest : string) (nodes : Z) : Parsed :=
  '(value, rest, nodes) ← value (depth + 1) rest nodes;
  let array := json_push value array in
  let elements := elements + 1 in
  if jl_max_array_elements limits <? elements then
    limit_error "array element count exceeds the configured limit"
  else
    match skip_whitespace rest with
    | EmptyString => parse_error "unterminated JSON array"
    | String c rest =>
        if byte_value c =? 44 then more depth array elements rest nodes
        else if byte_value c =? 93 then Value (array, rest, nodes)
        else parse_error "expected a comma or a closing bracket in a JSON array"
    end.

Definition out_of_fuel : Parsed := fail ErrorCode.Internal "out of fuel".

Fixpoint parse_value (fuel : nat) (depth : Z) (rest : string) (nodes : Z) {struct fuel} : Parsed :=
  match fuel with
  | O => out_of_fuel
  | S fuel => value_call (parse_members fuel) (parse_elements fuel) depth rest nodes
  end
with parse_members (fuel : nat) (depth : Z) (object : JsonValue) (members : Z) (rest : string)
    (nodes : Z) {struct fuel} : Parsed :=
  match fuel with
  | O => out_of_fuel
  | S fuel =>
      member_turn (parse_value fuel) (parse_members fuel) depth object members rest nodes
  end
with parse_elements (fuel : nat) (depth : Z) (array : JsonValue) (elements : Z) (rest : string)
    (nodes : Z) {struct fuel} : Parsed :=
  match fuel with
  | O => out_of_fuel
  | S fuel =>
      element_turn (parse_value fuel) (parse_elements fuel) depth array elements rest nodes
  end.

Lemma parse_value_S fuel depth rest nodes :
  parse_value (S fuel) depth rest nodes =
    value_call (parse_members fuel) (parse_elements fuel) depth rest nodes.
Proof. done. Qed.
Lemma parse_members_S fuel depth object members rest nodes :
  parse_members (S fuel) depth object members rest nodes =
    member_turn (parse_value fuel) (parse_members fuel) depth object members rest nodes.
Proof. done. Qed.
Lemma parse_elements_S fuel depth array elements rest nodes :
  parse_elements (S fuel) depth array elements rest nodes =
    element_turn (parse_value fuel) (parse_elements fuel) depth array elements rest nodes.
Proof. done. Qed.

(** A nested value takes two calls and at least one character, so twice the length of
    the text is fuel enough ([parse_json_within_limits] of JsonBounds.v). *)
Definition parse_prefix (text : string) : Result (JsonValue * string) :=
  '(value, rest, _) ← parse_value (S (2 * String.length text)) 0 text 0;
  Value (value, skip_whitespace rest).

Definition document_too_long (text : string) : bool :=
  jl_max_document_bytes limits <? Z.of_nat (String.length text).

Definition parse_json (text : string) : Result JsonValue :=
  if document_too_long text then limit_error "JSON document exceeds the configured byte limit"
  else
    '(value, rest) ← parse_prefix text;
    if bool_decide (rest = EmptyString) then Value value
    else parse_error "unexpected trailing content after the JSON document".

(** The value and the bytes consumed. *)
Definition parse_json_prefix (text : string) : Result (JsonValue * nat) :=
  if document_too_long text then limit_error "JSON document exceeds the configured byte limit"
  else
    '(value, rest) ← parse_prefix text;
    Value (value, (String.length text - String.length rest)%nat).
End parser.

(** Apostrophes as quotation marks, for the examples. *)
Definition quoted (text : string) : string :=
  str_map (λ c, if byte_value c =? 39 then quote else c) text.

Example parse_json_examples :
  let parse text := parse_json default_json_limits (λ _, true) (quoted text) in
  parse " { 'a' : [1, -2, 3.5e2, true, null], 'b\u0041\n' : 'x' } " =
    Value (JObject ["a"; "bA" +:+ String (byte_char 10) EmptyString]
             [JArray [JUint 1; JInt (-2); JDouble "3.5e2"; JBool true; JNull]; JString "x"]) ∧
  parse "'\ud83d\ude00'" = Value (JString (byte_string [240; 159; 152; 128])) ∧
  result_code (parse "{'a':1,'a':2}") = ErrorCode.ParseError ∧
  result_code (parse "01") = ErrorCode.ParseError ∧
  result_code (parse "[1,]") = ErrorCode.ParseError ∧
  result_code (parse "18446744073709551616") = ErrorCode.OutOfRange ∧
  parse "-9223372036854775808" = Value (JInt i64_min) ∧
  parse_json_prefix default_json_limits (λ _, true) (quoted "[] x") = Value (JArray [], 3%nat).
Proof. vm_compute. done. Qed.
