(* ===== verification/JsonBounds.v ===== *)
(** * JSON: what the parser accepts

    The limits of a parsed document, and the proof that the parser always answers:
    with a value within the limits, or with one of its own error codes. *)

From S2P Require Import Prelude Result Checked Text Json.
Open Scope Z_scope.

#[local] Set Warnings "-register-all".

(** ** What a parsed document is *)

Section json_value_induction.
Context (P : JsonValue → Prop).
Context (leaf : ∀ v, items v = [] → P v).
Context (array : ∀ children, Forall P children → P (JArray children)).
Context (object : ∀ ks children, Forall P children → P (JObject ks children)).

Fixpoint json_value_induction (v : JsonValue) : P v :=
  let fix all (children : list JsonValue) : Forall P children :=
    match children with
    | [] => Forall_nil_2 P
    | child :: children => Forall_cons_2 P child children (json_value_induction child) (all children)
    end in
  match v with
  | JArray children => array children (all children)
  | JObject ks children => object ks children (all children)
  | JNull => leaf JNull eq_refl
  | JBool b => leaf (JBool b) eq_refl
  | JInt n => leaf (JInt n) eq_refl
  | JUint n => leaf (JUint n) eq_refl
  | JDouble t => leaf (JDouble t) eq_refl
  | JString s => leaf (JString s) eq_refl
  end.
End json_value_induction.

(** How deep and how large a value is. *)
Fixpoint json_height (v : JsonValue) : Z :=
  match v with
  | JArray children | JObject _ children =>
      fold_right (λ h acc, Z.max (1 + h) acc) 0 (map json_height children)
  | _ => 0
  end.
Fixpoint json_nodes (v : JsonValue) : Z :=
  match v with
  | JArray children | JObject _ children => 1 + fold_right Z.add 0 (map json_nodes children)
  | _ => 1
  end.
Definition heights (children : list JsonValue) : Z :=
  fold_right (λ h acc, Z.max (1 + h) acc) 0 (map json_height children).
Definition nodes_of (children : list JsonValue) : Z := fold_right Z.add 0 (map json_nodes children).

Lemma heights_app a b : heights (a ++ b) = Z.max (heights a) (heights b).
Proof.
  unfold heights. induction a as [|v a IH]; cbn; [|lia].
  assert (0 <= fold_right (λ h acc, Z.max (1 + h) acc) 0 (map json_height b)); [|lia].
  clear. induction b; cbn; lia.
Qed.
Lemma nodes_of_app a b : nodes_of (a ++ b) = nodes_of a + nodes_of b.
Proof. unfold nodes_of. induction a as [|v a IH]; cbn in *; lia. Qed.

Section json_ok.
Context (limits : JsonLimits) (double_in_range : string → bool).

(** (The limits are unsigned, so [Z.max 0] leaves them as they are.) *)
Definition string_ok (s : string) : Prop :=
  Z.of_nat (String.length s) <= Z.max 0 (jl_max_string_bytes limits).

(** Every string, member list and array is within its limit, member names are
    distinct, and an integer is in the range of its type. *)
Inductive json_ok : JsonValue → Prop :=
| ok_null : json_ok JNull
| ok_bool b : json_ok (JBool b)
| ok_int n : i64_min <= n <= 0 → json_ok (JInt n)
| ok_uint n : is_u64 n → json_ok (JUint n)
| ok_double text : double_in_range text = true → json_ok (JDouble text)
| ok_string s : string_ok s → json_ok (JString s)
| ok_array children :
    Z.of_nat (length children) <= Z.max 0 (jl_max_array_elements limits) →
    Forall json_ok children → json_ok (JArray children)
| ok_object ks children :
    length ks = length children → NoDup ks → Forall string_ok ks →
    Z.of_nat (length children) <= Z.max 0 (jl_max_object_members limits) →
    Forall json_ok children → json_ok (JObject ks children).

(** The codes the parser reports. *)
Definition parser_code (c : ErrorCode) : Prop :=
  c = ErrorCode.ParseError ∨ c = ErrorCode.LimitExceeded ∨ c = ErrorCode.OutOfRange.

(** [returns r Q]: a value satisfies [Q], and an error is one of the parser's. *)
Definition returns {A} (r : Result A) (Q : A → Prop) : Prop :=
  match r with Value a => Q a | Failure e => parser_code (code e) end.

Lemma returns_bind {A B} (r : Result A) (k : A → Result B) (Q : A → Prop) (R : B → Prop) :
  returns r Q → (∀ a, Q a → returns (k a) R) → returns (r ≫= k) R.
Proof. destruct r; cbn; auto. Qed.

Lemma returns_parse_error {A} message (Q : A → Prop) : returns (parse_error message) Q.
Proof. by left. Qed.
Lemma returns_limit_error {A} message (Q : A → Prop) : returns (limit_error message) Q.
Proof. by right; left. Qed.
Lemma returns_range_error {A} message (Q : A → Prop) :
  returns (fail ErrorCode.OutOfRange message) Q.
Proof. by right; right. Qed.
#[local] Hint Resolve returns_parse_error returns_limit_error returns_range_error : core.

Lemma skip_whitespace_length rest : (String.length (skip_whitespace rest) <= String.length rest)%nat.
Proof. induction rest as [|c rest IH]; cbn; [done|]. destruct (is_json_whitespace c); cbn; lia. Qed.

Lemma string_ok_empty : string_ok EmptyString.
Proof. unfold string_ok. cbn. lia. Qed.

Lemma push_text_returns out text :
  returns (push_text limits out text) (λ out', string_ok out').
Proof. unfold push_text. bool_cases; [auto|]. unfold returns, string_ok. lia. Qed.

(** A string consumes at least its closing quote. *)
Lemma parse_string_returns n : ∀ rest out,
  (String.length rest <= n)%nat → string_ok out →
  returns (parse_string limits rest out)
    (λ r, string_ok r.1 ∧ (String.length r.2 < String.length rest)%nat).
Proof.
  induction n as [|n IH]; intros [|c rest] out Hn Hout; cbn in Hn; try lia; cbn [parse_string]; auto.
  assert (∀ text rest', (String.length rest' <= String.length rest)%nat →
    returns (out' ← push_text limits out text; parse_string limits rest' out')
      (λ r, string_ok r.1 ∧ (String.length r.2 < S (String.length rest))%nat)) as Hnext.
  { intros text rest' Hle. eapply returns_bind; [apply push_text_returns|]. intros out' Hout'.
    generalize (IH rest' out' ltac:(lia) Hout'). unfold returns.
    destruct (parse_string _ _ _) as [[]|]; cbn; [|done]. intros []. split; [done|lia]. }
  cbn [String.length].
  repeat first [ apply Hnext; cbn; lia | by auto | by left | case_match; simplify_eq/= ].
Qed.

Lemma span_digits_length rest : (String.length (span_digits rest).2 <= String.length rest)%nat.
Proof.
  induction rest as [|c rest IH]; cbn; [done|]. destruct (is_digit c); [|done].
  destruct (span_digits rest). cbn in *. lia.
Qed.

Lemma starts_digit_span rest :
  starts_digit rest = true → (String.length (span_digits rest).2 < String.length rest)%nat.
Proof.
  destruct rest as [|c rest]; cbn; [done|]. intros ->.
  pose proof (span_digits_length rest). destruct (span_digits rest). cbn in *. lia.
Qed.

Lemma str_drop_shorter n s : (String.length (str_drop n s) <= String.length s)%nat.
Proof. rewrite str_drop_length. lia. Qed.

(** A value without children, and the text after it. *)
Definition leaf_read {A} (f : A → JsonValue) (rest : string) (r : A * string) : Prop :=
  json_ok (f r.1) ∧ items (f r.1) = [] ∧ (String.length r.2 < String.length rest)%nat.

Lemma parse_literal_returns c literal value rest :
  json_ok value → items value = [] →
  returns (parse_literal (String c literal) value rest) (leaf_read (λ v, v) rest).
Proof.
  intros Hv Hi. unfold parse_literal. destruct (starts_with _ _) eqn:E; [|auto].
  unfold starts_with in E. apply andb_prop in E as [E _]. apply Nat.leb_le in E.
  split; [done|]. cbn [snd fst]. rewrite str_drop_length. split; [done|]. cbn in *. lia.
Qed.

Lemma parse_whole_returns rest :
  returns (parse_whole rest) (λ r, str_forallb is_digit r.1 = true ∧
    (String.length r.2 < String.length rest)%nat).
Proof.
  unfold parse_whole. destruct rest as [|c tail]; [auto|].
  destruct (is_digit c) eqn:E; cbn [negb]; [|auto].
  destruct (byte_value c =? 48).
  - destruct (starts_digit tail); [auto|]. cbn. rewrite E. split; [done|lia].
  - unfold returns. split; [|apply starts_digit_span; exact E]. clear.
    induction (String c tail) as [|d s IH]; cbn; [done|]. destruct (is_digit d) eqn:E; [|done].
    destruct (span_digits s). cbn in *. by rewrite E.
Qed.

Lemma parse_fraction_returns rest :
  returns (parse_fraction_part rest) (λ r, (String.length r.2 <= String.length rest)%nat).
Proof.
  unfold parse_fraction_part. destruct rest as [|c tail]; [cbn; lia|].
  destruct (_ =? _); [|cbn; lia].
  destruct (starts_digit tail); [|auto]. pose proof (span_digits_length tail).
  destruct (span_digits tail). cbn in *. lia.
Qed.

Lemma parse_exponent_returns rest :
  returns (parse_exponent rest) (λ r, (String.length r.2 <= String.length rest)%nat).
Proof.
  unfold parse_exponent. destruct rest as [|c tail]; [cbn; lia|].
  destruct (_ || _); [|cbn; lia].
  assert (String.length (exponent_sign tail).2 <= String.length tail)%nat as Hs.
  { unfold exponent_sign. destruct tail as [|d tail]; [cbn; lia|]. destruct (_ || _); cbn; lia. }
  destruct (exponent_sign tail) as [sign rest']. cbn in Hs. destruct (starts_digit rest'); [|auto].
  pose proof (span_digits_length rest'). destruct (span_digits rest'). cbn in *. lia.
Qed.

Lemma integer_value_returns negative digits :
  str_forallb is_digit digits = true →
  returns (integer_value negative digits) (λ v, json_ok v ∧ items v = []).
Proof.
  intros Hd. pose proof (dec_value_ge 0 digits ltac:(lia) Hd). unfold integer_value.
  destruct negative; bool_cases; auto; split; try done; constructor; word_lia.
Qed.

Lemma parse_number_returns rest :
  returns (parse_number double_in_range rest) (leaf_read (λ v, v) rest).
Proof.
  unfold parse_number.
  assert (String.length (number_sign rest).2 <= String.length rest)%nat as Hs.
  { unfold number_sign. destruct rest as [|c tail]; [cbn; lia|]. destruct (_ =? _); cbn; lia. }
  destruct (number_sign rest) as [negative rest1]. cbn in Hs.
  eapply returns_bind; [apply parse_whole_returns|]. intros [whole rest2] [Hd H2]. cbn in Hd, H2.
  eapply returns_bind; [apply parse_fraction_returns|]. intros [fraction rest3] H3. cbn in H3.
  eapply returns_bind; [apply parse_exponent_returns|]. intros [exponent rest4] H4. cbn in H4.
  destruct (_ && _).
  - eapply returns_bind; [by apply integer_value_returns|]. intros v [Hv Hi]. split_and!; [done|done|cbn; lia].
  - destruct (double_in_range _) eqn:E; [|auto]. split_and!; [by constructor|done|cbn; lia].
Qed.

(** ** Values, members and elements *)

(** What a call that has read the value [v] from [rest] promises; [before] are the
    nodes already counted for [v]. *)
Definition parsed (depth : Z) (rest : string) (nodes before : Z) (r : JsonValue * string * Z) : Prop :=
  let '(v, rest', nodes') := r in
  json_ok v ∧ nodes' = nodes - before + json_nodes v ∧ nodes' <= jl_max_nodes limits ∧
  depth + json_height v <= jl_max_depth limits ∧ (String.length rest' < String.length rest)%nat.

Lemma heights_nonneg children : 0 <= heights children.
Proof. unfold heights. induction children; cbn; lia. Qed.

Lemma json_height_heights v : json_height v = heights (items v).
Proof. by destruct v. Qed.
Lemma json_nodes_of v : json_nodes v = 1 + nodes_of (items v).
Proof. by destruct v. Qed.
Lemma heights_single v : heights [v] = Z.max (1 + json_height v) 0.
Proof. done. Qed.
Lemma nodes_of_single v : nodes_of [v] = json_nodes v.
Proof. unfold nodes_of. cbn. lia. Qed.

Lemma parsed_leaf depth rest rest' nodes v :
  json_ok v → items v = [] →
  depth <= jl_max_depth limits → nodes + 1 <= jl_max_nodes limits →
  (String.length rest' < String.length rest)%nat →
  parsed depth rest nodes 0 (v, rest', nodes + 1).
Proof.
  intros Hv Hi Hd Hm Hl. unfold parsed. rewrite json_nodes_of, json_height_heights, Hi. cbn.
  split_and!; done || lia.
Qed.

Lemma find_member_None key ks children :
  length ks = length children → find_member key ks children = None → key ∉ ks.
Proof.
  revert children. induction ks as [|k ks IH]; intros [|child children] Hl; try done.
  { intros _ H. by apply elem_of_nil in H. }
  cbn in *. case_bool_decide as Hk; [done|]. intros H [->|Hin]%elem_of_cons; [done|].
  revert Hin. apply (IH children); [lia|done].
Qed.

(** A container that is still being read. *)
Record open_container (depth nodes : Z) (v : JsonValue) (count limit : Z) : Prop := {
  oc_ok : json_ok v;
  oc_count : count = Z.of_nat (length (items v));
  oc_room : count <= Z.max 0 limit;
  oc_depth : depth + json_height v <= jl_max_depth limits;
  oc_nodes : nodes <= jl_max_nodes limits
}.

(** Reading one more child into a container. *)
Lemma container_grows depth nodes rest rest' v v' child nodes' count limit :
  open_container depth nodes v count limit →
  parsed (depth + 1) rest nodes 0 (child, rest', nodes') →
  items v' = items v ++ [child] →
  count + 1 <= limit → json_ok v' →
  open_container depth nodes' v' (count + 1) limit ∧ nodes' = nodes - json_nodes v + json_nodes v'.
Proof.
  intros [H1 H2 H3 H4 H5] (P1 & P2 & P3 & P4 & P5) Hi Hlim Hok.
  rewrite (json_nodes_of v), (json_nodes_of v'), Hi, nodes_of_app, nodes_of_single.
  split; [|lia]. split; [done|rewrite Hi, length_app; cbn; lia|lia| |done].
  rewrite (json_height_heights v) in H4.
  rewrite (json_height_heights v'), Hi, heights_app, heights_single.
  pose proof (heights_nonneg (items child)). rewrite json_height_heights in *. lia.
Qed.

Lemma open_ends depth nodes nodes0 v v0 count limit rest rest' :
  open_container depth nodes v count limit →
  nodes = nodes0 - json_nodes v0 + json_nodes v →
  (String.length rest' < String.length rest)%nat →
  parsed depth rest nodes0 (json_nodes v0) (v, rest', nodes).
Proof. intros [] Hn Hl. unfold parsed. split_and!; done || lia. Qed.

Section step.
Context (fuel : nat).
Context (IHv : ∀ depth rest nodes, (2 * String.length rest < fuel)%nat →
  returns (parse_value limits double_in_range fuel depth rest nodes) (parsed depth rest nodes 0)).
Context (IHm : ∀ depth v count rest nodes,
  (2 * String.length rest < fuel)%nat → json_is_object v = true →
  open_container depth nodes v count (jl_max_object_members limits) →
  returns (parse_members limits double_in_range fuel depth v count rest nodes)
    (parsed depth rest nodes (json_nodes v))).
Context (IHe : ∀ depth v count rest nodes,
  (2 * String.length rest + 1 < fuel)%nat → json_is_array v = true →
  open_container depth nodes v count (jl_max_array_elements limits) →
  returns (parse_elements limits double_in_range fuel depth v count rest nodes)
    (parsed depth rest nodes (json_nodes v))).

Lemma opened depth nodes v limit :
  json_ok v → items v = [] → depth <= jl_max_depth limits → nodes <= jl_max_nodes limits →
  open_container depth nodes v 0 limit.
Proof.
  intros Hok Hi Hd Hn. split; try done; try lia.
  - by rewrite Hi.
  - rewrite json_height_heights, Hi. cbn. lia.
Qed.

(** A container read after its opening character. *)
Lemma contained depth rest tail nodes v r :
  (String.length tail < String.length rest)%nat → items v = [] →
  returns r (parsed depth tail (nodes + 1) (json_nodes v)) → returns r (parsed depth rest nodes 0).
Proof.
  intros Hl Hi. destruct r as [[[w rest'] n']|]; cbn; [|done].
  rewrite (json_nodes_of v), Hi. cbn. intros (? & ? & ? & ? & ?). split_and!; done || lia.
Qed.

Lemma leaf_returns {A} depth rest rest0 nodes (r : Result (A * string)) (f : A → JsonValue) :
  depth <= jl_max_depth limits → nodes + 1 <= jl_max_nodes limits →
  (String.length rest0 <= String.length rest)%nat → returns r (leaf_read f rest0) →
  returns ('(a, rest) ← r; Value (f a, rest, nodes + 1)) (parsed depth rest nodes 0).
Proof.
  intros Hd Hn Hl Hr. eapply returns_bind; [exact Hr|]. intros [a rest'] (Ha & Hi & Hlt). cbn in *.
  apply parsed_leaf; try done. lia.
Qed.

Lemma parse_value_returns depth rest nodes :
  (2 * String.length rest < S fuel)%nat →
  returns (parse_value limits double_in_range (S fuel) depth rest nodes)
    (parsed depth rest nodes 0).
Proof.
  intros Hf. rewrite parse_value_S; unfold value_call.
  destruct (Z.ltb_spec (jl_max_depth limits) depth); [auto|].
  destruct (Z.ltb_spec (jl_max_nodes limits) (nodes + 1)); [auto|].
  pose proof (skip_whitespace_length rest) as Hs.
  destruct (skip_whitespace rest) as [|c tail]; [auto|]. cbn [String.length] in Hs. unfold value_switch.
  pose proof (skip_whitespace_length tail) as Ht.
  destruct (_ =? 123); [|destruct (_ =? 91); [|destruct (_ =? 34)]].
  - assert (json_ok (JObject [] [])) by (constructor; try done; [constructor|cbn; lia]).
    destruct (skip_whitespace tail) as [|d rest'] eqn:E; cbn in Ht;
      [|destruct (_ =? 125); [apply parsed_leaf; done || lia|]];
      (eapply (contained _ _ _ _ (JObject [] []));
        [|done|apply IHm; [|done|apply opened; done || lia]]; cbn; lia).
  - assert (json_ok (JArray [])) by (constructor; [cbn; lia|constructor]).
    destruct (skip_whitespace tail) as [|d rest'] eqn:E; cbn in Ht;
      [|destruct (_ =? 93); [apply parsed_leaf; done || lia|]];
      (eapply (contained _ _ _ _ (JArray []));
        [|done|apply IHe; [|done|apply opened; done || lia]]; cbn; lia).
  - apply (leaf_returns _ _ tail _ _ JString); try done; [lia|].
    generalize (parse_string_returns _ tail EmptyString (le_n _) string_ok_empty).
    unfold returns. destruct (parse_string _ _ _) as [[s rest']|]; [|done]. intros [H3 H4].
    split_and!; [by constructor|done|done].
  - repeat (destruct (_ =? _)); cbn [orb]; try (destruct (is_digit c)); auto;
      (apply (leaf_returns _ _ (String c tail) _ _ (λ v, v)); [done|done|cbn; lia|]);
      first [apply parse_number_returns | apply parse_literal_returns; [constructor|done]].
Qed.

(** The comma or the closing character after a child that [v'] now holds. *)
Lemma next_or_end depth v v' count limit rest rest1 nodes nodes1 close message1 message2 more :
  open_container depth nodes1 v' (count + 1) limit →
  nodes1 = nodes - json_nodes v + json_nodes v' →
  (String.length rest1 < String.length rest)%nat →
  (∀ rest2, (String.length rest2 < String.length rest1)%nat →
     returns (more rest2) (parsed depth rest2 nodes1 (json_nodes v'))) →
  returns
    match skip_whitespace rest1 with
    | EmptyString => parse_error message1
    | String c rest =>
        if byte_value c =? 44 then more rest
        else if byte_value c =? close then Value (v', rest, nodes1)
        else parse_error message2
    end (parsed depth rest nodes (json_nodes v)).
Proof.
  intros Hopen Hn Hl Hmore. pose proof (skip_whitespace_length rest1) as Hs.
  destruct (skip_whitespace rest1) as [|c rest2]; [auto|]. cbn in Hs.
  destruct (_ =? 44); [|destruct (_ =? close); [|auto]].
  - specialize (Hmore rest2 ltac:(lia)). destruct (more rest2) as [[[w rest3] n3]|]; [|done].
    cbn in *. destruct Hmore as (? & ? & ? & ? & ?). split_and!; done || lia.
  - eapply open_ends; [done|done|lia].
Qed.

Lemma json_set_ok key child v count :
  json_is_object v = true → json_find key v = None → string_ok key → json_ok child →
  json_ok v → count = Z.of_nat (length (items v)) → count + 1 <= jl_max_object_members limits →
  json_ok (json_set key child v).
Proof.
  intros Ho Hfind Hkey Hchild Hv Hc Hle. destruct v as [| | | | | | |ks cs]; try done. cbn in *.
  inversion_clear Hv as [| | | | | | |? ? Hlen Hnd Hstr Hlim Hall]. constructor.
  - rewrite !length_app. cbn. lia.
  - apply NoDup_app. split_and!; [done| |apply NoDup_singleton].
    intros k Hk ->%list_elem_of_singleton. by eapply find_member_None.
  - apply Forall_app. auto.
  - rewrite length_app. cbn. lia.
  - apply Forall_app. auto.
Qed.

Lemma parse_members_returns depth v count rest nodes :
  (2 * String.length rest < S fuel)%nat → json_is_object v = true →
  open_container depth nodes v count (jl_max_object_members limits) →
  returns (parse_members limits double_in_range (S fuel) depth v count rest nodes)
    (parsed depth rest nodes (json_nodes v)).
Proof.
  intros Hf Ho Hopen. rewrite parse_members_S; unfold member_turn.
  pose proof (skip_whitespace_length rest) as Hs.
  destruct (skip_whitespace rest) as [|c tail]; [auto|]. cbn in Hs. destruct (negb _); [auto|].
  eapply returns_bind; [apply (parse_string_returns (String.length tail)); [done|apply string_ok_empty]|].
  intros [key rest1] [Hkey H1]. cbn in Hkey, H1. case_bool_decide as Hfind; [auto|].
  pose proof (skip_whitespace_length rest1) as Hs1.
  destruct (skip_whitespace rest1) as [|d tail1]; [auto|]. cbn in Hs1. destruct (negb _); [auto|].
  eapply returns_bind; [apply IHv; lia|]. intros [[child rest2] nodes2] Hchild.
  destruct (Z.ltb_spec (jl_max_object_members limits) (count + 1)); [auto|].
  assert (json_ok (json_set key child v)) as Hset.
  { destruct Hopen. destruct Hchild. eapply json_set_ok; try done; by apply dec_stable. }
  destruct (container_grows _ _ _ _ _ (json_set key child v) _ _ _ _ Hopen Hchild) as [Hopen' Hn];
    [by destruct v|lia|done|]. destruct Hchild as (_ & _ & _ & _ & Hl).
  eapply next_or_end; [done|done|lia|]. intros rest3 H3. apply IHm; [lia|by destruct v|done].
Qed.

Lemma json_push_ok child v count :
  json_is_array v = true → json_ok child → json_ok v →
  count = Z.of_nat (length (items v)) → count + 1 <= jl_max_array_elements limits →
  json_ok (json_push child v).
Proof.
  intros Ha Hchild Hv Hc Hle. destruct v as [| | | | | |cs|]; try done. cbn in *.
  inversion_clear Hv as [| | | | | |? Hlim Hall|]. constructor.
  - rewrite length_app. cbn. lia.
  - apply Forall_app. auto.
Qed.

Lemma parse_elements_returns depth v count rest nodes :
  (2 * String.length rest + 1 < S fuel)%nat → json_is_array v = true →
  open_container depth nodes v count (jl_max_array_elements limits) →
  returns (parse_elements limits double_in_range (S fuel) depth v count rest nodes)
    (parsed depth rest nodes (json_nodes v)).
Proof.
  intros Hf Ha Hopen. rewrite parse_elements_S; unfold element_turn.
  eapply returns_bind; [apply IHv; lia|]. intros [[child rest2] nodes2] Hchild.
  destruct (Z.ltb_spec (jl_max_array_elements limits) (count + 1)); [auto|].
  assert (json_ok (json_push child v)) as Hpush.
  { destruct Hopen. destruct Hchild. by eapply json_push_ok. }
  destruct (container_grows _ _ _ _ _ (json_push child v) _ _ _ _ Hopen Hchild) as [Hopen' Hn];
    [by destruct v|lia|done|]. destruct Hchild as (_ & _ & _ & _ & Hl).
  eapply next_or_end; [done|done|lia|]. intros rest3 H3. apply IHe; [lia|by destruct v|done].
Qed.
End step.

Lemma parser_fuel fuel :
  (∀ depth rest nodes, (2 * String.length rest < fuel)%nat →
     returns (parse_value limits double_in_range fuel depth rest nodes)
       (parsed depth rest nodes 0)) ∧
  (∀ depth v count rest nodes,
     (2 * String.length rest < fuel)%nat → json_is_object v = true →
     open_container depth nodes v count (jl_max_object_members limits) →
     returns (parse_members limits double_in_range fuel depth v count rest nodes)
       (parsed depth rest nodes (json_nodes v))) ∧
  (∀ depth v count rest nodes,
     (2 * String.length rest + 1 < fuel)%nat → json_is_array v = true →
     open_container depth nodes v count (jl_max_array_elements limits) →
     returns (parse_elements limits double_in_range fuel depth v count rest nodes)
       (parsed depth rest nodes (json_nodes v))).
Proof.
  induction fuel as [|fuel (IHv & IHm & IHe)]; [split_and!; intros; lia|].
  split_and!.
  - intros. by apply parse_value_returns.
  - intros. by apply parse_members_returns.
  - intros. by apply parse_elements_returns.
Qed.
End json_ok.

(** C19: [parse_json] answers every text.  A value it returns is within the limits:
    nesting, node count, string lengths, members and elements; its member names are
    distinct and its integers fit their types.  Anything else is an error the parser
    reports, never an exhausted recursion. *)
Theorem parse_json_within_limits limits double_in_range text :
  match parse_json limits double_in_range text with
  | Value v =>
      json_ok limits double_in_range v ∧
      json_height v <= jl_max_depth limits ∧ json_nodes v <= jl_max_nodes limits
  | Failure e =>
      code e = ErrorCode.ParseError ∨ code e = ErrorCode.LimitExceeded ∨
      code e = ErrorCode.OutOfRange
  end.
Proof.
  unfold parse_json, parse_prefix. destruct (document_too_long _ _); [by right; left|].
  pose proof (proj1 (parser_fuel limits double_in_range (S (2 * String.length text)))
                0 text 0 ltac:(lia)) as H.
  destruct (parse_value _ _ _ _ _ _) as [[[v rest] nodes]|e]; cbn in *; [|exact H].
  destruct H as (Hok & Hn & Hm & Hd & _). case_bool_decide; cbn; [|by left].
  split; [done|]. lia.
Qed.
