(* ===== verification/JsonWriter.v ===== *)
(** * The JSON writer

    [JsonWriter] of [core/Json.hpp] and [core/Json.cpp], one definition per member
    function, and what a sequence of its calls produces: the text [json_text] of the
    value the calls describe.

    An operation takes the writer and gives the writer and its status ([Writing]);
    [QOBS_TRY] in a sequence of calls is [then_write].  The innermost open frame is
    the head of the lists. *)

From S2P Require Import Prelude Result Checked Text Json.
Open Scope Z_scope.

#[local] Set Warnings "-register-all".

Module Frame.
Inductive Frame : Set := Array | Object.
#[export] Instance Frame_eq_dec : EqDecision Frame.
Proof. solve_decision. Defined.
End Frame.
#[export] Existing Instance Frame.Frame_eq_dec.
Abbreviation Frame := Frame.Frame.

Record JsonWriter := mkWriter {
  jw_buffer : string;
  jw_stack : list Frame;
  jw_has_items : list bool;
  jw_awaiting_value : bool;
  jw_pretty : bool;
  jw_error : Error
}.

Definition new_writer (pretty : bool) : JsonWriter :=
  mkWriter EmptyString [] [] false pretty success.

Definition Writing : Type := JsonWriter → JsonWriter * Status.

Definition append_text (text : string) (w : JsonWriter) : JsonWriter :=
  mkWriter (jw_buffer w +:+ text) (jw_stack w) (jw_has_items w) (jw_awaiting_value w)
    (jw_pretty w) (jw_error w).
Definition set_awaiting (awaiting : bool) (w : JsonWriter) : JsonWriter :=
  mkWriter (jw_buffer w) (jw_stack w) (jw_has_items w) awaiting (jw_pretty w) (jw_error w).
Definition set_frames (stack : list Frame) (has_items : list bool) (w : JsonWriter) : JsonWriter :=
  mkWriter (jw_buffer w) stack has_items (jw_awaiting_value w) (jw_pretty w) (jw_error w).

(** [QOBS_TRY(first); second] *)
Definition then_write (first second : Writing) : Writing := λ w,
  let '(w, status) := first w in if ok status then second w else (w, status).
Definition write_nothing : Writing := λ w, (w, success).
Definition write_if (condition : bool) (f : Writing) : Writing :=
  if condition then f else write_nothing.
(** [for (entry : entries) { QOBS_TRY(...); }] *)
Definition write_each {A} (entries : list A) (f : A → Writing) : Writing :=
  fold_right (λ entry rest, then_write (f entry) rest) write_nothing entries.
Notation "'WRITE' a ;; b" := (then_write a b) (at level 10, a at level 99, b at level 200).

Definition writer_fail (c : ErrorCode) (m : string) : Writing := λ w,
  let w :=
    if bool_decide (code (jw_error w) = ErrorCode.Ok)
    then mkWriter (jw_buffer w) (jw_stack w) (jw_has_items w) (jw_awaiting_value w) (jw_pretty w)
           (mkError c m)
    else w in
  (w, jw_error w).

Definition ready : Writing := λ w,
  (w, if bool_decide (code (jw_error w) = ErrorCode.Ok) then success else jw_error w).

Definition newline_indent (w : JsonWriter) : JsonWriter :=
  if negb (jw_pretty w) then w
  else append_text (String (byte_char 10) (str_repeat " "%char (length (jw_stack w) * 2))) w.

(** [has_items_.back() = true], or the comma of the items there are. *)
Definition separate (w : JsonWriter) : JsonWriter :=
  match jw_has_items w with
  | false :: rest => set_frames (jw_stack w) (true :: rest) w
  | _ => append_text "," w
  end.

Definition before_value : Writing := λ w,
  if negb (bool_decide (code (jw_error w) = ErrorCode.Ok)) then (w, jw_error w)
  else
    match jw_stack w with
    | [] =>
        if negb (bool_decide (jw_buffer w = EmptyString)) then
          writer_fail ErrorCode.Internal "a JSON document may contain only one top-level value" w
        else (set_awaiting false w, success)
    | Frame.Object :: _ =>
        if negb (jw_awaiting_value w) then
          writer_fail ErrorCode.Internal "a member value must follow a member name" w
        else (set_awaiting false w, success)
    | Frame.Array :: _ => (set_awaiting false (newline_indent (separate w)), success)
    end.

(** A frame pushed after its opening character. *)
Definition open_frame (opening : string) (frame : Frame) : Writing :=
  WRITE before_value ;; λ w,
    let w := append_text opening w in
    (set_awaiting false (set_frames (frame :: jw_stack w) (false :: jw_has_items w) w), success).
(** A frame popped before its closing character. *)
Definition close_frame (closing : string) : JsonWriter → JsonWriter := λ w,
  let had_items := match jw_has_items w with true :: _ => true | _ => false end in
  let w := set_awaiting false (set_frames (tl (jw_stack w)) (tl (jw_has_items w)) w) in
  append_text closing (if had_items then newline_indent w else w).

Definition begin_object : Writing := open_frame "{" Frame.Object.
Definition begin_array : Writing := open_frame "[" Frame.Array.

Definition end_object : Writing :=
  WRITE ready ;; λ w,
    if negb (bool_decide (head (jw_stack w) = Some Frame.Object)) then
      writer_fail ErrorCode.Internal "no JSON object is open" w
    else if jw_awaiting_value w then
      writer_fail ErrorCode.Internal "a JSON object is missing the value of its last member" w
    else (close_frame "}" w, success).
Definition end_array : Writing :=
  WRITE ready ;; λ w,
    if negb (bool_decide (head (jw_stack w) = Some Frame.Array)) then
      writer_fail ErrorCode.Internal "no JSON array is open" w
    else (close_frame "]" w, success).

Definition quoted_text (s : string) : string :=
  String quote (escape_json s +:+ String quote EmptyString).

Definition key (name : string) : Writing :=
  WRITE ready ;; λ w,
    if negb (bool_decide (head (jw_stack w) = Some Frame.Object)) || jw_awaiting_value w then
      writer_fail ErrorCode.Internal "a member name is only valid directly inside an object" w
    else
      let w := append_text (quoted_text name +:+ ":") (newline_indent (separate w)) in
      (set_awaiting true (if jw_pretty w then append_text " " w else w), success).

(** The values written as one piece of text. *)
Definition value_text (text : string) : Writing :=
  WRITE before_value ;; λ w, (append_text text w, success).
Definition value_string (value : string) : Writing := value_text (quoted_text value).
Definition value_u64 (value : Z) : Writing := value_text (u64_to_string value).
Definition value_i64 (value : Z) : Writing := value_text (i64_to_string value).
Definition value_bool (value : bool) : Writing := value_text (if value then "true" else "false").
Definition value_null : Writing := value_text "null".
Definition value_passthrough (fragment : string) : Writing := value_text fragment.

(** The loop that multiplies the divisor. *)
Definition fixed_divisor (scale : nat) : Z := Nat.iter scale (λ divisor, wrap_u64 (divisor * 10)) 1.
Definition fixed_text (units : Z) (scale : nat) : string :=
  if (scale =? 0)%nat then u64_to_string units
  else
    let divisor := fixed_divisor scale in
    u64_to_string (units / divisor) +:+ "." +:+
      pad_left_with "0"%char scale (u64_to_string (units mod divisor)).
Definition value_fixed (units : Z) (scale : nat) : Writing :=
  WRITE before_value ;; λ w,
    if (9 <? scale)%nat then
      writer_fail ErrorCode.InvalidArgument "fixed-point scale must not exceed 9 digits" w
    else (append_text (fixed_text units scale) w, success).

Definition member_string (name value : string) : Writing := WRITE key name ;; value_string value.
Definition member_u64 (name : string) (value : Z) : Writing := WRITE key name ;; value_u64 value.
Definition member_i64 (name : string) (value : Z) : Writing := WRITE key name ;; value_i64 value.
Definition member_bool (name : string) (value : bool) : Writing :=
  WRITE key name ;; value_bool value.

(** What a sequence of calls on a new writer leaves in the buffer. *)
Definition written (pretty : bool) (f : Writing) : Result string :=
  let '(w, status) := f (new_writer pretty) in
  if ok status then Value (jw_buffer w) else Failure status.

Example writer_examples :
  written false (WRITE begin_object ;; WRITE member_u64 "a" 1 ;; WRITE key "b" ;;
                 WRITE begin_array ;; WRITE value_null ;; WRITE value_fixed 1205 3 ;;
                 WRITE end_array ;; end_object) =
    Value (quoted "{'a':1,'b':[null,1.205]}") ∧
  result_code (written false (WRITE begin_object ;; value_null)) = ErrorCode.Internal ∧
  result_code (written false (WRITE value_null ;; value_null)) = ErrorCode.Internal ∧
  result_code (written true (WRITE begin_object ;; WRITE key "a" ;; end_object)) = ErrorCode.Internal.
Proof. vm_compute. done. Qed.

(** ** The text of a value *)

Section text.
Context (pretty : bool).

Definition line_start (level : nat) : string :=
  if pretty then String (byte_char 10) (str_repeat " "%char (level * 2)) else EmptyString.

(** The items of a container, separated by commas, each on its line. *)
Fixpoint more_items (level : nat) (texts : list string) : string :=
  match texts with
  | [] => EmptyString
  | text :: texts => "," +:+ line_start level +:+ text +:+ more_items level texts
  end.
Definition items_text (level : nat) (texts : list string) : string :=
  match texts with
  | [] => EmptyString
  | text :: texts => line_start level +:+ text +:+ more_items level texts
  end.
Definition closing_text (level : nat) (texts : list string) : string :=
  match texts with [] => EmptyString | _ => line_start level end.

Definition member_text (name text : string) : string :=
  quoted_text name +:+ ":" +:+ (if pretty then " " else EmptyString) +:+ text.

(** The text of a value inside [level] open containers. *)
Fixpoint json_text (level : nat) (v : JsonValue) : string :=
  match v with
  | JNull => "null"
  | JBool b => if b then "true" else "false"
  | JInt n => i64_to_string n
  | JUint n => u64_to_string n
  | JDouble text => text
  | JString s => quoted_text s
  | JArray children =>
      let texts := map (json_text (S level)) children in
      "[" +:+ items_text (S level) texts +:+ closing_text level texts +:+ "]"
  | JObject ks children =>
      let texts := zip_with member_text ks (map (json_text (S level)) children) in
      "{" +:+ items_text (S level) texts +:+ closing_text level texts +:+ "}"
  end.
End text.

(** ** Calls that build a value

    [writes f v]: where a value may stand, [f] succeeds and appends the text of [v].
    [adds f vs] and [builds f kvs]: inside an open array or object that holds some
    items, [f] succeeds and adds these items. *)

Definition object_of (kvs : list (string * JsonValue)) : JsonValue :=
  JObject (map fst kvs) (map snd kvs).

Section builds.
Context (pretty : bool).

Definition writes (f : Writing) (v : JsonValue) : Prop :=
  ∀ w w', jw_pretty w = pretty → jw_error w = success → before_value w = (w', success) →
    f w = (append_text (json_text pretty (length (jw_stack w)) v) w', success).

(** The writer inside an open array, and inside an open object. *)
Definition in_container (opening : string) (frame : Frame) (base : string) (stack : list Frame)
    (has_items : list bool) (texts : list string) : JsonWriter :=
  mkWriter (base +:+ opening +:+ items_text pretty (S (length stack)) texts) (frame :: stack)
    (match texts with [] => false | _ => true end :: has_items) false pretty success.

Definition element_texts (level : nat) (vs : list JsonValue) : list string :=
  map (json_text pretty level) vs.
Definition member_texts (level : nat) (kvs : list (string * JsonValue)) : list string :=
  map (λ kv, member_text pretty kv.1 (json_text pretty level kv.2)) kvs.

Definition adds (f : Writing) (vs : list JsonValue) : Prop :=
  ∀ base stack has_items before,
    f (in_container "[" Frame.Array base stack has_items before) =
      (in_container "[" Frame.Array base stack has_items
         (before ++ element_texts (S (length stack)) vs), success).
Definition builds (f : Writing) (kvs : list (string * JsonValue)) : Prop :=
  ∀ base stack has_items before,
    f (in_container "{" Frame.Object base stack has_items before) =
      (in_container "{" Frame.Object base stack has_items
         (before ++ member_texts (S (length stack)) kvs), success).

Lemma then_write_ok f g w w' :
  f w = (w', success) → then_write f g w = g w'.
Proof. intros H. unfold then_write. by rewrite H. Qed.

(** One more item on an open container. *)
Lemma items_text_snoc level texts text :
  items_text pretty level (texts ++ [text]) =
    items_text pretty level texts +:+
      (match texts with [] => EmptyString | _ => "," end) +:+ line_start pretty level +:+ text.
Proof.
  destruct texts as [|first texts]; cbn [items_text app more_items].
  { by rewrite string_app_nil_r. }
  rewrite !string_app_assoc. do 2 f_equal.
  induction texts as [|t texts IH]; cbn [more_items app].
  { by rewrite !string_app_nil_r. }
  rewrite IH. by rewrite !string_app_assoc.
Qed.

Lemma newline_line_start w :
  jw_pretty w = pretty → newline_indent w = append_text (line_start pretty (length (jw_stack w))) w.
Proof.
  intros H. unfold newline_indent, line_start. rewrite H. case pretty; cbn; [done|].
  destruct w. cbn. unfold append_text. cbn. by rewrite string_app_nil_r.
Qed.

Lemma append_append a b w : append_text b (append_text a w) = append_text (a +:+ b) w.
Proof. unfold append_text. cbn. by rewrite string_app_assoc. Qed.

(** The separator and the line before an item. *)
Lemma separate_container opening frame base stack has_items texts text :
  append_text text
    (newline_indent (separate (in_container opening frame base stack has_items texts))) =
  in_container opening frame base stack has_items (texts ++ [text]).
Proof.
  unfold in_container. rewrite items_text_snoc.
  rewrite newline_line_start by (by destruct texts).
  rewrite append_append. unfold separate, append_text.
  destruct texts as [|t texts]; cbn [app jw_has_items jw_buffer jw_stack jw_pretty jw_error
    jw_awaiting_value set_frames append_text length]; f_equal; by rewrite !string_app_assoc.
Qed.

Lemma set_awaiting_container opening frame base stack has_items texts :
  set_awaiting false (in_container opening frame base stack has_items texts) =
  in_container opening frame base stack has_items texts.
Proof. done. Qed.

Lemma adds_value f v : writes f v → adds f [v].
Proof.
  intros Hf base stack has_items before.
  assert (before_value (in_container "[" Frame.Array base stack has_items before) =
    (newline_indent (separate (in_container "[" Frame.Array base stack has_items before)), success))
    as Hbefore.
  { unfold before_value. cbn [in_container jw_error jw_stack]. rewrite bool_decide_eq_true_2 by done.
    cbn [negb]. do 2 f_equal. unfold newline_indent, separate, set_awaiting, append_text.
    destruct before; cbn; by case pretty. }
  rewrite (Hf (in_container "[" Frame.Array base stack has_items before) _ eq_refl eq_refl Hbefore). by rewrite separate_container.
Qed.

Lemma builds_member f name v : writes f v → builds (WRITE key name ;; f) [(name, v)].
Proof.
  intros Hf base stack has_items before.
  set (w := in_container "{" Frame.Object base stack has_items before).
  set (sep := newline_indent (separate w)).
  assert (Hframe : jw_stack sep = Frame.Object :: stack ∧ jw_pretty sep = pretty ∧
    jw_error sep = success ∧ jw_awaiting_value sep = false).
  { subst sep w. unfold newline_indent, separate, in_container.
    destruct before; cbn; case pretty; done. }
  destruct Hframe as (Hst & Hpr & Herr & Haw).
  assert (key name w = (set_awaiting true (append_text (quoted_text name +:+ ":" +:+
    (if pretty then " " else EmptyString)) sep), success)) as Hkey.
  { unfold key. rewrite (then_write_ok _ _ _ w) by done. cbn [in_container w jw_stack head
      jw_awaiting_value]. rewrite bool_decide_eq_true_2 by done. cbn [negb orb].
    fold sep. cbn [jw_pretty append_text]. rewrite Hpr.
    case pretty; unfold append_text, set_awaiting; cbn; by rewrite ?string_app_assoc. }
  rewrite (then_write_ok _ _ _ _ Hkey).
  set (text := quoted_text name +:+ ":" +:+ _) in *.
  rewrite (Hf _ (append_text text sep)).
  - cbn [jw_stack set_awaiting append_text]. rewrite Hst. rewrite append_append.
    unfold sep, w. rewrite separate_container. subst text.
    unfold member_texts, member_text. cbn [map fst snd length]. by rewrite !string_app_assoc.
  - done.
  - done.
  - unfold before_value. cbn [set_awaiting append_text jw_error jw_stack jw_awaiting_value].
    rewrite Herr, Hst. cbn. unfold set_awaiting, append_text. cbn. by rewrite Haw.
Qed.

Lemma adds_nothing : adds write_nothing [].
Proof. intros base stack has_items before. cbn. by rewrite app_nil_r. Qed.
Lemma builds_nothing : builds write_nothing [].
Proof. intros base stack has_items before. cbn. by rewrite app_nil_r. Qed.

Lemma adds_then f g vs ws : adds f vs → adds g ws → adds (then_write f g) (vs ++ ws).
Proof.
  intros Hf Hg base stack has_items before. rewrite (then_write_ok _ _ _ _ (Hf _ _ _ _)), Hg.
  unfold element_texts. by rewrite map_app, app_assoc.
Qed.
Lemma builds_then f g kvs lws : builds f kvs → builds g lws → builds (then_write f g) (kvs ++ lws).
Proof.
  intros Hf Hg base stack has_items before. rewrite (then_write_ok _ _ _ _ (Hf _ _ _ _)), Hg.
  unfold member_texts. by rewrite map_app, app_assoc.
Qed.

Lemma adds_each {A} (entries : list A) f g :
  (∀ entry, entry ∈ entries → adds (f entry) (g entry)) →
  adds (write_each entries f) (flat_map g entries).
Proof.
  intros Hf. induction entries as [|entry entries IH]; [apply adds_nothing|].
  cbn. apply adds_then; [apply Hf; by left|]. apply IH. intros. apply Hf. by right.
Qed.
Lemma builds_each {A} (entries : list A) f g :
  (∀ entry, entry ∈ entries → builds (f entry) (g entry)) →
  builds (write_each entries f) (flat_map g entries).
Proof.
  intros Hf. induction entries as [|entry entries IH]; [apply builds_nothing|].
  cbn. apply builds_then; [apply Hf; by left|]. apply IH. intros. apply Hf. by right.
Qed.
Lemma builds_if (condition : bool) f kvs :
  (condition = true → builds f kvs) →
  builds (write_if condition f) (if condition then kvs else []).
Proof. destruct condition; cbn; intros; [auto|apply builds_nothing]. Qed.
Lemma adds_if (condition : bool) f vs :
  (condition = true → adds f vs) → adds (write_if condition f) (if condition then vs else []).
Proof. destruct condition; cbn; intros; [auto|apply adds_nothing]. Qed.

Lemma writes_text text v :
  (∀ level, json_text pretty level v = text) → writes (value_text text) v.
Proof. intros H w w' Hp He Hb. unfold value_text. by rewrite (then_write_ok _ _ _ _ Hb), H. Qed.
Lemma writes_string s : writes (value_string s) (JString s).
Proof. by apply writes_text. Qed.
Lemma writes_u64 n : writes (value_u64 n) (JUint n).
Proof. by apply writes_text. Qed.
Lemma writes_bool b : writes (value_bool b) (JBool b).
Proof. by apply writes_text. Qed.
Lemma writes_null : writes value_null JNull.
Proof. by apply writes_text. Qed.
(** A signed value that is not negative is read back as an unsigned one. *)
Definition signed_value (n : Z) : JsonValue := if n <? 0 then JInt n else JUint n.
Lemma writes_i64 n : writes (value_i64 n) (signed_value n).
Proof.
  apply writes_text. intros level. unfold signed_value. destruct (n <? 0) eqn:E; cbn; [done|].
  unfold i64_to_string. by rewrite E.
Qed.

(** A frame is opened, filled and closed. *)
Lemma before_value_frames w w' :
  jw_pretty w = pretty → jw_error w = success → before_value w = (w', success) →
  jw_stack w' = jw_stack w ∧ jw_pretty w' = pretty ∧ jw_error w' = success ∧
  jw_awaiting_value w' = false.
Proof.
  intros Hp He. unfold before_value. rewrite He. cbn [code success].
  rewrite bool_decide_eq_true_2 by done. cbn [negb].
  destruct (jw_stack w) as [|[] stack] eqn:Hs.
  - destruct (negb _); [unfold writer_fail; rewrite He; cbn; discriminate|]. by intros [= <-].
  - assert (jw_pretty (separate w) = jw_pretty w ∧ jw_stack (separate w) = jw_stack w ∧
      jw_error (separate w) = jw_error w) as (H1 & H2 & H3).
    { unfold separate. by destruct (jw_has_items w) as [|[] ?]. }
    intros [= <-]. rewrite newline_line_start by congruence. cbn. rewrite H1, H2, H3. auto.
  - destruct (negb _); [unfold writer_fail; rewrite He; cbn; discriminate|]. by intros [= <-].
Qed.

Lemma open_then_close opening frame closing close texts w w' f :
  jw_pretty w = pretty → jw_error w = success → before_value w = (w', success) →
  (∀ base stack has_items,
     f (in_container opening frame base stack has_items []) =
       (in_container opening frame base stack has_items (texts (length stack)), success)) →
  (∀ base stack has_items texts, let w := in_container opening frame base stack has_items texts in
     close w = (close_frame closing w, success)) →
  (WRITE open_frame opening frame ;; WRITE f ;; close) w =
  (append_text (opening +:+ items_text pretty (S (length (jw_stack w))) (texts (length (jw_stack w))) +:+
     closing_text pretty (length (jw_stack w)) (texts (length (jw_stack w))) +:+ closing) w', success).
Proof.
  intros Hp He Hb Hf Hclose. destruct (before_value_frames w w' Hp He Hb) as (Hs & Hp' & He' & Ha').
  assert (open_frame opening frame w =
    (in_container opening frame (jw_buffer w') (jw_stack w') (jw_has_items w') [], success)) as Hopen.
  { unfold open_frame. rewrite (then_write_ok _ _ _ _ Hb). destruct w'. cbn in *. subst.
    unfold in_container, append_text, set_frames, set_awaiting. cbn. by rewrite string_app_nil_r. }
  rewrite (then_write_ok _ _ _ _ Hopen), (then_write_ok _ _ _ _ (Hf _ _ _)), Hclose, <- Hs.
  f_equal. destruct w' as [buffer stack has_items awaiting pretty' error]. cbn in *. subst.
  unfold close_frame, in_container, newline_indent, closing_text, line_start.
  destruct (texts (length (jw_stack w))) as [|t ts];
    cbn [jw_has_items jw_stack tl set_frames set_awaiting jw_pretty jw_buffer jw_error jw_awaiting_value
         append_text];
    [|case pretty]; unfold append_text, set_awaiting, set_frames; cbn;
    by rewrite ?string_app_nil_r, ?string_app_assoc, ?string_app_cons.
Qed.

Lemma zip_members level kvs :
  zip_with (member_text pretty) (map fst kvs) (map (json_text pretty level) (map snd kvs)) =
  member_texts level kvs.
Proof. induction kvs as [|kv kvs IH]; cbn in *; [done|]. by rewrite IH. Qed.

Lemma writes_array f vs :
  adds f vs → writes (WRITE begin_array ;; WRITE f ;; end_array) (JArray vs).
Proof.
  intros Hf w w' Hp He Hb.
  apply (open_then_close "[" Frame.Array "]" end_array (λ n, element_texts (S n) vs)); try done.
Qed.

Lemma writes_object f kvs :
  builds f kvs → writes (WRITE begin_object ;; WRITE f ;; end_object) (object_of kvs).
Proof.
  intros Hf w w' Hp He Hb. unfold object_of. cbn [json_text]. rewrite zip_members.
  apply (open_then_close "{" Frame.Object "}" end_object (λ n, member_texts (S n) kvs)); try done.
Qed.

Lemma written_text f v : writes f v → written pretty f = Value (json_text pretty 0 v).
Proof. intros Hf. unfold written. by rewrite (Hf _ (new_writer pretty)). Qed.
End builds.

#[export] Hint Resolve writes_string writes_u64 writes_bool writes_null writes_i64 adds_value
  builds_member : qobs.

(** A value written through the calls that its parts ask for. *)
Fixpoint write_value (v : JsonValue) : Writing :=
  match v with
  | JNull => value_null
  | JBool b => value_bool b
  | JInt n => value_i64 n
  | JUint n => value_u64 n
  | JDouble text => value_passthrough text
  | JString s => value_string s
  | JArray children =>
      WRITE begin_array ;; WRITE write_each (map write_value children) id ;; end_array
  | JObject ks children =>
      WRITE begin_object ;;
      WRITE write_each (zip_with (λ name f, WRITE key name ;; f) ks (map write_value children)) id ;;
      end_object
  end.
