(* ===== verification/JsonRoundTrip.v ===== *)
(** * JSON: what is written is read back

    The parser on the text of a value, and the round trip of the writer and the
    parser. *)

From S2P Require Import Prelude Result Checked Text Json JsonBounds JsonWriter.
Open Scope Z_scope.

#[local] Set Warnings "-register-all".

(** The values whose text determines them: no floating point, and a signed integer
    is negative (the parser reads the others as unsigned). *)
Fixpoint printable (v : JsonValue) : bool :=
  match v with
  | JDouble _ => false
  | JInt n => n <? 0
  | JArray children | JObject _ children => forallb printable children
  | _ => true
  end.

(** ** Decimal numbers *)

(** The first digit of a positive number is not zero. *)
Lemma dec_digits_head fuel n acc :
  0 < n < 10 ^ Z.of_nat fuel →
  ∃ c s, dec_digits fuel n acc = String c s ∧ is_digit c = true ∧ byte_value c ≠ 48.
Proof.
  revert n acc. induction fuel as [|fuel IH]; intros n acc Hn; [cbn in Hn; lia|].
  cbn [dec_digits]. rewrite Nat2Z.inj_succ, Z.pow_succ_r in Hn by lia.
  pose proof (Z.div_mod n 10 ltac:(lia)). pose proof (Z.mod_pos_bound n 10 ltac:(lia)).
  destruct (Z.eqb_spec (n / 10) 0) as [E|E].
  - eexists _, _. split; [done|]. unfold is_digit. rewrite byte_value_char by lia. lia.
  - apply IH. split; [|apply Z.div_lt_upper_bound; lia].
    pose proof (Z.div_pos n 10). lia.
Qed.

Lemma u64_to_string_head n :
  is_u64 n → n ≠ 0 →
  ∃ c s, u64_to_string n = String c s ∧ is_digit c = true ∧ byte_value c ≠ 48.
Proof. intros Hn H0. apply dec_digits_head. cbn. word_lia. Qed.

(** The characters that end a number. *)
Definition ends_number (rest : string) : bool :=
  match rest with
  | String c _ =>
      negb (is_digit c || (byte_value c =? 46) || (byte_value c =? 101) || (byte_value c =? 69))
  | EmptyString => true
  end.

Lemma span_digits_app digits rest :
  str_forallb is_digit digits = true → ends_number rest = true →
  span_digits (digits +:+ rest) = (digits, rest).
Proof.
  intros Hd Hr. induction digits as [|c digits IH].
  - change (EmptyString +:+ rest) with rest. destruct rest as [|c rest]; [done|].
    cbn in *. revert Hr. by destruct (is_digit c).
  - rewrite string_app_cons. cbn in *. apply andb_prop in Hd as [-> Hd]. by rewrite IH.
Qed.

Lemma number_ends rest :
  ends_number rest = true →
  starts_digit rest = false ∧ parse_fraction_part rest = Value (EmptyString, rest) ∧
  parse_exponent rest = Value (EmptyString, rest).
Proof.
  destruct rest as [|c rest]; cbn [ends_number]; [done|].
  rewrite negb_true_iff, !orb_false_iff. intros [[[H0 H1] H2] H3].
  unfold starts_digit, parse_fraction_part, parse_exponent. by rewrite H0, H1, H2, H3.
Qed.

Lemma parse_whole_u64 n rest :
  is_u64 n → ends_number rest = true →
  parse_whole (u64_to_string n +:+ rest) = Value (u64_to_string n, rest).
Proof.
  intros Hn Hr. destruct (decide (n = 0)) as [->|H0].
  - change (parse_whole (String "0"%char rest) = Value (String "0"%char EmptyString, rest)).
    unfold parse_whole. cbn. by rewrite (proj1 (number_ends rest Hr)).
  - destruct (u64_to_string_head n Hn H0) as (c & s & E & Hc & Hz).
    pose proof (u64_to_string_digits n) as Hd. rewrite E in *.
    rewrite string_app_cons. cbn [parse_whole].
    rewrite Hc, (proj2 (Z.eqb_neq _ _) Hz). cbn [negb].
    change (String c (s +:+ rest)) with (String c s +:+ rest).
    by rewrite span_digits_app.
Qed.

Section numbers.
Context (double_in_range : string → bool).

Lemma parse_number_integer text negative rest1 whole rest :
  number_sign text = (negative, rest1) → parse_whole rest1 = Value (whole, rest) →
  ends_number rest = true →
  parse_number double_in_range text =
    (value ← integer_value negative whole; Value (value, rest)).
Proof.
  intros H1 H2 H3. destruct (number_ends rest H3) as (_ & H4 & H5).
  unfold parse_number. rewrite H1, H2. cbn. rewrite H4. cbn. rewrite H5. cbn.
  by rewrite !bool_decide_eq_true_2.
Qed.

Lemma parse_number_u64 n rest :
  is_u64 n → ends_number rest = true →
  parse_number double_in_range (u64_to_string n +:+ rest) = Value (JUint n, rest).
Proof.
  intros Hn Hr. erewrite (parse_number_integer _ false); [| |by apply parse_whole_u64|done].
  - unfold integer_value. rewrite u64_to_string_value by done. by is_true (n <=? u64_max).
  - pose proof (u64_to_string_digits n) as Hd. destruct (u64_to_string_cons n) as (c & s & E).
    rewrite E in *. rewrite string_app_cons. cbn [number_sign str_forallb] in *.
    apply andb_prop in Hd as [Hd _]. unfold is_digit in Hd. is_false (byte_value c =? 45). done.
Qed.

Lemma parse_number_negative n rest :
  i64_min <= n < 0 → ends_number rest = true →
  parse_number double_in_range (i64_to_string n +:+ rest) = Value (JInt n, rest).
Proof.
  intros Hn Hr. unfold i64_to_string. is_true (n <? 0). rewrite string_app_cons.
  erewrite parse_number_integer; [|reflexivity|apply parse_whole_u64; [word_lia|done]|done].
  unfold integer_value. rewrite u64_to_string_value by word_lia.
  is_true (- n <=? i64_max + 1). cbn. by rewrite Z.opp_involutive.
Qed.
End numbers.

(** ** Strings *)

Section strings.
Context (limits : JsonLimits).

(** Reading one escaped character gives the character. *)
Lemma parse_escaped_char c tail out :
  parse_string limits (escape_char c +:+ tail) out =
  (out ← push_text limits out (String c EmptyString); parse_string limits tail out).
Proof. by destruct c as [[] [] [] [] [] [] [] []]. Qed.

Lemma parse_escaped s rest out :
  Z.of_nat (String.length (out +:+ s)) <= jl_max_string_bytes limits →
  parse_string limits (escape_json s +:+ String quote rest) out = Value (out +:+ s, rest).
Proof.
  revert out. induction s as [|c s IH]; intros out Hlen.
  - cbn. by rewrite string_app_nil_r.
  - assert (out +:+ String c s = (out +:+ String c EmptyString) +:+ s) as Hs
      by (by rewrite string_app_assoc).
    rewrite Hs in Hlen |- *. cbn [escape_json str_bind]. fold (escape_json s).
    rewrite string_app_assoc, parse_escaped_char. unfold push_text.
    pose proof (string_length_app (out +:+ String c EmptyString) s) as Hl.
    is_false (jl_max_string_bytes limits <? Z.of_nat (String.length (out +:+ String c EmptyString))).
    cbn. by apply IH.
Qed.

Lemma parse_quoted_text s rest :
  string_ok limits s → 0 <= jl_max_string_bytes limits →
  parse_string limits (escape_json s +:+ String quote rest) EmptyString = Value (s, rest).
Proof. unfold string_ok. intros Hs H0. apply parse_escaped. change (EmptyString +:+ s) with s. lia. Qed.
End strings.

(** ** Values *)

Definition blank (s : string) : Prop := str_forallb is_json_whitespace s = true.

Lemma string_app_nil_l (s : string) : EmptyString +:+ s = s.
Proof. done. Qed.

Lemma skip_blank ws rest : blank ws → skip_whitespace (ws +:+ rest) = skip_whitespace rest.
Proof.
  unfold blank. induction ws as [|c ws IH]; intros Hb; [done|]. rewrite string_app_cons.
  cbn in *. apply andb_prop in Hb as [-> Hb]. auto.
Qed.

Lemma line_start_blank pretty level : blank (line_start pretty level).
Proof.
  unfold line_start, blank. destruct pretty; [|done]. cbn.
  induction (level * 2)%nat as [|n IH]; cbn; [done|exact IH].
Qed.
Lemma closing_text_blank pretty level texts : blank (closing_text pretty level texts).
Proof. destruct texts; [done|apply line_start_blank]. Qed.

Lemma blank_ends_number ws c rest :
  blank ws → ends_number (String c EmptyString) = true →
  ends_number (ws +:+ String c rest) = true.
Proof.
  unfold blank. destruct ws as [|d ws]; [done|]. rewrite string_app_cons. cbn.
  intros [Hd _]%andb_prop _. unfold is_json_whitespace, is_digit in *. lia.
Qed.

(** The first character of a value's text. *)
Lemma json_text_head pretty level v :
  printable v = true →
  ∃ c s, json_text pretty level v = String c s ∧ is_json_whitespace c = false ∧
         byte_value c ≠ 93 ∧ byte_value c ≠ 125.
Proof.
  assert (∀ n, ∃ c s, u64_to_string n = String c s ∧ is_json_whitespace c = false ∧
    byte_value c ≠ 93 ∧ byte_value c ≠ 125) as Hu.
  { intros n. destruct (u64_to_string_cons n) as (c & s & E). exists c, s. split; [done|].
    pose proof (u64_to_string_digits n) as Hd. rewrite E in Hd. cbn in Hd.
    apply andb_prop in Hd as [Hd _]. unfold is_digit, is_json_whitespace in *. lia. }
  destruct v as [|[]|n|n|text|s|cs|ks cs]; cbn [printable json_text]; intros Hp; try done;
    try (by eexists _, _; repeat split).
  unfold i64_to_string. rewrite Hp. by eexists _, _.
Qed.

Section values.
Context (limits : JsonLimits) (double_in_range : string → bool) (pretty : bool).
Context (unsigned_limit : 0 <= jl_max_string_bytes limits).

(** A value as the parser finds it: [rest] cannot continue it, and the remaining
    depth, nodes and fuel are enough. *)
Definition reads (v : JsonValue) : Prop :=
  ∀ level fuel depth ws rest nodes,
    2 * json_nodes v - 1 <= Z.of_nat fuel → depth + json_height v <= jl_max_depth limits →
    nodes + json_nodes v <= jl_max_nodes limits → blank ws → ends_number rest = true →
    parse_value limits double_in_range fuel depth (ws +:+ json_text pretty level v +:+ rest) nodes =
      Value (v, rest, nodes + json_nodes v).

Lemma json_nodes_pos v : 1 <= json_nodes v.
Proof.
  induction v as [v Hv|cs Hcs|ks cs Hcs] using json_value_induction;
    rewrite json_nodes_of; [rewrite Hv; cbn; lia| |]; cbn [items]; unfold nodes_of;
    induction Hcs; cbn in *; lia.
Qed.
Lemma nodes_of_nonneg cs : 0 <= nodes_of cs.
Proof.
  unfold nodes_of. induction cs as [|c cs IH]; cbn; [lia|]. pose proof (json_nodes_pos c). lia.
Qed.
Lemma nodes_of_cons c cs : nodes_of (c :: cs) = json_nodes c + nodes_of cs.
Proof. done. Qed.
Lemma heights_cons c cs : heights (c :: cs) = Z.max (1 + json_height c) (heights cs).
Proof. done. Qed.

(** The call of [parse_value], up to the first character. *)
Lemma parse_value_starts fuel depth ws c s nodes :
  depth <= jl_max_depth limits → nodes + 1 <= jl_max_nodes limits → blank ws →
  is_json_whitespace c = false →
  parse_value limits double_in_range (S fuel) depth (ws +:+ String c s) nodes =
  value_switch limits double_in_range (parse_members limits double_in_range fuel)
    (parse_elements limits double_in_range fuel) depth c s (nodes + 1).
Proof.
  intros Hd Hn Hb Hc. rewrite parse_value_S. unfold value_call. rewrite skip_blank by done.
  is_false (jl_max_depth limits <? depth). is_false (jl_max_nodes limits <? nodes + 1).
  cbn [skip_whitespace]. by rewrite Hc.
Qed.

(** The elements after the opening bracket, and after a comma. *)
Lemma reads_elements level fuel depth ws before c cs rest nodes :
  blank ws →
  Forall reads (c :: cs) →
  2 * nodes_of (c :: cs) <= Z.of_nat fuel →
  depth + heights (c :: cs) <= jl_max_depth limits →
  nodes + nodes_of (c :: cs) <= jl_max_nodes limits →
  Z.of_nat (length before + S (length cs)) <= Z.max 0 (jl_max_array_elements limits) →
  parse_elements limits double_in_range fuel depth (JArray before) (Z.of_nat (length before))
    (ws +:+ json_text pretty (S level) c +:+
       more_items pretty (S level) (map (json_text pretty (S level)) cs) +:+
       line_start pretty level +:+ String "]"%char rest) nodes =
  Value (JArray (before ++ c :: cs), rest, nodes + nodes_of (c :: cs)).
Proof.
  revert fuel ws before c nodes.
  induction cs as [|c' cs IH]; intros fuel ws before c nodes Hws Hall Hf Hd Hn Hl;
    pose proof (json_nodes_pos c); pose proof (nodes_of_nonneg (tl [c])).
  all: rewrite nodes_of_cons, heights_cons in *; inversion_clear Hall as [|? ? Hc Hcs].
  - change (nodes_of []) with 0 in *. change (heights []) with 0 in *.
    destruct fuel as [|fuel]; [lia|]. rewrite parse_elements_S; unfold element_turn; cbn [map more_items].
    rewrite string_app_nil_l.
    rewrite (Hc (S level)); [|lia|lia|lia|done|].
    2: { apply blank_ends_number; [apply line_start_blank|done]. }
    cbn. is_false (jl_max_array_elements limits <? Z.of_nat (length before) + 1).
    rewrite skip_blank by apply line_start_blank. cbn. do 2 f_equal. lia.
  - pose proof (nodes_of_nonneg (c' :: cs)).
    destruct fuel as [|fuel]; [lia|]. rewrite parse_elements_S; unfold element_turn; cbn [map more_items].
    rewrite !string_app_assoc, string_app_cons.
    rewrite (Hc (S level)); [|lia|lia|lia|done|done].
    cbn [length] in Hl. cbn [mbind Result_bind json_push].
    is_false (jl_max_array_elements limits <? Z.of_nat (length before) + 1).
    change (skip_whitespace (String ","%char ?s)) with (String ","%char s).
    change (byte_value ","%char =? 44) with true. cbn match.
    specialize (IH fuel _ (before ++ [c]) c' (nodes + json_nodes c)
      (line_start_blank pretty (S level)) Hcs).
    rewrite length_app in IH. cbn [length] in IH.
    replace (Z.of_nat (length before) + 1) with (Z.of_nat (length before + 1)) by lia.
    rewrite string_app_nil_l, IH by lia. rewrite <- app_assoc. do 2 f_equal. lia.
Qed.

Lemma find_member_not_in k bks before : k ∉ bks → find_member k bks before = None.
Proof.
  revert before. induction bks as [|b bks IH]; intros [|c before] Hk; cbn; try done.
  apply not_elem_of_cons in Hk as [Hk Hb]. rewrite bool_decide_eq_false_2 by done. auto.
Qed.

(** One member: what is left to do after its value. *)
Lemma reads_member level fuel depth ws bks before k c tail nodes :
  blank ws →
  reads c → string_ok limits k → k ∉ bks → ends_number tail = true →
  2 * json_nodes c - 1 <= Z.of_nat fuel → depth + 1 + json_height c <= jl_max_depth limits →
  nodes + json_nodes c <= jl_max_nodes limits →
  Z.of_nat (length before) + 1 <= jl_max_object_members limits →
  parse_members limits double_in_range (S fuel) depth (JObject bks before)
    (Z.of_nat (length before))
    (ws +:+ member_text pretty k (json_text pretty (S level) c) +:+ tail)
    nodes =
  match skip_whitespace tail with
  | EmptyString => parse_error "unterminated JSON object"
  | String d rest =>
      if byte_value d =? 44 then
        parse_members limits double_in_range fuel depth (JObject (bks ++ [k]) (before ++ [c]))
          (Z.of_nat (length before) + 1) rest (nodes + json_nodes c)
      else if byte_value d =? 125 then
        Value (JObject (bks ++ [k]) (before ++ [c]), rest, nodes + json_nodes c)
      else parse_error "expected a comma or a closing brace in a JSON object"
  end.
Proof.
  intros Hws Hc Hk Hnew Htail Hf Hd Hn Hl. rewrite parse_members_S; unfold member_turn.
  rewrite skip_blank by done. unfold member_text, quoted_text.
  rewrite !string_app_cons. change (skip_whitespace (String quote ?s)) with (String quote s).
  change (negb (byte_value quote =? 34)) with false. cbn match.
  rewrite !string_app_assoc, !string_app_cons, parse_quoted_text by done.
  cbn [mbind Result_bind json_find]. rewrite find_member_not_in by done.
  rewrite bool_decide_eq_false_2 by auto.
  rewrite ?string_app_cons, ?string_app_nil_l, ?string_app_assoc, ?string_app_nil_l.
  change (skip_whitespace (String ":"%char ?s)) with (String ":"%char s).
  change (negb (byte_value ":"%char =? 58)) with false. cbn match.
  rewrite (Hc (S level)); [|done|done|done|by destruct pretty|done].
  cbn [mbind Result_bind json_set]. by is_false (jl_max_object_members limits <? Z.of_nat (length before) + 1).
Qed.

(** The members after the opening brace, and after a comma. *)
Lemma reads_members level fuel depth ws bks before k c kvs rest nodes :
  blank ws →
  Forall (λ kv, reads kv.2 ∧ string_ok limits kv.1) ((k, c) :: kvs) →
  length bks = length before → NoDup (bks ++ k :: map fst kvs) →
  2 * nodes_of (c :: map snd kvs) <= Z.of_nat fuel →
  depth + heights (c :: map snd kvs) <= jl_max_depth limits →
  nodes + nodes_of (c :: map snd kvs) <= jl_max_nodes limits →
  Z.of_nat (length before + S (length kvs)) <= Z.max 0 (jl_max_object_members limits) →
  parse_members limits double_in_range fuel depth (JObject bks before) (Z.of_nat (length before))
    (ws +:+ member_text pretty k (json_text pretty (S level) c) +:+
       more_items pretty (S level) (member_texts pretty (S level) kvs) +:+
       line_start pretty level +:+ String "}"%char rest) nodes =
  Value (JObject (bks ++ k :: map fst kvs) (before ++ c :: map snd kvs), rest,
         nodes + nodes_of (c :: map snd kvs)).
Proof.
  revert fuel ws bks before k c nodes.
  induction kvs as [|[k' c'] kvs IH]; intros fuel ws bks before k c nodes Hws Hall Hlen Hnd Hf Hd Hn Hl;
    pose proof (json_nodes_pos c); cbn [map fst snd] in *.
  all: rewrite nodes_of_cons, heights_cons in *; inversion_clear Hall as [|? ? [Hc Hk] Hcs].
  all: cbn [fst snd length] in *; assert (k ∉ bks) by
    (apply NoDup_app in Hnd as (_ & Hnd & _); intros Hin; apply (Hnd k Hin); by left).
  - change (nodes_of []) with 0 in *. change (heights []) with 0 in *.
    destruct fuel as [|fuel]; [lia|]. cbn [member_texts map more_items].
    rewrite string_app_nil_l, reads_member; try done || lia.
    2: { apply blank_ends_number; [apply line_start_blank|done]. }
    rewrite skip_blank by apply line_start_blank. cbn. do 2 f_equal. lia.
  - pose proof (nodes_of_nonneg (c' :: map snd kvs)).
    destruct fuel as [|fuel]; [lia|]. cbn [member_texts map more_items fst snd].
    fold (member_texts pretty (S level) kvs). rewrite !string_app_assoc, reads_member; try done || lia.
    rewrite string_app_cons.
    change (skip_whitespace (String ","%char ?s)) with (String ","%char s).
    change (byte_value ","%char =? 44) with true. cbn match.
    specialize (IH fuel _ (bks ++ [k]) (before ++ [c]) k' c' (nodes + json_nodes c)
      (line_start_blank pretty (S level)) Hcs).
    rewrite !length_app in IH. cbn [length] in IH.
    replace (Z.of_nat (length before) + 1) with (Z.of_nat (length before + 1)) by lia.
    rewrite string_app_nil_l, IH by (rewrite ?Hlen, <- ?app_assoc; done || lia).
    rewrite <- !app_assoc. do 2 f_equal. lia.
Qed.

(** A value's own condition: what the parser can return and the text can say. *)
Definition readable (v : JsonValue) : Prop := json_ok limits double_in_range v ∧ printable v = true.

(** The [switch] on the first character of each kind of text. *)
Section switch.
Context (members elements : Z → JsonValue → Z → string → Z → Parsed).

Lemma switch_number depth c s v rest nodes :
  byte_value c = 45 ∨ is_digit c = true →
  parse_number double_in_range (String c s) = Value (v, rest) →
  value_switch limits double_in_range members elements depth c s nodes = Value (v, rest, nodes).
Proof.
  intros Hc Hv. assert (byte_value c = 45 ∨ 48 <= byte_value c <= 57) as Hb
    by (unfold is_digit in Hc; lia).
  unfold value_switch. is_false (byte_value c =? 123). is_false (byte_value c =? 91).
  is_false (byte_value c =? 34). is_false (byte_value c =? 116). is_false (byte_value c =? 102).
  is_false (byte_value c =? 110).
  assert ((byte_value c =? 45) || is_digit c = true) as -> by (unfold is_digit in *; lia).
  by rewrite Hv.
Qed.

Lemma switch_leaf level depth v rest nodes c s :
  items v = [] → readable v → ends_number rest = true →
  json_text pretty level v +:+ rest = String c s →
  value_switch limits double_in_range members elements depth c s nodes = Value (v, rest, nodes).
Proof.
  intros Hi [Hok Hp] Hr. destruct v as [|b|n|n|text|t|cs|ks cs]; cbn [json_text items] in *; subst; try done.
  - by intros [= <- <-].
  - by destruct b; intros [= <- <-].
  - cbn in Hp. inversion_clear Hok. intros E.
    apply switch_number; [|rewrite <- E; apply parse_number_negative; [lia|done]].
    unfold i64_to_string in E. rewrite Hp, string_app_cons in E. simplify_eq. by left.
  - inversion_clear Hok. intros E.
    apply switch_number; [right|rewrite <- E; by apply parse_number_u64].
    pose proof (u64_to_string_digits n) as Hd. destruct (u64_to_string_cons n) as (d & t & Et).
    rewrite Et in *. rewrite string_app_cons in E. simplify_eq. cbn in Hd. by apply andb_prop in Hd as [-> _].
  - inversion_clear Hok. unfold quoted_text. rewrite string_app_cons, string_app_assoc, string_app_cons.
    intros [= <- <-]. unfold value_switch.
    change (byte_value quote =? 123) with false. change (byte_value quote =? 91) with false.
    change (byte_value quote =? 34) with true. cbn match.
    rewrite string_app_nil_l. by rewrite parse_quoted_text.
  - by intros [= <- <-].
  - inversion_clear Hok. destruct ks; [|done]. by intros [= <- <-].
Qed.
End switch.

Lemma nodes_of_pos c cs : 1 <= nodes_of (c :: cs).
Proof. rewrite nodes_of_cons. pose proof (json_nodes_pos c). pose proof (nodes_of_nonneg cs). lia. Qed.

Lemma leaf_reads v : items v = [] → readable v → reads v.
Proof.
  intros Hi Hv level fuel depth ws rest nodes Hf Hd Hn Hb Hr.
  destruct (json_text_head pretty level v (proj2 Hv)) as (c & s & E & Hc & _ & _).
  rewrite (json_nodes_of v), (json_height_heights v), Hi in *.
  change (nodes_of []) with 0 in *. change (heights []) with 0 in *.
  destruct fuel as [|fuel]; [lia|]. rewrite E, string_app_cons.
  rewrite parse_value_starts by done || lia.
  rewrite (switch_leaf _ _ level _ v rest); [do 2 f_equal; lia|done|done|done|].
  by rewrite E.
Qed.

(** An opening character that is followed by an item. *)
Lemma switch_array members elements depth text rest nodes level c :
  printable c = true →
  text = line_start pretty level +:+ json_text pretty level c +:+ rest →
  value_switch limits double_in_range members elements depth "["%char text nodes =
    elements depth (JArray []) 0 (json_text pretty level c +:+ rest) nodes.
Proof.
  intros Hp ->. destruct (json_text_head pretty level c Hp) as (d & s & E & Hd & H93 & _).
  unfold value_switch. change (byte_value "["%char =? 123) with false.
  change (byte_value "["%char =? 91) with true. cbn match.
  rewrite skip_blank by apply line_start_blank. rewrite E, string_app_cons.
  cbn [skip_whitespace]. rewrite Hd. by is_false (byte_value d =? 93).
Qed.

Lemma switch_object members elements depth text rest nodes level k t :
  text = line_start pretty level +:+ member_text pretty k t +:+ rest →
  value_switch limits double_in_range members elements depth "{"%char text nodes =
    members depth (JObject [] []) 0 (member_text pretty k t +:+ rest) nodes.
Proof.
  intros ->. unfold value_switch. change (byte_value "{"%char =? 123) with true. cbn match.
  by rewrite skip_blank by apply line_start_blank.
Qed.

Lemma array_reads cs : Forall reads cs → readable (JArray cs) → reads (JArray cs).
Proof.
  intros Hcs Hv. destruct cs as [|c cs]; [by apply leaf_reads|].
  destruct Hv as [Hok Hp]. inversion_clear Hok as [| | | | | |? Hlim _|].
  intros level fuel depth ws rest nodes Hf Hd Hn Hb Hr.
  rewrite (json_nodes_of (JArray _)), (json_height_heights (JArray _)) in *. cbn [items] in *.
  pose proof (nodes_of_pos c cs). destruct fuel as [|fuel]; [lia|].
  cbn [json_text map items_text closing_text]. cbn [printable forallb] in Hp.
  apply andb_prop in Hp as [Hp _].
  rewrite ?string_app_assoc, string_app_cons.
  rewrite parse_value_starts; [|pose proof (heights_nonneg (c :: cs)); lia|lia|done|done].
  rewrite string_app_nil_l. erewrite (switch_array _ _ _ _ _ _ (S level) c);
    [|done|rewrite ?string_app_assoc; reflexivity].
  etransitivity; [apply (reads_elements level fuel depth EmptyString []); try done || lia|].
  cbn [app]. do 2 f_equal. lia.
Qed.

Lemma object_reads ks cs : Forall reads cs → readable (JObject ks cs) → reads (JObject ks cs).
Proof.
  intros Hcs Hv. destruct cs as [|c cs]; [by apply leaf_reads|].
  destruct Hv as [Hok Hp]. inversion_clear Hok as [| | | | | | |? ? Hlen Hnd Hstr Hlim _].
  intros level fuel depth ws rest nodes Hf Hd Hn Hb Hr.
  rewrite (json_nodes_of (JObject _ _)), (json_height_heights (JObject _ _)) in *. cbn [items] in *.
  pose proof (nodes_of_pos c cs). destruct fuel as [|fuel]; [lia|]. destruct ks as [|k ks]; [done|].
  assert (∃ kvs, ks = map fst kvs ∧ cs = map snd kvs) as (kvs & -> & ->).
  { exists (zip ks cs). rewrite fst_zip, snd_zip by (cbn in Hlen; lia). done. }
  cbn [json_text map zip_with items_text closing_text]. rewrite zip_members.
  rewrite ?string_app_assoc, string_app_cons.
  rewrite parse_value_starts; [|pose proof (heights_nonneg (c :: map snd kvs)); lia|lia|done|done].
  rewrite string_app_nil_l. erewrite (switch_object _ _ _ _ _ _ (S level) k);
    [|rewrite ?string_app_assoc; reflexivity].
  etransitivity; [apply (reads_members level fuel depth EmptyString [] [] k c kvs); try done || lia|].
  - constructor; [by inversion_clear Hcs; inversion_clear Hstr|].
    inversion_clear Hcs as [|? ? _ Hcs']. inversion_clear Hstr as [|? ? _ Hstr'].
    rewrite Forall_map in Hcs'. rewrite Forall_map in Hstr'. by apply Forall_and.
  - cbn [length] in *. rewrite length_map in Hlim. lia.
  - cbn [app]. do 2 f_equal. lia.
Qed.

Lemma forall_readable (P : JsonValue → Prop) cs :
  Forall (λ v, readable v → P v) cs → Forall (json_ok limits double_in_range) cs →
  forallb printable cs = true → Forall P cs.
Proof.
  induction 1 as [|v cs Hv _ IH]; [constructor|]. inversion_clear 1. cbn.
  intros [? ?]%andb_prop. constructor; [by apply Hv|auto].
Qed.

Lemma value_reads v : readable v → reads v.
Proof.
  induction v as [v Hv|cs IH|ks cs IH] using json_value_induction; [by apply leaf_reads| |];
    intros [Hok Hp]; [apply array_reads|apply object_reads]; try done;
    inversion_clear Hok; by eapply forall_readable.
Qed.

(** A value's text has a character for each of its nodes, so the parser's fuel is
    enough. *)
Definition total_length (texts : list string) : Z :=
  fold_right (λ t n, Z.of_nat (String.length t) + n) 0 texts.

Lemma items_text_length level texts :
  total_length texts <= Z.of_nat (String.length (items_text pretty level texts)).
Proof.
  destruct texts as [|t texts]; cbn [items_text total_length fold_right String.length]; [lia|].
  rewrite !string_length_app. fold (total_length texts).
  assert (total_length texts <= Z.of_nat (String.length (more_items pretty level texts))); [|lia].
  clear. induction texts as [|t texts IH]; cbn [more_items total_length fold_right]; [cbn; lia|].
  rewrite !string_length_app. fold (total_length texts). lia.
Qed.

Lemma text_length v :
  readable v →
  ∀ level, json_nodes v <= Z.of_nat (String.length (json_text pretty level v)).
Proof.
  induction v as [v Hi|cs IH|ks cs IH] using json_value_induction; intros [Hok Hp] level.
  - destruct (json_text_head pretty level v Hp) as (c & s & E & _). rewrite E, json_nodes_of, Hi.
    cbn. lia.
  - inversion_clear Hok as [| | | | | |? _ Hall|].
    cbn [json_text]. rewrite json_nodes_of, !string_length_app. cbn [items String.length].
    pose proof (items_text_length (S level) (map (json_text pretty (S level)) cs)).
    assert (nodes_of cs <= total_length (map (json_text pretty (S level)) cs)); [|lia].
    apply (forall_readable _ _ IH) in Hall; [|done].
    clear -Hall. induction Hall as [|c cs Hc _ IH]; [done|].
    rewrite nodes_of_cons. cbn. specialize (Hc (S level)). unfold total_length in IH. lia.
  - inversion_clear Hok as [| | | | | | |? ? Hlen _ _ _ Hall].
    cbn [json_text]. rewrite json_nodes_of, !string_length_app. cbn [items String.length].
    set (texts := zip_with _ _ _).
    pose proof (items_text_length (S level) texts).
    assert (nodes_of cs <= total_length texts); [|lia].
    apply (forall_readable _ _ IH) in Hall; [|done]. subst texts.
    clear -Hall Hlen. revert ks Hlen.
    induction Hall as [|c cs Hc _ IH]; intros [|k ks] Hlen; try done.
    rewrite nodes_of_cons. cbn. unfold member_text at 1. rewrite !string_length_app.
    specialize (Hc (S level)). specialize (IH ks ltac:(cbn in Hlen; lia)).
    unfold total_length in IH. lia.
Qed.

Lemma parse_json_text v :
  readable v → json_height v <= jl_max_depth limits → json_nodes v <= jl_max_nodes limits →
  Z.of_nat (String.length (json_text pretty 0 v)) <= jl_max_document_bytes limits →
  parse_json limits double_in_range (json_text pretty 0 v) = Value v.
Proof.
  intros Hv Hd Hn Hl. unfold parse_json, document_too_long, parse_prefix.
  is_false (jl_max_document_bytes limits <? Z.of_nat (String.length (json_text pretty 0 v))).
  pose proof (text_length v Hv 0).
  pose proof (value_reads v Hv 0%nat (S (2 * String.length (json_text pretty 0 v))) 0 EmptyString
    EmptyString 0) as H1.
  rewrite string_app_nil_l, string_app_nil_r in H1. rewrite H1; try done || lia.
Qed.
End values.

(** ** Compact text is one line *)

Definition plain (s : string) : Prop := str_forallb (λ c, 32 <=? byte_value c) s = true.

Lemma str_forallb_app f a b : str_forallb f (a +:+ b) = str_forallb f a && str_forallb f b.
Proof.
  induction a as [|c a IH]; [done|]. rewrite string_app_cons. cbn. rewrite IH. by rewrite andb_assoc.
Qed.
Lemma plain_app a b : plain a → plain b → plain (a +:+ b).
Proof. unfold plain. rewrite str_forallb_app. by intros -> ->. Qed.

Lemma escape_char_plain c : plain (escape_char c).
Proof. by destruct c as [[] [] [] [] [] [] [] []]. Qed.
Lemma escape_char_length c : (String.length (escape_char c) <= 6)%nat.
Proof. apply Nat.leb_le. by destruct c as [[] [] [] [] [] [] [] []]. Qed.

Lemma quoted_text_plain s : plain (quoted_text s).
Proof.
  unfold quoted_text. apply (plain_app (String quote EmptyString)); [done|].
  apply plain_app; [|done]. unfold escape_json.
  induction s as [|c s IH]; [done|]. cbn. by apply plain_app; [apply escape_char_plain|].
Qed.
Lemma quoted_text_length s : (String.length (quoted_text s) <= 2 + 6 * String.length s)%nat.
Proof.
  unfold quoted_text. cbn [String.length]. rewrite string_length_app. cbn [String.length].
  assert (String.length (escape_json s) <= 6 * String.length s)%nat; [|lia].
  induction s as [|c s IH]; [done|]. cbn [escape_json str_bind String.length].
  rewrite string_length_app. pose proof (escape_char_length c). unfold escape_json in IH. lia.
Qed.

Lemma digits_plain n : plain (u64_to_string n).
Proof.
  pose proof (u64_to_string_digits n) as H. unfold plain. revert H.
  generalize (u64_to_string n) as s. induction s as [|c s IH]; cbn; [done|].
  intros [Hc Hs]%andb_prop. rewrite IH by done. unfold is_digit in Hc. lia.
Qed.
Lemma dec_digits_length fuel n acc :
  (String.length (dec_digits fuel n acc) <= fuel + String.length acc)%nat.
Proof.
  revert n acc. induction fuel as [|fuel IH]; intros n acc; cbn [dec_digits]; [lia|].
  destruct (_ =? _); cbn; [lia|]. specialize (IH (n / 10) (String (byte_char (48 + n mod 10)) acc)).
  cbn in IH. lia.
Qed.
Lemma u64_to_string_length n : (String.length (u64_to_string n) <= 20)%nat.
Proof. apply (dec_digits_length 20). Qed.

(** The items of a compact container. *)
Lemma items_text_plain level texts : Forall plain texts → plain (items_text false level texts).
Proof.
  intros H. destruct H as [|t texts Ht Hts]; [done|]. cbn [items_text line_start].
  rewrite string_app_nil_l. apply plain_app; [done|].
  induction Hts as [|u texts Hu _ IH]; [done|]. cbn [more_items line_start].
  rewrite string_app_nil_l. apply plain_app; [done|]. by apply plain_app.
Qed.
Lemma items_text_bound level texts n :
  Forall (λ t, Z.of_nat (String.length t) <= n) texts →
  Z.of_nat (String.length (items_text false level texts)) <= Z.of_nat (length texts) * (n + 1).
Proof.
  intros H. destruct H as [|t texts Ht Hts]; [done|]. cbn [items_text line_start].
  rewrite string_app_nil_l, string_length_app.
  assert (Z.of_nat (String.length (more_items false level texts)) <=
    Z.of_nat (length texts) * (n + 1)); [|cbn [length]; lia].
  induction Hts as [|u texts Hu _ IH]; [done|]. cbn [more_items line_start length].
  rewrite string_app_nil_l, !string_length_app. cbn [String.length]. lia.
Qed.

Lemma json_text_plain v : printable v = true → ∀ level, plain (json_text false level v).
Proof.
  induction v as [v Hi|cs IH|ks cs IH] using json_value_induction; intros Hp level.
  - destruct v as [|[]|n|n|text|t|[]|[] []]; cbn in *; try done.
    + unfold i64_to_string. rewrite Hp. apply (plain_app "-"); [done|apply digits_plain].
    + apply digits_plain.
    + apply quoted_text_plain.
  - cbn [json_text]. apply plain_app; [done|]. apply plain_app.
    + apply items_text_plain. cbn in Hp. clear -IH Hp.
      induction IH as [|c cs Hc _ IH]; [constructor|]. cbn in *. apply andb_prop in Hp as [? ?].
      constructor; auto.
    + apply plain_app; [|done]. by destruct cs.
  - cbn [json_text]. apply plain_app; [done|]. apply plain_app.
    + apply items_text_plain. cbn in Hp. clear -IH Hp. revert ks.
      induction IH as [|c cs Hc _ IH]; intros [|k ks]; cbn in *; try by constructor.
      apply andb_prop in Hp as [? ?]. constructor; [|auto].
      unfold member_text. rewrite string_app_nil_l.
      apply plain_app; [apply quoted_text_plain|]. apply plain_app; [done|]. auto.
    + apply plain_app; [|done]. by destruct ks, cs.
Qed.

Lemma plain_no_newline s : plain s → no_sep (byte_char 10) s.
Proof.
  unfold plain, no_sep. induction s as [|c s IH]; cbn [str_forallb]; [done|].
  intros [Hc Hs]%andb_prop.
  rewrite IH by done. rewrite bool_decide_eq_false_2; [done|]. intros ->. done.
Qed.

(** Writing a value call by call leaves its text. *)
Lemma write_value_writes pretty limits double_in_range v :
  json_ok limits double_in_range v → writes pretty (write_value v) v.
Proof.
  induction v as [v Hi|cs IH|ks cs IH] using json_value_induction; intros Hok.
  - destruct Hok as [| | | | | |[] ? _|[] [] ? _ _ _ _]; try (by apply writes_text);
      try done; cbn.
    + apply (writes_array _ _ []), adds_nothing.
    + apply (writes_object _ _ []), builds_nothing.
  - inversion_clear Hok as [| | | | | |? _ Hall|]. cbn [write_value]. apply writes_array.
    clear -IH Hall. induction IH as [|c cs Hc _ IH]; [apply adds_nothing|].
    inversion_clear Hall. apply (adds_then _ _ _ [c] cs); [|auto]. apply adds_value. auto.
  - inversion_clear Hok as [| | | | | | |? ? Hlen _ _ _ Hall]. cbn [write_value].
    assert (JObject ks cs = object_of (zip ks cs)) as ->
      by (unfold object_of; rewrite fst_zip, snd_zip by lia; done).
    apply writes_object. clear -IH Hall Hlen. revert ks Hlen.
    induction IH as [|c cs Hc _ IH]; intros [|k ks] Hlen; try done; [apply builds_nothing|].
    inversion_clear Hall. apply (builds_then _ _ _ [(k, c)] (zip ks cs)).
    + apply builds_member. auto.
    + apply IH; [done|]. cbn in Hlen. lia.
Qed.

(** C20: a JSON value written through the writer's calls, pretty or compact, is read back
    by the parser as the same value, whenever it is one the parser could return (its
    strings, members and elements are within the limits, its member names are distinct)
    without floating point, and its text and shape are within the limits.  Negative
    integers are signed values and the others unsigned. *)
Theorem json_round_trip pretty limits double_in_range v :
  json_ok limits double_in_range v → printable v = true →
  0 <= jl_max_string_bytes limits →
  json_height v <= jl_max_depth limits → json_nodes v <= jl_max_nodes limits →
  Z.of_nat (String.length (json_text pretty 0 v)) <= jl_max_document_bytes limits →
  written pretty (write_value v) = Value (json_text pretty 0 v) ∧
  parse_json limits double_in_range (json_text pretty 0 v) = Value v.
Proof.
  intros Hok Hp H0 Hd Hn Hl. split.
  - by eapply written_text, write_value_writes.
  - by apply parse_json_text.
Qed.

Lemma json_round_trip_witness :
  let v := JObject ["a"; quoted "'" ] [JArray [JInt (-5); JUint 18446744073709551615; JNull];
             JObject ["t"] [JString (String (byte_char 10) "x")]] in
  parse_json default_json_limits (λ _, false) (json_text true 0 v) = Value v.
Proof.
  apply (json_round_trip true default_json_limits (λ _, false)).
  - constructor; [done| | |cbn; lia|].
    + apply (bool_decide_unpack (NoDup _)). vm_compute. exact I.
    + repeat constructor; unfold string_ok; cbn; lia.
    + constructor; [|constructor; [|constructor]].
      * constructor; [cbn; lia|]. repeat constructor; word_lia.
      * constructor; [done|apply NoDup_singleton| |cbn; lia|];
          repeat constructor; unfold string_ok; cbn; lia.
  - done.
  - cbn; lia.
  - cbn; lia.
  - cbn; lia.
  - vm_compute. discriminate.
Defined.
