(* ===== verification/Identity.v ===== *)
(** * Identities

    [core/StrongId.hpp], [core/StrongId.cpp], [model/Identity.hpp] and
    [model/Identity.cpp]: integral and name identities, the path of a queue and
    of a port, their total orders (the key orders of the store's maps) and the
    text form of a path.

    A [StrongId<Tag, Value>] is the integer it wraps; a [StrongNameId<Tag>] is
    its string.  The tags only make C++ types incompatible, except in
    [StrongNameId::create], which looks at the tag: there it is an argument. *)

From S2P Require Import Prelude Result Checked Text.
Open Scope Z_scope.

Definition kMaxIdentityLength : nat := 128.

Abbreviation DeviceId := string (only parsing).
Abbreviation PortId := string (only parsing).
Abbreviation SchedulingClassId := string (only parsing).
Abbreviation SourceId := string (only parsing).
Abbreviation IncarnationId := string (only parsing).
Abbreviation ClockDomainId := string (only parsing).
Abbreviation QueueId := Z (only parsing).
Abbreviation TrafficClassId := Z (only parsing).
Abbreviation GenerationId := Z (only parsing).
Abbreviation SourceSequence := Z (only parsing).
Abbreviation Revision := Z (only parsing).
Abbreviation IncarnationOrdinal := Z (only parsing).

(** [StrongId::valid] and [StrongNameId::valid] *)
Definition id_valid (value : Z) : bool := negb (value =? 0).
Definition name_valid (value : string) : bool := negb (bool_decide (value = EmptyString)).

Definition id_to_string (value : Z) : string := u64_to_string value.

(** [StrongId<Tag, Value>::parse], [max] being the greatest [Value]. *)
Definition id_parse (max : Z) (text : string) : option Z :=
  let parsed :=
    if starts_with text "0x" || starts_with text "0X" then parse_hex_u64 text
    else parse_u64 text in
  match parsed with
  | None => None
  | Some raw => if max <? raw then None else Some raw
  end.

Inductive NameTag : Set :=
| DeviceTag | PortTag | SchedulingClassTag | SourceTag | IncarnationTag | ClockDomainTag
| QueueNameTag.

#[export] Instance NameTag_eq_dec : EqDecision NameTag.
Proof. solve_decision. Defined.

Definition is_control (c : ascii) : bool := (byte_value c <? 32) || (byte_value c =? 127).

(** The separator of the text form of a path. *)
Definition kSeparator : ascii := "|"%char.

(** The character loop of [StrongNameId<Tag>::create]. *)
Fixpoint check_name_chars (tag : NameTag) (text : string) : Status :=
  match text with
  | EmptyString => success
  | String c rest =>
      if is_control c then
        failure ErrorCode.InvalidArgument "identity must not contain control characters"
      else if bool_decide (tag = DeviceTag ∨ tag = PortTag) && bool_decide (c = kSeparator) then
        failure ErrorCode.InvalidArgument
          "device and port names must not contain the queue path separator '|'"
      else check_name_chars tag rest
  end.

Definition create (tag : NameTag) (text : string) : Result string :=
  if bool_decide (text = EmptyString) then
    fail ErrorCode.InvalidArgument "identity must not be empty"
  else if (kMaxIdentityLength <? String.length text)%nat then
    fail ErrorCode.LimitExceeded
      ("identity exceeds the maximum length of " +:+ size_to_string kMaxIdentityLength)
  else try_result (check_name_chars tag text) (Value text).

(** ** Paths *)

Record QueuePath := mkQueuePath { qp_device : DeviceId; qp_port : PortId; qp_queue : QueueId }.
Record PortPath := mkPortPath { pp_device : DeviceId; pp_port : PortId }.

#[export] Instance QueuePath_eq_dec : EqDecision QueuePath.
Proof. solve_decision. Defined.
#[export] Instance PortPath_eq_dec : EqDecision PortPath.
Proof. solve_decision. Defined.

Definition no_path : QueuePath := mkQueuePath EmptyString EmptyString 0.

Definition path_valid (p : QueuePath) : bool := name_valid (qp_device p) && name_valid (qp_port p).
Definition port_valid (p : PortPath) : bool := name_valid (pp_device p) && name_valid (pp_port p).

(** [std::string]'s [<]: lexicographic on unsigned bytes. *)
Fixpoint string_ltb (a b : string) : bool :=
  match a, b with
  | _, EmptyString => false
  | EmptyString, String _ _ => true
  | String x a, String y b =>
      (byte_value x <? byte_value y) || ((byte_value x =? byte_value y) && string_ltb a b)
  end.

Definition path_ltb (lhs rhs : QueuePath) : bool :=
  if bool_decide (qp_device lhs ≠ qp_device rhs) then string_ltb (qp_device lhs) (qp_device rhs)
  else if bool_decide (qp_port lhs ≠ qp_port rhs) then string_ltb (qp_port lhs) (qp_port rhs)
  else qp_queue lhs <? qp_queue rhs.

Definition port_ltb (lhs rhs : PortPath) : bool :=
  if bool_decide (pp_device lhs ≠ pp_device rhs) then string_ltb (pp_device lhs) (pp_device rhs)
  else string_ltb (pp_port lhs) (pp_port rhs).

Definition path_to_string (p : QueuePath) : string :=
  qp_device p +:+ String kSeparator (qp_port p +:+ String kSeparator (id_to_string (qp_queue p))).

Definition path_parse (text : string) : Result QueuePath :=
  match split text kSeparator with
  | [part0; part1; part2] =>
      device ← create DeviceTag part0;
      port ← create PortTag part1;
      match id_parse u32_max part2 with
      | None => fail ErrorCode.ParseError
                  "the queue component of a path must be an unsigned integer"
      | Some queue => Value (mkQueuePath device port queue)
      end
  | _ => fail ErrorCode.ParseError
           "a queue path must have the form device/port/queue with exactly two separators"
  end.

Definition port_to_string (p : PortPath) : string :=
  pp_device p +:+ String kSeparator (pp_port p).

(** ** Strict total orders *)

(** What an ordered map asks of its key type. *)
Class StrictOrder {K : Type} (ltb : K → K → bool) : Prop := {
  ltb_irrefl k : ltb k k = false;
  ltb_trans a b c : ltb a b = true → ltb b c = true → ltb a c = true;
  ltb_total a b : a ≠ b → ltb a b = true ∨ ltb b a = true
}.

Lemma ltb_asym {K} ltb `{!@StrictOrder K ltb} a b : ltb a b = true → ltb b a = false.
Proof.
  intros Hab. destruct (ltb b a) eqn:E; [|done].
  pose proof (ltb_trans _ _ _ Hab E) as Hc. by rewrite ltb_irrefl in Hc.
Qed.

#[export] Instance string_order : StrictOrder string_ltb.
Proof.
  split.
  - intros s. induction s as [|c s IH]; cbn; [done|]. rewrite IH. lia.
  - intros a. induction a as [|x a IH]; intros [|y b] [|z c]; cbn; try done.
    intros H1 H2. specialize (IH b c).
    destruct (string_ltb a b), (string_ltb b c), (string_ltb a c); lia.
  - intros a. induction a as [|x a IH]; intros [|y b] Hne; cbn; try done; [by left|by right|].
    destruct (Z.eqb_spec (byte_value x) (byte_value y)) as [Heq|].
    + apply byte_value_inj in Heq as ->. destruct (IH b) as [->| ->]; [congruence|lia|lia].
    + lia.
Qed.

#[export] Instance Z_order : StrictOrder Z.ltb.
Proof. split; intros; lia. Qed.

(** Two orders compared one after the other are an order. *)
Definition lex_ltb {A B} `{EqDecision A} (la : A → A → bool) (lb : B → B → bool)
    (x y : A * B) : bool :=
  if bool_decide (x.1 ≠ y.1) then la x.1 y.1 else lb x.2 y.2.

#[export] Instance lex_order {A B} `{EqDecision A} (la : A → A → bool) (lb : B → B → bool)
    `{!StrictOrder la} `{!StrictOrder lb} : StrictOrder (lex_ltb la lb).
Proof.
  unfold lex_ltb. split.
  - intros [a b]. cbn. rewrite bool_decide_eq_false_2 by (intros H; by apply H).
    apply ltb_irrefl.
  - intros [a1 b1] [a2 b2] [a3 b3]. cbn. repeat case_bool_decide; intros H1' H2'; subst.
    all: repeat match goal with H : ¬ (_ ≠ _) |- _ => apply dec_stable in H end; subst; try done.
    + by eapply ltb_trans.
    + rewrite (ltb_asym la _ _ H1') in H2'. done.
    + by eapply ltb_trans.
  - intros [a1 b1] [a2 b2] Hne. cbn.
    destruct (decide (a1 = a2)) as [->|Ha].
    + rewrite !bool_decide_eq_false_2 by (intros H; by apply H). apply ltb_total. congruence.
    + rewrite !bool_decide_eq_true_2 by congruence. by apply ltb_total.
Qed.

Lemma order_via {K L} (ltb : K → K → bool) (f : K → L) (lL : L → L → bool)
    `{!StrictOrder lL} `{!Inj (=) (=) f} :
  (∀ a b, ltb a b = lL (f a) (f b)) → StrictOrder ltb.
Proof.
  intros Hf. split; intros *; rewrite ?Hf.
  - apply ltb_irrefl.
  - apply ltb_trans.
  - intros Hne. apply ltb_total. intros Heq. by apply Hne, (inj f).
Qed.

#[export] Instance path_order : StrictOrder path_ltb.
Proof.
  set (f := λ p : QueuePath, (qp_device p, (qp_port p, qp_queue p))).
  assert (Inj (=) (=) f) by (intros [] [] [= -> -> ->]; done).
  by apply (order_via _ f (lex_ltb string_ltb (lex_ltb string_ltb Z.ltb))).
Qed.

#[export] Instance port_order : StrictOrder port_ltb.
Proof.
  set (f := λ p : PortPath, (pp_device p, pp_port p)).
  assert (Inj (=) (=) f) by (intros [] [] [= -> ->]; done).
  by apply (order_via _ f (lex_ltb string_ltb string_ltb)).
Qed.

(** ** The text form of a path *)

Lemma check_name_chars_ok tag text :
  ok (check_name_chars tag text) = true →
  str_forallb (λ c, negb (is_control c)) text = true ∧
  (tag = DeviceTag ∨ tag = PortTag → no_sep kSeparator text).
Proof.
  unfold no_sep. induction text as [|c text IH]; cbn -[is_control]; [done|].
  destruct (is_control c); cbn; [done|].
  repeat case_bool_decide; cbn; try done; intros H'; destruct (IH H'); split; auto; tauto.
Qed.

Lemma create_Value tag text s :
  create tag text = Value s →
  s = text ∧ text ≠ EmptyString ∧ (String.length text <= kMaxIdentityLength)%nat ∧
  str_forallb (λ c, negb (is_control c)) text = true ∧
  (tag = DeviceTag ∨ tag = PortTag → no_sep kSeparator text).
Proof.
  unfold create. case_bool_decide; [done|].
  destruct (Nat.ltb_spec kMaxIdentityLength (String.length text)); [done|].
  unfold try_result. destruct (ok _) eqn:Hok; [|done]. intros [= <-].
  apply check_name_chars_ok in Hok as [??]. done.
Qed.

(** What [create] returns it accepts again, unchanged. *)
Lemma create_length tag text v : create tag text = Value v → (String.length v <= kMaxIdentityLength)%nat.
Proof.
  unfold create. bool_cases; try done. unfold try_result. destruct (ok _); [|done].
  intros [= <-]. by apply Nat.ltb_ge.
Qed.

Lemma create_idem tag text s : create tag text = Value s → create tag s = Value s.
Proof. intros H. by destruct (create_Value _ _ _ H) as [-> _]. Qed.

Lemma starts_with_digits s :
  str_forallb is_digit s = true → starts_with s "0x" = false ∧ starts_with s "0X" = false.
Proof.
  unfold starts_with. destruct s as [|a [|b s]]; try done. cbn. intros H.
  apply andb_prop in H as [_ [Hb _]%andb_prop].
  split; apply bool_decide_eq_false; intros [=]; subst; done.
Qed.

Lemma id_parse_print max n : is_u64 n → n <= max → id_parse max (id_to_string n) = Some n.
Proof.
  intros H Hm. unfold id_parse, id_to_string.
  destruct (starts_with_digits _ (u64_to_string_digits n)) as [-> ->]. cbn [orb].
  rewrite parse_print_u64 by done. by is_false (max <? n).
Qed.

Record path_wf (p : QueuePath) : Prop := {
  path_wf_device : create DeviceTag (qp_device p) = Value (qp_device p);
  path_wf_port : create PortTag (qp_port p) = Value (qp_port p);
  path_wf_queue : 0 <= qp_queue p <= u32_max
}.

Lemma path_split p :
  path_wf p →
  split (path_to_string p) kSeparator = [qp_device p; qp_port p; id_to_string (qp_queue p)].
Proof.
  intros [Hd Hp Hq]. unfold path_to_string.
  apply create_Value in Hd as (_ & _ & _ & _ & Hd), Hp as (_ & _ & _ & _ & Hp).
  rewrite split_cons by auto. rewrite split_cons by auto.
  by rewrite split_no_sep by (by apply no_sep_digits).
Qed.

(** Printing a queue path whose names the constructors accept and parsing
    the text gives the path back. *)
Theorem path_print_parse (p : QueuePath) :
  path_wf p → path_parse (path_to_string p) = Value p.
Proof.
  intros Hwf. unfold path_parse. rewrite path_split by done. destruct Hwf as [-> -> Hq].
  cbn -[id_parse id_to_string]. rewrite id_parse_print by word_lia. by destruct p.
Qed.

Lemma path_print_parse_witness :
  path_parse (path_to_string (mkQueuePath "leaf-01" "Ethernet1/1" 3))
  = Value (mkQueuePath "leaf-01" "Ethernet1/1" 3).
Proof. apply path_print_parse. split; [reflexivity|reflexivity|cbn; word_lia]. Defined.
