(* ===== verification/Time.v ===== *)
(** * Time

    [core/Time.hpp] and [core/Time.cpp]: steady, wall and observation times,
    their comparison across clock domains, the civil-date algorithms and the UTC
    text form of a wall time.  A clock is what [Clock::now] returns; the store
    reads it through an oracle (see Store.v). *)

From S2P Require Import Prelude Result Checked Text Identity.
Open Scope Z_scope.
Open Scope word_scope.

Abbreviation Nanos := Z (only parsing).

(** [SteadyTime] and [WallTime] are their nanoseconds. *)
Record ReceiveTime := mkReceive { steady : Nanos; wall : Nanos }.
Record ObservationTime := mkObservation { obs_ns : Nanos; obs_domain : ClockDomainId }.

#[export] Instance ReceiveTime_eq_dec : EqDecision ReceiveTime.
Proof. solve_decision. Defined.
#[export] Instance ObservationTime_eq_dec : EqDecision ObservationTime.
Proof. solve_decision. Defined.

Definition no_receive : ReceiveTime := mkReceive 0 0.
Definition no_observation : ObservationTime := mkObservation 0 EmptyString.

(** [ObservationTime::known] *)
Definition obs_known (t : ObservationTime) : bool := name_valid (obs_domain t).

Module ClockComparability.
Inductive ClockComparability : Set := Comparable | DifferentDomains | UnknownDomain.

#[export] Instance ClockComparability_eq_dec : EqDecision ClockComparability.
Proof. solve_decision. Defined.

Definition to_string (value : ClockComparability) : string :=
  match value with
  | Comparable => "comparable"
  | DifferentDomains => "different_domains"
  | UnknownDomain => "unknown_domain"
  end.
End ClockComparability.
#[export] Existing Instance ClockComparability.ClockComparability_eq_dec.
Abbreviation ClockComparability := ClockComparability.ClockComparability.

Record TimeComparison := mkComparison { comparability : ClockComparability; ordering : Z }.

Definition comparable (c : TimeComparison) : bool :=
  bool_decide (comparability c = ClockComparability.Comparable).

Definition compare_observation_times (lhs rhs : ObservationTime) : TimeComparison :=
  if negb (name_valid (obs_domain lhs)) || negb (name_valid (obs_domain rhs)) then
    mkComparison ClockComparability.UnknownDomain 0
  else if bool_decide (obs_domain lhs ≠ obs_domain rhs) then
    mkComparison ClockComparability.DifferentDomains 0
  else
    mkComparison ClockComparability.Comparable
      (if obs_ns lhs <? obs_ns rhs then -1 else if obs_ns rhs <? obs_ns lhs then 1 else 0).

(** [ManualClock]: a clock that moves when its owner moves it; [now] is its state. *)
Definition manual_clock (start : Nanos) : ReceiveTime := mkReceive start 0.
Definition set_steady (t : ReceiveTime) (value : Nanos) : ReceiveTime := mkReceive value (wall t).
Definition set_wall (t : ReceiveTime) (value : Nanos) : ReceiveTime := mkReceive (steady t) value.
Definition manual_advance (t : ReceiveTime) (delta : Nanos) : ReceiveTime :=
  mkReceive (steady t +s delta) (wall t +s delta).

(** ** Civil dates

    The [unsigned] arithmetic is 32 bits wide; [static_cast<unsigned>(-3)] is
    [2^32 - 3], and adding it wraps to subtracting three. *)

Definition days_from_civil (year month day : Z) : Z :=
  let year := year - (if month <=? 2 then 1 else 0) in
  let era := Z.quot (if 0 <=? year then year else year - 399) 400 in
  let year_of_era := wrap_u32 (year - era * 400) in
  let day_of_year :=
    wrap_u32 (wrap_u32 (153 * wrap_u32 (month + (if 2 <? month then wrap_u32 (-3) else 9)) + 2) / 5
              + day - 1) in
  let day_of_era :=
    wrap_u32 (year_of_era * 365 + year_of_era / 4 - year_of_era / 100 + day_of_year) in
  era * 146097 + day_of_era - 719468.

(** [civil_from_days]: the three output parameters as a triple. *)
Definition civil_from_days (days : Z) : Z * Z * Z :=
  let days := days + 719468 in
  let era := Z.quot (if 0 <=? days then days else days - 146096) 146097 in
  let day_of_era := wrap_u32 (days - era * 146097) in
  let year_of_era :=
    wrap_u32 (day_of_era - day_of_era / 1460 + day_of_era / 36524 - day_of_era / 146096) / 365 in
  let year := year_of_era + era * 400 in
  let day_of_year :=
    wrap_u32 (day_of_era - wrap_u32 (365 * year_of_era + year_of_era / 4 - year_of_era / 100)) in
  let month_prime := wrap_u32 (5 * day_of_year + 2) / 153 in
  let day := wrap_u32 (day_of_year - wrap_u32 (153 * month_prime + 2) / 5 + 1) in
  let month := wrap_u32 (month_prime + (if month_prime <? 10 then 3 else wrap_u32 (-9))) in
  (year + (if month <=? 2 then 1 else 0), month, day).

Definition kNanosPerSecond : Z := 1000000000.

Definition append_two (value : Z) : string :=
  String (byte_char (48 + (value / 10) mod 10)) (String (byte_char (48 + value mod 10)) EmptyString).

(** [std::string::insert] of zeros in front, until the width is reached. *)
Definition zero_pad (width : nat) (s : string) : string := pad_left_with "0"%char width s.

(** C++ [/] and [%] truncate; the two corrections are the source's. *)
Definition format_wall_utc (total : Nanos) : string :=
  let seconds0 := Z.quot total kNanosPerSecond in
  let fraction0 := Z.rem total kNanosPerSecond in
  let fraction := if fraction0 <? 0 then fraction0 + kNanosPerSecond else fraction0 in
  let seconds := if fraction0 <? 0 then seconds0 - 1 else seconds0 in
  let days := Z.quot seconds 86400 in
  let second_of_day0 := Z.rem seconds 86400 in
  let second_of_day := if second_of_day0 <? 0 then second_of_day0 + 86400 else second_of_day0 in
  let '(year, month, day) := civil_from_days days in
  let hour := Z.quot second_of_day 3600 in
  let minute := Z.quot (Z.rem second_of_day 3600) 60 in
  let second := Z.rem second_of_day 60 in
  (if year <? 0 then String "-"%char EmptyString else EmptyString) +:+
  zero_pad 4 (u64_to_string (Z.abs year)) +:+
  "-" +:+ append_two month +:+ "-" +:+ append_two day +:+ "T" +:+
  append_two hour +:+ ":" +:+ append_two minute +:+ ":" +:+ append_two second +:+ "." +:+
  zero_pad 9 (u64_to_string fraction) +:+ "Z".

Definition format_steady (value : Nanos) : string := "steady+" +:+ i64_to_string value +:+ "ns".

Definition str_get (s : string) (n : nat) : option ascii := String.get n s.

(** The [digits_at] lambda: [count] digits from [offset]. *)
Fixpoint digits_at (body : string) (offset count : nat) (accumulator : Z) : option Z :=
  match count with
  | O => Some accumulator
  | S count =>
      match str_get body offset with
      | None => None
      | Some c =>
          if negb (is_digit c) then None
          else digits_at body (S offset) count (wrap_u32 (accumulator * 10 + digit_value c))
      end
  end.

(** The loop over the fraction's digits, then the scaling to nanoseconds. *)
Fixpoint fraction_digits (value : Z) (fraction : string) : option Z :=
  match fraction with
  | EmptyString => Some value
  | String c fraction =>
      if negb (is_digit c) then None
      else fraction_digits (wrap_u32 (value * 10 + digit_value c)) fraction
  end.
Definition scale_fraction (length : nat) (value : Z) : Z :=
  Nat.iter (9 - length) (λ v, wrap_u32 (v * 10)) value.

Definition char_is (s : string) (n : nat) (c : ascii) : bool :=
  bool_decide (str_get s n = Some c).

Definition out_of_supported_range {A} : Result A :=
  fail ErrorCode.Overflow "timestamp is outside the supported range".

(** The arithmetic at the end of [parse_wall_utc]. *)
Definition assemble_wall (year month day hour minute second fraction_nanos : Z) : Result Nanos :=
  let days := days_from_civil year month day in
  let seconds_of_day := hour * 3600 + minute * 60 + second in
  match mul_i64 days 86400 with
  | None => out_of_supported_range
  | Some total_seconds =>
      match add_i64 total_seconds seconds_of_day with
      | None => out_of_supported_range
      | Some with_day =>
          match mul_i64 with_day kNanosPerSecond with
          | None => out_of_supported_range
          | Some scaled =>
              match add_i64 scaled fraction_nanos with
              | None => out_of_supported_range
              | Some with_fraction => Value with_fraction
              end
          end
      end
  end.

(** The fraction of a body of more than nineteen characters. *)
Definition parse_fraction (body : string) : Result Z :=
  if (19 <? String.length body)%nat then
    if negb (char_is body 19 ".") then
      fail ErrorCode.ParseError "expected a fractional-second separator"
    else
      let fraction := str_drop 20 body in
      if bool_decide (fraction = EmptyString) || (9 <? String.length fraction)%nat then
        fail ErrorCode.ParseError "fractional seconds must have 1 to 9 digits"
      else
        match fraction_digits 0 fraction with
        | None => fail ErrorCode.ParseError "fractional seconds must be digits"
        | Some value => Value (scale_fraction (String.length fraction) value)
        end
  else Value 0.

Definition parse_wall_utc (text : string) : Result Nanos :=
  if (String.length text <? 20)%nat || negb (char_is text (String.length text - 1) "Z") then
    fail ErrorCode.ParseError "timestamp must end with Z (UTC designator)"
  else
    let body := str_take (String.length text - 1) text in
    if (String.length body <? 19)%nat then
      fail ErrorCode.ParseError "timestamp is too short"
    else if negb (char_is body 4 "-") || negb (char_is body 7 "-") || negb (char_is body 10 "T")
         || negb (char_is body 13 ":") || negb (char_is body 16 ":") then
      fail ErrorCode.ParseError "timestamp separators are not in the expected positions"
    else
      match digits_at body 0 4 0, digits_at body 5 2 0, digits_at body 8 2 0,
            digits_at body 11 2 0, digits_at body 14 2 0, digits_at body 17 2 0 with
      | Some year, Some month, Some day, Some hour, Some minute, Some second =>
          if (month <? 1) || (12 <? month) || (day <? 1) || (31 <? day) || (23 <? hour)
             || (59 <? minute) || (60 <? second) then
            fail ErrorCode.OutOfRange "timestamp field is outside its valid range"
          else
            fraction_nanos ← parse_fraction body;
            assemble_wall year month day hour minute second fraction_nanos
      | _, _, _, _, _, _ =>
          fail ErrorCode.ParseError "timestamp contains a non-digit in a numeric field"
      end.

Definition parse_steady (text : string) : Result Nanos :=
  if negb (starts_with text "steady+") || negb (ends_with text "ns") then
    fail ErrorCode.ParseError "steady timestamp must use the steady+<nanos>ns form"
  else
    let digits := str_take (String.length text - 7 - 2) (str_drop 7 text) in
    match parse_i64 digits with
    | None => fail ErrorCode.ParseError "steady timestamp payload is not an integer"
    | Some value => Value value
    end.

Example time_examples :
  format_wall_utc 1700000000123456789 = "2023-11-14T22:13:20.123456789Z" ∧
  parse_wall_utc "2023-11-14T22:13:20.123456789Z" = Value 1700000000123456789 ∧
  parse_wall_utc "1969-12-31T23:59:59Z" = Value (-1000000000) ∧
  format_wall_utc (-1000000000) = "1970-01-01T23:59:59.000000000Z" ∧
  civil_from_days (-1) = (1969, 12, 31) ∧
  parse_steady (format_steady (-5)) = Value (-5).
Proof. vm_compute. repeat split. Qed.
