(* ===== verification/Evidence.v ===== *)
(** * Evidence

    [model/Evidence.hpp] and [model/Evidence.cpp]: freshness, quality,
    provenance and authority, the qualifying flags, and the one rule that decides
    whether evidence may speak for the present. *)

From S2P Require Import Prelude Result Text Identity Time.
Open Scope Z_scope.

Module Freshness.
Inductive Freshness : Set := Unknown | Fresh | Aging | Stale | Expired.
#[export] Instance Freshness_eq_dec : EqDecision Freshness.
Proof. solve_decision. Defined.

Definition to_string (value : Freshness) : string :=
  match value with
  | Unknown => "unknown" | Fresh => "fresh" | Aging => "aging" | Stale => "stale"
  | Expired => "expired"
  end.
End Freshness.
#[export] Existing Instance Freshness.Freshness_eq_dec.
Abbreviation Freshness := Freshness.Freshness.

Definition is_fresh (value : Freshness) : bool := bool_decide (value = Freshness.Fresh).

Record FreshnessPolicy := mkFreshnessPolicy {
  fresh_within_ns : Nanos;
  aging_within_ns : Nanos;
  stale_within_ns : Nanos
}.
#[export] Instance FreshnessPolicy_eq_dec : EqDecision FreshnessPolicy.
Proof. solve_decision. Defined.

Definition default_freshness : FreshnessPolicy :=
  mkFreshnessPolicy 5000000000 15000000000 60000000000.

Definition assess_freshness (age_ns : Nanos) (policy : FreshnessPolicy) : Freshness :=
  if age_ns <? 0 then Freshness.Fresh
  else if age_ns <? fresh_within_ns policy then Freshness.Fresh
  else if age_ns <? aging_within_ns policy then Freshness.Aging
  else if age_ns <? stale_within_ns policy then Freshness.Stale
  else Freshness.Expired.

Module EvidenceQuality.
Inductive EvidenceQuality : Set := Unknown | Complete | Incomplete | Conflicting | Unsupported.
#[export] Instance EvidenceQuality_eq_dec : EqDecision EvidenceQuality.
Proof. solve_decision. Defined.

Definition to_string (value : EvidenceQuality) : string :=
  match value with
  | Unknown => "unknown" | Complete => "complete" | Incomplete => "incomplete"
  | Conflicting => "conflicting" | Unsupported => "unsupported"
  end.
End EvidenceQuality.
#[export] Existing Instance EvidenceQuality.EvidenceQuality_eq_dec.
Abbreviation EvidenceQuality := EvidenceQuality.EvidenceQuality.

Module Provenance.
Inductive Provenance : Set :=
  Unknown | Observed | DerivedFromMetadata | Correlated | RecoveredFromPersistence.
#[export] Instance Provenance_eq_dec : EqDecision Provenance.
Proof. solve_decision. Defined.

Definition to_string (value : Provenance) : string :=
  match value with
  | Unknown => "unknown" | Observed => "observed"
  | DerivedFromMetadata => "derived_from_metadata" | Correlated => "correlated"
  | RecoveredFromPersistence => "recovered_from_persistence"
  end.
End Provenance.
#[export] Existing Instance Provenance.Provenance_eq_dec.
Abbreviation Provenance := Provenance.Provenance.

Module SourceAuthority.
Inductive SourceAuthority : Set := Unknown | Secondary | Primary | Authoritative.
#[export] Instance SourceAuthority_eq_dec : EqDecision SourceAuthority.
Proof. solve_decision. Defined.

(** The underlying values, which [<] and [>=] compare. *)
Definition rank (value : SourceAuthority) : Z :=
  match value with Unknown => 0 | Secondary => 1 | Primary => 2 | Authoritative => 3 end.

Definition to_string (value : SourceAuthority) : string :=
  match value with
  | Unknown => "unknown" | Secondary => "secondary" | Primary => "primary"
  | Authoritative => "authoritative"
  end.

(** [parse_source_authority]: the authority and the [recognised] flag. *)
Definition parse (text : string) : SourceAuthority * bool :=
  if bool_decide (text = "unknown") then (Unknown, true)
  else if bool_decide (text = "secondary") then (Secondary, true)
  else if bool_decide (text = "primary") then (Primary, true)
  else if bool_decide (text = "authoritative") then (Authoritative, true)
  else (Unknown, false).
End SourceAuthority.
#[export] Existing Instance SourceAuthority.SourceAuthority_eq_dec.
Abbreviation SourceAuthority := SourceAuthority.SourceAuthority.

Definition authority_ltb (a b : SourceAuthority) : bool :=
  SourceAuthority.rank a <? SourceAuthority.rank b.

Module EvidenceFlag.
Inductive EvidenceFlag : Set :=
| NoFlag | OrderAnomaly | ClockDomainUnknown | ClockDomainMismatch | DuplicateSuppressed
| IncarnationChanged | GenerationChanged | CoverageInsufficient | Recovered
| ClassResolvedFromMetadata | SyntheticTransport | PartialBatch | PeerDisagreement
| CounterDiscontinuity.
#[export] Instance EvidenceFlag_eq_dec : EqDecision EvidenceFlag.
Proof. solve_decision. Defined.

(** The enumerators' values ([None] is [NoFlag]). *)
Definition value (flag : EvidenceFlag) : Z :=
  match flag with
  | NoFlag => 0
  | OrderAnomaly => Z.shiftl 1 0
  | ClockDomainUnknown => Z.shiftl 1 1
  | ClockDomainMismatch => Z.shiftl 1 2
  | DuplicateSuppressed => Z.shiftl 1 3
  | IncarnationChanged => Z.shiftl 1 4
  | GenerationChanged => Z.shiftl 1 5
  | CoverageInsufficient => Z.shiftl 1 6
  | Recovered => Z.shiftl 1 7
  | ClassResolvedFromMetadata => Z.shiftl 1 8
  | SyntheticTransport => Z.shiftl 1 9
  | PartialBatch => Z.shiftl 1 10
  | PeerDisagreement => Z.shiftl 1 11
  | CounterDiscontinuity => Z.shiftl 1 12
  end.
End EvidenceFlag.
#[export] Existing Instance EvidenceFlag.EvidenceFlag_eq_dec.
Abbreviation EvidenceFlag := EvidenceFlag.EvidenceFlag.
Abbreviation EvidenceFlags := Z (only parsing).

Definition has_flag (mask : EvidenceFlags) (flag : EvidenceFlag) : bool :=
  negb (Z.land mask (EvidenceFlag.value flag) =? 0).
Definition with_flag (mask : EvidenceFlags) (flag : EvidenceFlag) : EvidenceFlags :=
  Z.lor mask (EvidenceFlag.value flag).
Definition without_flag (mask : EvidenceFlags) (flag : EvidenceFlag) : EvidenceFlags :=
  Z.ldiff mask (EvidenceFlag.value flag).

(** The table [kNames] of [describe_flags]. *)
Definition flag_names : list (EvidenceFlag * string) :=
  [ (EvidenceFlag.OrderAnomaly, "order_anomaly");
    (EvidenceFlag.ClockDomainUnknown, "clock_domain_unknown");
    (EvidenceFlag.ClockDomainMismatch, "clock_domain_mismatch");
    (EvidenceFlag.DuplicateSuppressed, "duplicate_suppressed");
    (EvidenceFlag.IncarnationChanged, "incarnation_changed");
    (EvidenceFlag.GenerationChanged, "generation_changed");
    (EvidenceFlag.CoverageInsufficient, "coverage_insufficient");
    (EvidenceFlag.Recovered, "recovered");
    (EvidenceFlag.ClassResolvedFromMetadata, "class_resolved_from_metadata");
    (EvidenceFlag.SyntheticTransport, "synthetic_transport");
    (EvidenceFlag.PartialBatch, "partial_batch");
    (EvidenceFlag.PeerDisagreement, "peer_disagreement");
    (EvidenceFlag.CounterDiscontinuity, "counter_discontinuity") ].

(** The names of [names] whose bit [mask] has, comma separated; [none] when
    there is none. *)
Definition comma_list (names : list string) : string :=
  match names with [] => "none" | _ => join names "," end.

Definition describe_flags (mask : EvidenceFlags) : string :=
  comma_list (map snd (filter (λ entry, has_flag mask entry.1 = true) flag_names)).

Record EvidenceAssessment := mkAssessment {
  ea_freshness : Freshness;
  ea_quality : EvidenceQuality;
  ea_provenance : Provenance;
  ea_authority : SourceAuthority;
  ea_flags : EvidenceFlags;
  ea_age_ns : Nanos;
  ea_reason : string
}.
#[export] Instance EvidenceAssessment_eq_dec : EqDecision EvidenceAssessment.
Proof. solve_decision. Defined.

Definition no_assessment : EvidenceAssessment :=
  mkAssessment Freshness.Unknown EvidenceQuality.Unknown Provenance.Unknown
    SourceAuthority.Unknown 0 0 EmptyString.

Definition establishes_current_pressure (a : EvidenceAssessment) : bool :=
  if bool_decide (ea_freshness a ≠ Freshness.Fresh) then false
  else if bool_decide (ea_quality a ≠ EvidenceQuality.Complete) then false
  else if bool_decide (ea_provenance a = Provenance.RecoveredFromPersistence) then false
  else if has_flag (ea_flags a) EvidenceFlag.Recovered then false
  else SourceAuthority.rank SourceAuthority.Primary <=? SourceAuthority.rank (ea_authority a).

Definition is_degraded (a : EvidenceAssessment) : bool :=
  bool_decide (ea_freshness a ≠ Freshness.Fresh) ||
  bool_decide (ea_quality a ≠ EvidenceQuality.Complete).

Definition describe (a : EvidenceAssessment) : string :=
  "freshness=" +:+ Freshness.to_string (ea_freshness a) +:+
  " quality=" +:+ EvidenceQuality.to_string (ea_quality a) +:+
  " provenance=" +:+ Provenance.to_string (ea_provenance a) +:+
  " authority=" +:+ SourceAuthority.to_string (ea_authority a) +:+
  " age_ns=" +:+ i64_to_string (ea_age_ns a) +:+
  " flags=" +:+ describe_flags (ea_flags a) +:+
  (if bool_decide (ea_reason a = EmptyString) then EmptyString
   else " reason=" +:+ ea_reason a).

(** ** Flags *)

Lemma with_flag_has mask flag flag' :
  has_flag (with_flag mask flag) flag' =
    has_flag mask flag' || (bool_decide (flag = flag') && bool_decide (flag ≠ EvidenceFlag.NoFlag)).
Proof.
  unfold has_flag, with_flag. rewrite Z.land_lor_distr_l.
  destruct (Z.eqb_spec (Z.land mask (EvidenceFlag.value flag')) 0) as [->|Hne]; cbn [negb orb].
  - rewrite Z.lor_0_l. by destruct flag, flag'.
  - apply negb_true_iff, Z.eqb_neq. rewrite Z.lor_eq_0_iff. tauto.
Qed.

Lemma authority_parse_print a : SourceAuthority.parse (SourceAuthority.to_string a) = (a, true).
Proof. by destruct a. Qed.

(** ** Freshness *)

Definition freshness_rank (f : Freshness) : Z :=
  match f with
  | Freshness.Unknown => 0 | Freshness.Fresh => 1 | Freshness.Aging => 2 | Freshness.Stale => 3
  | Freshness.Expired => 4
  end.

Lemma assess_freshness_mono policy a b :
  fresh_within_ns policy <= aging_within_ns policy <= stale_within_ns policy →
  a <= b →
  freshness_rank (assess_freshness a policy) <= freshness_rank (assess_freshness b policy).
Proof. intros H Hab. unfold assess_freshness. bool_cases; cbn; lia. Qed.

Lemma assess_freshness_fresh policy a :
  0 <= a → is_fresh (assess_freshness a policy) = (a <? fresh_within_ns policy).
Proof. intros H. unfold assess_freshness. bool_cases; cbn; lia || done. Qed.

Lemma establishes_current_spec a :
  establishes_current_pressure a = true ↔
  ea_freshness a = Freshness.Fresh ∧ ea_quality a = EvidenceQuality.Complete ∧
  ea_provenance a ≠ Provenance.RecoveredFromPersistence ∧
  has_flag (ea_flags a) EvidenceFlag.Recovered = false ∧
  (ea_authority a = SourceAuthority.Primary ∨ ea_authority a = SourceAuthority.Authoritative).
Proof.
  unfold establishes_current_pressure.
  repeat case_bool_decide; [split; [done|tauto]..|].
  destruct (has_flag _ _) eqn:?; [split; [done|intros (?&?&?&?&?); congruence]|].
  destruct (ea_authority a); cbn; split; try done;
    (intros _; split_and!; auto) || (intros (_&_&_&_&[?|?]); done) || tauto.
Qed.

#[export] Hint Rewrite with_flag_has : qobs.
