(* ===== verification/Sample.v ===== *)
(** * Samples

    [model/Sample.hpp] and [model/Sample.cpp]: the measurement fields, the mask
    of the fields a sample reports, and the sample itself. *)

From S2P Require Import Prelude Result Text Identity Time Evidence.
Open Scope Z_scope.

Module SampleField.
Inductive SampleField : Set :=
| OccupancyBytes | OccupancyCells | QueueDepthPackets | SharedBufferCells | HeadroomCells
| ReservedCells | StaticThresholdCells | DynamicThresholdCells | MaxDepthPackets
| HighWatermarkCells | EnqueuePackets | DequeuePackets | DropPackets | DropBytes
| MarkPackets | PauseFrames | PauseDurationNanos | Count.
#[export] Instance SampleField_eq_dec : EqDecision SampleField.
Proof. solve_decision. Defined.

(** [static_cast<std::size_t>(field)] *)
Definition index (field : SampleField) : nat :=
  match field with
  | OccupancyBytes => 0 | OccupancyCells => 1 | QueueDepthPackets => 2
  | SharedBufferCells => 3 | HeadroomCells => 4 | ReservedCells => 5
  | StaticThresholdCells => 6 | DynamicThresholdCells => 7 | MaxDepthPackets => 8
  | HighWatermarkCells => 9 | EnqueuePackets => 10 | DequeuePackets => 11
  | DropPackets => 12 | DropBytes => 13 | MarkPackets => 14 | PauseFrames => 15
  | PauseDurationNanos => 16 | Count => 17
  end.
End SampleField.
#[export] Existing Instance SampleField.SampleField_eq_dec.
Abbreviation SampleField := SampleField.SampleField.

Definition kSampleFieldCount : nat := SampleField.index SampleField.Count.

(** [static_cast<SampleField>(index)], over the indices below the count. *)
Definition all_fields : list SampleField :=
  [ SampleField.OccupancyBytes; SampleField.OccupancyCells; SampleField.QueueDepthPackets;
    SampleField.SharedBufferCells; SampleField.HeadroomCells; SampleField.ReservedCells;
    SampleField.StaticThresholdCells; SampleField.DynamicThresholdCells;
    SampleField.MaxDepthPackets; SampleField.HighWatermarkCells; SampleField.EnqueuePackets;
    SampleField.DequeuePackets; SampleField.DropPackets; SampleField.DropBytes;
    SampleField.MarkPackets; SampleField.PauseFrames; SampleField.PauseDurationNanos ].

Abbreviation FieldMask := Z (only parsing).

Definition field_bit (field : SampleField) : FieldMask :=
  Z.shiftl 1 (Z.of_nat (SampleField.index field)).
Definition has_field (mask : FieldMask) (field : SampleField) : bool :=
  negb (Z.land mask (field_bit field) =? 0).

(** The table [kFieldNames]. *)
Definition kFieldNames : list (SampleField * string) :=
  [ (SampleField.OccupancyBytes, "occupancy_bytes");
    (SampleField.OccupancyCells, "occupancy_cells");
    (SampleField.QueueDepthPackets, "queue_depth_packets");
    (SampleField.SharedBufferCells, "shared_buffer_cells");
    (SampleField.HeadroomCells, "headroom_cells");
    (SampleField.ReservedCells, "reserved_cells");
    (SampleField.StaticThresholdCells, "static_threshold_cells");
    (SampleField.DynamicThresholdCells, "dynamic_threshold_cells");
    (SampleField.MaxDepthPackets, "max_depth_packets");
    (SampleField.HighWatermarkCells, "high_watermark_cells");
    (SampleField.EnqueuePackets, "enqueue_packets");
    (SampleField.DequeuePackets, "dequeue_packets");
    (SampleField.DropPackets, "drop_packets");
    (SampleField.DropBytes, "drop_bytes");
    (SampleField.MarkPackets, "mark_packets");
    (SampleField.PauseFrames, "pause_frames");
    (SampleField.PauseDurationNanos, "pause_duration_nanos") ].

Definition field_to_string (field : SampleField) : string :=
  match nth_error kFieldNames (SampleField.index field) with
  | Some entry => entry.2
  | None => "unknown"
  end.

Definition parse_sample_field (text : string) : option SampleField :=
  fst <$> find (λ entry : SampleField * string, bool_decide (entry.2 = text)) kFieldNames.

Definition is_counter_field (field : SampleField) : bool :=
  match field with
  | SampleField.EnqueuePackets | SampleField.DequeuePackets | SampleField.DropPackets
  | SampleField.DropBytes | SampleField.MarkPackets | SampleField.PauseFrames
  | SampleField.PauseDurationNanos => true
  | _ => false
  end.

Module AttributeOrigin.
Inductive AttributeOrigin : Set := Unspecified | ObservedInSample | ResolvedFromMetadata.
#[export] Instance AttributeOrigin_eq_dec : EqDecision AttributeOrigin.
Proof. solve_decision. Defined.

Definition to_string (value : AttributeOrigin) : string :=
  match value with
  | Unspecified => "unspecified" | ObservedInSample => "observed_in_sample"
  | ResolvedFromMetadata => "resolved_from_metadata"
  end.
End AttributeOrigin.
#[export] Existing Instance AttributeOrigin.AttributeOrigin_eq_dec.
Abbreviation AttributeOrigin := AttributeOrigin.AttributeOrigin.

Record QueueClassAttributes := mkClasses {
  qc_traffic_class : option TrafficClassId;
  qc_scheduling_class : option SchedulingClassId;
  qc_origin : AttributeOrigin;
  qc_metadata_revision : Revision
}.
#[export] Instance QueueClassAttributes_eq_dec : EqDecision QueueClassAttributes.
Proof. solve_decision. Defined.

Definition no_classes : QueueClassAttributes :=
  mkClasses None None AttributeOrigin.Unspecified 0.

(** [declared_version] and [declared_crc], which the decoder fills and no code
    below it reads, are left out. *)
Record QueueSample := mkSample {
  qs_queue : QueuePath;
  qs_classes : QueueClassAttributes;
  qs_source : SourceId;
  qs_incarnation : IncarnationId;
  qs_sequence : SourceSequence;
  qs_authority : SourceAuthority;
  qs_generation : GenerationId;
  qs_revision : Revision;
  qs_observed : ObservationTime;
  qs_received : ReceiveTime;
  qs_reported : FieldMask;
  qs_declared : FieldMask;
  qs_values : list Z (* values_[kSampleFieldCount] *)
}.
#[export] Instance QueueSample_eq_dec : EqDecision QueueSample.
Proof. solve_decision. Defined.

Definition no_sample : QueueSample :=
  mkSample no_path no_classes EmptyString EmptyString 0 SourceAuthority.Unknown 0 0
    no_observation no_receive 0 0 (replicate kSampleFieldCount 0).

Definition set_received (r : ReceiveTime) (s : QueueSample) : QueueSample :=
  mkSample (qs_queue s) (qs_classes s) (qs_source s) (qs_incarnation s) (qs_sequence s)
    (qs_authority s) (qs_generation s) (qs_revision s) (qs_observed s) r (qs_reported s)
    (qs_declared s) (qs_values s).
Definition set_measurements (reported : FieldMask) (values : list Z) (s : QueueSample) :
    QueueSample :=
  mkSample (qs_queue s) (qs_classes s) (qs_source s) (qs_incarnation s) (qs_sequence s)
    (qs_authority s) (qs_generation s) (qs_revision s) (qs_observed s) (qs_received s) reported
    (qs_declared s) values.

Definition has (s : QueueSample) (field : SampleField) : bool := has_field (qs_reported s) field.

(** [values_[index]] *)
Definition value_at (s : QueueSample) (index : nat) : Z := nth index (qs_values s) 0.

Definition value (s : QueueSample) (field : SampleField) : option Z :=
  if (kSampleFieldCount <=? SampleField.index field)%nat then None
  else if negb (has_field (qs_reported s) field) then None
  else Some (value_at s (SampleField.index field)).

Definition set_value (field : SampleField) (v : Z) (s : QueueSample) : QueueSample :=
  if (kSampleFieldCount <=? SampleField.index field)%nat then s
  else set_measurements (Z.lor (qs_reported s) (field_bit field))
         (<[SampleField.index field := v]> (qs_values s)) s.

Definition clear_value (field : SampleField) (s : QueueSample) : QueueSample :=
  if (kSampleFieldCount <=? SampleField.index field)%nat then s
  else set_measurements (Z.ldiff (qs_reported s) (field_bit field))
         (<[SampleField.index field := 0]> (qs_values s)) s.

Definition raw_value_or_zero (s : QueueSample) (field : SampleField) : Z :=
  if (SampleField.index field <? kSampleFieldCount)%nat then value_at s (SampleField.index field)
  else 0.

Definition occupancy_cells (s : QueueSample) : option Z := value s SampleField.OccupancyCells.
Definition occupancy_bytes (s : QueueSample) : option Z := value s SampleField.OccupancyBytes.

Definition occupancy_for_pressure (s : QueueSample) : option Z :=
  match occupancy_cells s with Some cells => Some cells | None => occupancy_bytes s end.

Definition missing_required (s : QueueSample) (required : FieldMask) : FieldMask :=
  Z.ldiff required (qs_reported s).

(** ** Fields and masks *)

Lemma has_field_testbit mask field :
  has_field mask field = Z.testbit mask (Z.of_nat (SampleField.index field)).
Proof.
  unfold has_field, field_bit. rewrite Z.shiftl_1_l.
  destruct (Z.testbit mask _) eqn:E.
  - apply negb_true_iff, Z.eqb_neq. intros H.
    apply (f_equal (λ x, Z.testbit x (Z.of_nat (SampleField.index field)))) in H.
    rewrite Z.land_spec, E, Z.pow2_bits_true, Z.bits_0 in H by lia. done.
  - apply negb_false_iff, Z.eqb_eq. apply Z.bits_inj'. intros n Hn.
    rewrite Z.land_spec, Z.bits_0.
    destruct (decide (n = Z.of_nat (SampleField.index field))) as [->|Hne]; [by rewrite E|].
    rewrite Z.pow2_bits_false by lia. apply andb_false_r.
Qed.

Lemma field_index_inj a b : SampleField.index a = SampleField.index b → a = b.
Proof. by destruct a, b. Qed.

Lemma all_fields_index i field :
  nth_error all_fields i = Some field → SampleField.index field = i.
Proof. do 17 (destruct i as [|i]; [intros [= <-]; done|]). by destruct i. Qed.

Lemma all_fields_complete field : field ≠ SampleField.Count → field ∈ all_fields.
Proof. intros H. destruct field; try done; apply list_elem_of_In; cbn; tauto. Qed.

Lemma has_field_lor m1 m2 field :
  has_field (Z.lor m1 m2) field = has_field m1 field || has_field m2 field.
Proof. by rewrite !has_field_testbit, Z.lor_spec. Qed.

Lemma has_field_ldiff m1 m2 field :
  has_field (Z.ldiff m1 m2) field = has_field m1 field && negb (has_field m2 field).
Proof. by rewrite !has_field_testbit, Z.ldiff_spec. Qed.

Lemma has_field_bit a b : has_field (field_bit a) b = bool_decide (a = b).
Proof. by destruct a, b. Qed.

Lemma field_parse_print field :
  field ≠ SampleField.Count → parse_sample_field (field_to_string field) = Some field.
Proof. by destruct field. Qed.

#[export] Hint Rewrite has_field_lor has_field_ldiff has_field_bit : qobs.

(** A set field reads back; every other field keeps what it had, reported or
    not; and clearing removes exactly the one field. *)
Lemma value_set_value s field field' v :
  length (qs_values s) = kSampleFieldCount → field ≠ SampleField.Count →
  value (set_value field v s) field' = if decide (field = field') then Some v else value s field'.
Proof.
  intros Hlen Hf. unfold value, set_value.
  assert (SampleField.index field < kSampleFieldCount)%nat as Hlt by (destruct field; cbn; lia || done).
  rewrite (proj2 (Nat.leb_gt kSampleFieldCount (SampleField.index field))) by done.
  cbn [set_measurements qs_reported qs_values]. rewrite has_field_lor, has_field_bit.
  unfold value_at. cbn [set_measurements qs_values].
  destruct (decide (field = field')) as [->|Hne].
  - rewrite (proj2 (Nat.leb_gt kSampleFieldCount (SampleField.index field'))) by done.
    rewrite bool_decide_eq_true_2, orb_true_r by done. cbn [negb].
    rewrite nth_lookup, list_lookup_insert_eq by lia. done.
  - rewrite bool_decide_eq_false_2, orb_false_r by done.
    rewrite !nth_lookup, list_lookup_insert_ne; [done|]. by intros ?%field_index_inj.
Qed.
