(* ===== verification/Counter.v ===== *)
(** * Counters

    [model/Counter.hpp] and [model/Counter.cpp]: the fold of one raw reading of a
    finite-width counter into its state, and what its outcomes are worth when the
    reading is the low bits of a count that only grows. *)

From S2P Require Import Prelude Result Checked Text Identity Time.
Open Scope Z_scope.
Open Scope word_scope.

Module CounterWidth.
Inductive CounterWidth : Set := Bits32 | Bits64.
#[export] Instance CounterWidth_eq_dec : EqDecision CounterWidth.
Proof. solve_decision. Defined.

(** The enumerators' values, 32 and 64. *)
Definition bits (width : CounterWidth) : Z := match width with Bits32 => 32 | Bits64 => 64 end.
Definition to_string (width : CounterWidth) : string :=
  match width with Bits32 => "32" | Bits64 => "64" end.
End CounterWidth.
#[export] Existing Instance CounterWidth.CounterWidth_eq_dec.
Abbreviation CounterWidth := CounterWidth.CounterWidth.

Definition counter_modulus (width : CounterWidth) : Z :=
  if bool_decide (width = CounterWidth.Bits32) then 4294967296 else 0.
Definition wraps_within_64_bits (width : CounterWidth) : bool :=
  bool_decide (width = CounterWidth.Bits32).

Module CounterContinuity.
Inductive CounterContinuity : Set :=
| FirstObservation | Continuous | Unchanged | Wrapped | Reset | Discontinuous | AmbiguousWrap
| Undetermined.
#[export] Instance CounterContinuity_eq_dec : EqDecision CounterContinuity.
Proof. solve_decision. Defined.

Definition to_string (value : CounterContinuity) : string :=
  match value with
  | FirstObservation => "first_observation"
  | Continuous => "continuous"
  | Unchanged => "unchanged"
  | Wrapped => "wrapped"
  | Reset => "reset"
  | Discontinuous => "discontinuous"
  | AmbiguousWrap => "ambiguous_wrap"
  | Undetermined => "undetermined"
  end.

Definition yields_known_delta (value : CounterContinuity) : bool :=
  bool_decide (value = Continuous) || bool_decide (value = Unchanged) ||
  bool_decide (value = Wrapped).
End CounterContinuity.
#[export] Existing Instance CounterContinuity.CounterContinuity_eq_dec.
Abbreviation CounterContinuity := CounterContinuity.CounterContinuity.

Record ContinuityPolicy := mkContinuity {
  cp_width : CounterWidth;
  cp_max_sample_gap_ns : Nanos;
  cp_max_rate_per_second : option Z;
  cp_reset_detection_enabled : bool
}.
#[export] Instance ContinuityPolicy_eq_dec : EqDecision ContinuityPolicy.
Proof. solve_decision. Defined.

Definition default_continuity : ContinuityPolicy :=
  mkContinuity CounterWidth.Bits32 30000000000 None true.

Record CounterState := mkCounter {
  initialized : bool;
  cs_width : CounterWidth;
  last_raw : Z;
  last_observed : ObservationTime;
  last_received : ReceiveTime;
  known_total : Z;
  wraps : Z;
  resets : Z;
  ambiguous : Z;
  discontinuities : Z;
  known_deltas : Z;
  unknown_deltas : Z
}.

Definition fresh_counter : CounterState :=
  mkCounter false CounterWidth.Bits32 0 no_observation no_receive 0 0 0 0 0 0 0.

Record CounterUpdate := mkUpdate {
  cu_continuity : CounterContinuity;
  cu_delta_known : bool;
  cu_delta : Z;
  cu_regressed : bool;
  cu_reason : string
}.

Record CounterDelta := mkDelta {
  cd_continuity : CounterContinuity;
  cd_known : bool;
  cd_delta : Z
}.
#[export] Instance CounterDelta_eq_dec : EqDecision CounterDelta.
Proof. solve_decision. Defined.
Definition no_delta : CounterDelta := mkDelta CounterContinuity.Undetermined false 0.

(** The assignments the handler makes. *)
Definition store_times (observed : ObservationTime) (received : ReceiveTime)
    (s : CounterState) : CounterState :=
  mkCounter (initialized s) (cs_width s) (last_raw s) observed received (known_total s) (wraps s)
    (resets s) (ambiguous s) (discontinuities s) (known_deltas s) (unknown_deltas s).
Definition store_raw (raw : Z) (s : CounterState) : CounterState :=
  mkCounter (initialized s) (cs_width s) raw (last_observed s) (last_received s) (known_total s)
    (wraps s) (resets s) (ambiguous s) (discontinuities s) (known_deltas s) (unknown_deltas s).
Definition start_counter (width : CounterWidth) (s : CounterState) : CounterState :=
  mkCounter true width (last_raw s) (last_observed s) (last_received s) (known_total s)
    (wraps s) (resets s) (ambiguous s) (discontinuities s) (known_deltas s) (unknown_deltas s).
Definition count_known (delta : Z) (s : CounterState) : CounterState :=
  mkCounter (initialized s) (cs_width s) (last_raw s) (last_observed s) (last_received s)
    (known_total s +u delta) (wraps s) (resets s) (ambiguous s) (discontinuities s)
    (known_deltas s +u 1) (unknown_deltas s).
Definition count_unknown (s : CounterState) : CounterState :=
  mkCounter (initialized s) (cs_width s) (last_raw s) (last_observed s) (last_received s)
    (known_total s) (wraps s) (resets s) (ambiguous s) (discontinuities s) (known_deltas s)
    (unknown_deltas s +u 1).
Definition count_wrap (s : CounterState) : CounterState :=
  mkCounter (initialized s) (cs_width s) (last_raw s) (last_observed s) (last_received s)
    (known_total s) (wraps s +u 1) (resets s) (ambiguous s) (discontinuities s) (known_deltas s)
    (unknown_deltas s).
Definition count_reset (s : CounterState) : CounterState :=
  mkCounter (initialized s) (cs_width s) (last_raw s) (last_observed s) (last_received s)
    (known_total s) (wraps s) (resets s +u 1) (ambiguous s) (discontinuities s) (known_deltas s)
    (unknown_deltas s).
Definition count_ambiguous (s : CounterState) : CounterState :=
  mkCounter (initialized s) (cs_width s) (last_raw s) (last_observed s) (last_received s)
    (known_total s) (wraps s) (resets s) (ambiguous s +u 1) (discontinuities s) (known_deltas s)
    (unknown_deltas s).
Definition count_discontinuity (s : CounterState) : CounterState :=
  mkCounter (initialized s) (cs_width s) (last_raw s) (last_observed s) (last_received s)
    (known_total s) (wraps s) (resets s) (ambiguous s) (discontinuities s +u 1) (known_deltas s)
    (unknown_deltas s).

Definition describe_gap (gap_ns : Nanos) : string := i64_to_string gap_ns +:+ "ns".

Definition max_advance_in_gap (policy : ContinuityPolicy) (gap_ns : Nanos) : option Z :=
  match cp_max_rate_per_second policy with
  | None => None
  | Some rate =>
      if gap_ns <? 0 then None
      else (λ scaled, scaled / kNanosPerSecond) <$> mul_u64 rate gap_ns
  end.

(** The test of both wrap branches: one more turn than [delta] would also have
    fitted in the gap. *)
Definition extra_wrap_possible (max_advance : option Z) (delta modulus : Z) : bool :=
  match max_advance, add_u64 delta modulus with
  | Some advance, Some extra_wrap => extra_wrap <=? advance
  | _, _ => false
  end.

Definition undelta (continuity : CounterContinuity) (regressed : bool) (reason : string) :
    CounterUpdate := mkUpdate continuity false 0 regressed reason.

(** What follows the raw comparison, once the gap is accepted: [previous] is the
    reading before this one. *)
Definition classify_movement (state : CounterState) (raw previous : Z) (gap_ns : Nanos)
    (policy : ContinuityPolicy) : CounterState * CounterUpdate :=
  if raw =? previous then
    (count_known 0 state, mkUpdate CounterContinuity.Unchanged true 0 false EmptyString)
  else
    let modulus := counter_modulus (cp_width policy) in
    let wraps := wraps_within_64_bits (cp_width policy) in
    let max_advance := max_advance_in_gap policy gap_ns in
    if previous <? raw then
      let delta := raw -u previous in
      if wraps && extra_wrap_possible max_advance delta modulus then
        (count_unknown (count_ambiguous state),
         undelta CounterContinuity.AmbiguousWrap false
           "the counter could have wrapped at least once inside the gap; no delta is claimed")
      else
        (count_known delta state, mkUpdate CounterContinuity.Continuous true delta false EmptyString)
    else
      let backwards := previous -u raw in
      if wraps && (modulus / 2 <? backwards) then
        let delta := (modulus -u previous) +u raw in
        if extra_wrap_possible max_advance delta modulus then
          (count_unknown (count_ambiguous state),
           undelta CounterContinuity.AmbiguousWrap false
             "the counter could have wrapped more than once inside the gap; no delta is claimed")
        else
          (count_known delta (count_wrap state),
           mkUpdate CounterContinuity.Wrapped true delta true EmptyString)
      else if cp_reset_detection_enabled policy then
        (count_unknown (count_reset state),
         undelta CounterContinuity.Reset true
           ("counter decreased by " +:+ u64_to_string backwards +:+
            " which is too small for a wrap of a " +:+ CounterWidth.to_string (cp_width policy) +:+
            "-bit counter"))
      else
        (count_unknown state,
         undelta CounterContinuity.Undetermined true
           "counter decreased and reset detection is disabled; no delta is claimed").

(** The nanoseconds since the previous reading: observed ones when the two
    observations share a clock domain, received ones otherwise. *)
Definition counter_gap (state : CounterState) (observed : ObservationTime)
    (received : ReceiveTime) : Nanos :=
  if comparable (compare_observation_times (last_observed state) observed)
  then obs_ns observed -s obs_ns (last_observed state)
  else steady received -s steady (last_received state).

Definition update_counter (state : CounterState) (raw : Z) (observed : ObservationTime)
    (received : ReceiveTime) (policy : ContinuityPolicy) : CounterState * CounterUpdate :=
  if negb (initialized state) then
    (store_times observed received (store_raw raw (start_counter (cp_width policy) state)),
     undelta CounterContinuity.FirstObservation false
       "first observation of this counter establishes the baseline")
  else if wraps_within_64_bits (cp_width policy) && (counter_modulus (cp_width policy) <=? raw) then
    (count_unknown (store_times observed received state),
     undelta CounterContinuity.Undetermined false
       "the reported value exceeds the width of the counter it belongs to")
  else
    let previous := last_raw state in
    let gap_ns := counter_gap state observed received in
    let state' := store_times observed received (store_raw raw state) in
    if gap_ns <? 0 then
      (count_unknown state',
       undelta CounterContinuity.Undetermined false
         "observation time precedes the previous sample; no delta is claimed")
    else if (0 <? cp_max_sample_gap_ns policy) && (cp_max_sample_gap_ns policy <? gap_ns) then
      (count_unknown (count_discontinuity state'),
       undelta CounterContinuity.Discontinuous false
         ("gap of " +:+ describe_gap gap_ns +:+ " exceeds the continuity limit of " +:+
          describe_gap (cp_max_sample_gap_ns policy)))
    else classify_movement state' raw previous gap_ns policy.

(** ** Readings of a count that only grows

    [reading width total] is what a device that has counted [total] events
    reports. *)

Definition full_modulus (width : CounterWidth) : Z := 2 ^ CounterWidth.bits width.
Definition reading (width : CounterWidth) (total : Z) : Z := total mod full_modulus width.

Lemma reading_range width total : 0 <= reading width total < full_modulus width.
Proof. apply Z.mod_pos_bound. by destruct width. Qed.

Lemma reading_u64 width total : is_u64 (reading width total).
Proof. pose proof (reading_range width total). destruct width; cbv [full_modulus] in *; cbn in *; word_lia. Qed.

(** The advance between two readings, up to full turns. *)
Lemma reading_advance width t0 t1 :
  t0 <= t1 →
  ∃ k, 0 <= k ∧
    t1 - t0 = (reading width t1 - reading width t0) mod full_modulus width + k * full_modulus width.
Proof.
  intros Hle. assert (full_modulus width > 0) by (by destruct width).
  exists ((t1 - t0) / full_modulus width). split; [apply Z.div_pos; lia|].
  unfold reading. rewrite <- Zminus_mod.
  pose proof (Z.div_mod (t1 - t0) (full_modulus width) ltac:(lia)). lia.
Qed.

Lemma modulus_full width :
  wraps_within_64_bits width = true → counter_modulus width = full_modulus width.
Proof. by destruct width. Qed.

(** A claimed delta is the distance between the readings around the counter's
    circle, and never more than the modulus allows. *)
Lemma classify_movement_delta state raw previous gap policy (u : CounterUpdate) state' :
  0 <= raw < full_modulus (cp_width policy) →
  0 <= previous < full_modulus (cp_width policy) →
  classify_movement state raw previous gap policy = (state', u) →
  (cu_delta_known u = true ∧ state' = count_known (cu_delta u)
     (if bool_decide (cu_continuity u = CounterContinuity.Wrapped) then count_wrap state else state) ∧
   cu_delta u = (raw - previous) mod full_modulus (cp_width policy)) ∨
  (cu_delta_known u = false ∧ cu_delta u = 0 ∧ known_total state' = known_total state ∧
   known_deltas state' = known_deltas state ∧ unknown_deltas state' = unknown_deltas state +u 1).
Proof.
  intros Hr Hp. assert (is_u64 raw ∧ is_u64 previous ∧ full_modulus (cp_width policy) <= u64_max + 1)
    as (Hr64 & Hp64 & Hfm) by (destruct (cp_width policy); cbv [full_modulus] in *; cbn in *; word_lia).
  unfold classify_movement.
  destruct (Z.eqb_spec raw previous) as [->|Hne].
  { intros [= <- <-]. left. cbn. by rewrite Z.sub_diag, Z.mod_0_l by lia. }
  destruct (Z.ltb_spec previous raw).
  - destruct (_ && _); intros [= <- <-]; [by right|left]. cbn.
    rewrite wrap_u64_id, Z.mod_small by word_lia. done.
  - destruct (wraps_within_64_bits _) eqn:Hw; cbn [andb].
    + rewrite (modulus_full _ Hw). rewrite (wrap_u64_id (previous - raw)) by word_lia.
      rewrite (wrap_u64_id (full_modulus _ - previous)), wrap_u64_id by word_lia.
      destruct (Z.ltb_spec (full_modulus (cp_width policy) / 2) (previous - raw)).
      * destruct (extra_wrap_possible _ _ _); intros [= <- <-]; [by right|left]. cbn.
        split_and!; [done..|]. apply (Z.mod_unique_pos _ _ (-1)); lia.
      * destruct (cp_reset_detection_enabled policy); intros [= <- <-]; by right.
    + destruct (cp_reset_detection_enabled policy); intros [= <- <-]; by right.
Qed.

(** The advance that the rate bound leaves possible in the gap. *)
Definition within_rate (policy : ContinuityPolicy) (gap advance : Z) : Prop :=
  ∃ bound, max_advance_in_gap policy gap = Some bound ∧ advance <= bound.

Lemma extra_wrap_spec bound delta modulus :
  is_u64 delta → is_u64 modulus →
  extra_wrap_possible (Some bound) delta modulus = false →
  bound < delta + modulus ∨ u64_max < delta + modulus.
Proof.
  intros Hd Hm. unfold extra_wrap_possible. rewrite add_u64_spec by done.
  bool_cases; [|lia]. intros ?%Z.leb_gt. by left.
Qed.

Lemma classify_movement_extra s raw previous gap policy s' u :
  cp_width policy = CounterWidth.Bits32 →
  classify_movement s raw previous gap policy = (s', u) →
  cu_delta_known u = true → cu_continuity u ≠ CounterContinuity.Unchanged →
  extra_wrap_possible (max_advance_in_gap policy gap) (cu_delta u) 4294967296 = false.
Proof.
  intros Hw. unfold classify_movement. rewrite Hw.
  change (wraps_within_64_bits CounterWidth.Bits32) with true.
  change (counter_modulus CounterWidth.Bits32) with 4294967296. cbn [andb].
  set (adv := max_advance_in_gap policy gap).
  destruct (raw =? previous); [intros [= <- <-]; intros _ H; by destruct H|].
  destruct (previous <? raw).
  { destruct (extra_wrap_possible _ _ _) eqn:E; intros [= <- <-]; intros H _; [discriminate H|exact E]. }
  destruct (_ <? _).
  { destruct (extra_wrap_possible _ _ _) eqn:E; intros [= <- <-]; intros H _; [discriminate H|exact E]. }
  destruct (cp_reset_detection_enabled _); intros [= <- <-]; intros H; discriminate H.
Qed.

(** Under a rate bound that covers the true advance, a claimed movement is the
    true advance: the wrap branches refuse whenever a further turn fits. *)
Lemma classify_movement_exact state t0 t1 gap policy u state' :
  t0 <= t1 → cp_width policy = CounterWidth.Bits32 →
  within_rate policy gap (t1 - t0) →
  classify_movement state (reading CounterWidth.Bits32 t1) (reading CounterWidth.Bits32 t0) gap policy
    = (state', u) →
  cu_delta_known u = true → cu_continuity u ≠ CounterContinuity.Unchanged →
  cu_delta u = t1 - t0.
Proof.
  intros Hle Hw (bound & Hbound & Hadv) Hrun Hknown Hch.
  pose proof (reading_range CounterWidth.Bits32 t0) as R0.
  pose proof (reading_range CounterWidth.Bits32 t1) as R1.
  destruct (reading_advance CounterWidth.Bits32 t0 t1 Hle) as (k & Hk & Hsum).
  set (r0 := reading _ t0) in *. set (r1 := reading _ t1) in *.
  change (full_modulus CounterWidth.Bits32) with 4294967296 in *.
  assert (cu_delta u = (r1 - r0) mod 4294967296) as Hdelta.
  { eapply classify_movement_delta in Hrun as [(_&_&->)|(?&_)];
      rewrite ?Hw; [done|congruence|done|done]. }
  assert (extra_wrap_possible (Some bound) (cu_delta u) 4294967296 = false) as Hextra.
  { rewrite <- Hbound. eapply classify_movement_extra; eauto. }
  pose proof (Z.mod_pos_bound (r1 - r0) 4294967296 ltac:(lia)).
  apply extra_wrap_spec in Hextra; [|word_lia..]. destruct Hextra; [|word_lia]. nia.
Qed.

Lemma classify_movement_keeps s raw previous gap policy s' u :
  classify_movement s raw previous gap policy = (s', u) →
  initialized s' = initialized s ∧ last_raw s' = last_raw s.
Proof.
  unfold classify_movement. destruct (raw =? previous); [by intros [= <- <-]|].
  destruct (previous <? raw); destruct (_ && _);
    try destruct (extra_wrap_possible _ _ _); try destruct (cp_reset_detection_enabled policy);
    intros [= <- _]; done.
Qed.

(** What one update does to a running counter. *)
Lemma update_counter_step s raw o r policy :
  initialized s = true →
  0 <= raw < full_modulus (cp_width policy) →
  0 <= last_raw s < full_modulus (cp_width policy) →
  let '(s', u) := update_counter s raw o r policy in
  initialized s' = true ∧ last_raw s' = raw ∧
  ((known_total s' = known_total s +u cu_delta u ∧ known_deltas s' = known_deltas s +u 1 ∧
    unknown_deltas s' = unknown_deltas s ∧
    cu_delta u = (raw - last_raw s) mod full_modulus (cp_width policy)) ∨
   (cu_delta_known u = false ∧ known_total s' = known_total s ∧
    known_deltas s' = known_deltas s ∧ unknown_deltas s' = unknown_deltas s +u 1)).
Proof.
  intros Hi Hr Hl. unfold update_counter. rewrite Hi. cbn [negb].
  destruct (wraps_within_64_bits _) eqn:Hw; cbn [andb].
  1: rewrite (modulus_full _ Hw); is_false (full_modulus (cp_width policy) <=? raw).
  all: cbv zeta; destruct (counter_gap s o r <? 0); [cbn; split_and!; [done..|by right]|].
  all: destruct ((0 <? cp_max_sample_gap_ns policy) && _); [cbn; split_and!; [done..|by right]|].
  all: destruct (classify_movement _ _ _ _ _) as [s' u] eqn:Hc.
  all: pose proof (classify_movement_keeps _ _ _ _ _ _ _ Hc) as [Hi' Hl'].
  all: split; [by rewrite Hi'|]. all: split; [exact Hl'|].
  all: eapply classify_movement_delta in Hc as [(Hk & -> & Hd)|(?&?&?&?&?)]; [left|right; auto|done..].
  all: case_bool_decide; cbn; auto.
Qed.

(** ** A whole series of readings *)

Record Tick := mkTick { tick_total : Z; tick_observed : ObservationTime; tick_received : ReceiveTime }.

Definition read_tick (policy : ContinuityPolicy) (s : CounterState) (t : Tick) : CounterState :=
  (update_counter s (reading (cp_width policy) (tick_total t)) (tick_observed t) (tick_received t)
     policy).1.

Inductive grows : Z → list Tick → Prop :=
| grows_nil t : grows t []
| grows_cons t x xs : t <= tick_total x <= u64_max → grows (tick_total x) xs → grows t (x :: xs).

(** The count at the last reading. *)
Fixpoint last_total (t : Z) (xs : list Tick) : Z :=
  match xs with [] => t | x :: xs => last_total (tick_total x) xs end.

Lemma read_ticks_bound policy xs s t first :
  0 <= first <= t → t <= u64_max → grows t xs → initialized s = true →
  last_raw s = reading (cp_width policy) t →
  0 <= known_total s <= t - first → 0 <= known_deltas s → 0 <= unknown_deltas s →
  known_deltas s + unknown_deltas s + Z.of_nat (length xs) <= u64_max →
  let s' := fold_left (read_tick policy) xs s in
  known_total s' <= last_total t xs - first ∧
  known_deltas s' + unknown_deltas s' = known_deltas s + unknown_deltas s + Z.of_nat (length xs).
Proof.
  intros Hf Ht Hg. revert s. induction Hg as [t|t x xs Hx Hg IH]; intros s Hi Hl Hk H1 H2 H3.
  { cbn in *. lia. }
  cbn [fold_left length] in *. rewrite Nat2Z.inj_succ in H3.
  pose proof (update_counter_step s (reading (cp_width policy) (tick_total x)) (tick_observed x)
    (tick_received x) policy Hi) as Hstep. rewrite Hl in Hstep.
  specialize (Hstep (reading_range _ _) (reading_range _ _)).
  unfold read_tick at 2 4 6. destruct (update_counter _ _ _ _ _) as [s' u]. cbn [fst].
  destruct Hstep as (Hi' & Hl' & Hcase).
  destruct (reading_advance (cp_width policy) t (tick_total x)) as (k & Hk0 & Hadv); [lia|].
  pose proof (Z.mod_pos_bound (reading (cp_width policy) (tick_total x) - reading (cp_width policy) t)
    (full_modulus (cp_width policy)) ltac:(by destruct (cp_width policy))).
  assert (0 < full_modulus (cp_width policy)) by (by destruct (cp_width policy)).
  assert (0 <= known_total s' <= tick_total x - first ∧
          known_deltas s' + unknown_deltas s' = known_deltas s + unknown_deltas s + 1 ∧
          0 <= known_deltas s' ∧ 0 <= unknown_deltas s') as (Hk' & Hs & ? & ?).
  { destruct Hcase as [(-> & -> & -> & Hd)|(_ & -> & -> & ->)].
    - rewrite Hd. rewrite !wrap_u64_id by (word_lia || (word_unfold; nia)). nia.
    - rewrite !wrap_u64_id by word_lia. lia. }
  destruct (IH ltac:(lia) ltac:(lia) s') as [IH1 IH2]; try done; cbn [last_total]; lia.
Qed.

(** C8: the total of the deltas a counter justifies never exceeds what the
    device counted.  Take any continuity policy and any series of readings of a
    count that only grows, each reading the low 32 or 64 bits of the count, with
    arbitrary observation and receive times: after all of them the total is at
    most the last count less the first, and every reading after the first was
    filed as exactly one of known and unknown. *)
Theorem counter_never_invents_progress (policy : ContinuityPolicy) (first : Tick) (rest : list Tick) :
  0 <= tick_total first <= u64_max → grows (tick_total first) rest →
  Z.of_nat (length rest) <= u64_max →
  let s := fold_left (read_tick policy) (first :: rest) fresh_counter in
  known_total s <= last_total (tick_total first) rest - tick_total first ∧
  known_deltas s + unknown_deltas s = Z.of_nat (length rest).
Proof.
  intros Hf Hg Hlen. cbn [fold_left].
  apply (read_ticks_bound policy rest (read_tick policy fresh_counter first) (tick_total first)
           (tick_total first)); cbn; lia || done.
Qed.

Definition tick_at (total ns : Z) : Tick := mkTick total no_observation (mkReceive ns ns).

Lemma counter_never_invents_progress_witness :
  known_total (fold_left (read_tick default_continuity)
    [tick_at 4294967290 0; tick_at 4294967300 1; tick_at 4294967400 2] fresh_counter)
  <= 4294967400 - 4294967290.
Proof.
  apply (counter_never_invents_progress default_continuity (tick_at 4294967290 0)
           [tick_at 4294967300 1; tick_at 4294967400 2]);
    [cbn; word_lia|repeat constructor; cbn; word_lia|cbn; word_lia].
Defined.

(** The bound is met: the wrap is counted, the total is the whole advance. *)
Example wrapped_total :
  known_total (fold_left (read_tick default_continuity)
    [tick_at 4294967290 0; tick_at 4294967300 1; tick_at 4294967400 2] fresh_counter) = 110.
Proof. reflexivity. Qed.

(** When the policy bounds the counter's rate and the device kept to the
    bound, a movement that a 32-bit counter claims is the exact number of events
    between the two readings, wraps included: an ambiguous one is never
    claimed.  ([Unchanged] is excluded: see [unchanged_hides_a_turn].) *)
Theorem counter_movement_exact (policy : ContinuityPolicy) (state : CounterState)
    (t0 t1 : Z) (observed : ObservationTime) (received : ReceiveTime) :
  t0 <= t1 → cp_width policy = CounterWidth.Bits32 → initialized state = true →
  last_raw state = reading CounterWidth.Bits32 t0 →
  within_rate policy (counter_gap state observed received) (t1 - t0) →
  let u := (update_counter state (reading CounterWidth.Bits32 t1) observed received policy).2 in
  cu_delta_known u = true → cu_continuity u ≠ CounterContinuity.Unchanged →
  cu_delta u = t1 - t0.
Proof.
  intros Hle Hw Hi Hl Hrate. unfold update_counter. rewrite Hi, Hw, Hl. cbn [negb]. cbv zeta.
  change (wraps_within_64_bits CounterWidth.Bits32) with true.
  pose proof (reading_range CounterWidth.Bits32 t1).
  change (counter_modulus CounterWidth.Bits32) with (full_modulus CounterWidth.Bits32).
  is_false (full_modulus CounterWidth.Bits32 <=? reading CounterWidth.Bits32 t1). cbn [andb].
  destruct (_ <? 0); [intros H'; discriminate H'|].
  destruct ((0 <? _) && _); [intros H'; discriminate H'|].
  destruct (classify_movement _ _ _ _ _) as [s' u] eqn:Hc. cbn [snd].
  by eapply classify_movement_exact.
Qed.

Definition fast_policy : ContinuityPolicy :=
  mkContinuity CounterWidth.Bits32 30000000000 (Some 1000000000) true.
Definition started (raw ns : Z) : CounterState :=
  (update_counter fresh_counter raw no_observation (mkReceive ns ns) fast_policy).1.

Lemma counter_movement_exact_witness :
  cu_delta (update_counter (started 4294967290 0) (reading CounterWidth.Bits32 4294967500)
    no_observation (mkReceive 1000000000 1000000000) fast_policy).2 = 210.
Proof.
  change 210 with (4294967500 - 4294967290).
  apply (counter_movement_exact fast_policy (started 4294967290 0) 4294967290 4294967500
           no_observation (mkReceive 1000000000 1000000000));
    [lia|reflexivity|reflexivity|reflexivity| |vm_compute; reflexivity|vm_compute; discriminate].
  exists 1000000000. split; [vm_compute; reflexivity|lia].
Defined.

(** ** What the outcomes do not guarantee

    A counter that turned over exactly once reads the same: the [Unchanged]
    branch returns before the ambiguity test, and claims that nothing moved. *)
Lemma unchanged_hides_a_turn :
  let received := mkReceive 10000000000 10000000000 in
  let '(s, u) := update_counter (started 7 0) (reading CounterWidth.Bits32 (7 + 4294967296))
                   no_observation received fast_policy in
  within_rate fast_policy (counter_gap (started 7 0) no_observation received) 4294967296 ∧
  cu_continuity u = CounterContinuity.Unchanged ∧ cu_delta_known u = true ∧ cu_delta u = 0.
Proof. cbn. split_and!; try done. exists 10000000000. split; [vm_compute; reflexivity|lia]. Qed.

(** The width test comes after the first reading is stored: a first reading too
    wide for the counter is the baseline of the next one, and the backward
    distance wraps.  The claimed delta is close to [2^64]. *)
Lemma wide_first_reading_invents :
  let '(s, u) := update_counter (started 9000000000 0) 5 no_observation (mkReceive 1 1)
                   default_continuity in
  cu_continuity u = CounterContinuity.Wrapped ∧ cu_delta_known u = true ∧
  known_total s = 18446744069004518917.
Proof. vm_compute. done. Qed.

(** A rate bound whose product with the gap exceeds 64 bits is read as no bound
    at all: the ambiguity is not looked for. *)
Lemma huge_rate_is_no_rate :
  max_advance_in_gap fast_policy 30000000000 = None ∧
  cu_continuity (update_counter (started 7 0) 8 no_observation
    (mkReceive 30000000000 30000000000) fast_policy).2 = CounterContinuity.Continuous.
Proof. vm_compute. done. Qed.
