(* ===== verification/Metadata.v ===== *)
(** * Class metadata

    [model/Metadata.hpp] and [model/Metadata.cpp]: the versioned table of traffic
    and scheduling classes, its validation, and the resolution of a queue's class
    attributes against it. *)

From S2P Require Import Prelude Result Text Identity Time Evidence Sample.
Open Scope Z_scope.

Record TrafficClassDescriptor := mkTrafficClass {
  tc_id : TrafficClassId;
  tc_name : string;
  tc_dscp : option Z;
  tc_priority_code_point : option Z;
  tc_scheduling_class : option SchedulingClassId
}.
#[export] Instance TrafficClassDescriptor_eq_dec : EqDecision TrafficClassDescriptor.
Proof. solve_decision. Defined.

Record SchedulingClassDescriptor := mkSchedulingClass {
  sc_id : SchedulingClassId;
  sc_mode : string;
  sc_weight : option Z
}.
#[export] Instance SchedulingClassDescriptor_eq_dec : EqDecision SchedulingClassDescriptor.
Proof. solve_decision. Defined.

Record QueueClassBinding := mkBinding {
  qb_queue : QueuePath;
  qb_traffic_class : option TrafficClassId;
  qb_scheduling_class : option SchedulingClassId
}.
#[export] Instance QueueClassBinding_eq_dec : EqDecision QueueClassBinding.
Proof. solve_decision. Defined.

Record ClassMetadataTable := mkMetadata {
  md_revision : Revision;
  md_generation : GenerationId;
  md_source : SourceId;
  md_authority : SourceAuthority;
  md_received : ReceiveTime;
  md_traffic_classes : list TrafficClassDescriptor;
  md_scheduling_classes : list SchedulingClassDescriptor;
  md_bindings : list QueueClassBinding
}.
#[export] Instance ClassMetadataTable_eq_dec : EqDecision ClassMetadataTable.
Proof. solve_decision. Defined.

Definition no_metadata : ClassMetadataTable :=
  mkMetadata 0 0 EmptyString SourceAuthority.Unknown no_receive [] [] [].
Definition set_md_received (r : ReceiveTime) (t : ClassMetadataTable) : ClassMetadataTable :=
  mkMetadata (md_revision t) (md_generation t) (md_source t) (md_authority t) r
    (md_traffic_classes t) (md_scheduling_classes t) (md_bindings t).

Definition metadata_valid (t : ClassMetadataTable) : bool :=
  id_valid (md_revision t) && id_valid (md_generation t).

Definition find_traffic_class (t : ClassMetadataTable) (id : TrafficClassId) :
    option TrafficClassDescriptor :=
  find (λ entry, tc_id entry =? id) (md_traffic_classes t).
Definition find_scheduling_class (t : ClassMetadataTable) (id : SchedulingClassId) :
    option SchedulingClassDescriptor :=
  find (λ entry, bool_decide (sc_id entry = id)) (md_scheduling_classes t).
Definition find_binding (t : ClassMetadataTable) (queue : QueuePath) : option QueueClassBinding :=
  find (λ entry, bool_decide (qb_queue entry = queue)) (md_bindings t).

Record MetadataResolution := mkResolution {
  mr_attributes : QueueClassAttributes;
  mr_used_metadata : bool;
  mr_referenced_unknown_class : bool
}.

Definition is_some {A} (o : option A) : bool := match o with Some _ => true | None => false end.

(** One gap and what may fill it: the value, and whether the table gave it. *)
Definition fill_gap {A} (observed offered : option A) : option A * bool :=
  match observed, offered with
  | None, Some v => (Some v, true)
  | _, _ => (observed, false)
  end.

Definition resolve_class_attributes (table : ClassMetadataTable) (queue : QueuePath)
    (observed : QueueClassAttributes) : MetadataResolution :=
  let binding := find_binding table queue in
  let '(traffic, used1) := fill_gap (qc_traffic_class observed) (binding ≫= qb_traffic_class) in
  let '(scheduling0, used2) :=
    fill_gap (qc_scheduling_class observed) (binding ≫= qb_scheduling_class) in
  let '(scheduling, used3) :=
    fill_gap scheduling0 ((traffic ≫= find_traffic_class table) ≫= tc_scheduling_class) in
  let used := used1 || used2 || used3 in
  let origin :=
    if used then AttributeOrigin.ResolvedFromMetadata
    else if is_some (qc_traffic_class observed) || is_some (qc_scheduling_class observed)
         then AttributeOrigin.ObservedInSample
         else qc_origin observed in
  let revision := if used then md_revision table else qc_metadata_revision observed in
  let unknown_traffic :=
    match traffic with Some id => negb (is_some (find_traffic_class table id)) | None => false end in
  let unknown_scheduling :=
    match scheduling with
    | Some id => negb (is_some (find_scheduling_class table id)) | None => false
    end in
  mkResolution (mkClasses traffic scheduling origin revision) used
    (unknown_traffic || unknown_scheduling).

(** The two nested loops of each section of [validate_metadata]: every entry has
    a valid key, which no later entry repeats. *)
Fixpoint check_section {A} (valid : A → bool) (same : A → A → bool) (invalid duplicate : string)
    (entries : list A) : Status :=
  match entries with
  | [] => success
  | entry :: rest =>
      if negb (valid entry) then failure ErrorCode.InvalidArgument invalid
      else if existsb (same entry) rest then failure ErrorCode.InvalidArgument duplicate
      else check_section valid same invalid duplicate rest
  end.

Definition validate_metadata (table : ClassMetadataTable) (max_entries_per_section : Z) :
    Status :=
  if negb (id_valid (md_revision table)) then
    failure ErrorCode.InvalidArgument "metadata revision must be a non-zero revision number"
  else if negb (id_valid (md_generation table)) then
    failure ErrorCode.InvalidArgument "metadata generation must be a non-zero generation number"
  else if negb (name_valid (md_source table)) then
    failure ErrorCode.InvalidArgument "metadata source must be named"
  else if max_entries_per_section <? Z.of_nat (length (md_traffic_classes table)) then
    failure ErrorCode.LimitExceeded "metadata traffic class section exceeds the configured limit"
  else if max_entries_per_section <? Z.of_nat (length (md_scheduling_classes table)) then
    failure ErrorCode.LimitExceeded
      "metadata scheduling class section exceeds the configured limit"
  else if max_entries_per_section <? Z.of_nat (length (md_bindings table)) then
    failure ErrorCode.LimitExceeded "metadata binding section exceeds the configured limit"
  else
    TRY check_section (λ e, id_valid (tc_id e)) (λ a b, tc_id a =? tc_id b)
          "metadata traffic class entries require a non-zero identifier"
          "metadata contains a duplicate traffic class identifier" (md_traffic_classes table) ;;
    TRY check_section (λ e, name_valid (sc_id e)) (λ a b, bool_decide (sc_id a = sc_id b))
          "metadata scheduling class entries require a non-empty identifier"
          "metadata contains a duplicate scheduling class identifier"
          (md_scheduling_classes table) ;;
    TRY check_section (λ e, path_valid (qb_queue e))
          (λ a b, bool_decide (qb_queue a = qb_queue b))
          "metadata bindings require a queue path with a device and a port"
          "metadata contains a duplicate queue binding" (md_bindings table) ;;
    success.

(** ** A validated section is a finite function *)

Lemma check_section_ok {A K} (valid : A → bool) (same : A → A → bool) (key : A → K) m1 m2 entries :
  (∀ a b, same a b = true ↔ key a = key b) →
  ok (check_section valid same m1 m2 entries) = true ↔
  Forall (λ e, valid e = true) entries ∧ NoDup (map key entries).
Proof.
  intros Hsame. induction entries as [|e entries IH]; cbn.
  { split; [|done]. split; constructor. }
  rewrite Forall_cons, NoDup_cons. destruct (valid e) eqn:Hv; cbn [negb]; [|by split; [done|intros [[? _] _]]].
  assert (existsb (same e) entries = true ↔ key e ∈ map key entries) as Hex.
  { rewrite existsb_exists, list_elem_of_In, in_map_iff.
    split; intros (x & H1 & H2); exists x; [rewrite Hsame in H2; by split|].
    split; [done|]. by apply Hsame. }
  destruct (existsb (same e) entries).
  - split; [done|]. intros [_ [[] _]]. by apply Hex.
  - rewrite IH. split; [|tauto]. intros [??]. split_and!; try done. intros Hin.
    by apply Hex in Hin.
Qed.

(** Looking a key up in a duplicate-free section finds the entry that has it. *)
Lemma find_unique {A K} (test : K → A → bool) (key : A → K) entries e :
  (∀ k a, test k a = true ↔ key a = k) →
  NoDup (map key entries) → e ∈ entries → find (test (key e)) entries = Some e.
Proof.
  intros Htest Hnd Hin. induction entries as [|x entries IH]; [by apply not_elem_of_nil in Hin|].
  cbn in *. apply NoDup_cons in Hnd as [Hx Hnd].
  destruct (test (key e) x) eqn:E.
  - apply Htest in E. apply elem_of_cons in Hin as [->|Hin]; [done|].
    destruct Hx. rewrite E. by apply list_elem_of_In, in_map, list_elem_of_In.
  - apply elem_of_cons in Hin as [->|Hin]; [|by apply IH].
    exfalso. assert (test (key x) x = true) by by apply Htest. congruence.
Qed.

(** What a table that [validate_metadata] accepts promises. *)
Record metadata_wf (t : ClassMetadataTable) (limit : Z) : Prop := {
  mw_valid : metadata_valid t = true;
  mw_source : name_valid (md_source t) = true;
  mw_sizes : (Z.of_nat (length (md_traffic_classes t)) <= limit ∧ Z.of_nat (length (md_scheduling_classes t)) <= limit ∧
              Z.of_nat (length (md_bindings t)) <= limit);
  mw_traffic : Forall (λ e, id_valid (tc_id e) = true) (md_traffic_classes t) ∧
               NoDup (map tc_id (md_traffic_classes t));
  mw_scheduling : Forall (λ e, name_valid (sc_id e) = true) (md_scheduling_classes t) ∧
                  NoDup (map sc_id (md_scheduling_classes t));
  mw_bindings : Forall (λ e, path_valid (qb_queue e) = true) (md_bindings t) ∧
                NoDup (map qb_queue (md_bindings t))
}.

Lemma validate_metadata_ok t limit :
  ok (validate_metadata t limit) = true ↔ metadata_wf t limit.
Proof.
  split.
  - unfold validate_metadata. intros Hok.
    destruct (id_valid (md_revision t)) eqn:E1; [|done].
    destruct (id_valid (md_generation t)) eqn:E2; [|done].
    destruct (name_valid (md_source t)) eqn:E3; [|done]. cbn [negb] in Hok.
    destruct (Z.ltb_spec limit (Z.of_nat (length (md_traffic_classes t)))) as [|L1]; [done|].
    destruct (Z.ltb_spec limit (Z.of_nat (length (md_scheduling_classes t)))) as [|L2]; [done|].
    destruct (Z.ltb_spec limit (Z.of_nat (length (md_bindings t)))) as [|L3]; [done|].
    rewrite !ok_try, !andb_true_iff in Hok. destruct Hok as (S1 & S2 & S3 & _).
    rewrite (check_section_ok _ _ tc_id) in S1 by (intros; apply Z.eqb_eq).
    rewrite (check_section_ok _ _ sc_id) in S2 by (intros; apply bool_decide_eq_true).
    rewrite (check_section_ok _ _ qb_queue) in S3 by (intros; apply bool_decide_eq_true).
    split; try done. unfold metadata_valid. by rewrite E1, E2.
  - intros [[E1 E2]%andb_prop E3 (L1 & L2 & L3) S1 S2 S3]. unfold validate_metadata.
    rewrite E1, E2, E3. cbn [negb].
    rewrite (proj2 (Z.ltb_ge _ _) L1), (proj2 (Z.ltb_ge _ _) L2), (proj2 (Z.ltb_ge _ _) L3).
    rewrite !ok_try, !andb_true_iff.
    rewrite (check_section_ok _ _ tc_id) by (intros; apply Z.eqb_eq).
    rewrite (check_section_ok _ _ sc_id) by (intros; apply bool_decide_eq_true).
    rewrite (check_section_ok _ _ qb_queue) by (intros; apply bool_decide_eq_true). done.
Qed.

(** ** Resolution *)

Lemma fill_gap_spec {A} (observed offered v : option A) used :
  fill_gap observed offered = (v, used) →
  (∀ c, observed = Some c → v = Some c) ∧ (observed = None → v = offered) ∧
  (used = true ↔ v ≠ observed).
Proof. destruct observed, offered; intros [= <- <-]; cbn; split_and!; (done || (split; congruence) || congruence). Qed.

Lemma unknown_class_spec {A K} (test : K → A → bool) (key : A → K) entries (class : option K) :
  (∀ k a, test k a = true ↔ key a = k) →
  match class with Some id => negb (is_some (find (test id) entries)) | None => false end = true ↔
  ∃ c, class = Some c ∧ c ∉ map key entries.
Proof.
  intros Htest. destruct class as [id|]; [|split; [done|intros (? & ? & _); done]].
  assert (is_some (find (test id) entries) = true ↔ id ∈ map key entries) as Hf.
  { rewrite list_elem_of_In, in_map_iff. split.
    - destruct (find _ _) eqn:E; [intros _|done]. apply find_some in E as [? E].
      apply Htest in E. eauto.
    - intros (x & Hx & Hin). destruct (find (test id) entries) eqn:E; [done|].
      eapply find_none in E; [|done]. apply Htest in Hx. congruence. }
  destruct (is_some _); cbn; split.
  - done.
  - intros (c & [= <-] & Hc). destruct Hc. by apply Hf.
  - intros _. exists id. split; [done|]. by rewrite <- Hf.
  - done.
Qed.

(** Resolving a queue against a validated table.  A class the sample reports
    is never replaced; a class it does not report is the one its binding names,
    and failing that, for the scheduling class, the one its traffic class names;
    the origin and the revision say that the table was used exactly when it
    changed something; and the unknown-class mark is set exactly when a resolved
    class is not described. *)
Theorem resolution_correct (table : ClassMetadataTable) (limit : Z) (queue : QueuePath)
    (observed : QueueClassAttributes) :
  ok (validate_metadata table limit) = true →
  let r := resolve_class_attributes table queue observed in
  let a := mr_attributes r in
  (∀ c, qc_traffic_class observed = Some c → qc_traffic_class a = Some c) ∧
  (∀ c, qc_scheduling_class observed = Some c → qc_scheduling_class a = Some c) ∧
  (∀ b, b ∈ md_bindings table → qb_queue b = queue →
     (qc_traffic_class observed = None → qc_traffic_class a = qb_traffic_class b) ∧
     (∀ c, qc_scheduling_class observed = None → qb_scheduling_class b = Some c →
        qc_scheduling_class a = Some c) ∧
     (∀ d, d ∈ md_traffic_classes table → qc_traffic_class a = Some (tc_id d) →
        qc_scheduling_class observed = None → qb_scheduling_class b = None →
        qc_scheduling_class a = tc_scheduling_class d)) ∧
  (mr_used_metadata r = true ↔
     qc_traffic_class a ≠ qc_traffic_class observed ∨
     qc_scheduling_class a ≠ qc_scheduling_class observed) ∧
  (mr_used_metadata r = true →
     qc_origin a = AttributeOrigin.ResolvedFromMetadata ∧ qc_metadata_revision a = md_revision table) ∧
  (mr_referenced_unknown_class r = true ↔
     (∃ c, qc_traffic_class a = Some c ∧ c ∉ map tc_id (md_traffic_classes table)) ∨
     (∃ c, qc_scheduling_class a = Some c ∧ c ∉ map sc_id (md_scheduling_classes table))).
Proof.
  intros [_ _ _ [_ Htc] [_ Hsc] [_ Hqb]]%validate_metadata_ok. cbv zeta.
  assert (∀ b, b ∈ md_bindings table → find_binding table (qb_queue b) = Some b) as Fb.
  { intros b Hb.
    pose proof (find_unique (λ k a, bool_decide (qb_queue a = k)) qb_queue (md_bindings table) b) as F.
    apply F; [intros; by rewrite bool_decide_eq_true|done..]. }
  assert (∀ d, d ∈ md_traffic_classes table → find_traffic_class table (tc_id d) = Some d) as Ft.
  { intros d. apply (find_unique (λ k a, tc_id a =? k) tc_id); [intros; by rewrite Z.eqb_eq|done]. }
  unfold resolve_class_attributes.
  destruct (fill_gap (qc_traffic_class observed) _) as [traffic used1] eqn:E1.
  destruct (fill_gap (qc_scheduling_class observed) _) as [scheduling0 used2] eqn:E2.
  destruct (fill_gap scheduling0 _) as [scheduling used3] eqn:E3.
  cbn [mr_attributes mr_used_metadata mr_referenced_unknown_class qc_traffic_class
       qc_scheduling_class qc_origin qc_metadata_revision].
  pose proof (fill_gap_spec _ _ _ _ E1) as (K1 & G1 & U1).
  pose proof (fill_gap_spec _ _ _ _ E2) as (K2 & G2 & U2).
  pose proof (fill_gap_spec _ _ _ _ E3) as (K3 & G3 & U3).
  split_and!.
  - exact K1.
  - intros c Hc. by apply K3, K2.
  - intros b Hb Hq. rewrite <- Hq, (Fb b Hb) in *. cbn in *. split_and!; [exact G1| |].
    + intros c Hn Hc. apply K3. by rewrite G2.
    + intros d Hd Ht Hn Hn'. rewrite G3 by (by rewrite G2). rewrite Ht. cbn.
      by rewrite (Ft d Hd).
  - rewrite !orb_true_iff, U1, U2, U3. destruct (qc_scheduling_class observed) eqn:Eo.
    + rewrite (K2 _ eq_refl) in *. rewrite (K3 _ eq_refl) in *. intuition congruence.
    + destruct scheduling0; [rewrite (K3 _ eq_refl) in *|]; intuition congruence.
  - intros ->. done.
  - rewrite orb_true_iff. apply Morphisms_Prop.or_iff_morphism; [apply (unknown_class_spec (λ k a, tc_id a =? k)); intros; by rewrite Z.eqb_eq
      |].
    pose proof (unknown_class_spec (λ k a, bool_decide (sc_id a = k)) sc_id
                  (md_scheduling_classes table) scheduling) as U.
    apply U. intros. by rewrite bool_decide_eq_true.
Qed.

Example sample_table : ClassMetadataTable :=
  mkMetadata 4 2 "controller" SourceAuthority.Authoritative no_receive
    [mkTrafficClass 3 "lossless" (Some 26) None (Some "wrr")]
    [mkSchedulingClass "wrr" "weighted-round-robin" (Some 5)]
    [mkBinding (mkQueuePath "leaf" "eth0" 3) (Some 3) None].

Lemma resolution_correct_witness :
  let r := resolve_class_attributes sample_table (mkQueuePath "leaf" "eth0" 3) no_classes in
  mr_attributes r = mkClasses (Some 3) (Some "wrr") AttributeOrigin.ResolvedFromMetadata 4 ∧
  mr_used_metadata r = true.
Proof.
  split; [reflexivity|].
  apply (resolution_correct sample_table 8 (mkQueuePath "leaf" "eth0" 3) no_classes);
    [vm_compute; reflexivity|]. left. vm_compute. discriminate.
Defined.
