(* ===== verification/Event.v ===== *)
(** * Events

    [model/Event.hpp] and [model/Event.cpp]: the kinds, severities and records of
    the audit log, and the single-line rendering. *)

From S2P Require Import Prelude Result Text Identity Time Evidence.
Open Scope Z_scope.

Module EventKind.
Inductive EventKind : Set :=
| SampleAccepted | SampleRejected | SampleFenced | DuplicateReplay | ConflictDetected
| ConflictCleared | CounterWrap | CounterReset | CounterAmbiguous | CounterDiscontinuous
| SourceRegistered | SourceIncarnationChanged | SourceAuthorityChanged
| SourceSequenceRegression | MetadataUpdated | MetadataRevisionFenced | StateTransition
| MicroburstDetected | MicroburstInsufficientCoverage | ContentionDetected
| PersistenceWritten | PersistenceRecovered | PersistenceFailed | HistoryEvicted
| QueueLimitReached | RuntimeStarted | RuntimeStopped.
#[export] Instance EventKind_eq_dec : EqDecision EventKind.
Proof. solve_decision. Defined.

Definition to_string (kind : EventKind) : string :=
  match kind with
  | SampleAccepted => "sample_accepted"
  | SampleRejected => "sample_rejected"
  | SampleFenced => "sample_fenced"
  | DuplicateReplay => "duplicate_replay"
  | ConflictDetected => "conflict_detected"
  | ConflictCleared => "conflict_cleared"
  | CounterWrap => "counter_wrap"
  | CounterReset => "counter_reset"
  | CounterAmbiguous => "counter_ambiguous"
  | CounterDiscontinuous => "counter_discontinuous"
  | SourceRegistered => "source_registered"
  | SourceIncarnationChanged => "source_incarnation_changed"
  | SourceAuthorityChanged => "source_authority_changed"
  | SourceSequenceRegression => "source_sequence_regression"
  | MetadataUpdated => "metadata_updated"
  | MetadataRevisionFenced => "metadata_revision_fenced"
  | StateTransition => "state_transition"
  | MicroburstDetected => "microburst_detected"
  | MicroburstInsufficientCoverage => "microburst_insufficient_coverage"
  | ContentionDetected => "contention_detected"
  | PersistenceWritten => "persistence_written"
  | PersistenceRecovered => "persistence_recovered"
  | PersistenceFailed => "persistence_failed"
  | HistoryEvicted => "history_evicted"
  | QueueLimitReached => "queue_limit_reached"
  | RuntimeStarted => "runtime_started"
  | RuntimeStopped => "runtime_stopped"
  end.
End EventKind.
#[export] Existing Instance EventKind.EventKind_eq_dec.
Abbreviation EventKind := EventKind.EventKind.

Module Severity.
Inductive Severity : Set := Debug | Info | Notice | Warning | Error.
#[export] Instance Severity_eq_dec : EqDecision Severity.
Proof. solve_decision. Defined.

Definition to_string (value : Severity) : string :=
  match value with
  | Debug => "debug" | Info => "info" | Notice => "notice" | Warning => "warning"
  | Error => "error"
  end.

(** The enumerator's value. *)
Definition rank (value : Severity) : Z :=
  match value with Debug => 0 | Info => 1 | Notice => 2 | Warning => 3 | Error => 4 end.
End Severity.
#[export] Existing Instance Severity.Severity_eq_dec.
Abbreviation Severity := Severity.Severity.

Record EventRecord := mkEvent {
  ev_kind : EventKind;
  ev_severity : Severity;
  ev_received : ReceiveTime;
  ev_observed : ObservationTime;
  ev_queue : QueuePath;
  ev_source : SourceId;
  ev_incarnation : IncarnationId;
  ev_sequence : SourceSequence;
  ev_revision : Revision;
  ev_detail : string
}.
#[export] Instance EventRecord_eq_dec : EqDecision EventRecord.
Proof. solve_decision. Defined.

Definition has_queue (event : EventRecord) : bool := path_valid (ev_queue event).

Definition optional_text (present : bool) (text : string) : string :=
  if present then text else EmptyString.

Definition render_event (event : EventRecord) : string :=
  format_wall_utc (wall (ev_received event)) +:+ " " +:+
  Severity.to_string (ev_severity event) +:+ " " +:+ EventKind.to_string (ev_kind event) +:+
  optional_text (has_queue event) (" queue=" +:+ path_to_string (ev_queue event)) +:+
  optional_text (name_valid (ev_source event))
    (" source=" +:+ sanitize_for_display (ev_source event) 64) +:+
  optional_text (name_valid (ev_incarnation event))
    (" incarnation=" +:+ sanitize_for_display (ev_incarnation event) 64) +:+
  optional_text (id_valid (ev_sequence event)) (" sequence=" +:+ id_to_string (ev_sequence event)) +:+
  optional_text (id_valid (ev_revision event)) (" revision=" +:+ id_to_string (ev_revision event)) +:+
  optional_text (negb (bool_decide (ev_detail event = EmptyString)))
    (" detail=" +:+ sanitize_for_display (ev_detail event) 512).

Lemma event_kind_to_string_inj a b : EventKind.to_string a = EventKind.to_string b → a = b.
Proof. by destruct a, b. Qed.
