(* ===== verification/Limits.v ===== *)
(** * Limits

    [core/Limits.hpp] and [core/Limits.cpp]: the six limit structures and their
    validation at construction.  The overloads of [validate_limits] are the
    definitions [validate_<structure>]. *)

From S2P Require Import Prelude Result.
Open Scope Z_scope.

Record IngestLimits := mkIngestLimits {
  max_batch_samples : Z;
  max_payload_bytes : Z;
  max_field_bytes : Z;
  max_json_depth : Z;
  max_json_nodes : Z;
  max_batch_queues : Z;
  max_batch_metadata : Z
}.
Definition default_ingest_limits : IngestLimits :=
  mkIngestLimits 4096 8388608 4096 24 200000 4096 1024.

Record HistoryLimits := mkHistoryLimits {
  max_queues : Z;
  max_samples_per_queue : Z;
  max_history_bytes : Z;
  max_events_per_queue : Z;
  max_events_total : Z;
  max_windows_per_queue : Z;
  max_conflicts : Z;
  max_burst_records : Z;
  max_contention_records : Z;
  max_sources : Z;
  max_metadata_revisions : Z
}.
Definition default_history_limits : HistoryLimits :=
  mkHistoryLimits 8192 256 134217728 512 65536 8 4096 4096 4096 512 64.

Record QueryLimits := mkQueryLimits {
  max_rows : Z;
  default_rows : Z;
  max_query_windows : Z
}.
Definition default_query_limits : QueryLimits := mkQueryLimits 100000 1000 8.

Record PersistenceLimits := mkPersistenceLimits {
  max_segment_bytes : Z;
  max_segment_records : Z;
  max_record_bytes : Z;
  max_segments : Z;
  max_metadata_bytes : Z
}.
Definition default_persistence_limits : PersistenceLimits :=
  mkPersistenceLimits 67108864 1000000 1048576 8 1048576.

Record RuntimeLimits := mkRuntimeLimits {
  max_pending_batches : Z;
  max_pending_samples : Z;
  worker_threads : Z;
  max_deferred_records : Z
}.
Definition default_runtime_limits : RuntimeLimits := mkRuntimeLimits 256 262144 2 4096.

Record TransportLimits := mkTransportLimits {
  max_frame_bytes : Z;
  max_connections : Z;
  max_queued_frames : Z;
  max_connection_buffer_bytes : Z
}.
Definition default_transport_limits : TransportLimits :=
  mkTransportLimits 8388608 32 64 16777216.

Definition require_positive (value : Z) (name : string) : Status :=
  if value =? 0 then failure ErrorCode.InvalidArgument (name +:+ " must be non-zero") else success.

Definition require_positive_size (value : Z) (name : string) : Status :=
  if value =? 0 then failure ErrorCode.InvalidArgument (name +:+ " must be non-zero") else success.

Definition require_le (value limit : Z) (name limit_name : string) : Status :=
  if limit <? value
  then failure ErrorCode.InvalidArgument (name +:+ " must not exceed " +:+ limit_name)
  else success.

Definition require_le_u64 (value limit : Z) (name limit_name : string) : Status :=
  if limit <? value
  then failure ErrorCode.InvalidArgument (name +:+ " must not exceed " +:+ limit_name)
  else success.

Definition validate_ingest (l : IngestLimits) : Status :=
  TRY require_positive_size (max_batch_samples l) "max_batch_samples" ;;
  TRY require_positive_size (max_payload_bytes l) "max_payload_bytes" ;;
  TRY require_positive_size (max_field_bytes l) "max_field_bytes" ;;
  TRY require_positive_size (max_json_depth l) "max_json_depth" ;;
  TRY require_positive_size (max_json_nodes l) "max_json_nodes" ;;
  TRY require_positive_size (max_batch_queues l) "max_batch_queues" ;;
  TRY require_positive_size (max_batch_metadata l) "max_batch_metadata" ;;
  TRY require_le (max_json_depth l) 128 "max_json_depth" "128" ;;
  TRY require_le (max_field_bytes l) (Z.shiftl 1 20) "max_field_bytes" "1048576" ;;
  success.

Definition validate_history (l : HistoryLimits) : Status :=
  TRY require_positive_size (max_queues l) "max_queues" ;;
  TRY require_positive_size (max_samples_per_queue l) "max_samples_per_queue" ;;
  TRY require_positive_size (max_events_per_queue l) "max_events_per_queue" ;;
  TRY require_positive_size (max_events_total l) "max_events_total" ;;
  TRY require_positive_size (max_windows_per_queue l) "max_windows_per_queue" ;;
  TRY require_positive_size (max_conflicts l) "max_conflicts" ;;
  TRY require_positive_size (max_burst_records l) "max_burst_records" ;;
  TRY require_positive_size (max_contention_records l) "max_contention_records" ;;
  TRY require_positive_size (max_sources l) "max_sources" ;;
  TRY require_positive_size (max_metadata_revisions l) "max_metadata_revisions" ;;
  TRY require_positive (max_history_bytes l) "max_history_bytes" ;;
  TRY require_le (max_events_per_queue l) (max_events_total l) "max_events_per_queue"
        "max_events_total" ;;
  TRY require_le (max_samples_per_queue l) (Z.shiftl 1 20) "max_samples_per_queue" "1048576" ;;
  success.

Definition validate_query (l : QueryLimits) : Status :=
  TRY require_positive_size (max_rows l) "max_rows" ;;
  TRY require_positive_size (default_rows l) "default_rows" ;;
  TRY require_positive_size (max_query_windows l) "max_query_windows" ;;
  TRY require_le (default_rows l) (max_rows l) "default_rows" "max_rows" ;;
  TRY require_le (max_query_windows l) 32 "max_query_windows" "32" ;;
  success.

Definition validate_persistence (l : PersistenceLimits) : Status :=
  TRY require_positive (max_segment_bytes l) "max_segment_bytes" ;;
  TRY require_positive (max_segment_records l) "max_segment_records" ;;
  TRY require_positive (max_record_bytes l) "max_record_bytes" ;;
  TRY require_positive_size (max_segments l) "max_segments" ;;
  TRY require_positive (max_metadata_bytes l) "max_metadata_bytes" ;;
  TRY require_le_u64 (max_record_bytes l) (max_segment_bytes l) "max_record_bytes"
        "max_segment_bytes" ;;
  TRY require_le_u64 (max_metadata_bytes l) (max_segment_bytes l) "max_metadata_bytes"
        "max_segment_bytes" ;;
  TRY require_le (max_segments l) 1024 "max_segments" "1024" ;;
  success.

Definition validate_runtime (l : RuntimeLimits) : Status :=
  TRY require_positive_size (max_pending_batches l) "max_pending_batches" ;;
  TRY require_positive_size (max_pending_samples l) "max_pending_samples" ;;
  TRY require_positive_size (max_deferred_records l) "max_deferred_records" ;;
  TRY require_le (worker_threads l) 64 "worker_threads" "64" ;;
  TRY require_le (max_pending_batches l) (Z.shiftl 1 20) "max_pending_batches" "1048576" ;;
  success.

Definition validate_transport (l : TransportLimits) : Status :=
  TRY require_positive_size (max_frame_bytes l) "max_frame_bytes" ;;
  TRY require_positive_size (max_connections l) "max_connections" ;;
  TRY require_positive_size (max_queued_frames l) "max_queued_frames" ;;
  TRY require_positive_size (max_connection_buffer_bytes l) "max_connection_buffer_bytes" ;;
  TRY require_le (max_connections l) 4096 "max_connections" "4096" ;;
  TRY require_le (max_queued_frames l) (Z.shiftl 1 16) "max_queued_frames" "65536" ;;
  success.

Example defaults_valid :
  ok (validate_ingest default_ingest_limits) = true ∧
  ok (validate_history default_history_limits) = true ∧
  ok (validate_query default_query_limits) = true ∧
  ok (validate_persistence default_persistence_limits) = true ∧
  ok (validate_runtime default_runtime_limits) = true ∧
  ok (validate_transport default_transport_limits) = true.
Proof. vm_compute. done. Qed.

(** ** What a validated structure promises *)

Lemma require_positive_ok v n : ok (require_positive v n) = negb (v =? 0).
Proof. unfold require_positive. by destruct (v =? 0). Qed.
Lemma require_positive_size_ok v n : ok (require_positive_size v n) = negb (v =? 0).
Proof. exact (require_positive_ok v n). Qed.
Lemma require_le_ok v l n m : ok (require_le v l n m) = (v <=? l).
Proof.
  unfold require_le. rewrite Z.ltb_antisym. by destruct (v <=? l).
Qed.
Lemma require_le_u64_ok v l n m : ok (require_le_u64 v l n m) = (v <=? l).
Proof. exact (require_le_ok v l n m). Qed.

#[export] Hint Rewrite require_positive_ok require_positive_size_ok require_le_ok
  require_le_u64_ok : qobs.

(** [limits_lia]: a chain of limit checks as linear arithmetic. *)
Ltac limits_lia :=
  autorewrite with qobs; rewrite ?andb_true_iff, ?negb_true_iff, ?Z.eqb_neq, ?Z.leb_le;
  change (ok success) with true; change (Z.shiftl 1 20) with 1048576;
  change (Z.shiftl 1 16) with 65536; intuition lia.

Lemma validate_history_ok l :
  0 <= max_queues l → 0 <= max_samples_per_queue l → 0 <= max_events_per_queue l →
  0 <= max_events_total l → 0 <= max_sources l → 0 <= max_conflicts l →
  0 <= max_burst_records l → 0 <= max_contention_records l → 0 <= max_history_bytes l →
  0 <= max_windows_per_queue l → 0 <= max_metadata_revisions l →
  ok (validate_history l) = true ↔
  0 < max_queues l ∧ 0 < max_samples_per_queue l <= 1048576 ∧
  0 < max_events_per_queue l <= max_events_total l ∧ 0 < max_sources l ∧
  0 < max_conflicts l ∧ 0 < max_burst_records l ∧ 0 < max_contention_records l ∧
  0 < max_history_bytes l ∧ 0 < max_windows_per_queue l ∧ 0 < max_metadata_revisions l.
Proof. intros. unfold validate_history. limits_lia. Qed.

Lemma validate_persistence_ok l :
  0 <= max_segment_bytes l → 0 <= max_segment_records l → 0 <= max_record_bytes l →
  0 <= max_segments l → 0 <= max_metadata_bytes l →
  ok (validate_persistence l) = true ↔
  0 < max_segment_records l ∧ 0 < max_record_bytes l <= max_segment_bytes l ∧
  0 < max_metadata_bytes l <= max_segment_bytes l ∧ 0 < max_segments l <= 1024.
Proof. intros. unfold validate_persistence. limits_lia. Qed.

Lemma validate_query_ok l :
  0 <= max_rows l → 0 <= default_rows l → 0 <= max_query_windows l →
  ok (validate_query l) = true ↔ 0 < default_rows l <= max_rows l ∧ 0 < max_query_windows l <= 32.
Proof. intros. unfold validate_query. limits_lia. Qed.
