(* ===== verification/Decode.v ===== *)
(** * Decoding observation documents

    [ingest/Wire.hpp] and [ingest/Decode.cpp]: the records of the newline-delimited
    format, the decoder of a document and the encoders of its records.

    The decoder's [ParseResult] is a value or a refusal ([Decoded]): nothing reads the
    value of a refused record or the reason of an accepted one.  Every helper that
    takes a [LineContext] takes the line number. *)

From S2P Require Import Prelude Result Checked Text Json JsonWriter Identity Time.
From S2P Require Import Evidence Sample Metadata Limits.
Open Scope Z_scope.

#[local] Set Warnings "-register-all".

Definition kMaxDiagnostics : nat := 64.
Definition kVersion : Z := 1.
Definition kMaxLineBytes : Z := 1048576.

Definition keys_table : list (string * SampleField) :=
  [ ("occupancy_bytes", SampleField.OccupancyBytes);
    ("occupancy_cells", SampleField.OccupancyCells);
    ("queue_depth_packets", SampleField.QueueDepthPackets);
    ("shared_buffer_cells", SampleField.SharedBufferCells);
    ("headroom_cells", SampleField.HeadroomCells);
    ("reserved_cells", SampleField.ReservedCells);
    ("static_threshold_cells", SampleField.StaticThresholdCells);
    ("dynamic_threshold_cells", SampleField.DynamicThresholdCells);
    ("max_depth_packets", SampleField.MaxDepthPackets);
    ("high_watermark_cells", SampleField.HighWatermarkCells);
    ("enqueue_packets", SampleField.EnqueuePackets);
    ("dequeue_packets", SampleField.DequeuePackets);
    ("drop_packets", SampleField.DropPackets);
    ("drop_bytes", SampleField.DropBytes);
    ("mark_packets", SampleField.MarkPackets);
    ("pause_frames", SampleField.PauseFrames);
    ("pause_duration_nanos", SampleField.PauseDurationNanos) ].

Definition recognised_measurement_names : string := join (map fst keys_table) ", ".

Module DecodeStatus.
Inductive DecodeStatus : Set := Ok | Skipped | Malformed | Unsupported | VersionMismatch.
#[export] Instance DecodeStatus_eq_dec : EqDecision DecodeStatus.
Proof. solve_decision. Defined.

Definition to_string (status : DecodeStatus) : string :=
  match status with
  | Ok => "ok" | Skipped => "skipped" | Malformed => "malformed" | Unsupported => "unsupported"
  | VersionMismatch => "version_mismatch"
  end.
End DecodeStatus.
#[export] Existing Instance DecodeStatus.DecodeStatus_eq_dec.
Abbreviation DecodeStatus := DecodeStatus.DecodeStatus.

Record DecodeDiagnostic := mkDiagnostic {
  dd_line : nat;
  dd_status : DecodeStatus;
  dd_reason : string
}.

(** [ParseResult]: what a record gives, or why it is refused. *)
Inductive Decoded (A : Type) : Type :=
| Accepted (a : A)
| Refused (status : DecodeStatus) (reason : string).
Arguments Accepted {A} a.
Arguments Refused {A} status reason.
#[export] Instance Decoded_ret : MRet Decoded := @Accepted.
#[export] Instance Decoded_bind : MBind Decoded := λ _ _ f r,
  match r with Accepted a => f a | Refused status reason => Refused status reason end.

Definition malformed {A} (reason : string) : Decoded A := Refused DecodeStatus.Malformed reason.
(** A helper's error makes the record malformed, with the error's message. *)
Definition required {A} (r : Result A) : Decoded A :=
  match r with Value a => Accepted a | Failure e => malformed (message e) end.
Definition or_malformed {A} (o : option A) (reason : string) : Decoded A :=
  match o with Some a => Accepted a | None => malformed reason end.
Definition check_record (condition : bool) (reason : string) : Decoded () :=
  if condition then Accepted () else malformed reason.

Definition line_prefix (line : nat) : string := "line " +:+ size_to_string line +:+ ": ".

Section records.
Context (line : nat) (limits : IngestLimits).

Definition field_error {A} (code : ErrorCode) (text key rest : string) : Result A :=
  fail code (line_prefix line +:+ text +:+ "'" +:+ key +:+ "'" +:+ rest).

Definition require_string (object : JsonValue) (key : string) (max_bytes : Z) : Result string :=
  match json_find key object with
  | None => field_error ErrorCode.ParseError "required field " key " is missing"
  | Some value =>
      if negb (json_is_string value) then
        field_error ErrorCode.ParseError "field " key " must be a string"
      else if max_bytes <? Z.of_nat (String.length (as_string value)) then
        field_error ErrorCode.LimitExceeded "field " key " exceeds the configured field size"
      else Value (as_string value)
  end.

Definition require_u64 (object : JsonValue) (key : string) : Result Z :=
  match json_find key object with
  | None => field_error ErrorCode.ParseError "required field " key " is missing"
  | Some (JUint n) => Value n
  | Some (JInt n) =>
      if 0 <=? n then Value n
      else field_error ErrorCode.ParseError "field " key " must be a non-negative integer"
  | Some _ => field_error ErrorCode.ParseError "field " key " must be a non-negative integer"
  end.

Definition optional_u64 (object : JsonValue) (key : string) (fallback : Z) : Result Z :=
  match json_find key object with None => Value fallback | Some _ => require_u64 object key end.

(** [if (object.find(key) != nullptr)] around the reading of a field. *)
Definition if_present {A} (object : JsonValue) (key : string) (read : JsonValue → Decoded A) :
    Decoded (option A) :=
  match json_find key object with
  | None => Accepted None
  | Some value => a ← read value; Accepted (Some a)
  end.

Definition here (reason : string) : string := line_prefix line +:+ reason.

(** An optional unsigned field that must fit [max]. *)
Definition narrow_field (object : JsonValue) (key : string) (max : Z) (reason : string) :
    Decoded (option Z) :=
  if_present object key (λ _,
    value ← required (require_u64 object key);
    or_malformed (narrow_u max value) (here reason)).

(** An optional scheduling class, with the two reasons it can be refused for. *)
Definition scheduling_field (object : JsonValue) (not_a_string not_usable : string) :
    Decoded (option string) :=
  if_present object "scheduling_class" (λ value,
    _ ← check_record (json_is_string value) (here not_a_string);
    or_malformed (result_option (create SchedulingClassTag (as_string value))) (here not_usable)).

(** The optional authority of a record; [unrecognised] describes an unknown one. *)
Definition authority_field (object : JsonValue) (unrecognised : string → string) :
    Decoded SourceAuthority :=
  authority ← if_present object "authority" (λ value,
    _ ← check_record (json_is_string value) (here "field 'authority' must be a string");
    let '(authority, recognised) := SourceAuthority.parse (as_string value) in
    if recognised then Accepted authority
    else Refused DecodeStatus.Unsupported (here (unrecognised (as_string value))));
  Accepted (default SourceAuthority.Unknown authority).

(** ** Samples *)

(** The required fields: queue path, source, incarnation, generation, sequence and
    observation time. *)
Definition sample_identity (object : JsonValue) : Decoded QueueSample :=
  let text key := required (require_string object key (max_field_bytes limits)) in
  let number key := required (require_u64 object key) in
  device ← text "device";
  port ← text "port";
  source ← text "source";
  incarnation ← text "incarnation";
  domain ← text "clock_domain";
  queue_index ← number "queue";
  generation ← number "generation";
  sequence ← number "sequence";
  observed ← number "observed_ns";
  match create DeviceTag device, create PortTag port, create SourceTag source,
        create IncarnationTag incarnation, create ClockDomainTag domain with
  | Value device, Value port, Value source, Value incarnation, Value domain =>
      queue_id ← or_malformed (narrow_u u32_max queue_index)
                   (here "the queue index does not fit in 32 bits");
      _ ← check_record (observed <=? i64_max)
            (here "the observation timestamp is outside the supported range");
      Accepted
        (mkSample (mkQueuePath device port queue_id) no_classes source incarnation sequence
           SourceAuthority.Unknown generation 0 (mkObservation observed domain) no_receive 0 0
           (replicate kSampleFieldCount 0))
  | _, _, _, _, _ =>
      malformed
        (here ("an identity field is empty, too long, or contains a character that is not "
               +:+ "allowed in an identity"))
  end.

(** [QueueSample]'s optional attributes. *)
Definition set_attributes (authority : SourceAuthority) (revision : Z)
    (classes : QueueClassAttributes) (s : QueueSample) : QueueSample :=
  mkSample (qs_queue s) classes (qs_source s) (qs_incarnation s) (qs_sequence s) authority
    (qs_generation s) revision (qs_observed s) (qs_received s) (qs_reported s) (qs_declared s)
    (qs_values s).
Definition set_declared (declared : FieldMask) (s : QueueSample) : QueueSample :=
  mkSample (qs_queue s) (qs_classes s) (qs_source s) (qs_incarnation s) (qs_sequence s)
    (qs_authority s) (qs_generation s) (qs_revision s) (qs_observed s) (qs_received s)
    (qs_reported s) declared (qs_values s).

Definition sample_attributes (object : JsonValue) (s : QueueSample) : Decoded QueueSample :=
  authority ← authority_field object (λ text,
    "authority value '" +:+ sanitize_for_display text 32 +:+
    "' is not recognised by this runtime");
  revision ← if_present object "revision" (λ _, required (require_u64 object "revision"));
  traffic ← narrow_field object "traffic_class" u16_max
              "field 'traffic_class' does not fit in 16 bits";
  scheduling ← scheduling_field object "field 'scheduling_class' must be a string"
                 "field 'scheduling_class' is not a usable identity";
  let origin :=
    if is_some traffic || is_some scheduling then AttributeOrigin.ObservedInSample
    else AttributeOrigin.Unspecified in
  Accepted (set_attributes authority (default 0 revision) (mkClasses traffic scheduling origin 0) s).

(** The loop over [keys_table]. *)
Fixpoint sample_values (object : JsonValue) (table : list (string * SampleField))
    (s : QueueSample) : Decoded QueueSample :=
  match table with
  | [] => Accepted s
  | (key, field) :: table =>
      match json_find key object with
      | None => sample_values object table s
      | Some _ =>
          value ← required (require_u64 object key);
          sample_values object table (set_value field value s)
      end
  end.

(** The loop over the names of [declared]: the mask, and the unknown names. *)
Fixpoint declared_fields (names : list JsonValue) (declared : FieldMask) (unknown_keys : Z) :
    Decoded (FieldMask * Z) :=
  match names with
  | [] => Accepted (declared, unknown_keys)
  | name :: names =>
      if negb (json_is_string name) then
        malformed (here "field 'declared' must contain only strings")
      else
        match parse_sample_field (as_string name) with
        | None => declared_fields names declared (unknown_keys + 1)
        | Some field => declared_fields names (Z.lor declared (field_bit field)) unknown_keys
        end
  end.

Definition kFrameworkKeys : list string :=
  [ "kind"; "v"; "device"; "port"; "queue"; "source"; "incarnation"; "generation"; "sequence";
    "observed_ns"; "clock_domain" ].
Definition kOptionalKeys : list string :=
  [ "declared"; "authority"; "revision"; "traffic_class"; "scheduling_class" ].

Definition known_key (name : string) : bool :=
  existsb (λ entry : string * SampleField, bool_decide (entry.1 = name)) keys_table ||
  existsb (λ candidate, bool_decide (candidate = name)) kFrameworkKeys ||
  existsb (λ candidate, bool_decide (candidate = name)) kOptionalKeys.
Definition count_unknown_keys (object : JsonValue) : Z :=
  Z.of_nat (length (List.filter (λ name, negb (known_key name)) (keys object))).

Definition declared_mask (object : JsonValue) (s : QueueSample) : Decoded (FieldMask * Z) :=
  match json_find "declared" object with
  | None => Accepted (qs_reported s, 0)
  | Some names =>
      _ ← check_record (json_is_array names)
            (here "field 'declared' must be an array of measurement names");
      declared_fields (items names) 0 0
  end.

(** The sample and the number of unknown keys. *)
Definition parse_sample_record (object : JsonValue) : Decoded (QueueSample * Z) :=
  s ← sample_identity object;
  s ← sample_attributes object s;
  s ← sample_values object keys_table s;
  _ ← check_record (negb (qs_reported s =? 0))
        (here ("the record carries no measurement; accepted measurement names are " +:+
               recognised_measurement_names));
  '(declared, unknown_names) ← declared_mask object s;
  Accepted (set_declared declared s, unknown_names + count_unknown_keys object).

(** ** Class metadata *)

(** One section of a table: an optional array of bounded length, read entry by entry. *)
Definition metadata_section {A} (object : JsonValue) (key not_an_array too_long : string)
    (read_entry : JsonValue → Decoded A) : Decoded (list A) :=
  match json_find key object with
  | None => Accepted []
  | Some entries =>
      _ ← check_record (json_is_array entries) (here not_an_array);
      _ ← check_record (negb (max_batch_metadata limits <? Z.of_nat (json_size entries)))
            (here too_long);
      mapM read_entry (items entries)
  end.

(** An optional text of bounded size. *)
Definition bounded_text (object : JsonValue) (key reason : string) : Decoded string :=
  text ← if_present object key (λ value,
    _ ← check_record (json_is_string value &&
                      negb (max_field_bytes limits <? Z.of_nat (String.length (as_string value))))
          (here reason);
    Accepted (as_string value));
  Accepted (default EmptyString text).

Definition traffic_class_entry (entry : JsonValue) : Decoded TrafficClassDescriptor :=
  _ ← check_record (json_is_object entry) (here "every traffic class entry must be an object");
  id ← required (require_u64 entry "id");
  id ← or_malformed (narrow_u u16_max id)
         (here "a traffic class identifier does not fit in 16 bits");
  name ← bounded_text entry "name" "traffic class 'name' must be a bounded string";
  dscp ← narrow_field entry "dscp" u16_max "DSCP value does not fit in 16 bits";
  pcp ← narrow_field entry "pcp" u16_max "priority code point does not fit in 16 bits";
  scheduling ← scheduling_field entry "traffic class 'scheduling_class' must be a string"
                 "traffic class 'scheduling_class' is not a usable identity";
  Accepted (mkTrafficClass id name dscp pcp scheduling).

Definition scheduling_class_entry (entry : JsonValue) : Decoded SchedulingClassDescriptor :=
  _ ← check_record (json_is_object entry) (here "every scheduling class entry must be an object");
  id ← required (require_string entry "id" (max_field_bytes limits));
  id ← or_malformed (result_option (create SchedulingClassTag id))
         (here "scheduling class 'id' is not a usable identity");
  mode ← bounded_text entry "mode" "scheduling class 'mode' must be a bounded string";
  weight ← if_present entry "weight" (λ _, required (require_u64 entry "weight"));
  Accepted (mkSchedulingClass id mode weight).

Definition binding_entry (entry : JsonValue) : Decoded QueueClassBinding :=
  _ ← check_record (json_is_object entry) (here "every binding entry must be an object");
  device ← required (require_string entry "device" (max_field_bytes limits));
  port ← required (require_string entry "port" (max_field_bytes limits));
  queue ← required (require_u64 entry "queue");
  match create DeviceTag device, create PortTag port, narrow_u u32_max queue with
  | Value device, Value port, Some queue =>
      traffic ← narrow_field entry "traffic_class" u16_max
                  "a binding traffic class does not fit in 16 bits";
      scheduling ← scheduling_field entry "binding 'scheduling_class' must be a string"
                     "binding 'scheduling_class' is not usable";
      Accepted (mkBinding (mkQueuePath device port queue) traffic scheduling)
  | _, _, _ => malformed (here "a binding names an unusable queue path")
  end.

Definition parse_metadata_record (object : JsonValue) : Decoded ClassMetadataTable :=
  revision ← required (require_u64 object "revision");
  generation ← required (require_u64 object "generation");
  source ← required (require_string object "source" (max_field_bytes limits));
  source ← or_malformed (result_option (create SourceTag source))
             (here "metadata source is not a usable identity");
  authority ← authority_field object (λ _, "metadata authority value is not recognised");
  traffic_classes ← metadata_section object "traffic_classes"
    "field 'traffic_classes' must be an array"
    "the traffic class section exceeds the configured limit" traffic_class_entry;
  scheduling_classes ← metadata_section object "scheduling_classes"
    "field 'scheduling_classes' must be an array"
    "the scheduling class section exceeds the configured limit" scheduling_class_entry;
  bindings ← metadata_section object "bindings" "field 'bindings' must be an array"
    "the binding section exceeds the configured limit" binding_entry;
  _ ← check_record (negb (revision =? 0)) (here "metadata revision must be non-zero");
  _ ← check_record (negb (generation =? 0)) (here "metadata generation must be non-zero");
  Accepted (mkMetadata revision generation source authority no_receive traffic_classes
              scheduling_classes bindings).
End records.

(** ** Documents *)

(** [sample_count] is the length of [samples], [metadata_count] and [metadata_records]
    that of [metadata]; the counters are [std::size_t]. *)
Record DecodeOutcome := mkOutcome {
  do_lines : Z;
  do_records : Z;
  do_sample_count : Z;
  do_metadata_count : Z;
  do_metadata_records : Z;
  do_skipped : Z;
  do_malformed : Z;
  do_unsupported : Z;
  do_version_mismatches : Z;
  do_samples : list QueueSample;
  do_metadata : list ClassMetadataTable;
  do_diagnostics : list DecodeDiagnostic;
  do_diagnostics_truncated : bool;
  do_unknown_keys : Z
}.
Definition no_outcome : DecodeOutcome := mkOutcome 0 0 0 0 0 0 0 0 0 [] [] [] false 0.

Definition push_diagnostic (line : nat) (status : DecodeStatus) (reason : string)
    (o : DecodeOutcome) : DecodeOutcome :=
  let full := (kMaxDiagnostics <=? length (do_diagnostics o))%nat in
  mkOutcome (do_lines o) (do_records o) (do_sample_count o) (do_metadata_count o)
    (do_metadata_records o) (do_skipped o) (do_malformed o) (do_unsupported o)
    (do_version_mismatches o) (do_samples o) (do_metadata o)
    (if full then do_diagnostics o else do_diagnostics o ++ [mkDiagnostic line status reason])
    (if full then true else do_diagnostics_truncated o) (do_unknown_keys o).

Definition add_lines (lines skipped : Z) (o : DecodeOutcome) : DecodeOutcome :=
  mkOutcome (do_lines o + lines) (do_records o) (do_sample_count o) (do_metadata_count o)
    (do_metadata_records o) (do_skipped o + skipped) (do_malformed o) (do_unsupported o)
    (do_version_mismatches o) (do_samples o) (do_metadata o) (do_diagnostics o)
    (do_diagnostics_truncated o) (do_unknown_keys o).

(** The counter a refused record goes to. *)
Definition count_refused (status : DecodeStatus) (o : DecodeOutcome) : DecodeOutcome :=
  let '(m, u, v) :=
    match status with
    | DecodeStatus.Unsupported => (0, 1, 0)
    | DecodeStatus.VersionMismatch => (0, 0, 1)
    | _ => (1, 0, 0)
    end in
  mkOutcome (do_lines o) (do_records o) (do_sample_count o) (do_metadata_count o)
    (do_metadata_records o) (do_skipped o) (do_malformed o + m) (do_unsupported o + u)
    (do_version_mismatches o + v) (do_samples o) (do_metadata o) (do_diagnostics o)
    (do_diagnostics_truncated o) (do_unknown_keys o).

Definition push_sample (sample : QueueSample) (unknown_keys : Z) (o : DecodeOutcome) :
    DecodeOutcome :=
  mkOutcome (do_lines o) (do_records o + 1) (do_sample_count o + 1) (do_metadata_count o)
    (do_metadata_records o) (do_skipped o) (do_malformed o) (do_unsupported o)
    (do_version_mismatches o) (do_samples o ++ [sample]) (do_metadata o) (do_diagnostics o)
    (do_diagnostics_truncated o) (do_unknown_keys o + unknown_keys).
Definition push_metadata (table : ClassMetadataTable) (o : DecodeOutcome) : DecodeOutcome :=
  mkOutcome (do_lines o) (do_records o + 1) (do_sample_count o) (do_metadata_count o + 1)
    (do_metadata_records o + 1) (do_skipped o) (do_malformed o) (do_unsupported o)
    (do_version_mismatches o) (do_samples o) (do_metadata o ++ [table]) (do_diagnostics o)
    (do_diagnostics_truncated o) (do_unknown_keys o).

(** What one non-empty line holds. *)
Inductive LineRecord : Type :=
| SampleRecord (sample : QueueSample) (unknown_keys : Z)
| MetadataRecord (table : ClassMetadataTable).

Section documents.
Context (double_in_range : string → bool) (limits : IngestLimits).

Definition wire_json_limits : JsonLimits :=
  mkJsonLimits kMaxLineBytes (max_json_depth limits) (max_json_nodes limits)
    (max_field_bytes limits) 64 (max_batch_metadata limits).

(** The envelope of a record: its JSON object and its kind, once its version is the one
    this build reads. *)
Definition parse_envelope (line : nat) (trimmed : string) : Decoded (JsonValue * string) :=
  if kMaxLineBytes <? Z.of_nat (String.length trimmed) then
    malformed (here line "the record exceeds the maximum line size")
  else
    match parse_json wire_json_limits double_in_range trimmed with
    | Failure e => malformed (here line ("the record is not valid JSON: " +:+ message e))
    | Value object =>
        _ ← check_record (json_is_object object)
              (here line "every record must be a JSON object");
        kind ← or_malformed (json_find "kind" object) (here line "field 'kind' is required");
        _ ← check_record (json_is_string kind) (here line "field 'kind' must be a string");
        version ← required (optional_u64 line object "v" kVersion);
        if version =? kVersion then Accepted (object, as_string kind)
        else
          Refused DecodeStatus.VersionMismatch
            (here line ("record declares version " +:+ u64_to_string version +:+
                        " but this runtime reads " +:+ u64_to_string kVersion))
    end.

(** The record of a line, given how many samples and tables the document already has. *)
Definition parse_line (line : nat) (trimmed : string) (samples tables : Z) : Decoded LineRecord :=
  '(object, kind) ← parse_envelope line trimmed;
  if bool_decide (kind = "queue_sample") then
    _ ← check_record (samples <? max_batch_samples limits)
          (here line "the document exceeds the configured sample count");
    '(sample, unknown_keys) ← parse_sample_record line limits object;
    Accepted (SampleRecord sample unknown_keys)
  else if bool_decide (kind = "class_metadata") then
    _ ← check_record (tables <? max_batch_metadata limits)
          (here line "the document exceeds the configured metadata count");
    table ← parse_metadata_record line limits object;
    Accepted (MetadataRecord table)
  else
    Refused DecodeStatus.Unsupported
      (here line ("record kind '" +:+ sanitize_for_display kind 32 +:+
                  "' is not interpreted by this runtime")).

(** The carriage return that [remove_suffix] drops, and the lines that are no record. *)
Definition strip_carriage_return (line : string) : string :=
  if ends_with line (String (byte_char 13) EmptyString)
  then str_take (String.length line - 1) line else line.
Definition is_comment (trimmed : string) : bool :=
  match trimmed with EmptyString => true | String c _ => byte_value c =? 35 end.

(** One turn of the loop. *)
Definition decode_line (line_number : nat) (line : string) (o : DecodeOutcome) : DecodeOutcome :=
  let trimmed := trim (strip_carriage_return line) in
  if is_comment trimmed then add_lines 0 1 o
  else
    let o := add_lines 1 0 o in
    match parse_line line_number trimmed (Z.of_nat (length (do_samples o)))
            (Z.of_nat (length (do_metadata o))) with
    | Accepted (SampleRecord sample unknown_keys) => push_sample sample unknown_keys o
    | Accepted (MetadataRecord table) => push_metadata table o
    | Refused status reason => push_diagnostic line_number status reason (count_refused status o)
    end.

Fixpoint decode_lines (line_number : nat) (lines : list string) (o : DecodeOutcome) :
    DecodeOutcome :=
  match lines with
  | [] => o
  | line :: lines => decode_lines (S line_number) lines (decode_line line_number line o)
  end.

(** The [cursor] walks over the pieces between the newlines, the last one included. *)
Definition decode_document (payload : string) : Result DecodeOutcome :=
  let limits_status := validate_ingest limits in
  if negb (ok limits_status) then Failure limits_status
  else if max_payload_bytes limits <? Z.of_nat (String.length payload) then
    fail ErrorCode.LimitExceeded "the document exceeds the configured payload size"
  else Value (decode_lines 1 (split payload (byte_char 10)) no_outcome).
End documents.

(** ** Encoding *)

Definition validate_encodable_sample (sample : QueueSample) : Status :=
  let refuse m := failure ErrorCode.InvalidArgument m in
  if negb (path_valid (qs_queue sample)) then
    refuse "a canonical record requires a queue path with a device and a port"
  else if negb (name_valid (qs_source sample)) then
    refuse "a canonical record requires a source name"
  else if negb (name_valid (qs_incarnation sample)) then
    refuse "a canonical record requires a source incarnation token"
  else if negb (id_valid (qs_generation sample)) then
    refuse "a canonical record requires a non-zero device generation"
  else if negb (id_valid (qs_sequence sample)) then
    refuse "a canonical record requires a non-zero source sequence"
  else if negb (name_valid (obs_domain (qs_observed sample))) then
    refuse "a canonical record requires the clock domain of its observation timestamp"
  else if qs_reported sample =? 0 then
    refuse "a canonical record must carry at least one measurement"
  else success.

(** [if (value.has_value()) { QOBS_TRY(...); }] *)
Definition write_some {A} (o : option A) (f : A → Writing) : Writing :=
  match o with Some a => f a | None => write_nothing end.

Definition value_array (elements : Writing) : Writing :=
  WRITE begin_array ;; WRITE elements ;; end_array.
Definition value_object (members : Writing) : Writing :=
  WRITE begin_object ;; WRITE members ;; end_object.

Definition sample_members (sample : QueueSample) : Writing :=
  WRITE member_string "kind" "queue_sample" ;;
  WRITE member_u64 "v" kVersion ;;
  WRITE member_string "device" (qp_device (qs_queue sample)) ;;
  WRITE member_string "port" (qp_port (qs_queue sample)) ;;
  WRITE member_u64 "queue" (qp_queue (qs_queue sample)) ;;
  WRITE member_string "source" (qs_source sample) ;;
  WRITE member_string "incarnation" (qs_incarnation sample) ;;
  WRITE member_u64 "generation" (qs_generation sample) ;;
  WRITE member_u64 "sequence" (qs_sequence sample) ;;
  WRITE member_string "authority" (SourceAuthority.to_string (qs_authority sample)) ;;
  WRITE member_i64 "observed_ns" (obs_ns (qs_observed sample)) ;;
  WRITE member_string "clock_domain" (obs_domain (qs_observed sample)) ;;
  WRITE write_if (id_valid (qs_revision sample)) (member_u64 "revision" (qs_revision sample)) ;;
  WRITE write_some (qc_traffic_class (qs_classes sample)) (member_u64 "traffic_class") ;;
  WRITE write_some (qc_scheduling_class (qs_classes sample)) (member_string "scheduling_class") ;;
  WRITE write_each keys_table (λ entry,
    write_if (has sample entry.2) (member_u64 entry.1 (raw_value_or_zero sample entry.2))) ;;
  WRITE key "declared" ;;
  value_array (write_each keys_table (λ entry,
    write_if (has_field (qs_declared sample) entry.2) (value_string entry.1))).

Definition encode_sample (sample : QueueSample) : Result string :=
  try_result (validate_encodable_sample sample) (written false (value_object (sample_members sample))).

Definition traffic_class_members (descriptor : TrafficClassDescriptor) : Writing :=
  WRITE member_u64 "id" (tc_id descriptor) ;;
  WRITE member_string "name" (tc_name descriptor) ;;
  WRITE write_some (tc_dscp descriptor) (member_u64 "dscp") ;;
  WRITE write_some (tc_priority_code_point descriptor) (member_u64 "pcp") ;;
  write_some (tc_scheduling_class descriptor) (member_string "scheduling_class").
Definition scheduling_class_members (descriptor : SchedulingClassDescriptor) : Writing :=
  WRITE member_string "id" (sc_id descriptor) ;;
  WRITE member_string "mode" (sc_mode descriptor) ;;
  write_some (sc_weight descriptor) (member_u64 "weight").
Definition binding_members (binding : QueueClassBinding) : Writing :=
  WRITE member_string "device" (qp_device (qb_queue binding)) ;;
  WRITE member_string "port" (qp_port (qb_queue binding)) ;;
  WRITE member_u64 "queue" (qp_queue (qb_queue binding)) ;;
  WRITE write_some (qb_traffic_class binding) (member_u64 "traffic_class") ;;
  write_some (qb_scheduling_class binding) (member_string "scheduling_class").

Definition metadata_members (table : ClassMetadataTable) : Writing :=
  WRITE member_string "kind" "class_metadata" ;;
  WRITE member_u64 "v" kVersion ;;
  WRITE member_u64 "revision" (md_revision table) ;;
  WRITE member_u64 "generation" (md_generation table) ;;
  WRITE member_string "source" (md_source table) ;;
  WRITE member_string "authority" (SourceAuthority.to_string (md_authority table)) ;;
  WRITE (WRITE key "traffic_classes" ;;
    value_array (write_each (md_traffic_classes table) (λ d, value_object (traffic_class_members d)))) ;;
  WRITE (WRITE key "scheduling_classes" ;;
    value_array
      (write_each (md_scheduling_classes table) (λ d, value_object (scheduling_class_members d)))) ;;
  WRITE key "bindings" ;;
  value_array (write_each (md_bindings table) (λ b, value_object (binding_members b))).

Definition encode_metadata (table : ClassMetadataTable) : Result string :=
  written false (value_object (metadata_members table)).

Definition example_sample : QueueSample :=
  set_declared (field_bit SampleField.OccupancyCells)
    (set_value SampleField.OccupancyCells 17
       (mkSample (mkQueuePath "leaf1" "eth0" 3) no_classes "agent" "boot1" 5
          SourceAuthority.Primary 2 0 (mkObservation 1000 "ptp") no_receive 0 0
          (replicate kSampleFieldCount 0))).

(** A record the encoder writes with a timestamp the decoder refuses. *)
Definition set_observed_ns (ns : Z) (s : QueueSample) : QueueSample :=
  mkSample (qs_queue s) (qs_classes s) (qs_source s) (qs_incarnation s) (qs_sequence s)
    (qs_authority s) (qs_generation s) (qs_revision s) (mkObservation ns (obs_domain (qs_observed s)))
    (qs_received s) (qs_reported s) (qs_declared s) (qs_values s).

Definition decoded_samples (r : Result DecodeOutcome) : list QueueSample :=
  match r with Value o => do_samples o | Failure _ => [] end.
Definition decoded_malformed (r : Result DecodeOutcome) : Z :=
  match r with Value o => do_malformed o | Failure _ => -1 end.
Definition decode_encoded (sample : QueueSample) : Result DecodeOutcome :=
  text ← encode_sample sample; decode_document (λ _, true) default_ingest_limits text.

Example decode_examples :
  decoded_samples (decode_encoded example_sample) = [example_sample] ∧
  decoded_malformed (decode_document (λ _, true) default_ingest_limits
    (quoted "{'kind':'queue_sample','v':1}" +:+ String (byte_char 10) "# note")) = 1.
Proof. vm_compute. done. Qed.

(** The encoder accepts a sample observed before the epoch of its clock domain; the
    decoder calls the record malformed. *)
Lemma encoder_accepts_what_decoder_refuses :
  ok (validate_encodable_sample (set_observed_ns (-1) example_sample)) = true ∧
  decoded_samples (decode_encoded (set_observed_ns (-1) example_sample)) = [] ∧
  decoded_malformed (decode_encoded (set_observed_ns (-1) example_sample)) = 1.
Proof. vm_compute. done. Qed.
