(* ===== verification/DecodeTheorems.v ===== *)
(** * Decoding: what a document gives

    Every line of a document is decoded on its own and counted once; a sample that is
    encoded is decoded as it was. *)

From S2P Require Import Prelude Result Checked Text Json JsonBounds JsonWriter JsonRoundTrip.
From S2P Require Import Identity Time Evidence Sample Metadata Limits Decode.
Open Scope Z_scope.

#[local] Set Warnings "-register-all".

(** ** The line number only shows in reasons *)

(** Two results that differ at most in the reason of a refusal. *)
Definition alike {A} (r1 r2 : Decoded A) : Prop :=
  match r1, r2 with
  | Accepted a, Accepted b => a = b
  | Refused s _, Refused t _ => s = t
  | _, _ => False
  end.

Lemma alike_refl {A} (r : Decoded A) : alike r r.
Proof. by destruct r. Qed.
Lemma alike_refused {A} status reason1 reason2 :
  alike (A := A) (Refused status reason1) (Refused status reason2).
Proof. done. Qed.
Lemma alike_malformed {A} reason1 reason2 : alike (A := A) (malformed reason1) (malformed reason2).
Proof. done. Qed.
Lemma alike_bind {A B} (r1 r2 : Decoded A) (f1 f2 : A → Decoded B) :
  alike r1 r2 → (∀ a, alike (f1 a) (f2 a)) → alike (r1 ≫= f1) (r2 ≫= f2).
Proof. destruct r1, r2; cbn; try done. intros ->. auto. Qed.
Lemma alike_or_malformed {A} (o : option A) reason1 reason2 :
  alike (or_malformed o reason1) (or_malformed o reason2).
Proof. by destruct o. Qed.
Lemma alike_check condition reason1 reason2 :
  alike (check_record condition reason1) (check_record condition reason2).
Proof. by destruct condition. Qed.

Create HintDb alike.
#[local] Hint Constants Opaque : alike.
#[local] Hint Resolve alike_refused alike_malformed alike_or_malformed alike_check : alike.
Ltac alike :=
  repeat first
    [ progress intros
    | lazymatch goal with |- alike ?r ?r => apply alike_refl end
    | solve [auto 2 with alike nocore]
    | apply alike_bind
    | case_match; try done ].

Section alike.
Context (l1 l2 : nat) (limits : IngestLimits).

Lemma alike_require_string object key max :
  alike (required (require_string l1 object key max)) (required (require_string l2 object key max)).
Proof. unfold require_string. alike. Qed.
Lemma alike_require_u64 object key :
  alike (required (require_u64 l1 object key)) (required (require_u64 l2 object key)).
Proof. unfold require_u64. alike. Qed.
Lemma alike_optional_u64 object key fallback :
  alike (required (optional_u64 l1 object key fallback))
    (required (optional_u64 l2 object key fallback)).
Proof. unfold optional_u64. destruct (json_find _ _); [apply alike_require_u64|done]. Qed.
#[local] Hint Resolve alike_require_string alike_require_u64 alike_optional_u64 : alike.

Lemma alike_if_present {A} object key (read1 read2 : JsonValue → Decoded A) :
  (∀ v, alike (read1 v) (read2 v)) →
  alike (if_present object key read1) (if_present object key read2).
Proof. intros H. unfold if_present. destruct (json_find _ _); [|done]. apply alike_bind; alike. Qed.

Lemma alike_narrow object key max reason :
  alike (narrow_field l1 object key max reason) (narrow_field l2 object key max reason).
Proof. apply alike_if_present. alike. Qed.
Lemma alike_scheduling object reason1 reason2 :
  alike (scheduling_field l1 object reason1 reason2) (scheduling_field l2 object reason1 reason2).
Proof. apply alike_if_present. alike. Qed.
Lemma alike_authority object unrecognised :
  alike (authority_field l1 object unrecognised) (authority_field l2 object unrecognised).
Proof. apply alike_bind; [apply alike_if_present|]; alike. Qed.
#[local] Hint Resolve alike_narrow alike_scheduling alike_authority : alike.

Lemma alike_identity object :
  alike (sample_identity l1 limits object) (sample_identity l2 limits object).
Proof. unfold sample_identity. alike. Qed.
Lemma alike_attributes object s :
  alike (sample_attributes l1 object s) (sample_attributes l2 object s).
Proof.
  unfold sample_attributes. alike. apply alike_if_present. alike.
Qed.
Lemma alike_values object table s :
  alike (sample_values l1 object table s) (sample_values l2 object table s).
Proof. revert s. induction table as [|[key field] table IH]; intros s; cbn [sample_values]; alike; auto. Qed.
Lemma alike_declared_fields names declared unknown :
  alike (declared_fields l1 names declared unknown) (declared_fields l2 names declared unknown).
Proof. revert declared unknown. induction names as [|name names IH]; intros; cbn [declared_fields]; alike; auto. Qed.
#[local] Hint Resolve alike_identity alike_attributes alike_values alike_declared_fields : alike.

Lemma alike_sample object :
  alike (parse_sample_record l1 limits object) (parse_sample_record l2 limits object).
Proof. unfold parse_sample_record, declared_mask. alike. Qed.

Lemma alike_mapM {A} (f1 f2 : JsonValue → Decoded A) vs :
  (∀ v, alike (f1 v) (f2 v)) → alike (mapM f1 vs) (mapM f2 vs).
Proof. intros H. induction vs as [|v vs IH]; cbn; alike; auto. Qed.
Lemma alike_section {A} object key reason1 reason2 (f1 f2 : JsonValue → Decoded A) :
  (∀ v, alike (f1 v) (f2 v)) →
  alike (metadata_section l1 limits object key reason1 reason2 f1)
    (metadata_section l2 limits object key reason1 reason2 f2).
Proof. intros H. unfold metadata_section. alike. by apply alike_mapM. Qed.
Lemma alike_bounded_text object key reason :
  alike (bounded_text l1 limits object key reason) (bounded_text l2 limits object key reason).
Proof. unfold bounded_text. alike. apply alike_if_present. alike. Qed.
#[local] Hint Resolve alike_bounded_text : alike.

Lemma alike_metadata object :
  alike (parse_metadata_record l1 limits object) (parse_metadata_record l2 limits object).
Proof.
  unfold parse_metadata_record. alike; apply alike_section; intros v;
    unfold traffic_class_entry, scheduling_class_entry, binding_entry; alike.
  apply alike_if_present. alike.
Qed.
#[local] Hint Resolve alike_sample alike_metadata : alike.

Lemma alike_envelope double_in_range trimmed :
  alike (parse_envelope double_in_range limits l1 trimmed)
    (parse_envelope double_in_range limits l2 trimmed).
Proof. unfold parse_envelope. alike. Qed.
#[local] Hint Resolve alike_envelope : alike.

Lemma alike_line double_in_range trimmed samples tables :
  alike (parse_line double_in_range limits l1 trimmed samples tables)
    (parse_line double_in_range limits l2 trimmed samples tables).
Proof. unfold parse_line. alike. Qed.
End alike.

(** ** Lines *)

Section lines.
Context (double_in_range : string → bool) (limits : IngestLimits).
Context (limits_valid : ok (validate_ingest limits) = true).
Context (samples_unsigned : 0 <= max_batch_samples limits).
Context (metadata_unsigned : 0 <= max_batch_metadata limits).

Lemma valid_caps : 1 <= max_batch_samples limits ∧ 1 <= max_batch_metadata limits.
Proof.
  revert limits_valid. unfold validate_ingest. rewrite !ok_try, !andb_true_iff.
  unfold require_positive_size. intros (H1 & _ & _ & _ & _ & _ & H2 & _). revert H1 H2.
  bool_cases; try (cbn; discriminate). lia.
Qed.

(** The line on its own. *)
Definition alone (line : string) : DecodeOutcome :=
  decode_line double_in_range limits 1 line no_outcome.

Definition refused_count (o : DecodeOutcome) : Z :=
  do_malformed o + do_unsupported o + do_version_mismatches o.

(** What is true of an outcome after [n] lines. *)
Record accounted (n : nat) (o : DecodeOutcome) : Prop := {
  ac_lines : do_lines o + do_skipped o = Z.of_nat n;
  ac_records : do_lines o = do_records o + refused_count o;
  ac_kept : do_records o = Z.of_nat (length (do_samples o) + length (do_metadata o));
  ac_samples : do_sample_count o = Z.of_nat (length (do_samples o));
  ac_metadata : do_metadata_count o = Z.of_nat (length (do_metadata o)) ∧
                do_metadata_records o = Z.of_nat (length (do_metadata o));
  ac_refused : 0 <= refused_count o;
  ac_diagnostics : Z.of_nat (length (do_diagnostics o)) =
                     Z.min (refused_count o) (Z.of_nat kMaxDiagnostics);
  ac_truncated : do_diagnostics_truncated o = (Z.of_nat kMaxDiagnostics <? refused_count o);
  ac_cap : Z.of_nat (length (do_samples o)) <= max_batch_samples limits ∧
           Z.of_nat (length (do_metadata o)) <= max_batch_metadata limits
}.

Ltac outcome_cbn :=
  cbn [no_outcome push_diagnostic count_refused add_lines push_sample push_metadata do_lines do_records do_sample_count
    do_metadata_count do_metadata_records do_skipped do_malformed do_unsupported
    do_version_mismatches do_samples do_metadata do_diagnostics do_diagnostics_truncated].

Lemma accounted_refused n line status reason o :
  accounted n o →
  accounted (S n)
    (push_diagnostic line status reason (count_refused status (add_lines 1 0 o))).
Proof.
  intros [H1 H2 H3 H4 [H5 H5'] H6 H7 H8 [H9 H9']]. unfold refused_count, kMaxDiagnostics in *.
  assert (∀ x, x = do_malformed o + do_unsupported o + do_version_mismatches o →
    (if (64 <=? length (do_diagnostics o))%nat then true else do_diagnostics_truncated o) =
      (64 <? x + 1) ∧
    Z.of_nat (length (if (64 <=? length (do_diagnostics o))%nat then do_diagnostics o
                      else do_diagnostics o ++ [mkDiagnostic line status reason])) =
      Z.min (x + 1) 64) as Hd.
  { intros x ->. rewrite H8. destruct (Nat.leb_spec 64 (length (do_diagnostics o))); [lia|].
    rewrite length_app, !(proj2 (Z.ltb_ge _ _)) by lia. cbn [length]. lia. }
  specialize (Hd _ eq_refl).
  destruct Hd as [Hd1 Hd2].
  destruct status; (split; unfold refused_count, kMaxDiagnostics;
    outcome_cbn;
    unfold kMaxDiagnostics; try lia;
    etransitivity; [exact Hd1|f_equal; lia]).
Qed.

Lemma accounted_skipped n o : accounted n o → accounted (S n) (add_lines 0 1 o).
Proof.
  intros [H1 H2 H3 H4 H5 H6 H7 H8 H9]. split; unfold refused_count in *; outcome_cbn; try done; lia.
Qed.
Lemma accounted_sample n sample unknown o :
  Z.of_nat (length (do_samples o)) < max_batch_samples limits →
  accounted n o → accounted (S n) (push_sample sample unknown (add_lines 1 0 o)).
Proof.
  intros Hc [H1 H2 H3 H4 H5 H6 H7 H8 H9].
  split; unfold refused_count in *; outcome_cbn; rewrite ?length_app; cbn [length]; try done; lia.
Qed.
Lemma accounted_metadata n table o :
  Z.of_nat (length (do_metadata o)) < max_batch_metadata limits →
  accounted n o → accounted (S n) (push_metadata table (add_lines 1 0 o)).
Proof.
  intros Hc [H1 H2 H3 H4 H5 H6 H7 H8 H9].
  split; unfold refused_count in *; outcome_cbn; rewrite ?length_app; cbn [length]; try done; lia.
Qed.

(** What [parse_line] does with the room that is left: the record of the line on its
    own, or a refusal when there is none. *)
Ltac line_room := first [contradiction | exact I | lia | split; [reflexivity|lia]].

Lemma parse_line_room line trimmed samples tables :
  match parse_line double_in_range limits line trimmed samples tables,
        parse_line double_in_range limits 1 trimmed 0 0 with
  | Accepted (SampleRecord s n), r => r = Accepted (SampleRecord s n) ∧ samples < max_batch_samples limits
  | Accepted (MetadataRecord t), r => r = Accepted (MetadataRecord t) ∧ tables < max_batch_metadata limits
  | Refused _ _, Accepted (SampleRecord _ _) => max_batch_samples limits <= samples
  | Refused _ _, Accepted (MetadataRecord _) => max_batch_metadata limits <= tables
  | Refused _ _, Refused _ _ => True
  end.
Proof.
  destruct valid_caps as [Hs Hm]. unfold parse_line.
  pose proof (alike_envelope line 1 limits double_in_range trimmed) as He.
  destruct (parse_envelope _ _ line _) as [[object kind]|], (parse_envelope _ _ 1 _) as [[? ?]|];
    cbn in He; try contradiction; try exact I.
  injection He as <- <-. cbn [mbind Decoded_bind].
  destruct (bool_decide (kind = "queue_sample")); [|destruct (bool_decide (kind = "class_metadata"))].
  - pose proof (alike_sample line 1 limits object) as Ha.
    rewrite (proj2 (Z.ltb_lt 0 _)) by lia. cbn [check_record mbind Decoded_bind].
    destruct (Z.ltb_spec samples (max_batch_samples limits)); cbn [check_record mbind Decoded_bind];
      destruct (parse_sample_record line limits object) as [[]|],
        (parse_sample_record 1 limits object) as [[]|]; cbn [alike malformed mbind Decoded_bind] in Ha |- *; simplify_eq; line_room.
  - pose proof (alike_metadata line 1 limits object) as Ha.
    rewrite (proj2 (Z.ltb_lt 0 _)) by lia. cbn [check_record mbind Decoded_bind].
    destruct (Z.ltb_spec tables (max_batch_metadata limits)); cbn [check_record mbind Decoded_bind];
      destruct (parse_metadata_record line limits object),
        (parse_metadata_record 1 limits object); cbn [alike malformed mbind Decoded_bind] in Ha |- *; simplify_eq; line_room.
  - exact I.
Qed.

Definition after_line (line_number : nat) (line : string) (o o' : DecodeOutcome) : Prop :=
  do_samples o' = take (Z.to_nat (max_batch_samples limits)) (do_samples o ++ do_samples (alone line)) ∧
  do_metadata o' =
    take (Z.to_nat (max_batch_metadata limits)) (do_metadata o ++ do_metadata (alone line)).

Lemma take_cap {A} (n : Z) (xs ys : list A) :
  Z.of_nat (length xs) < n → (length ys <= 1)%nat → take (Z.to_nat n) (xs ++ ys) = xs ++ ys.
Proof. intros. apply take_ge. rewrite length_app. lia. Qed.
Lemma take_full {A} (n : Z) (xs ys : list A) :
  n = Z.of_nat (length xs) → take (Z.to_nat n) (xs ++ ys) = xs.
Proof. intros ->. rewrite Nat2Z.id. apply take_app_length. Qed.

(** The room for a list that is already within the limit. *)
Lemma take_within {A} (n : Z) (xs : list A) :
  Z.of_nat (length xs) <= n → take (Z.to_nat n) (xs ++ []) = xs.
Proof. intros. rewrite app_nil_r. apply take_ge. lia. Qed.

Lemma decode_line_step n line_number line o :
  accounted n o →
  let o' := decode_line double_in_range limits line_number line o in
  accounted (S n) o' ∧ after_line line_number line o o'.
Proof.
  intros Ho o'. pose proof (ac_cap _ _ Ho) as [Hcs Hcm].
  unfold after_line, alone, o', decode_line. set (trimmed := trim _). clearbody trimmed.
  destruct (is_comment trimmed).
  { split; [by apply accounted_skipped|]. outcome_cbn. by rewrite !take_within. }
  set (samples := Z.of_nat (length (do_samples (add_lines 1 0 o)))).
  set (tables := Z.of_nat (length (do_metadata (add_lines 1 0 o)))).
  pose proof (parse_line_room line_number trimmed samples tables) as Hroom.
  change (Z.of_nat (length (do_samples (add_lines 1 0 no_outcome)))) with 0.
  change (Z.of_nat (length (do_metadata (add_lines 1 0 no_outcome)))) with 0.
  destruct (parse_line _ _ line_number _ _ _) as [[s unknown|t]|status reason].
  - destruct Hroom as [-> Hroom]. split; [by apply accounted_sample|]. outcome_cbn.
    rewrite take_within by done. split; [|done]. symmetry. apply take_cap; [done|cbn; lia].
  - destruct Hroom as [-> Hroom]. split; [by apply accounted_metadata|]. outcome_cbn.
    rewrite take_within by done. split; [done|]. symmetry. apply take_cap; [done|cbn; lia].
  - split; [by apply accounted_refused|].
    replace (do_samples (push_diagnostic line_number _ _ _)) with (do_samples o) by (by destruct status).
    replace (do_metadata (push_diagnostic line_number _ _ _)) with (do_metadata o)
      by (by destruct status).
    destruct (parse_line _ _ 1 _ _ _) as [[s unknown|t]|status' reason'].
    + outcome_cbn. rewrite take_within by done. split; [|done]. symmetry. apply take_full.
      apply Z.le_antisymm; [exact Hroom|exact Hcs].
    + outcome_cbn. rewrite take_within by done. split; [done|]. symmetry. apply take_full.
      apply Z.le_antisymm; [exact Hroom|exact Hcm].
    + replace (do_samples (push_diagnostic 1 _ _ _)) with (@nil QueueSample) by (by destruct status').
      replace (do_metadata (push_diagnostic 1 _ _ _)) with (@nil ClassMetadataTable)
        by (by destruct status').
      by rewrite !take_within.
Qed.

Lemma take_app_take {A} n (xs ys : list A) : take n (take n xs ++ ys) = take n (xs ++ ys).
Proof.
  rewrite !take_app, take_take, length_take, Nat.min_id. do 2 f_equal. lia.
Qed.

Lemma decode_lines_alone lines : ∀ n line_number o,
  accounted n o →
  let o' := decode_lines double_in_range limits line_number lines o in
  accounted (n + length lines) o' ∧
  do_samples o' = take (Z.to_nat (max_batch_samples limits))
                    (do_samples o ++ concat (map (λ l, do_samples (alone l)) lines)) ∧
  do_metadata o' = take (Z.to_nat (max_batch_metadata limits))
                     (do_metadata o ++ concat (map (λ l, do_metadata (alone l)) lines)).
Proof.
  induction lines as [|line lines IH]; intros n line_number o Ho; cbn [decode_lines map concat].
  - pose proof (ac_cap _ _ Ho) as [? ?]. cbn [length]. rewrite Nat.add_0_r.
    by rewrite !take_within.
  - destruct (decode_line_step n line_number line o Ho) as [Ho' [Hs Hm]].
    destruct (IH (S n) (S line_number) _ Ho') as (H1 & H2 & H3).
    cbn [length]. rewrite Nat.add_succ_r. split; [exact H1|].
    rewrite H2, H3, Hs, Hm, !take_app_take, <- !app_assoc. done.
Qed.
End lines.

(** A line on its own is a document with that line. *)
Lemma decode_one_line double_in_range limits line :
  ok (validate_ingest limits) = true → no_sep (byte_char 10) line →
  Z.of_nat (String.length line) <= max_payload_bytes limits →
  decode_document double_in_range limits line = Value (alone double_in_range limits line).
Proof.
  intros Hv Hn Hl. unfold decode_document. rewrite Hv. cbn [negb].
  rewrite split_no_sep by done. by rewrite (proj2 (Z.ltb_ge _ _)) by lia.
Qed.

Definition decoded_metadata (r : Result DecodeOutcome) : list ClassMetadataTable :=
  match r with Value o => do_metadata o | Failure _ => [] end.

(** A document's samples and tables are those its lines give as documents of their
    own, in order and cut to the batch limits: a malformed line hides no other.  Every
    line is counted once, as skipped, as a record or under one kind of refusal; each
    refusal has a diagnostic up to the limit, and only then the rest is marked
    truncated. *)
Theorem lines_decoded_alone double_in_range limits payload o :
  0 <= max_batch_samples limits → 0 <= max_batch_metadata limits →
  decode_document double_in_range limits payload = Value o →
  let lines := split payload (byte_char 10) in
  let refused := do_malformed o + do_unsupported o + do_version_mismatches o in
  do_samples o =
    take (Z.to_nat (max_batch_samples limits))
      (concat (map (λ l, decoded_samples (decode_document double_in_range limits l)) lines)) ∧
  do_metadata o =
    take (Z.to_nat (max_batch_metadata limits))
      (concat (map (λ l, decoded_metadata (decode_document double_in_range limits l)) lines)) ∧
  do_lines o + do_skipped o = Z.of_nat (length lines) ∧
  do_lines o = Z.of_nat (length (do_samples o)) + Z.of_nat (length (do_metadata o)) + refused ∧
  Z.of_nat (length (do_diagnostics o)) = Z.min refused (Z.of_nat kMaxDiagnostics) ∧
  do_diagnostics_truncated o = (Z.of_nat kMaxDiagnostics <? refused).
Proof.
  intros Hs Hm. unfold decode_document at 1.
  destruct (ok (validate_ingest limits)) eqn:Hv; [|done]. cbn [negb].
  destruct (Z.ltb_spec (max_payload_bytes limits) (Z.of_nat (String.length payload))); [done|].
  intros [= Ho].
  destruct (decode_lines_alone double_in_range limits Hv Hs Hm (split payload (byte_char 10)) 0 1
    no_outcome) as (Hacc & Hsamples & Hmetadata); [by split|].
  rewrite Ho in *. clear Ho.
  assert (∀ l, l ∈ split payload (byte_char 10) →
    decode_document double_in_range limits l = Value (alone double_in_range limits l)) as Hone.
  { pose proof (split_pieces (byte_char 10) payload) as Hp. rewrite Forall_forall in Hp.
    intros l [Hn Hl]%Hp. apply decode_one_line; [done|done|lia]. }
  rewrite (map_ext_in _ (λ l, do_samples (alone double_in_range limits l))),
    (map_ext_in _ (λ l, do_metadata (alone double_in_range limits l)))
    by (intros l Hl%list_elem_of_In; by rewrite Hone).
  destruct Hacc as [H1 H2 H3 _ _ _ H7 H8 _]. unfold refused_count in *.
  split_and!; [exact Hsamples|exact Hmetadata|exact H1|lia|exact H7|exact H8].
Qed.

Definition example_payload : string :=
  "oops" +:+ String (byte_char 10)
    (match encode_sample example_sample with Value text => text | Failure _ => EmptyString end).

Lemma lines_decoded_alone_witness :
  ∃ o, decode_document (λ _, true) default_ingest_limits example_payload = Value o ∧
    do_samples o = [example_sample] ∧
    do_lines o = 1 + 0 + (do_malformed o + do_unsupported o + do_version_mismatches o).
Proof.
  eexists. split; [vm_compute; reflexivity|]. split; [reflexivity|].
  apply (lines_decoded_alone (λ _, true) default_ingest_limits example_payload); [done|done|].
  vm_compute. reflexivity.
Defined.
