(* ===== verification/SampleRoundTrip.v ===== *)
(** * Samples: what is encoded is decoded as it was

    The JSON object the encoder writes for a sample, and the round trip through the
    writer, the JSON parser and the decoder. *)

From S2P Require Import Prelude Result Checked Text Json JsonBounds JsonWriter JsonRoundTrip.
From S2P Require Import Identity Time Evidence Sample Metadata Limits Decode DecodeTheorems.
Open Scope Z_scope.

#[local] Set Warnings "-register-all".

Abbreviation Member := (string * JsonValue)%type (only parsing).

(** ** Members of an object *)

Fixpoint member_of (key : string) (kvs : list Member) : option JsonValue :=
  match kvs with
  | [] => None
  | kv :: kvs => if bool_decide (kv.1 = key) then Some kv.2 else member_of key kvs
  end.

Lemma json_find_object key kvs : json_find key (object_of kvs) = member_of key kvs.
Proof. cbn. induction kvs as [|kv kvs IH]; cbn; [done|]. by rewrite IH. Qed.

Lemma member_of_app key a b :
  member_of key (a ++ b) = match member_of key a with Some v => Some v | None => member_of key b end.
Proof. induction a as [|kv a IH]; cbn; [done|]. by case_bool_decide. Qed.

Lemma member_of_None key kvs : key ∉ map fst kvs → member_of key kvs = None.
Proof.
  induction kvs as [|kv kvs IH]; cbn; [done|]. intros [Hne Hn]%not_elem_of_cons.
  rewrite bool_decide_eq_false_2 by auto. auto.
Qed.

(** A member per entry of a table that satisfies a condition. *)
Definition table_members {A} (table : list (string * A)) (c : string * A → bool)
    (v : string * A → JsonValue) : list Member :=
  flat_map (λ e, if c e then [(e.1, v e)] else []) table.

Lemma table_members_keys {A} (table : list (string * A)) c v :
  map fst (table_members table c v) `sublist_of` map fst table.
Proof.
  unfold table_members. induction table as [|e table IH]; cbn; [done|].
  destruct (c e); cbn; by constructor.
Qed.

Lemma table_members_find {A} (table : list (string * A)) c v e :
  NoDup (map fst table) → e ∈ table →
  member_of e.1 (table_members table c v) = if c e then Some (v e) else None.
Proof.
  unfold table_members. induction table as [|d table IH]; cbn; intros Hnd Hin.
  { by apply elem_of_nil in Hin. }
  apply NoDup_cons in Hnd as [Hd Hnd]. rewrite member_of_app.
  apply elem_of_cons in Hin as [->|Hin].
  - destruct (c d); cbn; [by rewrite bool_decide_eq_true_2|].
    apply member_of_None. intros Hin. apply Hd.
    eapply elem_of_sublist; [exact Hin|apply table_members_keys].
  - assert (d.1 ≠ e.1) as Hne.
    { intros Heq. apply Hd. rewrite Heq. by apply (list_elem_of_fmap_2 fst). }
    destruct (c d); cbn; [rewrite bool_decide_eq_false_2 by done|]; auto.
Qed.

(** ** The object of a sample *)

Definition some_member {A} (o : option A) (key : string) (v : A → JsonValue) : list Member :=
  match o with Some a => [(key, v a)] | None => [] end.

Definition identity_members (s : QueueSample) : list Member :=
  [ ("kind", JString "queue_sample"); ("v", JUint kVersion);
    ("device", JString (qp_device (qs_queue s))); ("port", JString (qp_port (qs_queue s)));
    ("queue", JUint (qp_queue (qs_queue s))); ("source", JString (qs_source s));
    ("incarnation", JString (qs_incarnation s)); ("generation", JUint (qs_generation s));
    ("sequence", JUint (qs_sequence s));
    ("authority", JString (SourceAuthority.to_string (qs_authority s)));
    ("observed_ns", signed_value (obs_ns (qs_observed s)));
    ("clock_domain", JString (obs_domain (qs_observed s))) ].
Definition optional_members (s : QueueSample) : list Member :=
  (if id_valid (qs_revision s) then [("revision", JUint (qs_revision s))] else []) ++
  some_member (qc_traffic_class (qs_classes s)) "traffic_class" JUint ++
  some_member (qc_scheduling_class (qs_classes s)) "scheduling_class" JString.
Definition measurement_members (s : QueueSample) : list Member :=
  table_members keys_table (λ e, has s e.2) (λ e, JUint (raw_value_or_zero s e.2)).
Definition declared_names (s : QueueSample) : list JsonValue :=
  flat_map (λ e : string * SampleField, if has_field (qs_declared s) e.2 then [JString e.1] else [])
    keys_table.
Definition sample_object_members (s : QueueSample) : list Member :=
  identity_members s ++ optional_members s ++ measurement_members s ++
  [("declared", JArray (declared_names s))].
Definition sample_json (s : QueueSample) : JsonValue := object_of (sample_object_members s).

Lemma builds_some {A} pretty (o : option A) key f v :
  (∀ a, writes pretty (f a) (v a)) →
  builds pretty (write_some o (λ a, WRITE JsonWriter.key key ;; f a)) (some_member o key v).
Proof. intros H. destruct o; cbn; [by apply builds_member|apply builds_nothing]. Qed.

Lemma writes_value_array pretty f vs : adds pretty f vs → writes pretty (value_array f) (JArray vs).
Proof. apply writes_array. Qed.
Lemma writes_value_object pretty f kvs :
  builds pretty f kvs → writes pretty (value_object f) (object_of kvs).
Proof. apply writes_object. Qed.

(** One member, then the others. *)
Lemma builds_cons pretty name f v g kvs :
  writes pretty f v → builds pretty g kvs →
  builds pretty (WRITE (WRITE JsonWriter.key name ;; f) ;; g) ((name, v) :: kvs).
Proof. intros Hf Hg. by apply (builds_then _ _ _ [(name, v)]), Hg; apply builds_member. Qed.

Lemma encode_sample_text s :
  ok (validate_encodable_sample s) = true →
  encode_sample s = Value (json_text false 0 (sample_json s)).
Proof.
  intros Hv. unfold encode_sample, try_result. rewrite Hv. apply written_text.
  apply writes_value_object. unfold sample_members, sample_object_members, identity_members.
  cbn [app].
  do 12 (apply builds_cons; [auto with qobs|]).
  unfold optional_members. rewrite <- !app_assoc.
  apply builds_then; [apply builds_if; intros _; apply builds_member; auto with qobs|].
  apply builds_then; [apply builds_some; auto with qobs|].
  apply builds_then; [apply builds_some; auto with qobs|].
  apply builds_then.
  - unfold measurement_members, table_members. apply builds_each. intros e _.
    apply builds_if. intros _. apply builds_member. auto with qobs.
  - apply builds_member, writes_value_array. unfold declared_names. apply adds_each. intros e _.
    apply adds_if. intros _. auto with qobs.
Qed.

(** ** Samples the format can carry *)

(** What the constructors of the identities and the accessors of a sample guarantee,
    and a timestamp the decoder accepts. *)
Record wire_sample (s : QueueSample) : Prop := {
  ws_device : create DeviceTag (qp_device (qs_queue s)) = Value (qp_device (qs_queue s));
  ws_port : create PortTag (qp_port (qs_queue s)) = Value (qp_port (qs_queue s));
  ws_source : create SourceTag (qs_source s) = Value (qs_source s);
  ws_incarnation : create IncarnationTag (qs_incarnation s) = Value (qs_incarnation s);
  ws_domain : create ClockDomainTag (obs_domain (qs_observed s)) = Value (obs_domain (qs_observed s));
  ws_queue : 0 <= qp_queue (qs_queue s) <= u32_max;
  ws_generation : is_u64 (qs_generation s);
  ws_sequence : is_u64 (qs_sequence s);
  ws_revision : is_u64 (qs_revision s);
  ws_observed : 0 <= obs_ns (qs_observed s) <= i64_max;
  ws_traffic : ∀ t, qc_traffic_class (qs_classes s) = Some t → 0 <= t <= u16_max;
  ws_scheduling : ∀ c, qc_scheduling_class (qs_classes s) = Some c →
    create SchedulingClassTag c = Value c;
  ws_length : length (qs_values s) = kSampleFieldCount;
  ws_values : Forall is_u64 (qs_values s);
  ws_unreported : ∀ i, (i < kSampleFieldCount)%nat →
    Z.testbit (qs_reported s) (Z.of_nat i) = false → nth i (qs_values s) 0 = 0;
  ws_reported : 0 <= qs_reported s < 2 ^ Z.of_nat kSampleFieldCount;
  ws_declared : 0 <= qs_declared s < 2 ^ Z.of_nat kSampleFieldCount
}.

(** What a record does not carry: when the sample was received, and what metadata
    added to its classes. *)
Definition as_observed (s : QueueSample) : QueueSample :=
  let classes := qs_classes s in
  mkSample (qs_queue s)
    (mkClasses (qc_traffic_class classes) (qc_scheduling_class classes)
       (if is_some (qc_traffic_class classes) || is_some (qc_scheduling_class classes)
        then AttributeOrigin.ObservedInSample else AttributeOrigin.Unspecified) 0)
    (qs_source s) (qs_incarnation s) (qs_sequence s) (qs_authority s) (qs_generation s)
    (qs_revision s) (qs_observed s) no_receive (qs_reported s) (qs_declared s) (qs_values s).

(** ** Reading the members *)

Lemma bind_accepted {A B} (a : A) (f : A → Decoded B) : (Accepted a ≫= f) = f a.
Proof. done. Qed.

Section read.
Context (line : nat).

Lemma read_string object key max v :
  json_find key object = Some (JString v) → Z.of_nat (String.length v) <= max →
  required (require_string line object key max) = Accepted v.
Proof.
  intros H Hl. unfold require_string. rewrite H. cbn [json_is_string negb as_string].
  by rewrite (proj2 (Z.ltb_ge _ _)).
Qed.

Lemma read_u64 object key v :
  json_find key object = Some (JUint v) → required (require_u64 line object key) = Accepted v.
Proof. intros H. unfold require_u64. by rewrite H. Qed.

Lemma read_absent {A} object key (read : JsonValue → Decoded A) :
  json_find key object = None → if_present object key read = Accepted None.
Proof. intros H. unfold if_present. by rewrite H. Qed.
Lemma read_present {A} object key (read : JsonValue → Decoded A) v a :
  json_find key object = Some v → read v = Accepted a → if_present object key read = Accepted (Some a).
Proof. intros H Hr. unfold if_present. rewrite H, Hr. done. Qed.

Lemma read_narrow object key max reason (o : option Z) :
  json_find key object = (JUint <$> o) → (∀ v, o = Some v → v <= max) →
  narrow_field line object key max reason = Accepted o.
Proof.
  intros H Hm. unfold narrow_field. destruct o as [v|]; [|by apply read_absent].
  eapply read_present; [done|]. rewrite (read_u64 _ _ v H), bind_accepted.
  unfold narrow_u. by rewrite (proj2 (Z.ltb_ge _ _)) by auto.
Qed.

Lemma read_scheduling object reason1 reason2 (o : option string) :
  json_find "scheduling_class" object = (JString <$> o) →
  (∀ c, o = Some c → create SchedulingClassTag c = Value c) →
  scheduling_field line object reason1 reason2 = Accepted o.
Proof.
  intros H Hc. unfold scheduling_field. destruct o as [c|]; [|by apply read_absent].
  eapply read_present; [done|]. cbn [json_is_string as_string check_record]. rewrite bind_accepted.
  by rewrite (Hc c eq_refl).
Qed.

Lemma read_authority object unrecognised a :
  json_find "authority" object = Some (JString (SourceAuthority.to_string a)) →
  authority_field line object unrecognised = Accepted a.
Proof.
  intros H. unfold authority_field.
  rewrite (read_present _ _ _ _ a H); [done|]. by destruct a.
Qed.
End read.

(** ** The parts of a sample's object *)

Lemma member_of_skip key a b : key ∉ map fst a → member_of key (a ++ b) = member_of key b.
Proof. intros H. by rewrite member_of_app, member_of_None. Qed.

Lemma optional_members_keys s :
  map fst (optional_members s) `sublist_of` ["revision"; "traffic_class"; "scheduling_class"].
Proof.
  unfold optional_members. destruct (id_valid _), (qc_traffic_class _), (qc_scheduling_class _);
    cbn; repeat constructor.
Qed.

Lemma not_in_sublist {A} (x : A) xs ys : xs `sublist_of` ys → x ∉ ys → x ∉ xs.
Proof. intros Hs Hx Hin. apply Hx. by eapply elem_of_sublist. Qed.

(** A closed statement about names. *)
Ltac not_in :=
  match goal with |- ?P => apply (bool_decide_unpack P) end; vm_compute; exact I.

Section find.
Context (s : QueueSample).

Lemma find_identity key v :
  member_of key (identity_members s) = Some v → json_find key (sample_json s) = Some v.
Proof.
  intros H. unfold sample_json, sample_object_members. by rewrite json_find_object, member_of_app, H.
Qed.

Lemma find_optional key :
  key ∉ map fst (identity_members s) → key ∉ map fst keys_table → key ≠ "declared" →
  json_find key (sample_json s) = member_of key (optional_members s).
Proof.
  intros Hi Ht Hd. unfold sample_json, sample_object_members. rewrite json_find_object.
  rewrite member_of_skip by done. rewrite member_of_app.
  destruct (member_of key (optional_members s)); [done|].
  rewrite member_of_skip by (eapply not_in_sublist; [apply table_members_keys|done]).
  cbn. by rewrite bool_decide_eq_false_2 by auto.
Qed.

Lemma find_revision :
  json_find "revision" (sample_json s) =
    if id_valid (qs_revision s) then Some (JUint (qs_revision s)) else None.
Proof.
  rewrite find_optional by not_in. unfold optional_members.
  by destruct (id_valid _), (qc_traffic_class _), (qc_scheduling_class _).
Qed.
Lemma find_traffic :
  json_find "traffic_class" (sample_json s) = (JUint <$> qc_traffic_class (qs_classes s)).
Proof.
  rewrite find_optional by not_in. unfold optional_members.
  by destruct (id_valid _), (qc_traffic_class _), (qc_scheduling_class _).
Qed.
Lemma find_scheduling :
  json_find "scheduling_class" (sample_json s) = (JString <$> qc_scheduling_class (qs_classes s)).
Proof.
  rewrite find_optional by not_in. unfold optional_members.
  by destruct (id_valid _), (qc_traffic_class _), (qc_scheduling_class _).
Qed.

Lemma keys_table_keys_new key :
  key ∈ map fst keys_table →
  (key ∉ map fst (identity_members s)) ∧
  (key ∉ ["revision"; "traffic_class"; "scheduling_class"]) ∧ (key ≠ "declared").
Proof.
  assert (Forall (λ key, (key ∉ map fst (identity_members no_sample)) ∧
    (key ∉ ["revision"; "traffic_class"; "scheduling_class"]) ∧ (key ≠ "declared"))
    (map fst keys_table)) as H by (apply (bool_decide_unpack (Forall _ _)); vm_compute; exact I).
  rewrite Forall_forall in H. exact (H key).
Qed.

Lemma find_measurement e :
  e ∈ keys_table →
  json_find e.1 (sample_json s) =
    if has s e.2 then Some (JUint (raw_value_or_zero s e.2)) else None.
Proof.
  intros He. destruct (keys_table_keys_new e.1) as (Hi & Ho & Hd);
    [by apply (list_elem_of_fmap_2 fst)|].
  unfold sample_json, sample_object_members. rewrite json_find_object.
  rewrite member_of_skip by done.
  rewrite member_of_skip by (eapply not_in_sublist; [apply optional_members_keys|done]).
  rewrite member_of_app. unfold measurement_members. rewrite table_members_find; [|not_in|done].
  destruct (has s e.2); [done|]. cbn. by rewrite bool_decide_eq_false_2 by auto.
Qed.

Lemma find_declared : json_find "declared" (sample_json s) = Some (JArray (declared_names s)).
Proof.
  unfold sample_json, sample_object_members. rewrite json_find_object.
  rewrite member_of_skip by not_in.
  rewrite member_of_skip by (eapply not_in_sublist; [apply optional_members_keys|not_in]).
  rewrite member_of_skip by (eapply not_in_sublist; [apply table_members_keys|not_in]).
  done.
Qed.
End find.

(** ** Measurements *)

(** The entries of the table that a mask names. *)
Definition in_mask (mask : FieldMask) (table : list (string * SampleField)) (n : Z) : bool :=
  existsb (λ e : string * SampleField,
    has_field mask e.2 && (Z.of_nat (SampleField.index e.2) =? n)) table.

Lemma keys_table_index e : e ∈ keys_table → (SampleField.index e.2 < kSampleFieldCount)%nat.
Proof.
  intros He. assert (forallb (λ e : string * SampleField,
    (SampleField.index e.2 <? kSampleFieldCount)%nat) keys_table = true) as H by reflexivity.
  rewrite forallb_forall in H. by apply Nat.ltb_lt, H, list_elem_of_In.
Qed.

Lemma in_mask_all mask n :
  0 <= mask < 2 ^ Z.of_nat kSampleFieldCount → 0 <= n → in_mask mask keys_table n = Z.testbit mask n.
Proof.
  intros Hm Hn. unfold in_mask. apply Bool.eq_iff_eq_true. rewrite existsb_exists. split.
  - intros (e & _ & [He Hi]%andb_prop). rewrite has_field_testbit in He.
    apply Z.eqb_eq in Hi. by rewrite <- Hi.
  - intros Hb.
    assert (n < Z.of_nat kSampleFieldCount) as Hlt.
    { apply Z.nle_gt. intros Hge.
      assert (Z.testbit mask n = false); [|congruence].
      destruct (decide (mask = 0)) as [->|]; [apply Z.bits_0|].
      apply Z.bits_above_log2; [lia|]. apply Z.log2_lt_pow2; [lia|].
      eapply Z.lt_le_trans; [apply Hm|]. apply Z.pow_le_mono_r; lia. }
    assert (∃ e, e ∈ keys_table ∧ SampleField.index e.2 = Z.to_nat n) as (e & He & Hi).
    { assert (forallb (λ i, match nth_error keys_table i with
        | Some e => (SampleField.index e.2 =? i)%nat | None => false end) (seq 0 kSampleFieldCount) = true)
        as Hall by reflexivity.
      rewrite forallb_forall in Hall. specialize (Hall (Z.to_nat n)).
      rewrite in_seq in Hall. specialize (Hall ltac:(lia)).
      destruct (nth_error keys_table (Z.to_nat n)) as [e|] eqn:E; [|done].
      exists e. split; [by eapply list_elem_of_In, nth_error_In|by apply Nat.eqb_eq]. }
    exists e. split; [by apply list_elem_of_In|]. rewrite has_field_testbit, Hi, Z2Nat.id by lia.
    rewrite Hb. cbn. apply Z.eqb_refl.
Qed.

(** Adding a mask's bits one entry at a time. *)
Definition mask_fold (mask : FieldMask) (table : list (string * SampleField)) (m : FieldMask) :
    FieldMask :=
  fold_left (λ m e, if has_field mask e.2 then Z.lor m (field_bit e.2) else m) table m.

Lemma mask_fold_testbit mask table m n :
  0 <= n → Z.testbit (mask_fold mask table m) n = Z.testbit m n || in_mask mask table n.
Proof.
  intros Hn. unfold mask_fold, in_mask. revert m.
  induction table as [|e table IH]; intros m; cbn [fold_left existsb]; [by rewrite orb_false_r|].
  rewrite IH. destruct (has_field mask e.2); cbn [andb]; [|done].
  unfold field_bit. rewrite Z.lor_spec, Z.shiftl_1_l, Z.pow2_bits_eqb by lia.
  by rewrite orb_assoc.
Qed.

Lemma mask_fold_all mask :
  0 <= mask < 2 ^ Z.of_nat kSampleFieldCount → mask_fold mask keys_table 0 = mask.
Proof.
  intros Hm. apply Z.bits_inj'. intros n Hn.
  by rewrite mask_fold_testbit, Z.bits_0, in_mask_all.
Qed.

Lemma parse_field_name e : e ∈ keys_table → parse_sample_field e.1 = Some e.2.
Proof.
  intros He. assert (forallb (λ e : string * SampleField,
    bool_decide (parse_sample_field e.1 = Some e.2)) keys_table = true) as H by reflexivity.
  rewrite forallb_forall in H. by eapply bool_decide_eq_true_1, H, list_elem_of_In.
Qed.

Lemma read_declared_table s line table m :
  table ⊆ keys_table →
  declared_fields line
    (flat_map (λ e : string * SampleField,
       if has_field (qs_declared s) e.2 then [JString e.1] else []) table) m 0 =
  Accepted (mask_fold (qs_declared s) table m, 0).
Proof.
  unfold mask_fold. revert m. induction table as [|e table IH]; intros m Hsub; [done|].
  cbn [flat_map fold_left].
  assert (table ⊆ keys_table) by (intros x Hx; apply Hsub; by right).
  destruct (has_field (qs_declared s) e.2); [|by apply IH].
  cbn [app declared_fields json_is_string negb as_string].
  rewrite parse_field_name by (apply Hsub; left). by apply IH.
Qed.

Lemma read_declared s line :
  0 <= qs_declared s < 2 ^ Z.of_nat kSampleFieldCount →
  declared_fields line (declared_names s) 0 0 = Accepted (qs_declared s, 0).
Proof.
  intros Hm. unfold declared_names. rewrite read_declared_table by done.
  by rewrite mask_fold_all.
Qed.

(** The values the loop leaves: each reported one is the sample's own. *)
Section values.
Context (s : QueueSample) (line : nat).
Context (len : length (qs_values s) = kSampleFieldCount).

Definition step_values (values : list Z) (e : string * SampleField) : list Z :=
  if has s e.2 then <[SampleField.index e.2 := raw_value_or_zero s e.2]> values else values.
Lemma sample_values_read table a :
  table ⊆ keys_table →
  sample_values line (sample_json s) table a =
    Accepted (set_measurements (mask_fold (qs_reported s) table (qs_reported a))
                (fold_left step_values table (qs_values a)) a).
Proof.
  unfold mask_fold. revert a.
  induction table as [|e table IH]; intros a Hsub; cbn [sample_values fold_left].
  { by destruct a. }
  assert (e ∈ keys_table) as He by (apply Hsub; left).
  destruct e as [key field]. pose proof (find_measurement s (key, field) He) as Hfind.
  cbn [fst snd] in Hfind. unfold step_values at 2. cbn [fst snd].
  fold (has s field). destruct (has s field) eqn:Hhas; rewrite Hfind.
  - rewrite (read_u64 _ _ _ _ Hfind), bind_accepted, IH by (intros x Hx; apply Hsub; by right).
    unfold set_value. by rewrite (proj2 (Nat.leb_gt _ _)) by exact (keys_table_index _ He).
  - apply IH. intros x Hx. apply Hsub. by right.
Qed.

Lemma step_values_lookup table values i :
  (i < length values)%nat → length values = kSampleFieldCount →
  fold_left step_values table values !! i =
    if in_mask (qs_reported s) table (Z.of_nat i) then Some (nth i (qs_values s) 0)
    else values !! i.
Proof.
  intros Hi. unfold in_mask. revert values Hi.
  induction table as [|e table IH]; intros values Hi Hlen; cbn [fold_left existsb]; [done|].
  rewrite IH by (unfold step_values; destruct (has s e.2); rewrite ?length_insert; lia).
  destruct (existsb _ table); [by rewrite orb_true_r|]. rewrite orb_false_r.
  unfold step_values, has. destruct (has_field (qs_reported s) e.2); cbn [andb]; [|done].
  destruct (Z.eqb_spec (Z.of_nat (SampleField.index e.2)) (Z.of_nat i)) as [Heq|Hne].
  - apply Nat2Z.inj in Heq. subst i. rewrite list_lookup_insert_eq by lia.
    unfold raw_value_or_zero, Sample.value_at. by rewrite (proj2 (Nat.ltb_lt _ _)) by lia.
  - rewrite list_lookup_insert_ne by congruence. done.
Qed.

Lemma step_values_all :
  0 <= qs_reported s < 2 ^ Z.of_nat kSampleFieldCount →
  (∀ i, (i < kSampleFieldCount)%nat → Z.testbit (qs_reported s) (Z.of_nat i) = false →
     nth i (qs_values s) 0 = 0) →
  fold_left step_values keys_table (replicate kSampleFieldCount 0) = qs_values s.
Proof.
  intros Hm Hz. apply list_eq. intros i.
  destruct (decide (i < kSampleFieldCount)%nat) as [Hi|Hi].
  - rewrite step_values_lookup by (rewrite ?length_replicate; lia).
    rewrite in_mask_all by (done || lia).
    destruct (nth_lookup_or_length (qs_values s) i 0) as [->|]; [|lia].
    destruct (Z.testbit (qs_reported s) (Z.of_nat i)) eqn:E; [done|].
    rewrite lookup_replicate_2 by lia. by rewrite Hz.
  - rewrite !lookup_ge_None_2; [done|lia|].
    assert (∀ table values, length (fold_left step_values table values) = length values) as ->.
    { intros table. induction table as [|e table IH]; intros values; cbn; [done|].
      rewrite IH. unfold step_values. destruct (has s e.2); by rewrite ?length_insert. }
    rewrite length_replicate. lia.
Qed.
End values.

(** ** The whole record *)

Lemma object_members_keys s :
  map fst (sample_object_members s) `sublist_of`
    map fst (identity_members no_sample) ++ ["revision"; "traffic_class"; "scheduling_class"] ++
    map fst keys_table ++ ["declared"].
Proof.
  unfold sample_object_members. rewrite !map_app.
  repeat apply sublist_app; [done|apply optional_members_keys|apply table_members_keys|done].
Qed.

Lemma sample_keys_known s : count_unknown_keys (sample_json s) = 0.
Proof.
  unfold count_unknown_keys, sample_json. cbn [keys object_of].
  assert (List.filter (λ name, negb (known_key name)) (map fst (sample_object_members s)) = []) as ->;
    [|done].
  assert (∀ ks ks', ks `sublist_of` ks' → List.filter (λ name, negb (known_key name)) ks' = [] →
    List.filter (λ name, negb (known_key name)) ks = []) as Hsub.
  { induction 1 as [|k ks ks' _ IH|k ks ks' _ IH]; cbn; [done| |];
      destruct (negb (known_key k)); done || auto. }
  eapply Hsub; [apply object_members_keys|reflexivity].
Qed.

Section record.
Context (s : QueueSample) (line : nat) (limits : IngestLimits).
Context (wire : wire_sample s) (valid : ok (validate_encodable_sample s) = true).
Context (fields : Z.of_nat kMaxIdentityLength <= max_field_bytes limits).

Lemma read_identity_string key tag v :
  member_of key (identity_members s) = Some (JString v) → create tag v = Value v →
  required (require_string line (sample_json s) key (max_field_bytes limits)) = Accepted v.
Proof.
  intros H Hc. apply read_string; [by apply find_identity|].
  apply create_length in Hc. lia.
Qed.
Lemma read_identity_u64 key v :
  member_of key (identity_members s) = Some (JUint v) →
  required (require_u64 line (sample_json s) key) = Accepted v.
Proof. intros H. by apply read_u64, find_identity. Qed.

Lemma sample_identity_read :
  sample_identity line limits (sample_json s) =
    Accepted (mkSample (qs_queue s) no_classes (qs_source s) (qs_incarnation s) (qs_sequence s)
      SourceAuthority.Unknown (qs_generation s) 0 (qs_observed s) no_receive 0 0
      (replicate kSampleFieldCount 0)).
Proof.
  destruct wire. unfold sample_identity.
  rewrite (read_identity_string "device" DeviceTag (qp_device (qs_queue s))), bind_accepted by done.
  rewrite (read_identity_string "port" PortTag (qp_port (qs_queue s))), bind_accepted by done.
  rewrite (read_identity_string "source" SourceTag (qs_source s)), bind_accepted by done.
  rewrite (read_identity_string "incarnation" IncarnationTag (qs_incarnation s)), bind_accepted by done.
  rewrite (read_identity_string "clock_domain" ClockDomainTag (obs_domain (qs_observed s))),
    bind_accepted by done.
  rewrite (read_identity_u64 "queue" (qp_queue (qs_queue s))), bind_accepted by done.
  rewrite (read_identity_u64 "generation" (qs_generation s)), bind_accepted by done.
  rewrite (read_identity_u64 "sequence" (qs_sequence s)), bind_accepted by done.
  assert (signed_value (obs_ns (qs_observed s)) = JUint (obs_ns (qs_observed s))) as Hns
    by (unfold signed_value; by is_false (obs_ns (qs_observed s) <? 0)).
  rewrite (read_identity_u64 "observed_ns" (obs_ns (qs_observed s))), bind_accepted
    by (cbn; by rewrite Hns).
  rewrite ws_device0, ws_port0, ws_source0, ws_incarnation0, ws_domain0.
  unfold narrow_u. is_false (u32_max <? qp_queue (qs_queue s)). cbn [or_malformed].
  rewrite bind_accepted. is_true (obs_ns (qs_observed s) <=? i64_max). cbn [check_record].
  rewrite bind_accepted. do 2 f_equal; [by destruct (qs_queue s)|by destruct (qs_observed s)].
Qed.

Lemma id_valid_revision : id_valid (qs_revision s) = false → qs_revision s = 0.
Proof. unfold id_valid. intros H%negb_false_iff. by apply Z.eqb_eq. Qed.

Lemma sample_attributes_read a :
  sample_attributes line (sample_json s) a =
    Accepted (set_attributes (qs_authority s) (qs_revision s) (qs_classes (as_observed s)) a).
Proof.
  destruct wire. unfold sample_attributes.
  rewrite (read_authority _ _ _ (qs_authority s)) by (by apply find_identity).
  rewrite bind_accepted.
  assert (if_present (sample_json s) "revision"
    (λ _, required (require_u64 line (sample_json s) "revision")) =
    Accepted (if id_valid (qs_revision s) then Some (qs_revision s) else None)) as ->.
  { pose proof (find_revision s) as Hr. destruct (id_valid (qs_revision s)).
    - eapply read_present; [done|]. by apply read_u64.
    - by apply read_absent. }
  rewrite bind_accepted, (read_narrow _ _ _ _ _ (qc_traffic_class (qs_classes s)));
    [|apply find_traffic|intros v Hv; by apply ws_traffic0].
  rewrite bind_accepted, (read_scheduling _ _ _ _ (qc_scheduling_class (qs_classes s)));
    [|apply find_scheduling|done].
  rewrite bind_accepted. do 2 f_equal.
  destruct (id_valid (qs_revision s)) eqn:E; [done|]. by rewrite (id_valid_revision E).
Qed.

Lemma sample_record_read :
  parse_sample_record line limits (sample_json s) = Accepted (as_observed s, 0).
Proof.
  unfold parse_sample_record. rewrite sample_identity_read, bind_accepted.
  rewrite sample_attributes_read, bind_accepted.
  rewrite sample_values_read, bind_accepted by done.
  cbn [set_attributes qs_reported qs_values set_measurements].
  destruct wire.
  rewrite (mask_fold_all (qs_reported s)) by done. rewrite step_values_all by done.
  assert ((qs_reported s =? 0) = false) as Hr.
  { revert valid. unfold validate_encodable_sample. repeat case_match; done. }
  rewrite Hr. cbn [negb check_record]. rewrite bind_accepted.
  unfold declared_mask. rewrite find_declared. cbn [json_is_array check_record items].
  rewrite bind_accepted, read_declared, bind_accepted by done.
  rewrite sample_keys_known. done.
Qed.
End record.

(** ** The shape of a sample's object *)

Section shape.
Context (s : QueueSample) (limits : IngestLimits) (double_in_range : string → bool).
Context (wire : wire_sample s).
Context (fields : Z.of_nat kMaxIdentityLength <= max_field_bytes limits).
Context (entries : Z.of_nat kSampleFieldCount <= max_batch_metadata limits).

Let jlimits := wire_json_limits limits.

(** A leaf whose text is short: a string of at most 128 bytes, each written as at most
    six characters, or a number. *)
Definition leaf_ok (v : JsonValue) : Prop :=
  json_ok jlimits double_in_range v ∧ printable v = true ∧ items v = [] ∧
  ∀ level, Z.of_nat (String.length (json_text false level v)) <= 800.

Lemma short_string_ok text :
  (String.length text <= kMaxIdentityLength)%nat → string_ok jlimits text.
Proof. unfold string_ok, jlimits. cbn [wire_json_limits jl_max_string_bytes]. lia. Qed.

Lemma leaf_string text :
  (String.length text <= kMaxIdentityLength)%nat → leaf_ok (JString text).
Proof.
  intros H. split_and!; [|done|done|].
  - constructor. by apply short_string_ok.
  - intros level. pose proof (quoted_text_length text) as Hl. cbn [json_text].
    change kMaxIdentityLength with 128%nat in H. lia.
Qed.
Lemma leaf_name tag text : create tag text = Value text → leaf_ok (JString text).
Proof. intros H. eapply leaf_string, create_length, H. Qed.
Lemma leaf_u64 n : is_u64 n → leaf_ok (JUint n).
Proof.
  intros H. split_and!; [by constructor|done|done|].
  intros level. pose proof (u64_to_string_length n). cbn [json_text]. lia.
Qed.

Lemma leaf_members_ok :
  Forall (λ kv, leaf_ok kv.2) (identity_members s ++ optional_members s ++ measurement_members s).
Proof.
  destruct wire. rewrite !Forall_app. split_and!.
  - unfold identity_members.
    repeat (apply Forall_cons; split); try (by eapply leaf_name); try (apply leaf_u64; word_lia);
      cbn [snd].
    + apply leaf_string. cbn. unfold kMaxIdentityLength. lia.
    + apply leaf_u64. unfold kVersion. word_lia.
    + apply leaf_string. destruct (qs_authority s); cbn; unfold kMaxIdentityLength; lia.
    + unfold signed_value. is_false (obs_ns (qs_observed s) <? 0). apply leaf_u64. word_lia.
    + apply Forall_nil_2.
  - unfold optional_members. rewrite !Forall_app. split_and!.
    + destruct (id_valid _); [|apply Forall_nil_2]. apply Forall_singleton. by apply leaf_u64.
    + destruct (qc_traffic_class _) as [t|] eqn:E; [|apply Forall_nil_2].
      apply Forall_singleton, leaf_u64. specialize (ws_traffic0 t eq_refl). word_lia.
    + destruct (qc_scheduling_class _) as [c|] eqn:E; [|apply Forall_nil_2].
      apply Forall_singleton. by eapply leaf_name, ws_scheduling0.
  - unfold measurement_members, table_members. generalize keys_table as table. intros table.
    induction table as [|e table IH]; cbn; [done|]. apply Forall_app. split; [|done].
    destruct (has s e.2); [|apply Forall_nil_2]. apply Forall_singleton, leaf_u64.
    unfold raw_value_or_zero, Sample.value_at. destruct (_ <? _)%nat eqn:E; [|word_lia].
    apply Nat.ltb_lt in E. rewrite Forall_forall in ws_values0. apply ws_values0.
    apply list_elem_of_In, nth_In. lia.
Qed.

Lemma declared_leaves : Forall leaf_ok (declared_names s).
Proof.
  unfold declared_names. apply Forall_forall. intros v Hv%list_elem_of_In.
  apply in_flat_map in Hv as (e & He & Hv). destruct (has_field _ _); [|done].
  destruct Hv as [<-|[]]. apply leaf_string.
  assert (forallb (λ e : string * SampleField,
    (String.length e.1 <=? kMaxIdentityLength)%nat) keys_table = true) as H by reflexivity.
  rewrite forallb_forall in H. by apply Nat.leb_le, H.
Qed.

Lemma declared_length : (length (declared_names s) <= kSampleFieldCount)%nat.
Proof.
  unfold declared_names. change kSampleFieldCount with (length keys_table).
  generalize keys_table as table. intros table. induction table as [|e table IH]; cbn; [done|].
  rewrite length_app. destruct (has_field _ _); cbn; lia.
Qed.

Lemma leaves_ok vs : Forall leaf_ok vs → Forall (json_ok jlimits double_in_range) vs.
Proof. intros H. eapply Forall_impl; [exact H|]. by intros v (? & _). Qed.
Lemma leaves_printable vs : Forall leaf_ok vs → forallb printable vs = true.
Proof. induction 1 as [|v vs (_ & Hp & _) _ IH]; cbn; [done|]. by rewrite Hp. Qed.
Lemma leaves_nodes vs : Forall leaf_ok vs → nodes_of vs = Z.of_nat (length vs).
Proof.
  induction 1 as [|v vs (_ & _ & Hi & _) _ IH]; [done|].
  rewrite nodes_of_cons, json_nodes_of, Hi, IH. cbn. lia.
Qed.
Lemma leaves_heights vs : Forall leaf_ok vs → heights vs <= 1.
Proof.
  induction 1 as [|v vs (_ & _ & Hi & _) _ IH]; [done|].
  rewrite heights_cons, json_height_heights, Hi. cbn. lia.
Qed.

Lemma sample_values_split :
  map snd (sample_object_members s) =
    map snd (identity_members s ++ optional_members s ++ measurement_members s) ++
    [JArray (declared_names s)].
Proof. unfold sample_object_members. by rewrite !map_app, <- !app_assoc. Qed.

Lemma leaf_values_ok :
  Forall leaf_ok (map snd (identity_members s ++ optional_members s ++ measurement_members s)).
Proof. apply Forall_map, leaf_members_ok. Qed.

Lemma sample_members_length : (length (sample_object_members s) <= 33)%nat.
Proof.
  pose proof (sublist_length _ _ (object_members_keys s)) as H. rewrite length_map in H. exact H.
Qed.

Lemma declared_ok : json_ok jlimits double_in_range (JArray (declared_names s)).
Proof.
  constructor; [|apply leaves_ok, declared_leaves].
  pose proof declared_length. unfold jlimits. cbn [wire_json_limits jl_max_array_elements]. lia.
Qed.

Lemma member_key_length k :
  k ∈ map fst (sample_object_members s) → (String.length k <= kMaxIdentityLength)%nat.
Proof.
  assert (Forall (λ k, (String.length k <= kMaxIdentityLength)%nat)
    (map fst (identity_members no_sample) ++ ["revision"; "traffic_class"; "scheduling_class"] ++
     map fst keys_table ++ ["declared"])) as H by not_in.
  rewrite Forall_forall in H. intros Hk. apply H.
  eapply elem_of_sublist; [exact Hk|apply object_members_keys].
Qed.

Lemma sample_json_ok : json_ok jlimits double_in_range (sample_json s).
Proof.
  constructor.
  - by rewrite !length_map.
  - eapply sublist_NoDup; [|apply object_members_keys]. not_in.
  - apply Forall_forall. intros k Hk. by apply short_string_ok, member_key_length.
  - rewrite length_map. pose proof sample_members_length.
    unfold jlimits. cbn [wire_json_limits jl_max_object_members]. lia.
  - rewrite sample_values_split, Forall_app. split; [apply leaves_ok, leaf_values_ok|].
    apply Forall_singleton, declared_ok.
Qed.

Lemma sample_json_printable : printable (sample_json s) = true.
Proof.
  cbn [sample_json object_of printable]. rewrite sample_values_split, forallb_app.
  rewrite (leaves_printable _ leaf_values_ok). cbn [forallb printable andb].
  by rewrite (leaves_printable _ declared_leaves).
Qed.

Lemma sample_json_height : json_height (sample_json s) <= 2.
Proof.
  rewrite json_height_heights. cbn [sample_json object_of items].
  rewrite sample_values_split, heights_app, heights_single, (json_height_heights (JArray _)).
  pose proof (leaves_heights _ leaf_values_ok). pose proof (leaves_heights _ declared_leaves).
  cbn [items]. lia.
Qed.

Lemma sample_json_nodes : json_nodes (sample_json s) <= 64.
Proof.
  rewrite json_nodes_of. cbn [sample_json object_of items].
  rewrite sample_values_split, nodes_of_app, nodes_of_single, (json_nodes_of (JArray _)).
  cbn [items]. rewrite (leaves_nodes _ leaf_values_ok), (leaves_nodes _ declared_leaves).
  pose proof sample_members_length as Hm. pose proof declared_length as Hd.
  unfold sample_object_members in Hm. rewrite !app_assoc, length_app in Hm.
  change (length [_]) with 1%nat in Hm. change kSampleFieldCount with 17%nat in Hd.
  rewrite length_map, app_assoc. lia.
Qed.

(** The text of the object fits a line. *)
Lemma member_length k v n :
  (String.length k <= kMaxIdentityLength)%nat →
  Z.of_nat (String.length (json_text false 1 v)) <= n →
  Z.of_nat (String.length (member_text false k (json_text false 1 v))) <= 771 + n.
Proof.
  intros Hk Hv. unfold member_text. rewrite !string_length_app.
  pose proof (quoted_text_length k). change kMaxIdentityLength with 128%nat in Hk.
  change (String.length ":") with 1%nat. cbn [String.length]. lia.
Qed.

Lemma declared_text_length : Z.of_nat (String.length (json_text false 1 (JArray (declared_names s)))) <= 13700.
Proof.
  cbn [json_text]. rewrite !string_length_app.
  pose proof (items_text_bound 2 (map (json_text false 2) (declared_names s)) 800) as Hb.
  rewrite length_map in Hb. pose proof declared_length as Hl.
  change kSampleFieldCount with 17%nat in Hl. cbn [String.length].
  assert (String.length (closing_text false 1 (map (json_text false 2) (declared_names s))) = 0%nat)
    as -> by (by destruct (declared_names s)).
  rewrite Forall_map in Hb. specialize (Hb (Forall_impl _ _ _ declared_leaves (λ v Hv, proj2 (proj2 (proj2 Hv)) 2%nat))).
  lia.
Qed.

Lemma sample_text_length :
  Z.of_nat (String.length (json_text false 0 (sample_json s))) <= 600000.
Proof.
  cbn [sample_json object_of json_text]. rewrite zip_members, !string_length_app.
  assert (∀ t, String.length (closing_text false 0 t) = 0%nat) as -> by (by intros []).
  assert (Forall (λ t, Z.of_nat (String.length t) <= 15000)
    (member_texts false 1 (sample_object_members s))) as Hall.
  { unfold member_texts. apply Forall_map, Forall_forall. intros kv Hkv.
    assert (String.length kv.1 <= kMaxIdentityLength)%nat as Hk.
    { by apply member_key_length, (list_elem_of_fmap_2 fst). }
    unfold sample_object_members in Hkv. rewrite !app_assoc in Hkv.
    apply elem_of_app in Hkv as [Hkv|Hkv].
    - pose proof leaf_members_ok as Hleaf. rewrite Forall_forall in Hleaf.
      rewrite <- app_assoc in Hkv. destruct (Hleaf kv Hkv) as (_ & _ & _ & Hl).
      pose proof (member_length kv.1 kv.2 800 Hk (Hl 1%nat)). cbn. lia.
    - apply list_elem_of_singleton in Hkv as ->.
      pose proof (member_length _ _ _ Hk declared_text_length). cbn [fst snd] in *. lia. }
  apply (items_text_bound 1) in Hall.
  unfold member_texts in Hall at 2. rewrite length_map in Hall. pose proof sample_members_length.
  change (String.length "{") with 1%nat. change (String.length "}") with 1%nat. lia.
Qed.
End shape.

(** ** Documents of samples *)

(** The first and the last character of the text. *)
Lemma sample_text_ends s :
  ∃ body, json_text false 0 (sample_json s) = String "{"%char (body +:+ String "}"%char EmptyString).
Proof.
  cbn [sample_json object_of json_text]. rewrite <- string_app_assoc, <- string_app_assoc.
  rewrite string_app_cons. by eexists.
Qed.

Section document.
Context (double_in_range : string → bool) (limits : IngestLimits).
Context (fields : Z.of_nat kMaxIdentityLength <= max_field_bytes limits).
Context (entries : Z.of_nat kSampleFieldCount <= max_batch_metadata limits).
Context (depth : 2 <= max_json_depth limits) (nodes : 64 <= max_json_nodes limits).
Context (room : 1 <= max_batch_samples limits).

(** A line with the text of a sample adds the sample. *)
Lemma decode_sample_line line s o :
  wire_sample s → ok (validate_encodable_sample s) = true →
  Z.of_nat (length (do_samples o)) < max_batch_samples limits →
  decode_line double_in_range limits line (json_text false 0 (sample_json s)) o =
    push_sample (as_observed s) 0 (add_lines 1 0 o).
Proof.
  intros Hw Hv Hroom. unfold decode_line.
  pose proof (sample_text_ends s) as (body & E).
  assert (strip_carriage_return (json_text false 0 (sample_json s)) =
    json_text false 0 (sample_json s)) as Hstrip.
  { unfold strip_carriage_return, ends_with. rewrite E, <- string_app_cons, string_length_app.
    replace (String.length (String "{"%char body) + String.length (String "}" EmptyString) -
      String.length (String (byte_char 13) EmptyString))%nat with (String.length (String "{"%char body))
      by (cbn; lia).
    rewrite str_drop_app, bool_decide_eq_false_2 by done. by rewrite andb_false_r. }
  rewrite Hstrip.
  assert (trim (json_text false 0 (sample_json s)) = json_text false 0 (sample_json s)) as ->
    by (rewrite E; by apply trim_id).
  assert (is_comment (json_text false 0 (sample_json s)) = false) as -> by (by rewrite E).
  assert (parse_envelope double_in_range limits line (json_text false 0 (sample_json s)) =
    Accepted (sample_json s, "queue_sample")) as Henv.
  { unfold parse_envelope. pose proof (sample_text_length s limits double_in_range Hw fields) as Hl.
    unfold kMaxLineBytes. is_false (1048576 <? Z.of_nat (String.length (json_text false 0 (sample_json s)))).
    rewrite parse_json_text.
    - cbn [json_is_object sample_json object_of check_record]. rewrite bind_accepted.
      fold (object_of (sample_object_members s)). fold (sample_json s).
      rewrite (find_identity s "kind" (JString "queue_sample")) by done.
      cbn [or_malformed]. rewrite bind_accepted. cbn [json_is_string check_record].
      rewrite bind_accepted. unfold optional_u64.
      rewrite (find_identity s "v" (JUint kVersion)) by done.
      rewrite (read_u64 _ _ _ kVersion) by (by apply find_identity). rewrite bind_accepted. done.
    - cbn [wire_json_limits jl_max_string_bytes]. lia.
    - split; [by apply sample_json_ok|by eapply sample_json_printable].
    - pose proof (sample_json_height s limits double_in_range Hw fields) as Hh.
      cbn [wire_json_limits jl_max_depth]. lia.
    - pose proof (sample_json_nodes s limits double_in_range Hw fields) as Hn.
      cbn [wire_json_limits jl_max_nodes]. lia.
    - cbn [wire_json_limits jl_max_document_bytes]. unfold kMaxLineBytes. lia. }
  unfold parse_line. rewrite Henv, bind_accepted. rewrite bool_decide_eq_true_2 by done.
  change (do_samples (add_lines 1 0 o)) with (do_samples o).
  rewrite (proj2 (Z.ltb_lt _ _) Hroom). cbn [check_record]. rewrite bind_accepted.
  rewrite sample_record_read by done. rewrite bind_accepted. done.
Qed.

Lemma decode_sample_lines ss : ∀ line o,
  Forall (λ s, wire_sample s ∧ ok (validate_encodable_sample s) = true) ss →
  Z.of_nat (length (do_samples o) + length ss) <= max_batch_samples limits →
  let o' := decode_lines double_in_range limits line
              (map (λ s, json_text false 0 (sample_json s)) ss) o in
  do_samples o' = do_samples o ++ map as_observed ss ∧ do_metadata o' = do_metadata o ∧
  do_diagnostics o' = do_diagnostics o ∧ do_unknown_keys o' = do_unknown_keys o ∧
  refused_count o' = refused_count o.
Proof.
  induction ss as [|s ss IH]; intros line o Hall Hlen; cbn [map decode_lines].
  { by rewrite app_nil_r. }
  apply Forall_cons in Hall as [[Hw Hv] Hall]. cbn [length] in Hlen.
  rewrite decode_sample_line by (done || lia).
  destruct (IH (S line) (push_sample (as_observed s) 0 (add_lines 1 0 o)) Hall)
    as (H1 & H2 & H3 & H4 & H5).
  { cbn [push_sample do_samples add_lines]. rewrite length_app. cbn [length]. lia. }
  rewrite H1, H2, H3, H4, H5. cbn [push_sample do_samples add_lines do_metadata do_diagnostics
    do_unknown_keys]. rewrite <- app_assoc. split_and!; done || lia.
Qed.
End document.

Lemma encode_all ss :
  Forall (λ s, wire_sample s ∧ ok (validate_encodable_sample s) = true) ss →
  mapM encode_sample ss = Value (map (λ s, json_text false 0 (sample_json s)) ss).
Proof.
  induction 1 as [|s ss [_ Hv] _ IH]; [done|]. cbn [mapM map].
  rewrite (encode_sample_text s Hv). cbn [mbind Result_bind]. by rewrite IH.
Qed.

(** C21: encoding samples and decoding the document of their records, one per line,
    gives the samples back in order, up to what a record does not carry (the receive
    time and what metadata added to the classes), and nothing else: no table, no
    diagnostic, no unknown key, no line refused.  It holds for every sample the encoder
    accepts whose identities the constructors accept, whose fields are in the range of
    their types and whose timestamp is not negative, under any limits that leave room
    for one record. *)
Theorem sample_round_trip double_in_range limits ss :
  ok (validate_ingest limits) = true →
  Z.of_nat kMaxIdentityLength <= max_field_bytes limits →
  Z.of_nat kSampleFieldCount <= max_batch_metadata limits →
  2 <= max_json_depth limits → 64 <= max_json_nodes limits →
  ss ≠ [] → Z.of_nat (length ss) <= max_batch_samples limits →
  Forall (λ s, wire_sample s ∧ ok (validate_encodable_sample s) = true) ss →
  ∃ texts, mapM encode_sample ss = Value texts ∧
    let payload := join texts (String (byte_char 10) EmptyString) in
    (Z.of_nat (String.length payload) <= max_payload_bytes limits →
     ∃ o, decode_document double_in_range limits payload = Value o ∧
       do_samples o = map as_observed ss ∧ do_metadata o = [] ∧ do_diagnostics o = [] ∧
       do_unknown_keys o = 0 ∧
       do_malformed o + do_unsupported o + do_version_mismatches o = 0).
Proof.
  intros Hv Hf He Hd Hn Hne Hlen Hall. eexists. split; [by apply encode_all|].
  intros payload Hp. unfold decode_document. rewrite Hv. cbn [negb].
  rewrite (proj2 (Z.ltb_ge _ _) Hp). eexists. split; [reflexivity|].
  unfold payload. rewrite split_join.
  - by apply (decode_sample_lines double_in_range limits Hf He Hd Hn ss 1 no_outcome).
  - by destruct ss.
  - apply Forall_map. eapply Forall_impl; [exact Hall|]. intros s [Hw _].
    apply plain_no_newline, json_text_plain. by eapply (sample_json_printable s limits (λ _, false)).
Qed.

Definition encoded (s : QueueSample) : string := json_text false 0 (sample_json s).

Lemma example_wire : wire_sample example_sample.
Proof.
  split.
  1-5: reflexivity.
  1-5: unfold is_u64; cbn; word_lia.
  - done.
  - done.
  - reflexivity.
  - repeat constructor; word_lia.
  - intros i Hi. do 17 (destruct i as [|i]; [vm_compute; first [reflexivity|discriminate]|]).
    change kSampleFieldCount with 17%nat in Hi. lia.
  - vm_compute. split; [discriminate|reflexivity].
  - vm_compute. split; [discriminate|reflexivity].
Qed.

Lemma sample_round_trip_witness :
  ∃ o, decode_document (λ _, true) default_ingest_limits
    (join [encoded example_sample; encoded example_sample] (String (byte_char 10) EmptyString)) =
    Value o ∧ do_samples o = [example_sample; example_sample].
Proof.
  destruct (sample_round_trip (λ _, true) default_ingest_limits [example_sample; example_sample])
    as (texts & Ht & Hdoc).
  - reflexivity.
  - vm_compute; discriminate.
  - vm_compute; discriminate.
  - vm_compute; discriminate.
  - vm_compute; discriminate.
  - done.
  - vm_compute; discriminate.
  - repeat (apply Forall_cons; split; [split; [apply example_wire|vm_compute; reflexivity]|]).
    apply Forall_nil_2.
  - rewrite encode_all in Ht.
    + injection Ht as <-.
      destruct Hdoc as (o & Ho & Hs & _); [vm_compute; discriminate|].
      exists o. split; [exact Ho|exact Hs].
    + repeat (apply Forall_cons; split; [split; [apply example_wire|vm_compute; reflexivity]|]).
      apply Forall_nil_2.
Defined.

(** ** Flat objects

    The objects that the exports and the transport write: a few members with short names,
    whose values are strings, integers and booleans.  Under the parser's default limits they
    are read back, and each is one line. *)

Lemma builds_last pretty name f v :
  writes pretty f v → builds pretty (WRITE JsonWriter.key name ;; f) [(name, v)].
Proof. apply builds_member. Qed.


(** A string, an integer or a boolean that the parser's default limits let through. *)
Definition small_leaf (v : JsonValue) : Prop :=
  match v with
  | JString s => (String.length s <= 4096)%nat
  | JUint n => is_u64 n
  | JInt n => i64_min <= n < 0
  | JBool _ => True
  | _ => False
  end.
Record flat_ok (kvs : list Member) : Prop := mkFlat {
  fl_keys : NoDup (map fst kvs);
  fl_short : Forall (λ kv : Member, (String.length kv.1 <= kMaxIdentityLength)%nat) kvs;
  fl_count : (length kvs <= 64)%nat;
  fl_leaves : Forall (λ kv : Member, small_leaf kv.2) kvs
}.

Lemma leaf_items v : small_leaf v → items v = [] ∧ printable v = true.
Proof. destruct v; cbn; try done; intros; split; (done || lia). Qed.
Lemma leaf_text v : small_leaf v → Z.of_nat (String.length (json_text false 1 v)) <= 24578.
Proof.
  destruct v as [|b|n|n| |s| |]; cbn [small_leaf]; try done; intros H; cbn [json_text].
  - by destruct b.
  - unfold i64_to_string. pose proof (u64_to_string_length (- n)). is_true (n <? 0).
    cbn [String.length]. lia.
  - pose proof (u64_to_string_length n). lia.
  - pose proof (quoted_text_length s). lia.
Qed.

Section flat.
Context (double_in_range : string → bool) (kvs : list Member) (Hkvs : flat_ok kvs).

Lemma leaf_json_ok v : small_leaf v → json_ok default_json_limits double_in_range v.
Proof using.
  destruct v as [| |n|n| |s| |]; cbn [small_leaf]; try done; intros H; constructor.
  - lia.
  - done.
  - unfold string_ok. cbn. lia.
Qed.

Lemma flat_leaf v : v ∈ map snd kvs → small_leaf v.
Proof using Hkvs.
  intros (kv & -> & Hin)%list_elem_of_fmap. pose proof (fl_leaves _ Hkvs) as H.
  rewrite Forall_forall in H. by apply H.
Qed.

Lemma flat_json_ok : json_ok default_json_limits double_in_range (object_of kvs).
Proof using Hkvs.
  pose proof (fl_count _ Hkvs). constructor.
  - by rewrite !length_map.
  - apply Hkvs.
  - apply Forall_map. eapply Forall_impl; [apply Hkvs|]. intros kv Hk. unfold string_ok. cbn in *.
    change kMaxIdentityLength with 128%nat in Hk. lia.
  - rewrite length_map. cbn. lia.
  - apply Forall_forall. intros v Hv%flat_leaf. by apply leaf_json_ok.
Qed.

Lemma flat_printable : printable (object_of kvs) = true.
Proof using Hkvs.
  cbn. apply forallb_forall. intros v Hv%list_elem_of_In%flat_leaf. by apply leaf_items.
Qed.

Lemma flat_nodes : json_nodes (object_of kvs) <= 65.
Proof using Hkvs.
  rewrite json_nodes_of. cbn [object_of items].
  assert (nodes_of (map snd kvs) = Z.of_nat (length kvs)) as ->; [|pose proof (fl_count _ Hkvs); lia].
  pose proof flat_leaf as H. clear Hkvs. induction kvs as [|kv l IH]; [done|].
  cbn [map length]. rewrite nodes_of_cons, IH by (intros v Hv; apply H; by right).
  destruct (leaf_items kv.2 (H _ ltac:(by left))) as [Hi _]. rewrite json_nodes_of, Hi. cbn. lia.
Qed.

Lemma flat_height : json_height (object_of kvs) <= 1.
Proof using Hkvs.
  rewrite json_height_heights. cbn [object_of items].
  pose proof flat_leaf as H. clear Hkvs. induction kvs as [|kv l IH]; [done|].
  cbn [map]. rewrite heights_cons. specialize (IH ltac:(intros v Hv; apply H; by right)).
  destruct (leaf_items kv.2 (H _ ltac:(by left))) as [Hi _]. rewrite json_height_heights, Hi.
  cbn in *. lia.
Qed.

Lemma flat_text_length : Z.of_nat (String.length (json_text false 0 (object_of kvs))) <= 2000000.
Proof using Hkvs.
  cbn [object_of json_text]. rewrite zip_members, !string_length_app.
  assert (String.length (closing_text false 0 (member_texts false 1 kvs)) = 0%nat) as ->
    by (by destruct kvs).
  assert (Forall (λ t, Z.of_nat (String.length t) <= 25349) (member_texts false 1 kvs)) as Hall.
  { unfold member_texts. apply Forall_map, Forall_forall. intros kv Hkv.
    pose proof (fl_short _ Hkvs) as Hk. rewrite Forall_forall in Hk.
    pose proof (leaf_text kv.2 (flat_leaf _ (list_elem_of_fmap_2 snd _ _ Hkv))) as Hl.
    pose proof (member_length kv.1 kv.2 24578 (Hk _ Hkv) Hl). lia. }
  apply (items_text_bound 1) in Hall. unfold member_texts in Hall at 2. rewrite length_map in Hall.
  pose proof (fl_count _ Hkvs). change (String.length "{") with 1%nat.
  change (String.length "}") with 1%nat. lia.
Qed.

Lemma flat_reads :
  parse_json default_json_limits double_in_range (json_text false 0 (object_of kvs)) =
    Value (object_of kvs).
Proof using Hkvs.
  pose proof flat_height. pose proof flat_nodes. pose proof flat_text_length.
  apply parse_json_text; [cbn; lia|split; [apply flat_json_ok|apply flat_printable]|cbn in *; lia..].
Qed.

Lemma flat_one_line : no_sep (byte_char 10) (json_text false 0 (object_of kvs)).
Proof using Hkvs. apply plain_no_newline, json_text_plain, flat_printable. Qed.
End flat.
