(* ===== verification/Policy.v ===== *)
(** * The classification policy

    [policy/Policy.hpp] and [policy/Policy.cpp]: pressure states and their
    severity, the policy structures, the validation of a policy, and the integer
    scaling of a limit by a permille factor. *)

From S2P Require Import Prelude Result Checked Text Identity Time Evidence Sample Counter.
Open Scope Z_scope.

Module PressureState.
Inductive PressureState : Set :=
| Unknown | Idle | Normal | Elevated | Pressured | Saturated | Dropping | Paused | Stale
| Conflicting.
#[export] Instance PressureState_eq_dec : EqDecision PressureState.
Proof. solve_decision. Defined.

Definition to_string (state : PressureState) : string :=
  match state with
  | Unknown => "unknown"
  | Idle => "idle"
  | Normal => "normal"
  | Elevated => "elevated"
  | Pressured => "pressured"
  | Saturated => "saturated"
  | Dropping => "dropping"
  | Paused => "paused"
  | Stale => "stale"
  | Conflicting => "conflicting"
  end.

(** The array [kStates]. *)
Definition all : list PressureState :=
  [Unknown; Idle; Normal; Elevated; Pressured; Saturated; Dropping; Paused; Stale; Conflicting].

Definition parse (text : string) : option PressureState :=
  find (λ state, bool_decide (to_string state = text)) all.
End PressureState.
#[export] Existing Instance PressureState.PressureState_eq_dec.
Abbreviation PressureState := PressureState.PressureState.

Definition kPressureStateCount : nat := 10.

Definition pressure_severity_rank (state : PressureState) : Z :=
  match state with
  | PressureState.Unknown => 5
  | PressureState.Idle => 0
  | PressureState.Normal => 1
  | PressureState.Elevated => 2
  | PressureState.Pressured => 3
  | PressureState.Saturated => 4
  | PressureState.Paused => 6
  | PressureState.Dropping => 7
  | PressureState.Stale => 8
  | PressureState.Conflicting => 9
  end.

Module PressureBasisKind.
Inductive PressureBasisKind : Set :=
| NoBasis (* [None] *) | CellsAgainstThreshold | PacketsAgainstDepth | Absolute.
#[export] Instance PressureBasisKind_eq_dec : EqDecision PressureBasisKind.
Proof. solve_decision. Defined.

Definition to_string (kind : PressureBasisKind) : string :=
  match kind with
  | NoBasis => "none"
  | CellsAgainstThreshold => "cells_against_threshold"
  | PacketsAgainstDepth => "packets_against_depth"
  | Absolute => "absolute"
  end.
End PressureBasisKind.
#[export] Existing Instance PressureBasisKind.PressureBasisKind_eq_dec.
Abbreviation PressureBasisKind := PressureBasisKind.PressureBasisKind.

Record PressureThresholds := mkThresholds {
  elevated_at : option Z;
  pressured_at : option Z;
  saturated_at : option Z;
  dropping_at_drops : Z;
  paused_at_pause_frames : Z;
  paused_at_pause_nanos : Z;
  marks_indicate_pressure_at : Z
}.
#[export] Instance PressureThresholds_eq_dec : EqDecision PressureThresholds.
Proof. solve_decision. Defined.

Record RelativeThresholds := mkRelative {
  elevated_permille : Z;
  pressured_permille : Z;
  saturated_permille : Z
}.
#[export] Instance RelativeThresholds_eq_dec : EqDecision RelativeThresholds.
Proof. solve_decision. Defined.

Record MicroburstPolicy := mkMicroburst {
  mb_window_ns : Nanos;
  mb_bucket_ns : Nanos;
  mb_min_excursion : Z;
  mb_min_covered_buckets : Z;
  mb_max_buckets : Z;
  mb_report_insufficient_coverage : bool
}.
#[export] Instance MicroburstPolicy_eq_dec : EqDecision MicroburstPolicy.
Proof. solve_decision. Defined.

Record ContentionPolicy := mkContention {
  ct_window_ns : Nanos;
  ct_min_covered_buckets : Z;
  ct_min_simultaneous_buckets : Z;
  count_pressured : bool;
  count_saturated : bool;
  count_dropping : bool;
  count_paused : bool
}.
#[export] Instance ContentionPolicy_eq_dec : EqDecision ContentionPolicy.
Proof. solve_decision. Defined.

Record ConflictPolicy := mkConflict {
  cf_enabled : bool;
  cf_window_ns : Nanos;
  cf_absolute_tolerance : Z;
  cf_relative_permille : Z
}.
#[export] Instance ConflictPolicy_eq_dec : EqDecision ConflictPolicy.
Proof. solve_decision. Defined.

Record PressurePolicy := mkPolicy {
  pl_version : Z;
  pl_name : string;
  pl_freshness : FreshnessPolicy;
  pl_continuity : ContinuityPolicy;
  required_fields : FieldMask;
  required_any_fields : FieldMask;
  prefer_cells_over_packets : bool;
  allow_absolute_thresholds : bool;
  allow_byte_basis : bool;
  pl_absolute : PressureThresholds;
  pl_relative : RelativeThresholds;
  evaluation_window_ns : Nanos;
  pl_conflict : ConflictPolicy;
  pl_microburst : MicroburstPolicy;
  pl_contention : ContentionPolicy
}.
#[export] Instance PressurePolicy_eq_dec : EqDecision PressurePolicy.
Proof. solve_decision. Defined.

Definition default_thresholds : PressureThresholds := mkThresholds None None None 1 1 1 1.
Definition default_relative : RelativeThresholds := mkRelative 500 750 950.
Definition default_microburst : MicroburstPolicy := mkMicroburst 1000000000 10000000 1 3 1024 true.
Definition default_contention : ContentionPolicy :=
  mkContention 5000000000 4 1 true true true true.
Definition default_conflict : ConflictPolicy := mkConflict true 5000000000 0 100.

(** [QOBS_POLICY_VERSION] is 1. *)
Definition default_pressure_policy : PressurePolicy :=
  mkPolicy 1 "default" default_freshness default_continuity 0
    (Z.lor (Z.lor (field_bit SampleField.OccupancyCells) (field_bit SampleField.OccupancyBytes))
       (field_bit SampleField.QueueDepthPackets))
    true true false default_thresholds default_relative 1000000000 default_conflict
    default_microburst default_contention.

(** [lower.has_value() && upper.has_value() && *upper < *lower] *)
Definition inverted (lower upper : option Z) : bool :=
  match lower, upper with Some l, Some u => u <? l | _, _ => false end.

(** [permille] fields are 32-bit. *)
Definition validate_relative (relative : RelativeThresholds) : Status :=
  if (elevated_permille relative =? 0) || (1000 <? elevated_permille relative) then
    failure ErrorCode.InvalidArgument "elevated_permille must be within 1..1000"
  else if (1000 <? pressured_permille relative) || (1000 <? saturated_permille relative) then
    failure ErrorCode.InvalidArgument "relative thresholds must not exceed 1000 permille"
  else if (pressured_permille relative <? elevated_permille relative)
       || (saturated_permille relative <? pressured_permille relative) then
    failure ErrorCode.InvalidArgument
      "relative thresholds must be non-decreasing from elevated to saturated"
  else success.

Definition validate_absolute (absolute : PressureThresholds) : Status :=
  if inverted (elevated_at absolute) (pressured_at absolute) then
    failure ErrorCode.InvalidArgument
      "absolute pressured threshold must not be below the elevated one"
  else if inverted (pressured_at absolute) (saturated_at absolute) then
    failure ErrorCode.InvalidArgument
      "absolute saturated threshold must not be below the pressured one"
  else if inverted (elevated_at absolute) (saturated_at absolute) then
    failure ErrorCode.InvalidArgument
      "absolute saturated threshold must not be below the elevated one"
  else success.

Definition validate_freshness (freshness : FreshnessPolicy) : Status :=
  if (fresh_within_ns freshness <=? 0) || (aging_within_ns freshness <? 0)
     || (stale_within_ns freshness <? 0) then
    failure ErrorCode.InvalidArgument "freshness boundaries must be non-negative and ordered"
  else if (aging_within_ns freshness <? fresh_within_ns freshness)
       || (stale_within_ns freshness <? aging_within_ns freshness) then
    failure ErrorCode.InvalidArgument "freshness boundaries must be non-decreasing"
  else success.

Definition validate_microburst (microburst : MicroburstPolicy) : Status :=
  if (mb_window_ns microburst <=? 0) || (mb_bucket_ns microburst <=? 0) then
    failure ErrorCode.InvalidArgument "microburst window and bucket must be positive durations"
  else if mb_window_ns microburst <? mb_bucket_ns microburst then
    failure ErrorCode.InvalidArgument "microburst bucket must not be longer than the window"
  else if mb_max_buckets microburst =? 0 then
    failure ErrorCode.InvalidArgument "microburst bucket budget must be non-zero"
  else
    match div_ceil_u64 (mb_window_ns microburst) (mb_bucket_ns microburst) with
    | None => failure ErrorCode.Overflow "microburst bucket count overflows"
    | Some requested_buckets =>
        if mb_max_buckets microburst <? requested_buckets then
          failure ErrorCode.LimitExceeded
            "microburst window needs more buckets than the policy allows"
        else if mb_min_covered_buckets microburst =? 0 then
          failure ErrorCode.InvalidArgument "microburst requires at least one covered bucket"
        else if requested_buckets <? mb_min_covered_buckets microburst then
          failure ErrorCode.InvalidArgument
            "microburst coverage requirement exceeds the bucket count"
        else success
    end.

Definition validate_conflict_and_contention (conflict : ConflictPolicy)
    (contention : ContentionPolicy) : Status :=
  if 1000 <? cf_relative_permille conflict then
    failure ErrorCode.InvalidArgument "conflict relative tolerance must not exceed 1000 permille"
  else if cf_window_ns conflict <=? 0 then
    failure ErrorCode.InvalidArgument "conflict comparison window must be a positive duration"
  else if ct_window_ns contention <=? 0 then
    failure ErrorCode.InvalidArgument "contention window must be a positive duration"
  else if negb (count_pressured contention) && negb (count_saturated contention)
       && negb (count_dropping contention) && negb (count_paused contention) then
    failure ErrorCode.InvalidArgument "contention policy must count at least one state"
  else success.

Definition validate_policy (policy : PressurePolicy) : Status :=
  if pl_version policy =? 0 then
    failure ErrorCode.InvalidArgument "policy version must be non-zero"
  else if bool_decide (pl_name policy = EmptyString) then
    failure ErrorCode.InvalidArgument "policy name must not be empty"
  else if (required_fields policy =? 0) && (required_any_fields policy =? 0) then
    failure ErrorCode.InvalidArgument
      "policy must require at least one sample field, either individually or as one of a set"
  else if evaluation_window_ns policy <=? 0 then
    failure ErrorCode.InvalidArgument "policy evaluation window must be a positive duration"
  else
    TRY validate_relative (pl_relative policy) ;;
    TRY validate_absolute (pl_absolute policy) ;;
    TRY validate_freshness (pl_freshness policy) ;;
    if cp_max_sample_gap_ns (pl_continuity policy) <? 0 then
      failure ErrorCode.InvalidArgument "continuity gap limit must not be negative"
    else
      TRY validate_microburst (pl_microburst policy) ;;
      validate_conflict_and_contention (pl_conflict policy) (pl_contention policy).

Definition permille_of (limit permille : Z) : Result Z :=
  if 1000 <? permille then
    fail ErrorCode.OutOfRange "permille value must not exceed 1000"
  else
    match mul_u64 limit permille with
    | None => fail ErrorCode.Overflow "scaling a limit by a permille factor overflowed"
    | Some scaled =>
        match div_ceil_u64 scaled 1000 with
        | None => fail ErrorCode.Internal "permille division failed"
        | Some rounded => Value rounded
        end
    end.

Example default_policy_valid : ok (validate_policy default_pressure_policy) = true.
Proof. reflexivity. Qed.

(** ** Names and ranks *)

Lemma pressure_state_parse_print s : PressureState.parse (PressureState.to_string s) = Some s.
Proof. by destruct s. Qed.

Lemma severity_rank_inj a b : pressure_severity_rank a = pressure_severity_rank b → a = b.
Proof. by destruct a, b. Qed.

(** ** What a validated policy promises *)

Definition ordered (lower upper : option Z) : Prop :=
  ∀ l u, lower = Some l → upper = Some u → l <= u.

Record policy_wf (p : PressurePolicy) : Prop := {
  pw_fields : required_fields p ≠ 0 ∨ required_any_fields p ≠ 0;
  pw_window : 0 < evaluation_window_ns p;
  pw_relative : elevated_permille (pl_relative p) <= pressured_permille (pl_relative p)
                <= saturated_permille (pl_relative p) ∧
                elevated_permille (pl_relative p) ≠ 0 ∧ saturated_permille (pl_relative p) <= 1000;
  pw_absolute : ordered (elevated_at (pl_absolute p)) (pressured_at (pl_absolute p)) ∧
                ordered (pressured_at (pl_absolute p)) (saturated_at (pl_absolute p)) ∧
                ordered (elevated_at (pl_absolute p)) (saturated_at (pl_absolute p));
  pw_freshness : 0 < fresh_within_ns (pl_freshness p) <= aging_within_ns (pl_freshness p) ∧
                 aging_within_ns (pl_freshness p) <= stale_within_ns (pl_freshness p);
  pw_microburst : 0 < mb_bucket_ns (pl_microburst p) <= mb_window_ns (pl_microburst p);
  pw_conflict : cf_relative_permille (pl_conflict p) <= 1000 ∧ 0 < cf_window_ns (pl_conflict p);
  pw_contention : 0 < ct_window_ns (pl_contention p)
}.

Lemma inverted_false l u : inverted l u = false → ordered l u.
Proof. intros H a b -> ->. cbn in H. lia. Qed.

(** [solve_validate]: an accepted chain of tests gives the negation of each. *)
Ltac split_tests H :=
  repeat match type of H with
  | ok (if ?b then _ else _) = true =>
      let E := fresh "E" in destruct b eqn:E; [discriminate H|];
      rewrite ?orb_false_iff in E
  end.

Lemma validate_policy_wf p : ok (validate_policy p) = true → policy_wf p.
Proof.
  unfold validate_policy. intros H. split_tests H.
  rewrite !ok_try, !andb_true_iff in H. destruct H as (Hr & Ha & Hf & H).
  split_tests H. rewrite ok_try, andb_true_iff in H. destruct H as (Hm & Hc).
  unfold validate_relative in Hr. split_tests Hr.
  unfold validate_absolute in Ha. split_tests Ha.
  unfold validate_freshness in Hf. split_tests Hf.
  unfold validate_microburst in Hm. split_tests Hm.
  unfold validate_conflict_and_contention in Hc. split_tests Hc.
  split; try lia. split_and!; by apply inverted_false.
Qed.

(** ** Scaling a limit *)

Lemma permille_of_spec limit permille :
  is_u64 limit → 0 <= permille <= 1000 → limit * permille <= u64_max →
  permille_of limit permille = Value ((limit * permille + 999) / 1000).
Proof.
  intros Hl Hp Hm. unfold permille_of. is_false (1000 <? permille).
  rewrite mul_u64_spec by word_lia. is_true (limit * permille <=? u64_max).
  rewrite div_ceil_u64_spec by word_nia. cbn -[Z.div]. do 2 f_equal. lia.
Qed.

Lemma permille_threshold limit permille value :
  is_u64 limit → 0 <= permille <= 1000 → limit * permille <= u64_max →
  ∃ threshold, permille_of limit permille = Value threshold ∧ 0 <= threshold <= limit ∧
    (threshold <= value ↔ limit * permille <= value * 1000).
Proof.
  intros Hl Hp Hm. eexists. split; [by apply permille_of_spec|].
  assert (0 <= limit) by word_lia.
  pose proof (Z.div_mod (limit * permille + 999) 1000 ltac:(lia)).
  pose proof (Z.mod_pos_bound (limit * permille + 999) 1000 ltac:(lia)).
  set (t := (limit * permille + 999) / 1000) in *. split; nia.
Qed.

Lemma permille_of_mono limit p q a b :
  is_u64 limit → 0 <= p <= q → permille_of limit p = Value a → permille_of limit q = Value b →
  a <= b.
Proof.
  intros Hl Hpq. unfold permille_of.
  destruct (Z.ltb_spec 1000 p); [done|]. destruct (Z.ltb_spec 1000 q); [done|].
  rewrite !mul_u64_spec by word_lia.
  destruct (Z.leb_spec (limit * p) u64_max); [|done].
  destruct (Z.leb_spec (limit * q) u64_max); [|done].
  rewrite !div_ceil_u64_spec by word_nia. cbn -[Z.div]. intros [= <-] [= <-].
  apply Z.div_le_mono; word_nia.
Qed.
