(* ===== verification/Rules.v ===== *)
(** * The classification rules

    The types of [policy/Classification.hpp], [resolve_pressure_basis] and the
    thirteen ordered rules of [classify] ([policy/Classification.cpp]), each as
    the trace entry it records and, when it matches, the state it concludes. *)

From S2P Require Import Prelude Result Checked Text Identity Time Evidence Sample Counter Policy.
Open Scope Z_scope.

Module RuleId.
Inductive RuleId : Set :=
| EvidencePresence | EvidenceConflict | EvidenceUnsupported | EvidenceFreshness
| RequiredFields | PressureBasis | DroppingEvidence | PauseEvidence | SaturationLevel
| PressureLevel | ElevationLevel | IdleEvidence | DefaultNormal.
#[export] Instance RuleId_eq_dec : EqDecision RuleId.
Proof. solve_decision. Defined.

(** [static_cast<std::uint32_t>(id)] *)
Definition number (id : RuleId) : Z :=
  match id with
  | EvidencePresence => 0 | EvidenceConflict => 1 | EvidenceUnsupported => 2
  | EvidenceFreshness => 3 | RequiredFields => 4 | PressureBasis => 5
  | DroppingEvidence => 6 | PauseEvidence => 7 | SaturationLevel => 8 | PressureLevel => 9
  | ElevationLevel => 10 | IdleEvidence => 11 | DefaultNormal => 12
  end.

Definition rule_name (id : RuleId) : string :=
  match id with
  | EvidencePresence => "evidence_presence"
  | EvidenceConflict => "evidence_conflict"
  | EvidenceUnsupported => "evidence_unsupported"
  | EvidenceFreshness => "evidence_freshness"
  | RequiredFields => "required_fields"
  | PressureBasis => "pressure_basis"
  | DroppingEvidence => "dropping_evidence"
  | PauseEvidence => "pause_evidence"
  | SaturationLevel => "saturation_level"
  | PressureLevel => "pressure_level"
  | ElevationLevel => "elevation_level"
  | IdleEvidence => "idle_evidence"
  | DefaultNormal => "default_normal"
  end.

Definition all : list RuleId :=
  [EvidencePresence; EvidenceConflict; EvidenceUnsupported; EvidenceFreshness; RequiredFields;
   PressureBasis; DroppingEvidence; PauseEvidence; SaturationLevel; PressureLevel;
   ElevationLevel; IdleEvidence; DefaultNormal].
End RuleId.
#[export] Existing Instance RuleId.RuleId_eq_dec.
Abbreviation RuleId := RuleId.RuleId.

Record PressureBasis := mkBasis {
  pb_kind : PressureBasisKind;
  pb_value_field : SampleField;
  pb_value : option Z;
  pb_limit_field : SampleField;
  pb_limit : option Z;
  pb_label : string
}.
#[export] Instance PressureBasis_eq_dec : EqDecision PressureBasis.
Proof. solve_decision. Defined.

(** The default member initialisers. *)
Definition no_basis : PressureBasis :=
  mkBasis PressureBasisKind.NoBasis SampleField.Count None SampleField.Count None EmptyString.

Record TraceEntry := mkTrace {
  te_rule : RuleId;
  te_matched : bool;
  te_detail : string;
  te_operand : Z;
  te_threshold : Z
}.
#[export] Instance TraceEntry_eq_dec : EqDecision TraceEntry.
Proof. solve_decision. Defined.

(** [preferred_basis] is left out: no code reads it. *)
Record ClassificationInput := mkInput {
  ci_queue : QueuePath;
  ci_assessment : EvidenceAssessment;
  ci_reported : FieldMask;
  ci_occupancy_cells : option Z;
  ci_occupancy_bytes : option Z;
  ci_queue_depth_packets : option Z;
  ci_dynamic_threshold_cells : option Z;
  ci_static_threshold_cells : option Z;
  ci_max_depth_packets : option Z;
  ci_drops : CounterDelta;
  ci_marks : CounterDelta;
  ci_pause_frames : CounterDelta;
  ci_pause_duration : CounterDelta;
  ci_enqueues : CounterDelta;
  ci_dequeues : CounterDelta;
  ci_peer_conflict : bool
}.

(** ** The pressure basis *)

(** The [usable] lambda: the value, when its field was reported. *)
Definition usable (input : ClassificationInput) (field : SampleField) (value : option Z) : option Z :=
  match value with
  | Some v => if has_field (ci_reported input) field then Some v else None
  | None => None
  end.

Definition relative_basis (kind : PressureBasisKind) (value_field limit_field : SampleField)
    (value limit : option Z) (label : string) : option PressureBasis :=
  match value, limit with
  | Some v, Some l => Some (mkBasis kind value_field (Some v) limit_field (Some l) label)
  | _, _ => None
  end.

Definition or_else {A} (first second : option A) : option A :=
  match first with Some a => Some a | None => second end.

Definition try_cells (input : ClassificationInput) : option PressureBasis :=
  let cells := usable input SampleField.OccupancyCells (ci_occupancy_cells input) in
  or_else
    (relative_basis PressureBasisKind.CellsAgainstThreshold SampleField.OccupancyCells
       SampleField.DynamicThresholdCells cells
       (usable input SampleField.DynamicThresholdCells (ci_dynamic_threshold_cells input))
       "cells:dynamic_threshold")
    (relative_basis PressureBasisKind.CellsAgainstThreshold SampleField.OccupancyCells
       SampleField.StaticThresholdCells cells
       (usable input SampleField.StaticThresholdCells (ci_static_threshold_cells input))
       "cells:static_threshold").

Definition try_packets (input : ClassificationInput) : option PressureBasis :=
  relative_basis PressureBasisKind.PacketsAgainstDepth SampleField.QueueDepthPackets
    SampleField.MaxDepthPackets
    (usable input SampleField.QueueDepthPackets (ci_queue_depth_packets input))
    (usable input SampleField.MaxDepthPackets (ci_max_depth_packets input)) "packets:max_depth".

Definition measured_basis (kind : PressureBasisKind) (field : SampleField) (value : option Z)
    (label : string) : option PressureBasis :=
  match value with
  | Some v => Some (mkBasis kind field (Some v) SampleField.Count None label)
  | None => None
  end.

Definition have_absolute (absolute : PressureThresholds) : bool :=
  match elevated_at absolute, pressured_at absolute, saturated_at absolute with
  | None, None, None => false
  | _, _, _ => true
  end.

Definition try_absolute (policy : PressurePolicy) (input : ClassificationInput) :
    option PressureBasis :=
  if allow_absolute_thresholds policy && have_absolute (pl_absolute policy) then
    or_else
      (measured_basis PressureBasisKind.Absolute SampleField.OccupancyCells
         (usable input SampleField.OccupancyCells (ci_occupancy_cells input)) "cells:absolute")
      (if allow_byte_basis policy then
         measured_basis PressureBasisKind.Absolute SampleField.OccupancyBytes
           (usable input SampleField.OccupancyBytes (ci_occupancy_bytes input)) "bytes:absolute"
       else None)
  else None.

(** The measurement that was present when no limit was. *)
Definition missing_limit (input : ClassificationInput) : PressureBasis :=
  let with_label field value label := measured_basis PressureBasisKind.NoBasis field value label in
  default
    (mkBasis PressureBasisKind.NoBasis SampleField.Count None SampleField.Count None
       "no_measurement_reported")
    (or_else
       (with_label SampleField.OccupancyCells
          (usable input SampleField.OccupancyCells (ci_occupancy_cells input))
          "cells:no_threshold_reported")
       (or_else
          (with_label SampleField.QueueDepthPackets
             (usable input SampleField.QueueDepthPackets (ci_queue_depth_packets input))
             "packets:no_depth_limit_reported")
          (with_label SampleField.OccupancyBytes
             (usable input SampleField.OccupancyBytes (ci_occupancy_bytes input))
             "bytes:no_threshold_reported"))).

Definition resolve_pressure_basis (policy : PressurePolicy) (input : ClassificationInput) :
    PressureBasis :=
  let relative :=
    if prefer_cells_over_packets policy then or_else (try_cells input) (try_packets input)
    else or_else (try_packets input) (try_cells input) in
  default (missing_limit input) (or_else relative (try_absolute policy input)).

(** ** The rules

    A rule records one entry; [Matched] is the [record] with [true] followed by
    [conclude], [Passed] the [record] with [false]. *)
Inductive Verdict : Type :=
| Matched (entry : TraceEntry) (state : PressureState)
| Passed (entry : TraceEntry).

Definition matched (rule : RuleId) (detail : string) (operand threshold : Z)
    (state : PressureState) : Verdict := Matched (mkTrace rule true detail operand threshold) state.
Definition passed (rule : RuleId) (detail : string) (operand threshold : Z) : Verdict :=
  Passed (mkTrace rule false detail operand threshold).

Definition field_list (mask : FieldMask) : string :=
  comma_list (map field_to_string (filter (λ field, has_field mask field = true) all_fields)).

Definition age_text (a : EvidenceAssessment) : string :=
  u64_to_string (if ea_age_ns a <? 0 then 0 else ea_age_ns a).

Definition rule_presence (input : ClassificationInput) : Verdict :=
  if bool_decide (ea_quality (ci_assessment input) = EvidenceQuality.Unknown)
     || (ci_reported input =? 0)
  then matched RuleId.EvidencePresence "no evidence has been recorded for this queue" 0 0
         PressureState.Unknown
  else passed RuleId.EvidencePresence ("evidence present: " +:+ describe (ci_assessment input)) 0 0.

Definition rule_conflict (input : ClassificationInput) : Verdict :=
  if ci_peer_conflict input
     || bool_decide (ea_quality (ci_assessment input) = EvidenceQuality.Conflicting)
  then matched RuleId.EvidenceConflict
         "equally authoritative sources disagree beyond the configured tolerance" 0 0
         PressureState.Conflicting
  else passed RuleId.EvidenceConflict "no peer disagreement is recorded" 0 0.

Definition rule_unsupported (input : ClassificationInput) : Verdict :=
  if bool_decide (ea_quality (ci_assessment input) = EvidenceQuality.Unsupported)
  then matched RuleId.EvidenceUnsupported
         "the reported evidence is not interpreted by this runtime" 0 0 PressureState.Unknown
  else passed RuleId.EvidenceUnsupported "evidence is supported" 0 0.

Definition rule_freshness (input : ClassificationInput) : Verdict :=
  let a := ci_assessment input in
  if bool_decide (ea_freshness a ≠ Freshness.Fresh)
  then matched RuleId.EvidenceFreshness
         ("freshness is " +:+ Freshness.to_string (ea_freshness a) +:+ " with age " +:+
          age_text a +:+ "ns; only fresh evidence defines the current state") 0 0
         PressureState.Stale
  else passed RuleId.EvidenceFreshness ("evidence is fresh with age " +:+ age_text a +:+ "ns") 0 0.

Definition rule_required (policy : PressurePolicy) (input : ClassificationInput) : Verdict :=
  let missing := Z.ldiff (required_fields policy) (ci_reported input) in
  if negb (missing =? 0) then
    matched RuleId.RequiredFields ("required fields were not reported: " +:+ field_list missing) 0 0
      PressureState.Unknown
  else if negb (required_any_fields policy =? 0)
       && (Z.land (required_any_fields policy) (ci_reported input) =? 0) then
    matched RuleId.RequiredFields
      ("none of the alternative measurement fields were reported: " +:+
       field_list (required_any_fields policy)) 0 0 PressureState.Unknown
  else passed RuleId.RequiredFields "all required fields were reported" 0 0.

Definition value_or (o : option Z) (d : Z) : Z := default d o.

Definition rule_basis (basis : PressureBasis) : Verdict :=
  if bool_decide (pb_kind basis = PressureBasisKind.NoBasis)
  then matched RuleId.PressureBasis ("no usable pressure basis: " +:+ pb_label basis) 0 0
         PressureState.Unknown
  else passed RuleId.PressureBasis ("pressure basis is " +:+ pb_label basis)
         (value_or (pb_value basis) 0) (value_or (pb_limit basis) 0).

Definition rule_dropping (policy : PressurePolicy) (input : ClassificationInput) : Verdict :=
  let drops := ci_drops input in
  let limit := dropping_at_drops (pl_absolute policy) in
  if cd_known drops && (limit <=? cd_delta drops)
  then matched RuleId.DroppingEvidence "drop counter advanced inside the evaluation window"
         (cd_delta drops) limit PressureState.Dropping
  else if negb (cd_known drops)
  then passed RuleId.DroppingEvidence
         "drop delta is unknown for this window; no drop claim is made" 0 0
  else passed RuleId.DroppingEvidence "no drop evidence inside the evaluation window"
         (cd_delta drops) limit.

Definition reaches (delta : CounterDelta) (limit : Z) : bool :=
  cd_known delta && (limit <=? cd_delta delta).

Definition rule_pause (policy : PressurePolicy) (input : ClassificationInput) : Verdict :=
  let frames := paused_at_pause_frames (pl_absolute policy) in
  let nanos := paused_at_pause_nanos (pl_absolute policy) in
  let by_frames := reaches (ci_pause_frames input) frames in
  let by_time := reaches (ci_pause_duration input) nanos in
  if by_frames || by_time
  then matched RuleId.PauseEvidence "pause evidence was observed inside the window"
         (if by_frames then cd_delta (ci_pause_frames input) else cd_delta (ci_pause_duration input))
         (if by_frames then frames else nanos) PressureState.Paused
  else passed RuleId.PauseEvidence "no pause evidence inside the evaluation window" 0 0.

(** The thresholds of the level rules: saturated, pressured, elevated. *)
Definition level_thresholds (policy : PressurePolicy) (basis : PressureBasis) :
    option Z * option Z * option Z :=
  if bool_decide (pb_kind basis = PressureBasisKind.Absolute)
  then (saturated_at (pl_absolute policy), pressured_at (pl_absolute policy),
        elevated_at (pl_absolute policy))
  else
    let limit := value_or (pb_limit basis) 0 in
    let relative := pl_relative policy in
    (result_option (permille_of limit (saturated_permille relative)),
     result_option (permille_of limit (pressured_permille relative)),
     result_option (permille_of limit (elevated_permille relative))).

Definition at_least (threshold : option Z) (measurement : Z) : bool :=
  match threshold with Some t => t <=? measurement | None => false end.

Definition measurement (basis : PressureBasis) : Z := value_or (pb_value basis) 0.

Definition rule_saturation (policy : PressurePolicy) (basis : PressureBasis) : Verdict :=
  let '(saturated, _, _) := level_thresholds policy basis in
  if at_least saturated (measurement basis)
  then matched RuleId.SaturationLevel "measurement is at or above the saturation threshold"
         (measurement basis) (value_or saturated 0) PressureState.Saturated
  else passed RuleId.SaturationLevel "measurement is below the saturation threshold"
         (measurement basis) (value_or saturated 0).

Definition rule_pressure (policy : PressurePolicy) (input : ClassificationInput)
    (basis : PressureBasis) : Verdict :=
  let '(_, pressured, _) := level_thresholds policy basis in
  let marks := marks_indicate_pressure_at (pl_absolute policy) in
  if at_least pressured (measurement basis)
  then matched RuleId.PressureLevel "measurement is at or above the pressure threshold"
         (measurement basis) (value_or pressured 0) PressureState.Pressured
  else if reaches (ci_marks input) marks
  then matched RuleId.PressureLevel
         "congestion marks were observed inside the window even though occupancy is below the pressure threshold"
         (cd_delta (ci_marks input)) marks PressureState.Pressured
  else passed RuleId.PressureLevel "measurement is below the pressure threshold"
         (measurement basis) (value_or pressured 0).

Definition rule_elevation (policy : PressurePolicy) (basis : PressureBasis) : Verdict :=
  let '(_, _, elevated) := level_thresholds policy basis in
  if at_least elevated (measurement basis)
  then matched RuleId.ElevationLevel "measurement is at or above the elevated threshold"
         (measurement basis) (value_or elevated 0) PressureState.Elevated
  else passed RuleId.ElevationLevel "measurement is below the elevated threshold"
         (measurement basis) (value_or elevated 0).

Definition rule_idle (input : ClassificationInput) (basis : PressureBasis) : Verdict :=
  let enqueues := ci_enqueues input in
  let m := measurement basis in
  if (m =? 0) && cd_known enqueues && (cd_delta enqueues =? 0)
  then matched RuleId.IdleEvidence "occupancy is zero and no traffic was enqueued" 0 0
         PressureState.Idle
  else if (m =? 0) && negb (cd_known enqueues)
  then passed RuleId.IdleEvidence
         "occupancy is zero but the enqueue delta is unknown, so idleness is not claimed" 0 0
  else if negb (m =? 0)
  then passed RuleId.IdleEvidence "occupancy is non-zero" m 0
  else passed RuleId.IdleEvidence "traffic was enqueued inside the window" (cd_delta enqueues) 0.

Definition rule_normal : Verdict :=
  matched RuleId.DefaultNormal
    "no rule above matched; the queue is operating without observed pressure" 0 0
    PressureState.Normal.

(** The rules up to the one that needs a basis, and the rules after it. *)
Definition evidence_rules (policy : PressurePolicy) (input : ClassificationInput) : list Verdict :=
  [rule_presence input; rule_conflict input; rule_unsupported input; rule_freshness input;
   rule_required policy input].
Definition level_rules (policy : PressurePolicy) (input : ClassificationInput)
    (basis : PressureBasis) : list Verdict :=
  [rule_basis basis; rule_dropping policy input; rule_pause policy input;
   rule_saturation policy basis; rule_pressure policy input basis; rule_elevation policy basis;
   rule_idle input basis; rule_normal].
