(* ===== verification/Explanation.v ===== *)
(** * Explanations

    [policy/Explanation.hpp] and [policy/Explanation.cpp]: the line-oriented text
    of a classification result, its one-line summary and its digest. *)

From S2P Require Import Prelude Result Text Identity Time Evidence Sample Counter Policy Rules.
Open Scope Z_scope.

Record ClassificationResult := mkClassification {
  cr_state : PressureState;
  cr_queue_text : string;
  cr_trace : list TraceEntry;
  cr_basis : PressureBasis;
  cr_assessment : EvidenceAssessment;
  cr_policy_version : Z;
  cr_policy_name : string;
  cr_explanation_digest : Z;
  cr_deciding_rule : RuleId
}.
#[export] Instance ClassificationResult_eq_dec : EqDecision ClassificationResult.
Proof. solve_decision. Defined.

Definition no_classification : ClassificationResult :=
  mkClassification PressureState.Unknown EmptyString [] no_basis no_assessment 0 EmptyString 0
    RuleId.EvidencePresence.

Record ExplanationLine := mkLine { el_key : string; el_value : string }.

Definition number_or_unreported (o : option Z) : string :=
  match o with Some v => u64_to_string v | None => "not_reported" end.
Definition bool_text (b : bool) : string := if b then "true" else "false".

Definition trace_value (entry : TraceEntry) : string :=
  "rule=" +:+ RuleId.rule_name (te_rule entry) +:+
  " matched=" +:+ bool_text (te_matched entry) +:+
  " operand=" +:+ u64_to_string (te_operand entry) +:+
  " threshold=" +:+ u64_to_string (te_threshold entry) +:+
  " detail=" +:+ te_detail entry.

Fixpoint trace_lines (index : nat) (trace : list TraceEntry) : list ExplanationLine :=
  match trace with
  | [] => []
  | entry :: trace =>
      mkLine ("trace." +:+ size_to_string index) (trace_value entry) :: trace_lines (S index) trace
  end.

Definition explanation_lines (result : ClassificationResult) : list ExplanationLine :=
  [ mkLine "policy" (cr_policy_name result +:+ "@" +:+ u64_to_string (cr_policy_version result));
    mkLine "queue" (if bool_decide (cr_queue_text result = EmptyString) then "<unset>"
                    else cr_queue_text result);
    mkLine "state" (PressureState.to_string (cr_state result));
    mkLine "severity_rank" (u64_to_string (pressure_severity_rank (cr_state result)));
    mkLine "deciding_rule"
      (RuleId.rule_name (cr_deciding_rule result) +:+ "#" +:+
       u64_to_string (RuleId.number (cr_deciding_rule result)));
    mkLine "basis"
      (pb_label (cr_basis result) +:+ " (" +:+
       PressureBasisKind.to_string (pb_kind (cr_basis result)) +:+ ")");
    mkLine "basis_value" (number_or_unreported (pb_value (cr_basis result)));
    mkLine "basis_limit" (number_or_unreported (pb_limit (cr_basis result)));
    mkLine "assessment" (describe (cr_assessment result)) ]
  ++ trace_lines 0 (cr_trace result).

Definition newline : ascii := "010"%char.

Definition render_line (line : ExplanationLine) : string :=
  el_key line +:+ ": " +:+ el_value line +:+ String newline EmptyString.
Definition render_explanation (result : ClassificationResult) : string :=
  fold_right (λ line out, render_line line +:+ out) EmptyString (explanation_lines result).

Definition render_explanation_summary (result : ClassificationResult) : string :=
  "state=" +:+ PressureState.to_string (cr_state result) +:+
  " rule=" +:+ RuleId.rule_name (cr_deciding_rule result) +:+
  " basis=" +:+ pb_label (cr_basis result) +:+
  " value=" +:+ number_or_unreported (pb_value (cr_basis result)) +:+
  " limit=" +:+ number_or_unreported (pb_limit (cr_basis result)) +:+
  " freshness=" +:+ Freshness.to_string (ea_freshness (cr_assessment result)) +:+
  " quality=" +:+ EvidenceQuality.to_string (ea_quality (cr_assessment result)) +:+
  " policy=" +:+ cr_policy_name result +:+ "@" +:+ u64_to_string (cr_policy_version result).

Definition explanation_digest (result : ClassificationResult) : Z :=
  fnv1a64 (render_explanation result +:+ render_explanation_summary result).
