(* ===== verification/Classification.v ===== *)
(** * Classification

    [classify] and [make_classification_input] of [policy/Classification.cpp]:
    the rules of Rules.v run in order, up to the first that matches. *)

From S2P Require Import Prelude Result Checked Text Identity Time Evidence Sample Counter Policy.
From S2P Require Import Rules Explanation.
Open Scope Z_scope.

(** The sequence of [record]s and early returns. *)
Fixpoint run_rules (verdicts : list Verdict) (trace : list TraceEntry) :
    list TraceEntry * option (PressureState * RuleId) :=
  match verdicts with
  | [] => (trace, None)
  | Passed entry :: verdicts => run_rules verdicts (trace ++ [entry])
  | Matched entry state :: _ => (trace ++ [entry], Some (state, te_rule entry))
  end.

(** The digest is taken over the result before it is stored in it. *)
Definition finish (policy : PressurePolicy) (input : ClassificationInput)
    (trace : list TraceEntry) (basis : PressureBasis) (state : PressureState) (rule : RuleId) :
    ClassificationResult :=
  let result digest :=
    mkClassification state (path_to_string (ci_queue input)) trace basis (ci_assessment input)
      (pl_version policy) (pl_name policy) digest rule in
  result (explanation_digest (result 0)).

Definition classify (policy : PressurePolicy) (input : ClassificationInput) :
    ClassificationResult :=
  let '(trace, decision) := run_rules (evidence_rules policy input) [] in
  match decision with
  | Some (state, rule) => finish policy input trace no_basis state rule
  | None =>
      let basis := resolve_pressure_basis policy input in
      let '(trace, decision) := run_rules (level_rules policy input basis) trace in
      let '(state, rule) := default (PressureState.Unknown, RuleId.EvidencePresence) decision in
      finish policy input trace basis state rule
  end.

Definition make_classification_input (sample : QueueSample) : ClassificationInput :=
  mkInput (qs_queue sample) no_assessment (qs_reported sample)
    (value sample SampleField.OccupancyCells) (value sample SampleField.OccupancyBytes)
    (value sample SampleField.QueueDepthPackets) (value sample SampleField.DynamicThresholdCells)
    (value sample SampleField.StaticThresholdCells) (value sample SampleField.MaxDepthPackets)
    no_delta no_delta no_delta no_delta no_delta no_delta false.

(** The fields the store fills in afterwards. *)
Definition with_evidence (assessment : EvidenceAssessment) (peer_conflict : bool)
    (input : ClassificationInput) : ClassificationInput :=
  mkInput (ci_queue input) assessment (ci_reported input) (ci_occupancy_cells input)
    (ci_occupancy_bytes input) (ci_queue_depth_packets input) (ci_dynamic_threshold_cells input)
    (ci_static_threshold_cells input) (ci_max_depth_packets input) (ci_drops input)
    (ci_marks input) (ci_pause_frames input) (ci_pause_duration input) (ci_enqueues input)
    (ci_dequeues input) peer_conflict.
Definition with_deltas (drops marks pause_frames pause_duration enqueues dequeues : CounterDelta)
    (input : ClassificationInput) : ClassificationInput :=
  mkInput (ci_queue input) (ci_assessment input) (ci_reported input) (ci_occupancy_cells input)
    (ci_occupancy_bytes input) (ci_queue_depth_packets input) (ci_dynamic_threshold_cells input)
    (ci_static_threshold_cells input) (ci_max_depth_packets input) drops marks pause_frames
    pause_duration enqueues dequeues (ci_peer_conflict input).

(** ** The shape of a run *)

Definition verdict_entry (v : Verdict) : TraceEntry :=
  match v with Matched e _ => e | Passed e => e end.
Definition verdict_state (v : Verdict) : option PressureState :=
  match v with Matched _ s => Some s | Passed _ => None end.

(** A verdict's entry says whether it matched. *)
Definition honest (v : Verdict) : Prop :=
  match v with Matched e _ => te_matched e = true | Passed e => te_matched e = false end.

(** [stops_at vs n v]: the first [n] verdicts of [vs] passed and the next one,
    [v], matched. *)
Definition stops_at (vs : list Verdict) (n : nat) (v : Verdict) : Prop :=
  vs !! n = Some v ∧ verdict_state v ≠ None ∧
  Forall (λ u, verdict_state u = None) (take n vs).

Lemma run_rules_spec vs trace :
  (∃ n e s, stops_at vs n (Matched e s) ∧
     run_rules vs trace = (trace ++ map verdict_entry (take (S n) vs), Some (s, te_rule e))) ∨
  (Forall (λ u, verdict_state u = None) vs ∧
     run_rules vs trace = (trace ++ map verdict_entry vs, None)).
Proof.
  revert trace. induction vs as [|[e s|e] vs IH]; intros trace.
  - right. cbn. by rewrite app_nil_r.
  - left. exists 0%nat, e, s. by repeat split.
  - destruct (IH (trace ++ [e])) as [(n & e' & s & (H1 & H2 & H3) & Hrun)|[H Hrun]].
    + left. exists (S n), e', s. split; [split_and!; [done|done|by constructor]|].
      cbn [run_rules]. rewrite Hrun. by rewrite <- app_assoc.
    + right. split; [by constructor|]. cbn [run_rules]. rewrite Hrun. by rewrite <- app_assoc.
Qed.

Lemma stops_at_app vs ws n v : stops_at vs n v → stops_at (vs ++ ws) n v.
Proof.
  intros (H1 & H2 & H3). pose proof (lookup_lt_Some _ _ _ H1).
  split_and!; [by rewrite lookup_app_l|done|]. by rewrite take_app_le by lia.
Qed.

Lemma stops_at_skip us vs n v :
  Forall (λ u, verdict_state u = None) us → stops_at vs n v → stops_at (us ++ vs) (length us + n) v.
Proof.
  intros Hu (H1 & H2 & H3). split_and!; [|done|].
  - by rewrite lookup_app_r, Nat.add_comm, Nat.add_sub by lia.
  - rewrite take_app_add. by apply Forall_app.
Qed.

Definition all_rules (policy : PressurePolicy) (input : ClassificationInput) : list Verdict :=
  evidence_rules policy input ++ level_rules policy input (resolve_pressure_basis policy input).

Definition rule_state (rule : RuleId) : PressureState :=
  match rule with
  | RuleId.EvidencePresence | RuleId.EvidenceUnsupported | RuleId.RequiredFields
  | RuleId.PressureBasis => PressureState.Unknown
  | RuleId.EvidenceConflict => PressureState.Conflicting
  | RuleId.EvidenceFreshness => PressureState.Stale
  | RuleId.DroppingEvidence => PressureState.Dropping
  | RuleId.PauseEvidence => PressureState.Paused
  | RuleId.SaturationLevel => PressureState.Saturated
  | RuleId.PressureLevel => PressureState.Pressured
  | RuleId.ElevationLevel => PressureState.Elevated
  | RuleId.IdleEvidence => PressureState.Idle
  | RuleId.DefaultNormal => PressureState.Normal
  end.

(** Each rule records its own number, honestly, and concludes its own state. *)
Definition rule_ok (rule : RuleId) (v : Verdict) : Prop :=
  te_rule (verdict_entry v) = rule ∧ honest v ∧
  (verdict_state v = None ∨ verdict_state v = Some (rule_state rule)).

Lemma matched_ok rule detail a b : rule_ok rule (matched rule detail a b (rule_state rule)).
Proof. by repeat split; right. Qed.
Lemma passed_ok rule detail a b : rule_ok rule (passed rule detail a b).
Proof. by repeat split; left. Qed.

(** [solve_rule_ok]: a rule is a tree of tests with [matched] and [passed] leaves. *)
Ltac solve_rule_ok :=
  lazymatch goal with
  | |- rule_ok _ (matched ?r ?d ?a ?b _) => exact (matched_ok r d a b)
  | |- rule_ok _ (passed _ _ _ _) => apply passed_ok
  | |- rule_ok _ (if ?b then _ else _) => destruct b; solve_rule_ok
  | |- rule_ok _ (let '(_, _) := ?p in _) => destruct p as [[? ?] ?]; solve_rule_ok
  end.

Lemma all_rules_ok policy input : Forall2 rule_ok RuleId.all (all_rules policy input).
Proof.
  unfold all_rules, evidence_rules, level_rules, RuleId.all. cbn [app].
  unfold rule_presence, rule_conflict, rule_unsupported, rule_freshness, rule_required, rule_basis,
    rule_dropping, rule_pause, rule_saturation, rule_pressure, rule_elevation, rule_idle, rule_normal.
  repeat (apply List.Forall2_cons; [cbv zeta; solve_rule_ok|]). apply List.Forall2_nil.
Qed.

(** The result is that of the first rule that matches; the last one always
    does. *)
Lemma classify_first policy input :
  ∃ n e s, stops_at (all_rules policy input) n (Matched e s) ∧
    cr_state (classify policy input) = s ∧ cr_deciding_rule (classify policy input) = te_rule e ∧
    cr_trace (classify policy input) = map verdict_entry (take (S n) (all_rules policy input)) ∧
    cr_basis (classify policy input) =
      (if (n <? 5)%nat then no_basis else resolve_pressure_basis policy input).
Proof.
  unfold classify, all_rules.
  destruct (run_rules_spec (evidence_rules policy input) []) as [(n & e & s & Hs & ->)|[Hp ->]].
  - assert (n < 5)%nat as Hn.
    { destruct Hs as [Hs _]. change 5%nat with (length (evidence_rules policy input)).
      by eapply lookup_lt_Some. }
    exists n, e, s. cbn [finish cr_state cr_deciding_rule cr_trace cr_basis].
    rewrite (proj2 (Nat.ltb_lt n 5) Hn). rewrite take_app_le by (cbn [length evidence_rules]; lia).
    split_and!; try done. by apply stops_at_app.
  - destruct (run_rules_spec (level_rules policy input (resolve_pressure_basis policy input))
      ([] ++ map verdict_entry (evidence_rules policy input))) as [(n & e & s & Hs & ->)|[Hp' _]].
    + exists (5 + n)%nat, e, s. cbn [default finish cr_state cr_deciding_rule cr_trace cr_basis].
      split; [by apply (stops_at_skip (evidence_rules policy input))|done].
    + exfalso. rewrite Forall_forall in Hp'.
      specialize (Hp' rule_normal ltac:(do 7 apply list_elem_of_further; apply list_elem_of_here)).
      discriminate.
Qed.

(** The state alone: the first match. *)
Fixpoint first_state (verdicts : list Verdict) : option PressureState :=
  match verdicts with
  | [] => None
  | Matched _ state :: _ => Some state
  | Passed _ :: verdicts => first_state verdicts
  end.

Lemma stops_at_first vs n e s : stops_at vs n (Matched e s) → first_state vs = Some s.
Proof.
  revert n. induction vs as [|[e' s'|e'] vs IH]; intros [|n] (H1 & H2 & H3); try done.
  - by injection H1 as <- <-.
  - cbn in H3. by apply Forall_cons in H3 as [? _].
  - cbn in H3. apply Forall_cons in H3 as [_ H3]. by apply (IH n).
Qed.

Lemma classify_first_state policy input :
  first_state (all_rules policy input) = Some (cr_state (classify policy input)).
Proof.
  destruct (classify_first policy input) as (n & e & s & Hs & -> & _). by eapply stops_at_first.
Qed.

Lemma rules_recorded rules vs :
  Forall2 rule_ok rules vs → map te_rule (map verdict_entry vs) = rules.
Proof. induction 1 as [|r v rules vs (Hr & _) _ IH]; cbn; congruence. Qed.

Lemma passed_recorded rules vs :
  Forall2 rule_ok rules vs → Forall (λ u, verdict_state u = None) vs →
  map te_matched (map verdict_entry vs) = replicate (length vs) false.
Proof.
  induction 1 as [|r v rules vs (_ & Hh & _) _ IH]; [done|]. intros [Hv Hvs]%Forall_cons.
  destruct v; [done|]. cbn in *. rewrite Hh. f_equal. by apply IH.
Qed.

Lemma rule_number rule n : RuleId.all !! n = Some rule → Z.to_nat (RuleId.number rule) = n.
Proof. do 13 (destruct n as [|n]; [by intros [= <-]|]). by destruct n. Qed.

(** The decision trace is the path taken.  It lists the rules in their
    numbered order from rule 0, without a gap, up to the deciding rule; every
    entry but the last is an unmatched rule, the last is the deciding rule and
    matched; the state is the one that rule concludes; and the measurement basis
    is present exactly when the five evidence rules all passed. *)
Theorem trace_is_the_path (policy : PressurePolicy) (input : ClassificationInput) :
  let r := classify policy input in
  let n := Z.to_nat (RuleId.number (cr_deciding_rule r)) in
  map te_rule (cr_trace r) = take (S n) RuleId.all ∧
  map te_matched (cr_trace r) = replicate n false ++ [true] ∧
  cr_state r = rule_state (cr_deciding_rule r) ∧
  cr_basis r = (if (n <? 5)%nat then no_basis else resolve_pressure_basis policy input).
Proof.
  cbv zeta. destruct (classify_first policy input) as (n & e & s & (Hn & _ & Hp) & -> & -> & -> & ->).
  pose proof (all_rules_ok policy input) as Hok.
  set (vs := all_rules policy input) in *. clearbody vs.
  destruct (Forall2_lookup_r _ _ _ _ _ Hok Hn) as (rule & Hr & Hrule & Hm & Hst). cbn in Hrule, Hm, Hst.
  rewrite Hrule, (rule_number _ _ Hr).
  split_and!; [apply rules_recorded, Forall2_take, Hok| | |done].
  - rewrite (take_S_r _ _ _ Hn), !map_app. cbn. rewrite Hm. f_equal.
    rewrite (passed_recorded (take n RuleId.all)) by (done || by apply Forall2_take).
    rewrite length_take_le; [done|]. apply lookup_lt_Some in Hn. lia.
  - by destruct Hst as [|[= ->]].
Qed.

(** ** Which evidence speaks *)

(** Evidence that passes the five evidence rules. *)
Record speaks (policy : PressurePolicy) (input : ClassificationInput) : Prop := {
  sp_quality : ea_quality (ci_assessment input) = EvidenceQuality.Complete ∨
               ea_quality (ci_assessment input) = EvidenceQuality.Incomplete;
  sp_fresh : ea_freshness (ci_assessment input) = Freshness.Fresh;
  sp_reported : ci_reported input ≠ 0;
  sp_peers : ci_peer_conflict input = false;
  sp_required : Z.ldiff (required_fields policy) (ci_reported input) = 0;
  sp_any : required_any_fields policy = 0 ∨ Z.land (required_any_fields policy) (ci_reported input) ≠ 0
}.

Lemma first_state_app vs ws :
  first_state (vs ++ ws) = match first_state vs with Some s => Some s | None => first_state ws end.
Proof. by induction vs as [|[]]. Qed.

(** When the evidence speaks the state is that of the level rules; otherwise it
    is one of the three that say so. *)
Lemma evidence_rules_spec policy input :
  (speaks policy input ∧ first_state (evidence_rules policy input) = None) ∨
  (¬ speaks policy input ∧ ∃ s, first_state (evidence_rules policy input) = Some s ∧
     (s = PressureState.Unknown ∨ s = PressureState.Stale ∨ s = PressureState.Conflicting)).
Proof.
  unfold evidence_rules, rule_presence, rule_conflict, rule_unsupported, rule_freshness,
    rule_required. cbv zeta.
  destruct (bool_decide (ea_quality _ = EvidenceQuality.Unknown) || _) eqn:E0.
  { right. split; [|by eexists; split; [done|auto]]. intros [Hq _ Hr _ _ _].
    apply orb_true_iff in E0 as [E0%bool_decide_eq_true|E0%Z.eqb_eq]; [|done]. destruct Hq; congruence. }
  destruct (ci_peer_conflict input || _) eqn:E1.
  { right. split; [|by eexists; split; [done|auto]]. intros [Hq _ _ Hc _ _].
    rewrite Hc in E1. apply bool_decide_eq_true in E1. destruct Hq; congruence. }
  destruct (bool_decide (ea_quality _ = EvidenceQuality.Unsupported)) eqn:E2.
  { right. split; [|by eexists; split; [done|auto]]. intros [Hq _ _ _ _ _].
    apply bool_decide_eq_true in E2. destruct Hq; congruence. }
  destruct (bool_decide (ea_freshness _ ≠ Freshness.Fresh)) eqn:E3.
  { right. split; [|by eexists; split; [done|auto]]. intros [_ Hf _ _ _ _].
    by apply bool_decide_eq_true in E3. }
  destruct (Z.eqb_spec (Z.ldiff (required_fields policy) (ci_reported input)) 0) as [E4|E4].
  2:{ right. split; [|by eexists; split; [done|auto]]. by intros [_ _ _ _ ? _]. }
  cbn [negb].
  destruct (negb (required_any_fields policy =? 0) && _) eqn:E5.
  { right. split; [|by eexists; split; [done|auto]]. intros [_ _ _ _ _ Ha].
    apply andb_prop in E5 as [E5%negb_true_iff%Z.eqb_neq E6%Z.eqb_eq]. by destruct Ha. }
  left. split; [|done].
  apply orb_false_iff in E0 as [E0%bool_decide_eq_false E0'%Z.eqb_neq], E1 as [? E1%bool_decide_eq_false].
  apply bool_decide_eq_false in E2, E3. split; try done.
  - destruct (ea_quality (ci_assessment input)); auto; done.
  - by apply dec_stable.
  - apply andb_false_iff in E5 as [E5%negb_false_iff%Z.eqb_eq|E5%Z.eqb_neq]; auto.
Qed.

Lemma classify_speaks policy input :
  speaks policy input →
  Some (cr_state (classify policy input)) =
    first_state (level_rules policy input (resolve_pressure_basis policy input)).
Proof.
  intros Hs. rewrite <- classify_first_state. unfold all_rules.
  rewrite first_state_app. by destruct (evidence_rules_spec policy input) as [[_ ->]|[H _]].
Qed.

(** C7: a state that describes the queue's present is only ever concluded from
    fresh, supported, undisputed evidence that reports every field the policy
    requires and, where the policy lists alternatives, one of them; every other
    assessment ends in [Unknown], [Stale] or [Conflicting]. *)
Theorem present_state_needs_evidence (policy : PressurePolicy) (input : ClassificationInput) :
  let s := cr_state (classify policy input) in
  s ≠ PressureState.Unknown → s ≠ PressureState.Stale → s ≠ PressureState.Conflicting →
  speaks policy input ∧
  (∀ field, has_field (required_fields policy) field = true →
     has_field (ci_reported input) field = true) ∧
  pb_kind (resolve_pressure_basis policy input) ≠ PressureBasisKind.NoBasis.
Proof.
  cbv zeta. intros H1 H2 H3.
  pose proof (classify_first_state policy input) as Hf. unfold all_rules in Hf.
  rewrite first_state_app in Hf.
  destruct (evidence_rules_spec policy input) as [[Hs Heq]|(_ & s & Heq & Hor)].
  2:{ exfalso. rewrite Heq in Hf. injection Hf as Hf. rewrite Hf in *. tauto. }
  split_and!; [done| |].
  - intros field Hreq. pose proof (sp_required _ _ Hs) as Hd.
    apply (f_equal (λ m, has_field m field)) in Hd. rewrite has_field_ldiff, Hreq in Hd.
    rewrite (has_field_testbit 0), Z.bits_0 in Hd. by destruct (has_field (ci_reported input) field).
  - intros Hk. rewrite Heq in Hf. unfold level_rules, rule_basis in Hf.
    rewrite bool_decide_eq_true_2 in Hf by done. injection Hf as Hf. congruence.
Qed.

Definition sample_input : ClassificationInput :=
  mkInput (mkQueuePath "leaf" "eth0" 3)
    (mkAssessment Freshness.Fresh EvidenceQuality.Complete Provenance.Observed
       SourceAuthority.Primary 0 10 EmptyString)
    (Z.lor (field_bit SampleField.OccupancyCells) (field_bit SampleField.DynamicThresholdCells))
    (Some 760) None None (Some 1000) None None no_delta no_delta no_delta no_delta no_delta no_delta
    false.

Lemma present_state_needs_evidence_witness :
  cr_state (classify default_pressure_policy sample_input) = PressureState.Pressured ∧
  speaks default_pressure_policy sample_input.
Proof.
  split; [reflexivity|].
  apply (present_state_needs_evidence default_pressure_policy sample_input);
    vm_compute; discriminate.
Defined.

(** ** The levels *)

(** No drop, pause or mark evidence reaches its threshold. *)
Definition quiet (policy : PressurePolicy) (input : ClassificationInput) : Prop :=
  let absolute := pl_absolute policy in
  reaches (ci_drops input) (dropping_at_drops absolute) = false ∧
  reaches (ci_pause_frames input) (paused_at_pause_frames absolute) = false ∧
  reaches (ci_pause_duration input) (paused_at_pause_nanos absolute) = false ∧
  reaches (ci_marks input) (marks_indicate_pressure_at absolute) = false.

Definition idle (input : ClassificationInput) (basis : PressureBasis) : bool :=
  (measurement basis =? 0) && cd_known (ci_enqueues input) && (cd_delta (ci_enqueues input) =? 0).

(** The rules after the basis, as one expression. *)
Lemma level_rules_spec policy input basis :
  pb_kind basis ≠ PressureBasisKind.NoBasis →
  first_state (level_rules policy input basis) = Some
    (let '(saturated, pressured, elevated) := level_thresholds policy basis in
     let m := measurement basis in
     if reaches (ci_drops input) (dropping_at_drops (pl_absolute policy)) then PressureState.Dropping
     else if reaches (ci_pause_frames input) (paused_at_pause_frames (pl_absolute policy))
             || reaches (ci_pause_duration input) (paused_at_pause_nanos (pl_absolute policy))
     then PressureState.Paused
     else if at_least saturated m then PressureState.Saturated
     else if at_least pressured m
             || reaches (ci_marks input) (marks_indicate_pressure_at (pl_absolute policy))
     then PressureState.Pressured
     else if at_least elevated m then PressureState.Elevated
     else if idle input basis then PressureState.Idle
     else PressureState.Normal).
Proof.
  intros Hk. unfold level_rules, rule_basis. rewrite bool_decide_eq_false_2 by done.
  unfold rule_dropping, rule_pause, rule_saturation, rule_pressure, rule_elevation, rule_idle, idle.
  fold (reaches (ci_drops input) (dropping_at_drops (pl_absolute policy))).
  destruct (level_thresholds policy basis) as [[saturated pressured] elevated]. cbv zeta.
  destruct (reaches (ci_drops input) _); [done|].
  destruct (cd_known (ci_drops input)); cbn [negb].
  all: destruct (_ || _); [done|]. all: destruct (at_least saturated _); [done|].
  all: destruct (at_least pressured _); [done|]. all: destruct (reaches (ci_marks input) _); [done|].
  all: destruct (at_least elevated _); [done|]. all: destruct (_ && (cd_delta _ =? 0)); [done|].
  all: destruct (_ && negb _); [done|]. all: by destruct (negb _).
Qed.

(** A threshold of a limit is reached, or does not exist. *)
Lemma threshold_reached limit p v :
  is_u64 limit → 0 <= p <= 1000 →
  at_least (result_option (permille_of limit p)) v = (limit * p <=? u64_max) && (limit * p <=? v * 1000).
Proof.
  intros Hl Hp. destruct (Z.leb_spec (limit * p) u64_max) as [Hm|Hm]; cbn [andb].
  - destruct (permille_threshold limit p v) as (t & -> & _ & Ht); [done..|].
    cbn. apply eq_true_iff_eq. by rewrite !Z.leb_le.
  - unfold permille_of. is_false (1000 <? p). rewrite mul_u64_spec by word_lia.
    by is_false (limit * p <=? u64_max).
Qed.

(** C10: levels against a reported limit are exact.  For a valid policy and speaking
    evidence whose basis is a value and a 64-bit limit, with no drop, pause or mark evidence,
    the state is decided by comparing [value * 1000] with [limit * permille], saturated,
    pressured and elevated in that order, and otherwise idle or normal; a level whose product
    [limit * permille] does not fit in 64 bits is not reached, whatever the value. *)
Theorem levels_exact (policy : PressurePolicy) (input : ClassificationInput) (v limit : Z) :
  ok (validate_policy policy) = true → speaks policy input → quiet policy input →
  0 <= elevated_permille (pl_relative policy) →
  let basis := resolve_pressure_basis policy input in
  pb_kind basis ≠ PressureBasisKind.NoBasis → pb_kind basis ≠ PressureBasisKind.Absolute →
  pb_value basis = Some v → pb_limit basis = Some limit → is_u64 limit →
  cr_state (classify policy input) =
    (let reached permille := (limit * permille <=? u64_max) && (limit * permille <=? v * 1000) in
     if reached (saturated_permille (pl_relative policy)) then PressureState.Saturated
     else if reached (pressured_permille (pl_relative policy)) then PressureState.Pressured
     else if reached (elevated_permille (pl_relative policy)) then PressureState.Elevated
     else if idle input basis then PressureState.Idle else PressureState.Normal).
Proof.
  cbv zeta. intros Hwf Hs (Q1 & Q2 & Q3 & Q4) He Hk1 Hk2 Hv Hl Hl0.
  apply validate_policy_wf in Hwf. destruct (pw_relative _ Hwf) as (Hr & _ & Hr').
  pose proof (classify_speaks _ _ Hs) as Hc. rewrite level_rules_spec in Hc by done.
  injection Hc as ->. unfold level_thresholds. rewrite bool_decide_eq_false_2 by done.
  rewrite Q1, Q2, Q3, Q4, Hl. cbn [orb value_or default]. rewrite !orb_false_r.
  assert (measurement (resolve_pressure_basis policy input) = v) as -> by
    (unfold measurement; by rewrite Hv).
  rewrite !threshold_reached by (done || lia). done.
Qed.

Lemma levels_exact_witness :
  cr_state (classify default_pressure_policy sample_input) = PressureState.Pressured.
Proof.
  apply (levels_exact default_pressure_policy sample_input 760 1000);
    try reflexivity; try (vm_compute; discriminate).
  - split; try reflexivity; [by left|vm_compute; discriminate|right; vm_compute; discriminate].
  - repeat split.
  - by split; vm_compute.
Defined.

(** ** Monotonicity *)

Definition with_cells (cells : Z) (input : ClassificationInput) : ClassificationInput :=
  mkInput (ci_queue input) (ci_assessment input) (ci_reported input) (Some cells)
    (ci_occupancy_bytes input) (ci_queue_depth_packets input) (ci_dynamic_threshold_cells input)
    (ci_static_threshold_cells input) (ci_max_depth_packets input) (ci_drops input)
    (ci_marks input) (ci_pause_frames input) (ci_pause_duration input) (ci_enqueues input)
    (ci_dequeues input) (ci_peer_conflict input).

(** The choice of the basis does not look at the occupancy's value. *)
Lemma resolve_with_cells policy input :
  (∃ kind field limit label, ∀ v,
     resolve_pressure_basis policy (with_cells v input) =
       mkBasis kind SampleField.OccupancyCells (Some v) field limit label) ∨
  (∃ basis, ∀ v, resolve_pressure_basis policy (with_cells v input) = basis).
Proof.
  unfold resolve_pressure_basis, missing_limit, try_absolute, try_cells, try_packets, usable.
  cbn [with_cells ci_occupancy_cells ci_reported ci_dynamic_threshold_cells
       ci_static_threshold_cells ci_queue_depth_packets ci_max_depth_packets ci_occupancy_bytes].
  set (dynamic := match ci_dynamic_threshold_cells input with Some _ => _ | None => _ end).
  set (static := match ci_static_threshold_cells input with Some _ => _ | None => _ end).
  set (depth := match ci_queue_depth_packets input with Some _ => _ | None => _ end).
  set (max := match ci_max_depth_packets input with Some _ => _ | None => _ end).
  set (bytes := match ci_occupancy_bytes input with Some _ => _ | None => _ end).
  destruct (has_field (ci_reported input) SampleField.OccupancyCells); cbn.
  - destruct (prefer_cells_over_packets policy), dynamic, static, depth, max; cbn; eauto 6;
      destruct (_ && _); cbn; eauto 6.
  - destruct (prefer_cells_over_packets policy); cbn; eauto.
Qed.

Lemma at_least_mono t a b : a <= b → at_least t a = true → at_least t b = true.
Proof. destruct t; cbn; lia. Qed.

(** C11: more occupancy never looks better.  All else being equal, raising the
    reported cell count of a sample never lowers the severity rank of its state,
    whatever the policy and whatever the rest of the evidence. *)
Theorem classification_monotone (policy : PressurePolicy) (input : ClassificationInput) (a b : Z) :
  0 <= a <= b →
  pressure_severity_rank (cr_state (classify policy (with_cells a input))) <=
  pressure_severity_rank (cr_state (classify policy (with_cells b input))).
Proof.
  intros Hab.
  pose proof (classify_first_state policy (with_cells a input)) as Ha.
  pose proof (classify_first_state policy (with_cells b input)) as Hb.
  unfold all_rules in Ha, Hb.
  change (evidence_rules policy (with_cells b input)) with (evidence_rules policy (with_cells a input)) in Hb.
  rewrite first_state_app in Ha, Hb.
  destruct (evidence_rules_spec policy (with_cells a input)) as [[Hs Hev]|(_ & s & Hev & _)];
    rewrite Hev in Ha, Hb; [|injection Ha as <-; injection Hb as <-; lia].
  destruct (resolve_with_cells policy input) as [(kind & field & limit & label & Hr)|(basis & Hr)].
  2:{ rewrite Hr in Ha, Hb. change (level_rules policy (with_cells b input) basis)
        with (level_rules policy (with_cells a input) basis) in Hb.
      rewrite Ha in Hb. injection Hb as ->. lia. }
  rewrite Hr in Ha, Hb. clear Hr Hev.
  destruct (decide (kind = PressureBasisKind.NoBasis)) as [->|Hk].
  { injection Ha as <-. injection Hb as <-. lia. }
  rewrite level_rules_spec in Ha by done. rewrite level_rules_spec in Hb by done.
  injection Ha as <-. injection Hb as <-.
  unfold level_thresholds, idle, measurement. cbn [pb_kind pb_limit pb_value value_or default].
  destruct (if bool_decide _ then _ else _) as [[saturated pressured] elevated].
  cbn [with_cells ci_drops ci_pause_frames ci_pause_duration ci_marks ci_enqueues].
  change (id a) with a. change (id b) with b.
  destruct (reaches (ci_drops input) _); [lia|]. destruct (_ || _); [lia|].
  destruct (at_least saturated a) eqn:S1.
  { rewrite (at_least_mono _ a b) by (done || lia). lia. }
  destruct (at_least saturated b); [bool_cases; cbn; lia|].
  destruct (at_least pressured a) eqn:P1; cbn [orb].
  { rewrite (at_least_mono _ a b) by (done || lia). cbn. lia. }
  destruct (reaches (ci_marks input) _); [rewrite orb_true_r; lia|]. rewrite orb_false_r.
  destruct (at_least elevated a) eqn:E1.
  { rewrite (at_least_mono elevated a b) by (done || lia). destruct (at_least pressured b); cbn; lia. }
  destruct (at_least pressured b), (at_least elevated b); try (bool_cases; cbn; lia).
  destruct (Z.eqb_spec a 0), (Z.eqb_spec b 0); cbn [andb]; try lia; bool_cases; cbn; lia.
Qed.

Lemma classification_monotone_witness :
  pressure_severity_rank (cr_state (classify default_pressure_policy (with_cells 500 sample_input)))
  <= pressure_severity_rank (cr_state (classify default_pressure_policy (with_cells 950 sample_input))).
Proof. apply (classification_monotone default_pressure_policy sample_input 500 950). lia. Defined.

(** A limit whose scaling overflows has no threshold: the queue at its limit is
    reported as normal. *)
Lemma huge_limit_is_normal :
  cr_state (classify default_pressure_policy
    (mkInput (ci_queue sample_input) (ci_assessment sample_input) (ci_reported sample_input)
       (Some 18446744073709551615) None None (Some 18446744073709551615) None None
       no_delta no_delta no_delta no_delta no_delta no_delta false)) = PressureState.Normal.
Proof. vm_compute. reflexivity. Qed.

(** No rule asks for the authority of the evidence: a source that declares none
    establishes the present state of its queue. *)
Lemma authority_is_not_asked :
  let assessment := mkAssessment Freshness.Fresh EvidenceQuality.Complete Provenance.Observed
                      SourceAuthority.Unknown 0 10 EmptyString in
  establishes_current_pressure assessment = false ∧
  cr_state (classify default_pressure_policy (with_evidence assessment false sample_input)) =
    PressureState.Pressured.
Proof. vm_compute. done. Qed.
