(* ===== verification/Protocol.v ===== *)
(** * The transport's framing

    [transport/Protocol.hpp] and [transport/Protocol.cpp]: the frame layout, its
    encoder and decoder, and the incremental reassembler.  A buffer is a list of
    bytes; a payload, a [std::string] in the source, is its bytes. *)

From S2P Require Import Prelude Result Checked Limits Bytes Text Crc32c.
Open Scope Z_scope.

Definition kFrameMagic : Z := 1364148819. (* 0x514F4253 *)
Definition kFrameVersion : Z := 1.
Definition kFrameHeaderBytes : Z := 16.

Module FrameType.
Inductive FrameType : Set :=
| Hello | Welcome | Batch | BatchResult | StatusRequest | StatusReply | Bye | Error.
#[export] Instance FrameType_eq_dec : EqDecision FrameType.
Proof. solve_decision. Defined.

(** The enumerator's value, and the cast back. *)
Definition number (type : FrameType) : Z :=
  match type with
  | Hello => 1 | Welcome => 2 | Batch => 3 | BatchResult => 4 | StatusRequest => 5
  | StatusReply => 6 | Bye => 7 | Error => 8
  end.
Definition of_number (raw : Z) : FrameType :=
  if raw =? 1 then Hello else if raw =? 2 then Welcome else if raw =? 3 then Batch
  else if raw =? 4 then BatchResult else if raw =? 5 then StatusRequest
  else if raw =? 6 then StatusReply else if raw =? 7 then Bye else Error.

Definition to_string (type : FrameType) : string :=
  match type with
  | Hello => "hello" | Welcome => "welcome" | Batch => "batch" | BatchResult => "batch_result"
  | StatusRequest => "status_request" | StatusReply => "status_reply" | Bye => "bye"
  | Error => "error"
  end.
End FrameType.
#[export] Existing Instance FrameType.FrameType_eq_dec.
Abbreviation FrameType := FrameType.FrameType.

Definition is_known_frame_type (raw : Z) : bool :=
  (FrameType.number FrameType.Hello <=? raw) && (raw <=? FrameType.number FrameType.Error).

Record Frame := mkFrame { fr_type : FrameType; fr_flags : Z; fr_payload : list Z }.
#[export] Instance Frame_eq_dec : EqDecision Frame.
Proof. solve_decision. Defined.
Definition no_frame : Frame := mkFrame FrameType.Hello 0 [].

Definition store_u16 (value : Z) : list Z := store_le 2 value.
Definition store_u32 (value : Z) : list Z := store_le 4 value.
Definition load_u16 (bytes : list Z) : Z := load_le (take 2 bytes).
Definition load_u32 (bytes : list Z) : Z := load_le (take 4 bytes).

(** The eight header bytes the checksum covers: version, type, flags, length. *)
Definition header_middle (frame : Frame) : list Z :=
  store_u16 kFrameVersion ++ [FrameType.number (fr_type frame); fr_flags frame] ++
  store_u32 (wrap_u32 (Z.of_nat (length (fr_payload frame)))).

Definition frame_crc (middle payload : list Z) : Z :=
  crc_value (crc_feed (crc_feed crc_init middle) payload).

Definition encode_frame (frame : Frame) (limits : TransportLimits) : Result (list Z) :=
  let limits_status := validate_transport limits in
  if negb (ok limits_status) then Failure limits_status
  else if max_frame_bytes limits <? Z.of_nat (length (fr_payload frame)) then
    fail ErrorCode.LimitExceeded "the frame payload exceeds the configured frame size"
  else
    let middle := header_middle frame in
    Value (store_u32 kFrameMagic ++ middle ++ store_u32 (frame_crc middle (fr_payload frame)) ++
           fr_payload frame).

Record DecodeFrameResult := mkDecoded {
  df_complete : bool;
  df_consumed : Z;
  df_frame : Frame;
  df_diagnostic : string
}.
Definition not_decoded : DecodeFrameResult := mkDecoded false 0 no_frame EmptyString.

Definition refuse_frame (c : ErrorCode) (diagnostic : string) : DecodeFrameResult * Status :=
  (mkDecoded false 0 no_frame diagnostic, failure c diagnostic).

(** [buffer.subspan(offset)] *)
Definition from (offset : Z) (buffer : list Z) : list Z := drop (Z.to_nat offset) buffer.

Definition decode_frame (buffer : list Z) (limits : TransportLimits) : DecodeFrameResult * Status :=
  let limits_status := validate_transport limits in
  if negb (ok limits_status) then (not_decoded, limits_status)
  else if Z.of_nat (length buffer) <? kFrameHeaderBytes then (not_decoded, success)
  else if negb (load_u32 buffer =? kFrameMagic) then
    refuse_frame ErrorCode.IntegrityFailure "the frame magic does not match"
  else if negb (load_u16 (from 4 buffer) =? kFrameVersion) then
    refuse_frame ErrorCode.VersionMismatch "the frame was written in an unsupported protocol version"
  else
    let raw_type := nth 6 buffer 0 in
    if negb (is_known_frame_type raw_type) then
      refuse_frame ErrorCode.NotSupported "the frame declares an unknown type"
    else
      let length := load_u32 (from 8 buffer) in
      if max_frame_bytes limits <? length then
        refuse_frame ErrorCode.LimitExceeded
          "the frame declares a payload larger than the configured limit"
      else
        match add_u64 kFrameHeaderBytes length with
        | None => refuse_frame ErrorCode.Overflow "the frame length overflows"
        | Some total =>
            if Z.of_nat (List.length buffer) <? total then (not_decoded, success)
            else
              let stored_crc := load_u32 (from 12 buffer) in
              let payload := take (Z.to_nat length) (from kFrameHeaderBytes buffer) in
              if negb (frame_crc (take 8 (from 4 buffer)) payload =? stored_crc) then
                refuse_frame ErrorCode.IntegrityFailure
                  "the frame checksum does not match its contents"
              else
                (mkDecoded true total
                   (mkFrame (FrameType.of_number raw_type) (nth 7 buffer 0) payload) EmptyString,
                 success)
        end.

(** ** The reassembler *)

Record FrameReader := mkReader { rd_limits : TransportLimits; rd_buffer : list Z }.

Definition reader_append (bytes : list Z) (r : FrameReader) : FrameReader * Status :=
  let refused :=
    (r, failure ErrorCode.LimitExceeded "the connection buffer would exceed its configured bound") in
  match add_u64 (Z.of_nat (length (rd_buffer r))) (Z.of_nat (length bytes)) with
  | None => refused
  | Some projected =>
      if max_connection_buffer_bytes (rd_limits r) <? projected then refused
      else (mkReader (rd_limits r) (rd_buffer r ++ bytes), success)
  end.

(** The frame is [None] when [produced] is false. *)
Definition reader_next (r : FrameReader) : FrameReader * option Frame * Status :=
  match rd_buffer r with
  | [] => (r, None, success)
  | _ =>
      let '(decoded, status) := decode_frame (rd_buffer r) (rd_limits r) in
      if negb (ok status) then (r, None, status)
      else if negb (df_complete decoded) then (r, None, success)
      else
        (mkReader (rd_limits r) (from (df_consumed decoded) (rd_buffer r)), Some (df_frame decoded),
         success)
  end.

Definition reader_clear (r : FrameReader) : FrameReader := mkReader (rd_limits r) [].

(** ** Encoding and decoding *)

(** A frame the encoder writes down faithfully. *)
Record frame_ok (limits : TransportLimits) (frame : Frame) : Prop := {
  fo_flags : is_byte (fr_flags frame);
  fo_payload : bytes_ok (fr_payload frame);
  fo_limit : Z.of_nat (length (fr_payload frame)) <= max_frame_bytes limits;
  fo_width : Z.of_nat (length (fr_payload frame)) <= u32_max
}.

Lemma of_number_number type : FrameType.of_number (FrameType.number type) = type.
Proof. by destruct type. Qed.
Lemma known_number type : is_known_frame_type (FrameType.number type) = true.
Proof. by destruct type. Qed.

Lemma store_le_length n value : length (store_le n value) = n.
Proof. apply store_le_at_length. Qed.

Lemma header_middle_length frame : length (header_middle frame) = 8%nat.
Proof. unfold header_middle, store_u16, store_u32. rewrite !length_app, !store_le_length. done. Qed.

Lemma header_middle_ok frame : is_byte (fr_flags frame) → bytes_ok (header_middle frame).
Proof.
  intros H. unfold header_middle. apply Forall_app_2; [apply store_le_at_ok|].
  apply Forall_app_2; [|apply store_le_at_ok]. repeat apply Forall_cons_2; [|done|constructor].
  destruct (fr_type frame); unfold is_byte; cbn; lia.
Qed.

Lemma frame_crc_whole middle payload : frame_crc middle payload = crc32c (middle ++ payload).
Proof. apply crc_feed_two. Qed.

Lemma load_u32_store value rest : 0 <= value <= u32_max → load_u32 (store_u32 value ++ rest) = value.
Proof.
  intros H. unfold load_u32, store_u32. rewrite take_app_length' by (by rewrite store_le_length).
  apply load_store_le. cbn. word_lia.
Qed.
Lemma load_u16_store value rest : 0 <= value <= u16_max → load_u16 (store_u16 value ++ rest) = value.
Proof.
  intros H. unfold load_u16, store_u16. rewrite take_app_length' by (by rewrite store_le_length).
  apply load_store_le. cbn. word_lia.
Qed.

(** The sixteen bytes before the payload. *)
Definition header (frame : Frame) : list Z :=
  store_u32 kFrameMagic ++ header_middle frame ++
  store_u32 (frame_crc (header_middle frame) (fr_payload frame)).

Lemma header_length frame : length (header frame) = 16%nat.
Proof.
  unfold header, store_u32. by rewrite !length_app, header_middle_length, !store_le_length.
Qed.

Lemma from_app offset (a b : list Z) : Z.of_nat (length a) = offset → from offset (a ++ b) = b.
Proof. intros <-. unfold from. rewrite Nat2Z.id. apply drop_app_length. Qed.

(** The parts of a buffer that starts with a header. *)
Lemma header_parts frame tail :
  is_byte (fr_flags frame) → bytes_ok (fr_payload frame) →
  Z.of_nat (length (fr_payload frame)) <= u32_max →
  let buffer := header frame ++ tail in
  load_u32 buffer = kFrameMagic ∧ load_u16 (from 4 buffer) = kFrameVersion ∧
  nth 6 buffer 0 = FrameType.number (fr_type frame) ∧ nth 7 buffer 0 = fr_flags frame ∧
  load_u32 (from 8 buffer) = Z.of_nat (length (fr_payload frame)) ∧
  load_u32 (from 12 buffer) = frame_crc (header_middle frame) (fr_payload frame) ∧
  take 8 (from 4 buffer) = header_middle frame ∧ from kFrameHeaderBytes buffer = tail.
Proof.
  intros Hf Hp Hlen buffer. unfold buffer, header.
  assert (is_u32 (frame_crc (header_middle frame) (fr_payload frame))) as Hcrc.
  { rewrite frame_crc_whole. unfold crc32c. apply complement32_u32, crc_update_u32; [apply u32_max_u32|].
    apply Forall_app_2; [by apply header_middle_ok|done]. }
  set (crc := frame_crc _ _) in *. unfold is_u32 in Hcrc.
  split_and!.
  - rewrite <- !app_assoc. by apply load_u32_store.
  - rewrite <- app_assoc, from_app by done. unfold header_middle. rewrite <- !app_assoc.
    by apply load_u16_store.
  - done.
  - done.
  - rewrite app_assoc, <- (app_assoc _ _ tail). unfold header_middle.
    rewrite (app_assoc (store_u16 _)), (app_assoc (store_u32 kFrameMagic)), <- (app_assoc _ (store_u32 (wrap_u32 _))).
    rewrite from_app by done. unfold wrap_u32. rewrite Z.mod_small by word_lia.
    apply load_u32_store. lia.
  - rewrite (app_assoc (store_u32 kFrameMagic)), <- (app_assoc _ _ tail), from_app.
    + apply load_u32_store. word_lia.
    + rewrite length_app, header_middle_length. done.
  - rewrite <- app_assoc, from_app by done. rewrite <- app_assoc.
    apply take_app_length'. by rewrite header_middle_length.
  - apply from_app. by rewrite !length_app, header_middle_length.
Qed.

(** Decoding a header and what follows it. *)
Lemma decode_header frame limits tail :
  ok (validate_transport limits) = true → frame_ok limits frame →
  decode_frame (header frame ++ tail) limits =
    (let n := length (fr_payload frame) in
     if Z.of_nat (length tail) <? Z.of_nat n then (not_decoded, success)
     else if negb (frame_crc (header_middle frame) (take n tail) =?
                   frame_crc (header_middle frame) (fr_payload frame))
     then refuse_frame ErrorCode.IntegrityFailure "the frame checksum does not match its contents"
     else (mkDecoded true (16 + Z.of_nat n) (mkFrame (fr_type frame) (fr_flags frame) (take n tail))
             EmptyString, success)).
Proof.
  intros Hok [Hf Hp Hlim Hw].
  destruct (header_parts frame tail Hf Hp Hw) as (P1 & P2 & P3 & P4 & P5 & P6 & P7 & P8).
  unfold decode_frame. rewrite Hok, P1, P2, P3, P4, P5, P6, P7, P8, known_number, of_number_number.
  cbn [negb]. rewrite length_app, header_length, !Z.eqb_refl. cbn [negb].
  unfold kFrameHeaderBytes at 1. is_false (Z.of_nat (16 + length tail) <? 16).
  is_false (max_frame_bytes limits <? Z.of_nat (length (fr_payload frame))).
  unfold kFrameHeaderBytes. rewrite Nat2Z.id, add_u64_spec by word_lia.
  is_true (16 + Z.of_nat (length (fr_payload frame)) <=? u64_max).
  destruct (Z.ltb_spec (Z.of_nat (16 + length tail)) (16 + Z.of_nat (length (fr_payload frame)))),
    (Z.ltb_spec (Z.of_nat (length tail)) (Z.of_nat (length (fr_payload frame)))); done || lia.
Qed.

Definition encoding (frame : Frame) : list Z := header frame ++ fr_payload frame.

Lemma encoding_length frame : length (encoding frame) = (16 + length (fr_payload frame))%nat.
Proof. unfold encoding. by rewrite length_app, header_length. Qed.

Lemma encode_encoding limits frame :
  ok (validate_transport limits) = true → frame_ok limits frame →
  encode_frame frame limits = Value (encoding frame).
Proof.
  intros Hok [_ _ Hlim _]. unfold encode_frame, encoding, header. rewrite Hok. cbn [negb].
  is_false (max_frame_bytes limits <? Z.of_nat (length (fr_payload frame))).
  by rewrite <- !app_assoc.
Qed.

Lemma decode_encoding limits frame rest :
  ok (validate_transport limits) = true → frame_ok limits frame →
  decode_frame (encoding frame ++ rest) limits =
    (mkDecoded true (Z.of_nat (length (encoding frame))) frame EmptyString, success).
Proof.
  intros Hok Hf. unfold encoding at 1. rewrite <- app_assoc, decode_header by done. cbv zeta.
  rewrite length_app. is_false (Z.of_nat (_ + _) <? _).
  rewrite take_app_length, Z.eqb_refl. cbn [negb]. rewrite encoding_length. destruct frame.
  do 3 f_equal. cbn [fr_payload]. lia.
Qed.

Lemma decode_prefix limits frame n :
  ok (validate_transport limits) = true → frame_ok limits frame →
  (n < length (encoding frame))%nat →
  decode_frame (take n (encoding frame)) limits = (not_decoded, success).
Proof.
  intros Hok Hf Hn. rewrite encoding_length in Hn. destruct (decide (n < 16)%nat).
  - unfold decode_frame. rewrite Hok. cbn [negb]. rewrite length_take, encoding_length.
    unfold kFrameHeaderBytes. is_true (Z.of_nat _ <? 16). done.
  - unfold encoding. rewrite take_app_ge, decode_header by (rewrite ?header_length; done || lia).
    cbv zeta. rewrite length_take, header_length.
    is_true (Z.of_nat _ <? Z.of_nat (length (fr_payload frame))). done.
Qed.

(** Two frames, for the witnesses. *)
Definition example_hello : Frame := mkFrame FrameType.Hello 0 [104; 105].
Definition example_batch : Frame := mkFrame FrameType.Batch 1 [10; 20; 30; 40; 50; 60].

Lemma example_frames_ok : Forall (frame_ok default_transport_limits) [example_hello; example_batch].
Proof.
  repeat constructor; cbn; unfold is_byte, u32_max; try lia; repeat constructor; unfold is_byte; lia.
Qed.

(** Frames survive the wire.  A frame within the limits, whose payload length
    fits the 32-bit length field, is encoded to its sixteen header bytes and its
    payload; decoding a buffer that starts with the encoding returns the frame
    and consumes exactly the encoding, whatever follows; and decoding any proper
    prefix of the encoding asks for more bytes and consumes nothing. *)
Theorem frame_round_trip (limits : TransportLimits) (frame : Frame) (rest : list Z) :
  ok (validate_transport limits) = true → frame_ok limits frame →
  ∃ bytes, encode_frame frame limits = Value bytes ∧
    length bytes = (16 + length (fr_payload frame))%nat ∧
    decode_frame (bytes ++ rest) limits =
      (mkDecoded true (Z.of_nat (length bytes)) frame EmptyString, success) ∧
    ∀ n, (n < length bytes)%nat → decode_frame (take n bytes) limits = (not_decoded, success).
Proof.
  intros Hok Hf. exists (encoding frame).
  split_and!; [by apply encode_encoding|apply encoding_length|by apply decode_encoding|].
  intros n. by apply decode_prefix.
Qed.

Lemma frame_round_trip_witness :
  ∃ bytes, encode_frame example_batch default_transport_limits = Value bytes ∧
    length bytes = 22%nat ∧
    decode_frame (bytes ++ [7]) default_transport_limits =
      (mkDecoded true (Z.of_nat (length bytes)) example_batch EmptyString, success) ∧
    ∀ n, (n < length bytes)%nat →
      decode_frame (take n bytes) default_transport_limits = (not_decoded, success).
Proof.
  refine (frame_round_trip default_transport_limits example_batch [7] _ _).
  - vm_compute. reflexivity.
  - refine (proj1 (proj1 (Forall_cons _ _ _) (proj2 (proj1 (Forall_cons _ _ _) example_frames_ok)))).
Defined.

(** A corrupted payload is refused.  When up to four consecutive payload bytes of
    an encoded frame are altered, in any way, decoding fails with an integrity
    failure. *)
Theorem corruption_is_refused (limits : TransportLimits) (frame : Frame)
    (before burst burst' after rest : list Z) :
  ok (validate_transport limits) = true → frame_ok limits frame →
  fr_payload frame = before ++ burst ++ after → bytes_ok burst' →
  length burst' = length burst → (length burst <= 4)%nat → burst ≠ burst' →
  let '(decoded, status) :=
    decode_frame (header frame ++ (before ++ burst' ++ after) ++ rest) limits in
  df_complete decoded = false ∧ code status = ErrorCode.IntegrityFailure.
Proof.
  intros Hok Hf Hp Hb' Hlen Hshort Hne. rewrite decode_header by done. cbv zeta.
  assert (length (before ++ burst' ++ after) = length (fr_payload frame)) as Hl
    by (rewrite Hp, !length_app; lia).
  rewrite length_app. is_false (Z.of_nat (_ + _) <? _).
  rewrite take_app_length' by done. rewrite !frame_crc_whole.
  destruct (Z.eqb_spec (crc32c (header_middle frame ++ before ++ burst' ++ after))
              (crc32c (header_middle frame ++ fr_payload frame))) as [Heq|]; [|done].
  exfalso. destruct Hf as [Hflags Hbytes _ _]. rewrite Hp in Heq, Hbytes. symmetry in Heq.
  rewrite (app_assoc _ before (burst ++ _)), (app_assoc _ before (burst' ++ _)) in Heq.
  revert Heq. apply crc_burst_changes; try done. rewrite <- app_assoc.
  apply Forall_app_2; [by apply header_middle_ok|done].
Qed.

Lemma corruption_is_refused_witness :
  let '(decoded, status) :=
    decode_frame (header example_batch ++ ([10] ++ [21; 31; 41] ++ [50; 60]) ++ [])
      default_transport_limits in
  df_complete decoded = false ∧ code status = ErrorCode.IntegrityFailure.
Proof.
  refine (corruption_is_refused default_transport_limits example_batch
            [10] [20; 30; 40] [21; 31; 41] [50; 60] [] _ _ _ _ _ _ _).
  - vm_compute. reflexivity.
  - refine (proj1 (proj1 (Forall_cons _ _ _) (proj2 (proj1 (Forall_cons _ _ _) example_frames_ok)))).
  - reflexivity.
  - repeat constructor; unfold is_byte; lia.
  - reflexivity.
  - cbn. lia.
  - discriminate.
Defined.

(** ** Reassembly *)

(** [next] until it does not produce a frame. *)
Fixpoint drain (fuel : nat) (r : FrameReader) : FrameReader * list Frame * Status :=
  match fuel with
  | O => (r, [], success)
  | S fuel =>
      match reader_next r with
      | (r, Some frame, _) => let '(r, frames, status) := drain fuel r in (r, frame :: frames, status)
      | (r, None, status) => (r, [], status)
      end
  end.

(** Append each piece as it arrives, and take out the frames it completes. *)
Fixpoint feed (pieces : list (list Z)) (r : FrameReader) : FrameReader * list Frame * Status :=
  match pieces with
  | [] => (r, [], success)
  | piece :: pieces =>
      let '(r, status) := reader_append piece r in
      if negb (ok status) then (r, [], status)
      else
        let '(r, frames, status) := drain (S (length (rd_buffer r))) r in
        if negb (ok status) then (r, frames, status)
        else let '(r, more, status) := feed pieces r in (r, frames ++ more, status)
  end.

Definition stream (frames : list Frame) : list Z := concat (map encoding frames).

Lemma take_of_app {A} (a b c d : list A) :
  a ++ b = c ++ d → (length a < length c)%nat → a = take (length a) c.
Proof.
  intros H Hl. rewrite <- (take_app_length a b) at 1. rewrite H. by rewrite take_app_le by lia.
Qed.

Lemma split_of_app {A} (a b c d : list A) :
  a ++ b = c ++ d → (length c <= length a)%nat → ∃ e, a = c ++ e ∧ e ++ b = d.
Proof.
  intros H Hl. exists (drop (length c) a).
  assert (take (length c) a = c) as Hc.
  { rewrite <- (take_app_le a b) by done. by rewrite H, take_app_length. }
  assert (a = c ++ drop (length c) a) as Ha by (by rewrite <- Hc at 1; rewrite take_drop).
  split; [done|]. rewrite Ha, <- app_assoc in H. by apply app_inv_head in H.
Qed.

(** What a reader has kept back: nothing, or part of the next frame. *)
Definition pending (buffer : list Z) (frames : list Frame) : Prop :=
  match frames with
  | [] => buffer = []
  | frame :: _ => (length buffer < length (encoding frame))%nat
  end.

Lemma pending_bound limits buffer frames :
  0 <= max_frame_bytes limits → Forall (frame_ok limits) frames → pending buffer frames →
  Z.of_nat (length buffer) <= 15 + max_frame_bytes limits.
Proof.
  intros H0 Hf Hp. destruct frames as [|frame frames].
  - unfold pending in Hp. subst. cbn. lia.
  - apply Forall_cons in Hf as [[_ _ Hl _] _]. unfold pending in Hp.
    rewrite encoding_length in Hp. lia.
Qed.

Lemma pending_whole buffer frames : pending buffer frames → buffer = stream frames → frames = [].
Proof.
  destruct frames as [|frame frames]; [done|]. intros Hp ->. unfold pending, stream in Hp.
  cbn [map concat] in Hp. rewrite length_app in Hp. lia.
Qed.

Section Reassembly.
Context (limits : TransportLimits) (Hok : ok (validate_transport limits) = true).

Lemma next_spec buffer rest frames :
  Forall (frame_ok limits) frames → buffer ++ rest = stream frames →
  (pending buffer frames ∧
   reader_next (mkReader limits buffer) = (mkReader limits buffer, None, success)) ∨
  (∃ frame frames' buffer', frames = frame :: frames' ∧
     length buffer = (length (encoding frame) + length buffer')%nat ∧
     buffer' ++ rest = stream frames' ∧
     reader_next (mkReader limits buffer) = (mkReader limits buffer', Some frame, success)).
Proof.
  intros Hf H. destruct frames as [|frame frames].
  { left. apply app_eq_nil in H as [-> _]. done. }
  apply Forall_cons in Hf as [Hf _]. unfold stream in H. cbn [map concat] in H.
  destruct (decide (length buffer < length (encoding frame))%nat) as [Hlt|Hge].
  - left. split; [done|]. pose proof (take_of_app _ _ _ _ H Hlt) as ->.
    unfold reader_next. cbn [rd_buffer rd_limits]. rewrite decode_prefix by done.
    by destruct (take _ (encoding frame)).
  - right. destruct (split_of_app _ _ _ _ H) as (buffer' & -> & H'); [lia|].
    exists frame, frames, buffer'. split_and!; [done|apply length_app|done|].
    unfold reader_next. cbn [rd_buffer rd_limits]. rewrite decode_encoding by done.
    rewrite ok_success. cbn [negb df_complete df_consumed df_frame].
    rewrite from_app by done. destruct (encoding frame ++ buffer') eqn:E; [|done].
    apply (f_equal length) in E. rewrite length_app, encoding_length in E. cbn in E. lia.
Qed.

Lemma drain_spec fuel buffer rest frames :
  Forall (frame_ok limits) frames → buffer ++ rest = stream frames →
  (length buffer < fuel)%nat →
  ∃ taken left buffer', frames = taken ++ left ∧ pending buffer' left ∧
    buffer' ++ rest = stream left ∧
    drain fuel (mkReader limits buffer) = (mkReader limits buffer', taken, success).
Proof.
  revert buffer frames. induction fuel as [|fuel IH]; intros buffer frames Hf H Hfuel; [lia|].
  cbn [drain]. destruct (next_spec buffer rest frames Hf H)
    as [[Hp ->]|(frame & frames' & buffer' & -> & Hlen & H' & ->)].
  - exists [], frames, buffer. done.
  - apply Forall_cons in Hf as [_ Hf]. rewrite encoding_length in Hlen.
    destruct (IH buffer' frames' Hf H') as (taken & left & last & -> & Hp & Hl & ->); [lia|].
    by exists (frame :: taken), left, last.
Qed.

Context (Hwidth : max_connection_buffer_bytes limits <= u64_max).

Lemma feed_spec pieces buffer frames :
  0 <= max_frame_bytes limits →
  Forall (frame_ok limits) frames → pending buffer frames →
  buffer ++ concat pieces = stream frames →
  Forall (λ piece, 15 + max_frame_bytes limits + Z.of_nat (length piece) <=
                   max_connection_buffer_bytes limits) pieces →
  feed pieces (mkReader limits buffer) = (mkReader limits [], frames, success).
Proof.
  intros H0. revert buffer frames. induction pieces as [|piece pieces IH];
    intros buffer frames Hf Hp H Hroom.
  { cbn in *. rewrite app_nil_r in H. pose proof (pending_whole _ _ Hp H) as ->. by subst. }
  apply Forall_cons in Hroom as [Hroom Hrest]. pose proof (pending_bound _ _ _ H0 Hf Hp).
  cbn [feed]. unfold reader_append. cbn [rd_buffer rd_limits].
  rewrite add_u64_spec by (unfold is_u64; lia). is_true (_ + _ <=? u64_max).
  is_false (max_connection_buffer_bytes limits <? _). 
  rewrite ok_success. cbn [negb rd_buffer rd_limits].
  cbn [concat] in H. rewrite app_assoc in H.
  destruct (drain_spec (S (length (buffer ++ piece))) _ _ _ Hf H)
    as (taken & left & buffer' & -> & Hp' & H' & ->); [lia|].
  rewrite ok_success. cbn [negb]. apply Forall_app in Hf as [_ Hf]. by rewrite (IH buffer' left).
Qed.
End Reassembly.

(** C14: a byte stream is cut back into the frames that were written to it.  However
    the encodings of a sequence of frames are cut into reads, a fresh reader fed
    the reads in order takes out exactly those frames, in that order, without an
    error and with nothing left over, provided the connection's buffer has room
    for one unfinished frame and one read. *)
Theorem reassembly (limits : TransportLimits) (frames : list Frame) (pieces : list (list Z)) :
  ok (validate_transport limits) = true →
  0 <= max_frame_bytes limits → max_connection_buffer_bytes limits <= u64_max →
  Forall (frame_ok limits) frames →
  (∀ frame, frame ∈ frames → encode_frame frame limits = Value (encoding frame)) ∧
  (concat pieces = stream frames →
   Forall (λ piece, 15 + max_frame_bytes limits + Z.of_nat (length piece) <=
                    max_connection_buffer_bytes limits) pieces →
   feed pieces (mkReader limits []) = (mkReader limits [], frames, success)).
Proof.
  intros Hok H0 Hw Hf. split.
  - intros frame Hin. apply encode_encoding; [done|]. by eapply list.Forall_forall in Hf.
  - intros H Hroom. apply feed_spec; try done.
    destruct frames as [|frame frames]; [done|]. unfold pending. rewrite encoding_length. cbn. lia.
Qed.

(** The two frames, cut inside the first header and inside the second payload. *)
Lemma reassembly_witness :
  feed [take 5 (stream [example_hello; example_batch]);
        take 33 (drop 5 (stream [example_hello; example_batch]));
        drop 38 (stream [example_hello; example_batch])]
    (mkReader default_transport_limits []) =
  (mkReader default_transport_limits [], [example_hello; example_batch], success).
Proof.
  refine (proj2 (reassembly default_transport_limits [example_hello; example_batch] _ _ _ _
            example_frames_ok) _ _).
  - vm_compute. reflexivity.
  - cbn. lia.
  - cbn. unfold u64_max. lia.
  - vm_compute. reflexivity.
  - repeat constructor; vm_compute; discriminate.
Defined.

(** The length field holds 32 bits, and no check keeps a payload within them: the
    header of a frame of exactly 2^32 payload bytes declares a length of zero. *)
Lemma long_payload_is_truncated limits frame :
  ok (validate_transport limits) = true →
  Z.of_nat (length (fr_payload frame)) = 4294967296 →
  4294967296 <= max_frame_bytes limits →
  ∃ bytes, encode_frame frame limits = Value bytes ∧ load_u32 (from 8 bytes) = 0.
Proof.
  intros Hok Hlen Hmax. unfold encode_frame. rewrite Hok, Hlen. cbn [negb].
  is_false (max_frame_bytes limits <? 4294967296). eexists. split; [reflexivity|].
  unfold header_middle. rewrite Hlen. change (wrap_u32 4294967296) with 0.
  generalize (store_u32 (frame_crc (store_u16 kFrameVersion ++
    [FrameType.number (fr_type frame); fr_flags frame] ++ store_u32 0) (fr_payload frame)) ++
    fr_payload frame). done.
Qed.
