(* ===== verification/Ring.v ===== *)
(** * Circular buffers

    The storage, head and size that [HistoryRing] ([store/History.cpp]) and
    [BucketAccumulator] ([store/Window.cpp]) both keep, with the index arithmetic
    of their operations; [ring_list] is the sequence a ring holds, oldest first,
    and the lemmas say what each operation does to it. *)

From S2P Require Import Prelude.

Section ring.
Context {A : Type} (d : A).

(** [size_t] indices are natural numbers; the capacity is the length of the
    storage. *)
Record Ring := mkRing { storage : list A; head : nat; size : nat }.

Definition capacity (r : Ring) : nat := length (storage r).

(** [storage_[(head_ + index) % capacity_]] *)
Definition slot (r : Ring) (index : nat) : nat := (head r + index) mod capacity r.
Definition ring_at (r : Ring) (index : nat) : A := nth (slot r index) (storage r) d.

(** [for (index = 0; index < size_; ++index) out.push_back(at(index))] *)
Definition ring_list (r : Ring) : list A := map (ring_at r) (seq 0 (size r)).

Definition ring_make (n : nat) : Ring := mkRing (replicate n d) 0 0.

(** Assign slot [index]. *)
Definition ring_set (index : nat) (x : A) (r : Ring) : Ring :=
  mkRing (<[slot r index := x]> (storage r)) (head r) (size r).
(** Write behind the last element and grow. *)
Definition ring_append (x : A) (r : Ring) : Ring :=
  mkRing (<[slot r (size r) := x]> (storage r)) (head r) (S (size r)).
(** Write over the oldest element and move the head past it. *)
Definition ring_replace (x : A) (r : Ring) : Ring :=
  mkRing (<[head r := x]> (storage r)) ((head r + 1) mod capacity r) (size r).
(** Blank the oldest element and drop it. *)
Definition ring_drop (r : Ring) : Ring :=
  mkRing (<[head r := d]> (storage r)) ((head r + 1) mod capacity r) (size r - 1).

Record ring_wf (r : Ring) : Prop := {
  rw_head : (capacity r = 0 ∨ head r < capacity r)%nat;
  rw_size : (size r ≤ capacity r)%nat
}.

Lemma ring_make_wf n : ring_wf (ring_make n).
Proof. unfold ring_make. split; cbn; rewrite ?length_replicate; [|lia]. destruct n; [left|right]; cbn; rewrite ?length_replicate; lia. Qed.

Lemma ring_list_make n : ring_list (ring_make n) = [].
Proof. done. Qed.

Lemma ring_list_length r : length (ring_list r) = size r.
Proof. unfold ring_list. by rewrite length_map, length_seq. Qed.

Lemma slot_lt r i : capacity r ≠ 0 → slot r i < capacity r.
Proof. intros H. by apply Nat.mod_upper_bound. Qed.

Lemma slot_inj r i j : ring_wf r → i < capacity r → j < capacity r → slot r i = slot r j → i = j.
Proof.
  intros [[?|Hh] _] Hi Hj; [lia|]. unfold slot. intros Heq.
  pose proof (Nat.div_mod (head r + i) (capacity r) ltac:(lia)) as E1.
  pose proof (Nat.div_mod (head r + j) (capacity r) ltac:(lia)) as E2.
  rewrite Heq in E1.
  assert ((head r + i) / capacity r < 2) by (apply Nat.Div0.div_lt_upper_bound; lia).
  assert ((head r + j) / capacity r < 2) by (apply Nat.Div0.div_lt_upper_bound; lia).
  set (q1 := (head r + i) / capacity r) in *. set (q2 := (head r + j) / capacity r) in *.
  set (m := (head r + j) mod capacity r) in *. clearbody q1 q2 m.
  assert (q1 = 0 ∨ q1 = 1) as [-> | ->] by lia; assert (q2 = 0 ∨ q2 = 1) as [-> | ->] by lia; lia.
Qed.

Lemma ring_list_lookup r i : i < size r → ring_list r !! i = Some (ring_at r i).
Proof.
  intros H. unfold ring_list. rewrite list_lookup_fmap, lookup_seq_lt by done. done.
Qed.

Lemma ring_list_ext r (l : list A) :
  length l = size r → (∀ i, i < size r → l !! i = Some (ring_at r i)) → ring_list r = l.
Proof.
  intros Hlen H. apply list_eq_same_length with (size r); [done|apply ring_list_length|].
  intros i x y Hi Hx Hy. rewrite ring_list_lookup in Hx by done. rewrite H in Hy by done. congruence.
Qed.

(** Reading a slot after another was written. *)
Lemma nth_insert (s : list A) i j x :
  i < length s → nth j (<[i := x]> s) d = if decide (i = j) then x else nth j s d.
Proof.
  intros H. rewrite !nth_lookup. destruct (decide (i = j)) as [->|Hne].
  - by rewrite list_lookup_insert_eq.
  - by rewrite list_lookup_insert_ne.
Qed.

Lemma slot_same r r' i :
  capacity r' = capacity r → head r' = head r → slot r' i = slot r i.
Proof. unfold slot. by intros -> ->. Qed.

Lemma slot_next r r' i :
  capacity r ≠ 0 → capacity r' = capacity r → head r' = ((head r + 1) mod capacity r)%nat →
  slot r' i = slot r (S i).
Proof.
  unfold slot. intros Hc -> ->. rewrite Nat.Div0.add_mod_idemp_l. f_equal. lia.
Qed.

Lemma capacity_insert s i x h n : capacity (mkRing (<[i := x]> s) h n) = length s.
Proof. apply length_insert. Qed.

Lemma ring_set_capacity i x r : capacity (ring_set i x r) = capacity r.
Proof. apply length_insert. Qed.
Lemma ring_append_capacity x r : capacity (ring_append x r) = capacity r.
Proof. apply length_insert. Qed.
Lemma ring_replace_capacity x r : capacity (ring_replace x r) = capacity r.
Proof. apply length_insert. Qed.
Lemma ring_drop_capacity r : capacity (ring_drop r) = capacity r.
Proof. apply length_insert. Qed.

Lemma ring_append_wf x r : ring_wf r → size r < capacity r → ring_wf (ring_append x r).
Proof.
  intros [H1 H2] H. split; unfold ring_append; rewrite capacity_insert; cbn; [exact H1|].
  unfold capacity in *. lia.
Qed.

Lemma ring_append_list x r :
  ring_wf r → size r < capacity r → ring_list (ring_append x r) = ring_list r ++ [x].
Proof.
  intros Hwf H. apply ring_list_ext; [rewrite length_app, ring_list_length; cbn; lia|].
  cbn [ring_append size]. intros i Hi.
  unfold ring_at. rewrite (slot_same r) by (done || apply capacity_insert).
  cbn [ring_append storage]. rewrite nth_insert by (apply slot_lt; lia).
  destruct (decide (slot r (size r) = slot r i)) as [Heq|Hne].
  - apply slot_inj in Heq as <-; [|done|lia|lia].
    rewrite lookup_app_r by (rewrite ring_list_length; lia).
    by rewrite ring_list_length, Nat.sub_diag.
  - assert (i ≠ size r) by (intros ->; done).
    rewrite lookup_app_l by (rewrite ring_list_length; lia).
    apply ring_list_lookup. lia.
Qed.

Lemma step_head_lt r : capacity r ≠ 0 → (head r + 1) mod capacity r < capacity r.
Proof. intros H. by apply Nat.mod_upper_bound. Qed.

Lemma ring_replace_wf x r : ring_wf r → capacity r ≠ 0 → ring_wf (ring_replace x r).
Proof.
  intros [H1 H2] H. split; unfold ring_replace; rewrite capacity_insert; cbn; [|exact H2].
  right. by apply step_head_lt.
Qed.

Lemma slot_zero r : ring_wf r → capacity r ≠ 0 → slot r 0 = head r.
Proof. intros [[?|H] _] Hc; [done|]. unfold slot. rewrite Nat.add_0_r. by apply Nat.mod_small. Qed.

Lemma slot_full r : ring_wf r → capacity r ≠ 0 → slot r (capacity r) = head r.
Proof.
  intros [[?|H] _] Hc; [done|]. unfold slot.
  rewrite Nat.Div0.add_mod, Nat.Div0.mod_same, Nat.add_0_r, Nat.Div0.mod_mod.
  by apply Nat.mod_small.
Qed.

Lemma ring_replace_list x r :
  ring_wf r → size r = capacity r → capacity r ≠ 0 →
  ring_list (ring_replace x r) = tail (ring_list r) ++ [x].
Proof.
  intros Hwf Hs Hc.
  assert (length (tail (ring_list r)) = size r - 1) as Hlt
    by (rewrite <- ring_list_length; destruct (ring_list r); cbn; lia).
  apply ring_list_ext; [rewrite length_app, Hlt; cbn; lia|].
  cbn [ring_replace size]. intros i Hi.
  unfold ring_at. rewrite (slot_next r) by (done || apply capacity_insert).
  cbn [ring_replace storage].
  rewrite nth_insert by (destruct Hwf as [[?|?] _]; done).
  destruct (decide (S i = size r)) as [Hlast|Hne].
  - rewrite Hlast, Hs, slot_full by done. rewrite decide_True by done.
    rewrite lookup_app_r by (rewrite Hlt; lia). by replace (i - length (tail (ring_list r))) with 0 by (rewrite Hlt; lia).
  - rewrite decide_False.
    + rewrite lookup_app_l by lia. rewrite lookup_tail. apply ring_list_lookup. lia.
    + rewrite <- (slot_zero r) by done. intros Heq. apply slot_inj in Heq; [lia|done|lia|lia].
Qed.

Lemma ring_drop_wf r : ring_wf r → capacity r ≠ 0 → ring_wf (ring_drop r).
Proof.
  intros [H1 H2] H. split; unfold ring_drop; rewrite capacity_insert; cbn.
  - right. by apply step_head_lt.
  - unfold capacity in *. lia.
Qed.

Lemma ring_drop_list r :
  ring_wf r → 0 < size r → ring_list (ring_drop r) = tail (ring_list r).
Proof.
  intros Hwf Hs. pose proof (rw_size _ Hwf).
  assert (length (tail (ring_list r)) = size r - 1) as Hlt
    by (rewrite <- ring_list_length; destruct (ring_list r); cbn; lia).
  apply ring_list_ext; [by rewrite Hlt|]. cbn [ring_drop size]. intros i Hi.
  unfold ring_at. rewrite (slot_next r) by (lia || done || apply capacity_insert).
  cbn [ring_drop storage].
  rewrite nth_insert by (destruct Hwf as [[?|?] _]; [lia|done]).
  rewrite decide_False.
  - rewrite lookup_tail. apply ring_list_lookup. lia.
  - rewrite <- (slot_zero r) by (done || lia). intros Heq. apply slot_inj in Heq; [lia|done|lia|lia].
Qed.

Lemma ring_set_wf i x r : ring_wf r → ring_wf (ring_set i x r).
Proof.
  intros [H1 H2]. split; unfold ring_set; rewrite capacity_insert; cbn; [exact H1|exact H2].
Qed.

Lemma ring_set_list i x r :
  ring_wf r → i < size r → ring_list (ring_set i x r) = <[i := x]> (ring_list r).
Proof.
  intros Hwf Hi. pose proof (rw_size _ Hwf).
  apply ring_list_ext; [by rewrite length_insert, ring_list_length|].
  cbn [ring_set size]. intros j Hj.
  unfold ring_at. rewrite (slot_same r) by (done || apply capacity_insert).
  cbn [ring_set storage]. rewrite nth_insert by (apply slot_lt; lia).
  destruct (decide (i = j)) as [->|Hne].
  - rewrite decide_True by done. apply list_lookup_insert_eq. by rewrite ring_list_length.
  - rewrite decide_False by (intros Heq; apply slot_inj in Heq; [done|done|lia|lia]).
    rewrite list_lookup_insert_ne by done. by apply ring_list_lookup.
Qed.
End ring.
Arguments Ring : clear implicits.
Arguments mkRing {A} _ _ _.

#[export] Hint Resolve ring_make_wf ring_append_wf ring_replace_wf ring_drop_wf ring_set_wf : qobs.
#[export] Hint Rewrite @ring_set_capacity @ring_append_capacity @ring_replace_capacity
  @ring_drop_capacity : qobs.
