(* ===== verification/History.v ===== *)
(** * History

    [store/History.hpp] and [store/History.cpp]: the retained record of an
    observation and the fixed-capacity ring of records of one queue. *)

From Stdlib Require Import Sorting.Sorted.
From S2P Require Import Prelude Result Text Identity Time Evidence Sample Counter Policy Ring.
Open Scope Z_scope.

Record HistoryRecord := mkRecord {
  hr_received : ReceiveTime;
  hr_observed : ObservationTime;
  hr_source : SourceId;
  hr_generation : GenerationId;
  hr_incarnation_ordinal : IncarnationOrdinal;
  hr_sequence : SourceSequence;
  hr_authority : SourceAuthority;
  hr_reported : FieldMask;
  hr_freshness : Freshness;
  hr_quality : EvidenceQuality;
  hr_flags : EvidenceFlags;
  hr_age_ns : Nanos;
  hr_values : list Z; (* values[kSampleFieldCount] *)
  hr_deltas : list CounterDelta; (* deltas[kSampleFieldCount] *)
  hr_state : PressureState;
  hr_state_digest : Z
}.
#[export] Instance HistoryRecord_eq_dec : EqDecision HistoryRecord.
Proof. solve_decision. Defined.

Definition empty_record : HistoryRecord :=
  mkRecord no_receive no_observation EmptyString 0 0 0 SourceAuthority.Unknown 0 Freshness.Unknown
    EvidenceQuality.Unknown 0 0 (replicate kSampleFieldCount 0) (replicate kSampleFieldCount no_delta)
    PressureState.Unknown 0.

Definition record_value (r : HistoryRecord) (field : SampleField) : option Z :=
  if (kSampleFieldCount <=? SampleField.index field)%nat || negb (has_field (hr_reported r) field)
  then None else Some (nth (SampleField.index field) (hr_values r) 0).

Definition record_delta (r : HistoryRecord) (field : SampleField) : CounterDelta :=
  if (SampleField.index field <? kSampleFieldCount)%nat
  then nth (SampleField.index field) (hr_deltas r) no_delta else no_delta.

Definition establishes_current (r : HistoryRecord) : bool :=
  establishes_current_pressure
    (mkAssessment (hr_freshness r) (hr_quality r) Provenance.Unknown (hr_authority r) (hr_flags r)
       (hr_age_ns r) EmptyString).

(** [capacity_] is always the length of [storage_]. *)
Record HistoryRing := mkHistory { hs_ring : Ring HistoryRecord; hs_evicted : Z }.

(** A default-constructed ring. *)
Definition no_history : HistoryRing := mkHistory (mkRing [] 0 0) 0.

Definition history_reserve (n : nat) : HistoryRing := mkHistory (ring_make empty_record n) 0.

Definition history_clear (h : HistoryRing) : HistoryRing :=
  mkHistory (mkRing (storage (hs_ring h)) 0 0) 0.

Definition history_capacity (h : HistoryRing) : nat := capacity (hs_ring h).
Definition history_size (h : HistoryRing) : nat := size (hs_ring h).

Definition history_push (record : HistoryRecord) (h : HistoryRing) : HistoryRing :=
  let r := hs_ring h in
  if (capacity r =? 0)%nat then mkHistory r (wrap_u64 (hs_evicted h + 1))
  else if (size r <? capacity r)%nat then mkHistory (ring_append record r) (hs_evicted h)
  else mkHistory (ring_replace record r) (wrap_u64 (hs_evicted h + 1)).

Definition history_at (h : HistoryRing) (index : nat) : HistoryRecord :=
  if (history_size h <=? index)%nat || (history_capacity h =? 0)%nat then empty_record
  else ring_at empty_record (hs_ring h) index.

(** [at(size_ - 1u)]: on an empty ring the index wraps, and [at] answers with
    the empty record. *)
Definition history_newest (h : HistoryRing) : HistoryRecord :=
  match history_size h with O => empty_record | S n => history_at h n end.

Definition history_snapshot (h : HistoryRing) : list HistoryRecord :=
  map (history_at h) (seq 0 (history_size h)).

(** The scan from the newest end; [remaining] records are left to visit. *)
Fixpoint since_loop (h : HistoryRing) (steady_ns : Nanos) (remaining : nat)
    (out : list HistoryRecord) : list HistoryRecord :=
  match remaining with
  | O => out
  | S remaining =>
      let record := history_at h remaining in
      if steady (hr_received record) <? steady_ns then out
      else since_loop h steady_ns remaining (out ++ [record])
  end.
Definition history_since (h : HistoryRing) (steady_ns : Nanos) : list HistoryRecord :=
  rev (since_loop h steady_ns (history_size h) []).

(** ** What the ring holds *)

Definition history_wf (h : HistoryRing) : Prop := ring_wf (hs_ring h).

Lemma history_snapshot_list h : history_wf h → history_snapshot h = ring_list empty_record (hs_ring h).
Proof.
  intros [_ Hs]. apply map_ext_in. intros i Hi%in_seq. unfold history_at, history_size, history_capacity.
  rewrite (proj2 (Nat.leb_gt _ _)) by lia. destruct (Nat.eqb_spec (capacity (hs_ring h)) 0); [lia|done].
Qed.

Lemma history_push_wf record h : history_wf h → history_wf (history_push record h).
Proof.
  intros Hwf. unfold history_push, history_wf.
  destruct (Nat.eqb_spec (capacity (hs_ring h)) 0); [done|].
  destruct (Nat.ltb_spec (size (hs_ring h)) (capacity (hs_ring h)));
    cbn [hs_ring]; auto with qobs.
Qed.

Lemma history_reserve_wf n : history_wf (history_reserve n).
Proof. apply ring_make_wf. Qed.

Lemma history_push_capacity record h : history_capacity (history_push record h) = history_capacity h.
Proof.
  unfold history_push, history_capacity.
  destruct (_ =? 0)%nat; [done|]. destruct (_ <? _)%nat; apply capacity_insert.
Qed.

Lemma history_push_list record h :
  history_wf h →
  history_snapshot (history_push record h) =
    keep_last (history_capacity h) (history_snapshot h ++ [record]).
Proof.
  intros Hwf. rewrite !history_snapshot_list by auto using history_push_wf.
  pose proof (ring_list_length empty_record (hs_ring h)) as Hlen.
  destruct (Hwf) as [_ Hsize]. unfold history_push, keep_last, history_capacity.
  rewrite length_app, Hlen. cbn [length].
  destruct (Nat.eqb_spec (capacity (hs_ring h)) 0) as [H0|H0].
  { rewrite H0 in *. assert (size (hs_ring h) = 0%nat) as Hz by lia. rewrite Hz in *.
    by destruct (ring_list _ _). }
  destruct (Nat.ltb_spec (size (hs_ring h)) (capacity (hs_ring h))).
  - replace (size (hs_ring h) + 1 - _)%nat with 0%nat by lia. by apply ring_append_list.
  - replace (size (hs_ring h) + 1 - _)%nat with 1%nat by lia. cbn [hs_ring].
    rewrite ring_replace_list by (done || lia).
    destruct (ring_list empty_record (hs_ring h)); [cbn in Hlen; lia|done].
Qed.

Definition push_all (h : HistoryRing) (records : list HistoryRecord) : HistoryRing :=
  fold_left (λ h r, history_push r h) records h.

Lemma history_push_evicted record h records :
  history_wf h → Z.of_nat (length records + 1) <= u64_max →
  history_snapshot h = keep_last (history_capacity h) records →
  hs_evicted h = Z.of_nat (length records - history_capacity h) →
  hs_evicted (history_push record h) = Z.of_nat (length records + 1 - history_capacity h).
Proof.
  intros Hwf Hlen Hs He.
  assert (size (hs_ring h) = length (keep_last (history_capacity h) records)) as Hsz
    by (by rewrite <- Hs, history_snapshot_list, ring_list_length).
  unfold keep_last in Hsz. rewrite length_drop in Hsz.
  unfold history_push. rewrite Hsz, He. unfold history_capacity in *.
  set (n := capacity (hs_ring h)) in *. clearbody n.
  destruct (Nat.eqb_spec n 0); [|destruct (Nat.ltb_spec (length records - (length records - n)) n)];
    cbn [hs_evicted]; rewrite ?wrap_u64_id by word_lia; lia.
Qed.

Lemma history_pushes more records h :
  history_wf h → history_snapshot h = keep_last (history_capacity h) records →
  hs_evicted h = Z.of_nat (length records - history_capacity h) →
  Z.of_nat (length (records ++ more)) <= u64_max →
  history_wf (push_all h more) ∧
  history_snapshot (push_all h more) = keep_last (history_capacity h) (records ++ more) ∧
  hs_evicted (push_all h more) = Z.of_nat (length (records ++ more) - history_capacity h).
Proof.
  unfold push_all. revert records h.
  induction more as [|r more IH]; intros records h Hwf Hs He Hlen; cbn [fold_left].
  { by rewrite app_nil_r. }
  rewrite <- (history_push_capacity r h).
  replace (records ++ r :: more) with ((records ++ [r]) ++ more) in * by (by rewrite <- app_assoc).
  apply IH; [by apply history_push_wf| | |done]; rewrite history_push_capacity.
  - by rewrite history_push_list, Hs, keep_last_app.
  - rewrite !length_app in *. cbn [length] in *. apply history_push_evicted; done || lia.
Qed.

(** The ring of a queue is the newest records, in order.  After any
    sequence of pushes into a ring of capacity [n] the snapshot is the last [n]
    of them, oldest first; the newest one is the last pushed; and every record
    that is no longer held was counted as evicted. *)
Theorem history_keeps_newest (n : nat) (records : list HistoryRecord) :
  Z.of_nat (length records) <= u64_max →
  let h := push_all (history_reserve n) records in
  history_snapshot h = keep_last n records ∧
  hs_evicted h = Z.of_nat (length records - n) ∧
  ((0 < n)%nat → ∀ r, last records = Some r → history_newest h = r).
Proof.
  intros Hlen. cbv zeta.
  assert (history_capacity (history_reserve n) = n) as Hc by apply length_replicate.
  destruct (history_pushes records [] (history_reserve n)) as (Hwf & Hs & He);
    rewrite ?Hc in *; [apply history_reserve_wf|done|done|done|].
  cbn [app] in *. split_and!; [done|done|]. intros Hn r Hr.
  set (h := push_all _ _) in *.
  assert (history_size h = length (keep_last n records)) as Hsize
    by (by rewrite <- Hs, history_snapshot_list, ring_list_length).
  apply last_Some in Hr as [init ->]. unfold keep_last in *.
  rewrite length_drop, length_app in Hsize. cbn [length] in Hsize.
  unfold history_newest. destruct (history_size h) as [|k] eqn:Hk; [lia|].
  assert (history_snapshot h !! k = Some r) as Hget.
  { rewrite Hs, lookup_drop, length_app. cbn [length].
    rewrite lookup_app_r by lia.
    by replace (length init + 1 - n + k - length init)%nat with 0%nat by lia. }
  unfold history_snapshot in Hget. rewrite list_lookup_fmap, Hk, lookup_seq_lt in Hget by lia.
  by injection Hget.
Qed.

Definition numbered (n : Z) : HistoryRecord :=
  mkRecord (mkReceive n n) no_observation "agent" 1 1 n SourceAuthority.Primary 0 Freshness.Fresh
    EvidenceQuality.Complete 0 0 [] [] PressureState.Normal 0.

Lemma history_keeps_newest_witness :
  history_snapshot (push_all (history_reserve 2) [numbered 1; numbered 2; numbered 3])
  = [numbered 2; numbered 3].
Proof. apply (history_keeps_newest 2 [numbered 1; numbered 2; numbered 3]). cbn. word_lia. Defined.

(** ** [since] *)

Fixpoint suffix_since (t : Nanos) (newest_first : list HistoryRecord) : list HistoryRecord :=
  match newest_first with
  | [] => []
  | r :: rest => if steady (hr_received r) <? t then [] else r :: suffix_since t rest
  end.

Lemma since_loop_spec h t n out :
  (n <= history_size h)%nat →
  since_loop h t n out = out ++ suffix_since t (rev (take n (history_snapshot h))).
Proof.
  revert out. induction n as [|n IH]; intros out Hn; cbn [since_loop].
  { by rewrite app_nil_r. }
  assert (history_snapshot h !! n = Some (history_at h n)) as Hget.
  { unfold history_snapshot. by rewrite list_lookup_fmap, lookup_seq_lt. }
  rewrite (take_S_r _ _ _ Hget), rev_app_distr. cbn.
  destruct (_ <? t); [by rewrite app_nil_r|]. rewrite IH by lia. by rewrite <- app_assoc.
Qed.

Lemma suffix_since_filter t rs :
  Sorted (λ a b, steady (hr_received b) <= steady (hr_received a)) rs →
  suffix_since t rs = filter (λ r, t <= steady (hr_received r)) rs.
Proof.
  intros Hs. apply Sorted_StronglySorted in Hs; [|intros a b c ??; lia].
  induction Hs as [|r rs _ IH Hall]; [done|]. cbn [suffix_since].
  destruct (Z.ltb_spec (steady (hr_received r)) t).
  - rewrite filter_cons_False by lia. symmetry. clear IH.
    induction Hall as [|r' rs ? Hall IH]; [done|]. rewrite filter_cons_False by lia. exact IH.
  - rewrite filter_cons_True by lia. by rewrite IH.
Qed.

Lemma filter_rev {A} (P : A → Prop) `{!∀ x, Decision (P x)} (l : list A) :
  filter P (rev l) = rev (filter P l).
Proof.
  induction l as [|x l IH]; [done|]. cbn [rev]. rewrite filter_app, IH.
  destruct (decide (P x)).
  - by rewrite !filter_cons_True.
  - rewrite !filter_cons_False by done. by rewrite app_nil_r.
Qed.

(** Asking a ring for the records since an instant gives exactly the
    retained records received at or after it, in order, whenever the ring is in
    receive order (as it is for samples that this runtime's clock stamps): stopping
    the scan at the first older record loses nothing. *)
Theorem history_since_filter (h : HistoryRing) (t : Nanos) :
  Sorted (λ a b, steady (hr_received b) <= steady (hr_received a)) (rev (history_snapshot h)) →
  history_since h t = filter (λ r, t <= steady (hr_received r)) (history_snapshot h).
Proof.
  intros Hs. unfold history_since. rewrite since_loop_spec by done. cbn [app].
  assert (length (history_snapshot h) = history_size h) as Hl
    by (unfold history_snapshot; by rewrite length_map, length_seq).
  rewrite firstn_all2, suffix_since_filter by (done || lia).
  by rewrite filter_rev, rev_involutive.
Qed.

Lemma history_since_filter_witness :
  history_since (push_all (history_reserve 2) [numbered 1; numbered 2; numbered 3]) 3 = [numbered 3].
Proof.
  rewrite history_since_filter; [reflexivity|].
  vm_compute. repeat constructor; discriminate.
Defined.
