(* ===== verification/Window.v ===== *)
(** * Windows

    [store/Window.hpp] and [store/Window.cpp]: bucketed accumulation of
    observations over a sliding window, its aggregate and the burst evidence.

    The accumulator is a ring of buckets.  [place] and [observe_list] are the
    same operations on the plain list of buckets, oldest first, and
    [observe_refines] says that the ring implements them; what a window
    guarantees is then proved on the list. *)

From S2P Require Import Prelude Result Checked Text Identity Time Evidence Sample Counter Ring.
Open Scope Z_scope.
Open Scope word_scope.

(** [accumulate]: the new accumulator, and [false] when the sum overflowed. *)
Definition accumulate (accumulator value : Z) : Z * bool :=
  match add_u64 accumulator value with
  | None => (u64_max, false)
  | Some sum => (sum, true)
  end.

Definition subtract_clamped (value delta : Nanos) : Nanos :=
  if delta <=? 0 then value
  else if value <? i64_min +s delta then i64_min
  else value -s delta.

Definition align_bucket (value bucket_ns : Nanos) : Nanos :=
  if bucket_ns <=? 0 then value
  else
    let quotient := Z.quot value bucket_ns in
    let remainder := Z.rem value bucket_ns in
    (if remainder <? 0 then quotient - 1 else quotient) *s bucket_ns.

Record WindowSpec := mkWindowSpec {
  ws_name : string;
  ws_duration_ns : Nanos;
  ws_bucket_ns : Nanos;
  ws_min_covered_buckets : Z;
  ws_max_buckets : Z
}.
#[export] Instance WindowSpec_eq_dec : EqDecision WindowSpec.
Proof. solve_decision. Defined.
Definition no_window_spec : WindowSpec := mkWindowSpec EmptyString 0 0 1 64.

Definition window_buckets (spec : WindowSpec) : option Z :=
  div_ceil_u64 (ws_duration_ns spec) (ws_bucket_ns spec).

Definition validate_window_spec (spec : WindowSpec) : Status :=
  if bool_decide (ws_name spec = EmptyString) then
    failure ErrorCode.InvalidArgument "window spec requires a name"
  else if ws_duration_ns spec <=? 0 then
    failure ErrorCode.InvalidArgument "window duration must be a positive duration"
  else if ws_bucket_ns spec <=? 0 then
    failure ErrorCode.InvalidArgument "window bucket must be a positive duration"
  else if ws_duration_ns spec <? ws_bucket_ns spec then
    failure ErrorCode.InvalidArgument "window bucket must not be longer than the window"
  else if ws_max_buckets spec =? 0 then
    failure ErrorCode.InvalidArgument "window bucket budget must be non-zero"
  else
    match window_buckets spec with
    | None => failure ErrorCode.Overflow "window bucket count overflows"
    | Some bucket_count =>
        if ws_max_buckets spec <? bucket_count then
          failure ErrorCode.LimitExceeded
            "window requires more buckets than the specification allows"
        else if ws_min_covered_buckets spec =? 0 then
          failure ErrorCode.InvalidArgument "window requires at least one covered bucket"
        else if bucket_count <? ws_min_covered_buckets spec then
          failure ErrorCode.InvalidArgument "window coverage requirement exceeds its bucket count"
        else success
    end.

(** The six counter sums that a bucket and an aggregate both have. *)
Record CounterSums := mkSums {
  sum_drops : Z;
  sum_marks : Z;
  sum_pause_frames : Z;
  sum_pause_nanos : Z;
  sum_enqueues : Z;
  sum_dequeues : Z
}.
Definition no_sums : CounterSums := mkSums 0 0 0 0 0 0.

(** [sample_count] is a [size_t], the occupancy fields are grouped in an option:
    [has_occupancy] with the maximum, the minimum and the last value. *)
Record WindowBucket := mkBucket {
  wb_start_ns : Nanos;
  wb_sample_count : Z;
  wb_occupancy : option (Z * Z * Z);
  wb_sums : CounterSums;
  wb_unknown_delta_samples : Z;
  wb_non_current_samples : Z;
  wb_saturation_events : Z;
  wb_last_received_ns : Nanos
}.
Definition no_bucket : WindowBucket := mkBucket 0 0 None no_sums 0 0 0 0.
Definition bucket_at (start_ns : Nanos) : WindowBucket := mkBucket start_ns 0 None no_sums 0 0 0 0.

Record WindowObservation := mkWindowObservation {
  wo_steady_ns : Nanos;
  wo_occupancy : option Z;
  wo_drops : CounterDelta;
  wo_marks : CounterDelta;
  wo_pause_frames : CounterDelta;
  wo_pause_duration : CounterDelta;
  wo_enqueues : CounterDelta;
  wo_dequeues : CounterDelta;
  wo_establishes_current : bool;
  wo_any_delta_unknown : bool
}.

(** The [add_delta] lambda: the new sum and the saturation count. *)
Definition add_delta (target : Z) (delta : CounterDelta) (saturated : Z) : Z * Z :=
  if cd_known delta then
    let '(sum, fitted) := accumulate target (cd_delta delta) in
    (sum, if fitted then saturated else saturated +u 1)
  else (target, saturated).

Definition add_deltas (s : CounterSums) (o : WindowObservation) (saturated : Z) :
    CounterSums * Z :=
  let '(drops, n) := add_delta (sum_drops s) (wo_drops o) saturated in
  let '(marks, n) := add_delta (sum_marks s) (wo_marks o) n in
  let '(frames, n) := add_delta (sum_pause_frames s) (wo_pause_frames o) n in
  let '(nanos, n) := add_delta (sum_pause_nanos s) (wo_pause_duration o) n in
  let '(enqueues, n) := add_delta (sum_enqueues s) (wo_enqueues o) n in
  let '(dequeues, n) := add_delta (sum_dequeues s) (wo_dequeues o) n in
  (mkSums drops marks frames nanos enqueues dequeues, n).

Definition fold_occupancy (o : option (Z * Z * Z)) (value : option Z) : option (Z * Z * Z) :=
  match value, o with
  | None, _ => o
  | Some v, None => Some (v, v, v)
  | Some v, Some (hi, lo, _) => Some (if hi <? v then v else hi, if v <? lo then v else lo, v)
  end.

(** What [observe] does to the bucket it found. *)
Definition fold_bucket (o : WindowObservation) (b : WindowBucket) : WindowBucket :=
  let '(sums, saturated) := add_deltas (wb_sums b) o (wb_saturation_events b) in
  mkBucket (wb_start_ns b) (wb_sample_count b +u 1) (fold_occupancy (wb_occupancy b) (wo_occupancy o))
    sums
    (if wo_any_delta_unknown o then wb_unknown_delta_samples b +u 1 else wb_unknown_delta_samples b)
    (if negb (wo_establishes_current o) then wb_non_current_samples b +u 1
     else wb_non_current_samples b)
    saturated
    (if wb_last_received_ns b <? wo_steady_ns o then wo_steady_ns o else wb_last_received_ns b).

Record BucketAccumulator := mkAccumulator {
  ba_spec : WindowSpec;
  ba_configured : bool;
  ba_ring : Ring WindowBucket;
  ba_evicted : Z;
  ba_observations : Z;
  ba_late_dropped : Z
}.
Definition no_accumulator : BucketAccumulator :=
  mkAccumulator no_window_spec false (mkRing [] 0 0) 0 0 0.

Definition configure (spec : WindowSpec) (a : BucketAccumulator) : BucketAccumulator * Status :=
  let s := validate_window_spec spec in
  if ok s then
    (mkAccumulator spec true (ring_make no_bucket (Z.to_nat (default 0 (window_buckets spec)))) 0 0 0,
     success)
  else (a, s).

Definition accumulator_clear (a : BucketAccumulator) : BucketAccumulator :=
  mkAccumulator (ba_spec a) (ba_configured a) (ring_make no_bucket (capacity (ba_ring a))) 0 0 0.

(** The search from the newest bucket down; an index counts from the oldest. *)
Fixpoint find_bucket (r : Ring WindowBucket) (start_ns : Nanos) (remaining : nat) : option nat :=
  match remaining with
  | O => None
  | S n => if wb_start_ns (ring_at no_bucket r n) =? start_ns then Some n else find_bucket r start_ns n
  end.

(** [find_or_create_bucket]: the accumulator and the index from the oldest
    bucket, [None] being [kNoBucket]. *)
Definition find_or_create_bucket (start_ns : Nanos) (a : BucketAccumulator) :
    BucketAccumulator * option nat :=
  let r := ba_ring a in
  if (capacity r =? 0)%nat then (a, None)
  else
    match find_bucket r start_ns (size r) with
    | Some index => (a, Some index)
    | None =>
        if (0 <? size r)%nat && (start_ns <? wb_start_ns (ring_at no_bucket r 0)) then
          (mkAccumulator (ba_spec a) (ba_configured a) r (ba_evicted a) (ba_observations a)
             (ba_late_dropped a +u 1), None)
        else if (size r <? capacity r)%nat then
          (mkAccumulator (ba_spec a) (ba_configured a) (ring_append (bucket_at start_ns) r)
             (ba_evicted a) (ba_observations a) (ba_late_dropped a), Some (size r))
        else
          (mkAccumulator (ba_spec a) (ba_configured a) (ring_replace (bucket_at start_ns) r)
             (ba_evicted a +u 1) (ba_observations a) (ba_late_dropped a), Some (size r - 1)%nat)
    end.

(** The loop of [expire]; the size bounds the number of turns. *)
Fixpoint expire_loop (fuel : nat) (cutoff : Nanos) (a : BucketAccumulator) : BucketAccumulator :=
  match fuel with
  | O => a
  | S fuel =>
      if (0 <? size (ba_ring a))%nat && (wb_start_ns (ring_at no_bucket (ba_ring a) 0) <? cutoff)
      then expire_loop fuel cutoff
             (mkAccumulator (ba_spec a) (ba_configured a) (ring_drop no_bucket (ba_ring a))
                (ba_evicted a +u 1) (ba_observations a) (ba_late_dropped a))
      else a
  end.
Definition expire (now_ns : Nanos) (a : BucketAccumulator) : BucketAccumulator :=
  if (capacity (ba_ring a) =? 0)%nat || (size (ba_ring a) =? 0)%nat then a
  else expire_loop (size (ba_ring a)) (subtract_clamped now_ns (ws_duration_ns (ba_spec a))) a.

Definition observe (o : WindowObservation) (a : BucketAccumulator) : BucketAccumulator :=
  if negb (ba_configured a) || (capacity (ba_ring a) =? 0)%nat then a
  else
    let a := mkAccumulator (ba_spec a) (ba_configured a) (ba_ring a) (ba_evicted a)
               (ba_observations a +u 1) (ba_late_dropped a) in
    let a := expire (wo_steady_ns o) a in
    let start := align_bucket (wo_steady_ns o) (ws_bucket_ns (ba_spec a)) in
    let '(a, found) := find_or_create_bucket start a in
    match found with
    | None => a
    | Some index =>
        mkAccumulator (ba_spec a) (ba_configured a)
          (ring_set index (fold_bucket o (ring_at no_bucket (ba_ring a) index)) (ba_ring a))
          (ba_evicted a) (ba_observations a) (ba_late_dropped a)
    end.

Definition buckets (a : BucketAccumulator) : list WindowBucket := ring_list no_bucket (ba_ring a).

(** ** The aggregate *)

Record WindowAggregate := mkAggregate {
  wa_spec : WindowSpec;
  wa_window_start_ns : Nanos;
  wa_window_end_ns : Nanos;
  wa_bucket_count : Z;
  wa_covered_buckets : Z;
  wa_sample_count : Z;
  wa_occupancy : option (Z * Z * Z); (* maximum, minimum, last *)
  wa_occupancy_excursion : Z;
  wa_sums : CounterSums;
  wa_unknown_delta_samples : Z;
  wa_non_current_samples : Z;
  wa_saturation_events : Z;
  wa_coverage_sufficient : bool;
  wa_assessment : EvidenceAssessment
}.

(** The variables of the loop of [aggregate]; [newest] is [newest_received] when
    [newest_received_set]. *)
Record AggregateLoop := mkLoop {
  al_covered : Z;
  al_samples : Z;
  al_sums : CounterSums;
  al_unknown : Z;
  al_non_current : Z;
  al_saturation : Z;
  al_occupancy : option (Z * Z * Z);
  al_newest : option Nanos
}.

Definition add_sums (s t : CounterSums) : CounterSums :=
  mkSums (sum_drops s +u sum_drops t) (sum_marks s +u sum_marks t)
    (sum_pause_frames s +u sum_pause_frames t) (sum_pause_nanos s +u sum_pause_nanos t)
    (sum_enqueues s +u sum_enqueues t) (sum_dequeues s +u sum_dequeues t).

Definition merge_occupancy (acc bucket : option (Z * Z * Z)) : option (Z * Z * Z) :=
  match bucket, acc with
  | None, _ => acc
  | Some b, None => Some b
  | Some (bhi, blo, blast), Some (hi, lo, _) =>
      Some (if hi <? bhi then bhi else hi, if blo <? lo then blo else lo, blast)
  end.

Definition merge_newest (newest : option Nanos) (received : Nanos) : option Nanos :=
  match newest with
  | None => if 0 <? received then Some received else None
  | Some n => if (0 <? received) && (n <? received) then Some received else Some n
  end.

Definition aggregate_bucket (l : AggregateLoop) (b : WindowBucket) : AggregateLoop :=
  if wb_sample_count b =? 0 then l
  else
    mkLoop (al_covered l +u 1) (al_samples l +u wb_sample_count b) (add_sums (al_sums l) (wb_sums b))
      (al_unknown l +u wb_unknown_delta_samples b) (al_non_current l +u wb_non_current_samples b)
      (al_saturation l +u wb_saturation_events b) (merge_occupancy (al_occupancy l) (wb_occupancy b))
      (merge_newest (al_newest l) (wb_last_received_ns b)).

Definition aggregate_loop (bs : list WindowBucket) : AggregateLoop :=
  fold_left aggregate_bucket bs (mkLoop 0 0 no_sums 0 0 0 None None).

Definition window_assessment (spec : WindowSpec) (l : AggregateLoop) (now_ns : Nanos)
    (freshness : FreshnessPolicy) : EvidenceAssessment :=
  if al_covered l =? 0 then
    mkAssessment Freshness.Unknown EvidenceQuality.Unknown Provenance.Correlated
      SourceAuthority.Unknown 0 0 "the window contains no observations"
  else
    let age := match al_newest l with Some newest => now_ns -s newest | None => 0 end in
    let assessment quality flags reason :=
      mkAssessment (assess_freshness age freshness) quality Provenance.Correlated
        SourceAuthority.Unknown flags (if age <? 0 then 0 else age) reason in
    if al_covered l <? ws_min_covered_buckets spec then
      assessment EvidenceQuality.Incomplete (with_flag 0 EvidenceFlag.CoverageInsufficient)
        ("only " +:+ u64_to_string (al_covered l) +:+ " of the required " +:+
         u64_to_string (ws_min_covered_buckets spec) +:+ " buckets contain observations")
    else if 0 <? al_unknown l then
      assessment EvidenceQuality.Incomplete (with_flag 0 EvidenceFlag.CounterDiscontinuity)
        (u64_to_string (al_unknown l) +:+
         " samples in the window had no established counter delta")
    else if 0 <? al_non_current l then
      assessment EvidenceQuality.Incomplete (with_flag 0 EvidenceFlag.Recovered)
        (u64_to_string (al_non_current l) +:+
         " samples in the window cannot speak for the present")
    else assessment EvidenceQuality.Complete 0 EmptyString.

Definition aggregate (now_ns : Nanos) (freshness : FreshnessPolicy) (a : BucketAccumulator) :
    WindowAggregate :=
  let l := aggregate_loop (buckets a) in
  mkAggregate (ba_spec a) (subtract_clamped now_ns (ws_duration_ns (ba_spec a))) now_ns
    (Z.of_nat (size (ba_ring a))) (al_covered l) (al_samples l) (al_occupancy l)
    (match al_occupancy l with Some (hi, lo, _) => hi -u lo | None => 0 end)
    (al_sums l) (al_unknown l) (al_non_current l) (al_saturation l)
    (ws_min_covered_buckets (ba_spec a) <=? al_covered l)
    (window_assessment (ba_spec a) l now_ns freshness).

(** ** Burst evidence *)

Record BurstEvidence := mkBurst {
  be_evaluated : bool;
  be_detected : bool;
  be_coverage_sufficient : bool;
  be_peak : Z;
  be_trough : Z;
  be_excursion : Z;
  be_required_excursion : Z;
  be_covered_buckets : Z;
  be_required_buckets : Z;
  be_peak_at_ns : Nanos;
  be_trough_at_ns : Nanos;
  be_sub_sample_reconstructed : bool
}.

(** [covered], and once [seen] the peak, the trough and their starts. *)
Definition burst_bucket (l : Z * option (Z * Z * Nanos * Nanos)) (b : WindowBucket) :
    Z * option (Z * Z * Nanos * Nanos) :=
  match wb_occupancy b with
  | None => l
  | Some (hi, lo, _) =>
      if wb_sample_count b =? 0 then l
      else
        (l.1 +u 1,
         match l.2 with
         | None => Some (hi, lo, wb_start_ns b, wb_start_ns b)
         | Some (peak, trough, peak_at, trough_at) =>
             Some (if peak <? hi then hi else peak, if lo <? trough then lo else trough,
                   if peak <? hi then wb_start_ns b else peak_at,
                   if lo <? trough then wb_start_ns b else trough_at)
         end)
  end.

Definition burst_evidence (min_excursion min_covered_buckets : Z) (a : BucketAccumulator) :
    BurstEvidence :=
  let '(covered, seen) := fold_left burst_bucket (buckets a) (0, None) in
  let '(peak, trough, peak_at, trough_at) := default (0, 0, 0, 0) seen in
  let excursion := match seen with Some _ => peak -u trough | None => 0 end in
  let sufficient := min_covered_buckets <=? covered in
  mkBurst true (sufficient && (min_excursion <=? excursion)) sufficient peak trough excursion
    min_excursion covered min_covered_buckets peak_at trough_at false.

(** ** The window as a list of buckets *)

Record WindowView := mkView {
  wv_buckets : list WindowBucket;
  wv_evicted : Z;
  wv_observations : Z;
  wv_late : Z
}.

Definition view (a : BucketAccumulator) : WindowView :=
  mkView (buckets a) (ba_evicted a) (ba_observations a) (ba_late_dropped a).

Definition expired (cutoff : Nanos) (b : WindowBucket) : bool := wb_start_ns b <? cutoff.

(** The buckets before the first that has not expired are dropped. *)
Fixpoint drop_expired (cutoff : Nanos) (bs : list WindowBucket) : list WindowBucket :=
  match bs with
  | b :: bs' => if expired cutoff b then drop_expired cutoff bs' else bs
  | [] => []
  end.

Fixpoint last_index (start_ns : Nanos) (bs : list WindowBucket) (n : nat) : option nat :=
  match n with
  | O => None
  | S n => match bs !! n with
           | Some b => if wb_start_ns b =? start_ns then Some n else last_index start_ns bs n
           | None => last_index start_ns bs n
           end
  end.

(** Fold [o] into the bucket that starts at [start_ns], which is made, at the
    end, when there is none, unless it would be older than the oldest. *)
Definition place (limit : nat) (start_ns : Nanos) (o : WindowObservation) (w : WindowView) :
    WindowView :=
  let bs := wv_buckets w in
  match last_index start_ns bs (length bs) with
  | Some i => mkView (alter (fold_bucket o) i bs) (wv_evicted w) (wv_observations w) (wv_late w)
  | None =>
      if match bs with b :: _ => start_ns <? wb_start_ns b | [] => false end
      then mkView bs (wv_evicted w) (wv_observations w) (wv_late w +u 1)
      else
        mkView (keep_last limit (bs ++ [fold_bucket o (bucket_at start_ns)]))
          (if (length bs <? limit)%nat then wv_evicted w else wv_evicted w +u 1)
          (wv_observations w) (wv_late w)
  end.

Definition observe_view (spec : WindowSpec) (limit : nat) (o : WindowObservation) (w : WindowView) :
    WindowView :=
  let cutoff := subtract_clamped (wo_steady_ns o) (ws_duration_ns spec) in
  let kept := drop_expired cutoff (wv_buckets w) in
  place limit (align_bucket (wo_steady_ns o) (ws_bucket_ns spec)) o
    (mkView kept (wrap_u64 (wv_evicted w + Z.of_nat (length (wv_buckets w) - length kept)))
       (wv_observations w +u 1) (wv_late w)).

Definition accumulator_wf (a : BucketAccumulator) : Prop :=
  ring_wf (ba_ring a) ∧ ba_configured a = true ∧ capacity (ba_ring a) ≠ 0%nat ∧
  is_u64 (ba_evicted a).

Lemma ring_at_lookup (r : Ring WindowBucket) i :
  (i < size r)%nat → ring_list no_bucket r !! i = Some (ring_at no_bucket r i).
Proof. apply ring_list_lookup. Qed.

Lemma find_bucket_list r start n :
  (n <= size r)%nat → find_bucket r start n = last_index start (ring_list no_bucket r) n.
Proof.
  induction n as [|n IH]; intros Hn; [done|]. cbn [find_bucket last_index].
  rewrite ring_at_lookup by lia. rewrite IH by lia. done.
Qed.

Lemma last_index_Some start bs n i :
  last_index start bs n = Some i → (i < n)%nat ∧ ∃ b, bs !! i = Some b ∧ wb_start_ns b = start.
Proof.
  induction n as [|n IH]; [done|]. cbn. destruct (bs !! n) as [b|] eqn:E.
  - destruct (Z.eqb_spec (wb_start_ns b) start); [intros [= <-]; split; [lia|eauto]|].
    intros H. destruct (IH H) as [? ?]. split; [lia|done].
  - intros H. destruct (IH H) as [? ?]. split; [lia|done].
Qed.

Lemma last_index_None start bs n b :
  last_index start bs n = None → b ∈ take n bs → wb_start_ns b ≠ start.
Proof.
  induction n as [|n IH]; [by intros _ ?%not_elem_of_nil|]. cbn [last_index].
  destruct (bs !! n) as [b'|] eqn:E.
  - destruct (Z.eqb_spec (wb_start_ns b') start); [done|]. intros H Hin.
    rewrite (take_S_r _ _ _ E) in Hin. apply elem_of_app in Hin as [Hin|Hin]; [by apply IH|].
    by apply list_elem_of_singleton in Hin as ->.
  - intros H Hin. apply IH; [done|]. rewrite take_ge in * by (apply lookup_ge_None in E; lia).
    done.
Qed.

Lemma drop_expired_length cutoff bs : (length (drop_expired cutoff bs) <= length bs)%nat.
Proof. induction bs as [|b bs IH]; cbn; [lia|]. destruct (expired cutoff b); cbn in *; lia. Qed.

(** [expire] drops a prefix. *)
Lemma expire_loop_list fuel cutoff a :
  ring_wf (ba_ring a) → (size (ba_ring a) <= fuel)%nat →
  let a' := expire_loop fuel cutoff a in
  buckets a' = drop_expired cutoff (buckets a) ∧ ring_wf (ba_ring a') ∧
  capacity (ba_ring a') = capacity (ba_ring a) ∧ ba_spec a' = ba_spec a ∧
  ba_configured a' = ba_configured a ∧ ba_observations a' = ba_observations a ∧
  ba_late_dropped a' = ba_late_dropped a ∧
  (is_u64 (ba_evicted a) → ba_evicted a' =
    wrap_u64 (ba_evicted a + Z.of_nat (length (buckets a) - length (buckets a')))).
Proof.
  revert a. induction fuel as [|fuel IH]; intros a Hwf Hf; cbv zeta; cbn [expire_loop].
  all: pose proof (ring_list_length no_bucket (ba_ring a)) as Hlen.
  { unfold buckets. destruct (ring_list no_bucket (ba_ring a)); [|cbn in Hlen; lia].
    split_and!; try done. intros. rewrite wrap_u64_id; cbn; [lia|by rewrite Z.add_0_r]. }
  destruct (Nat.ltb_spec 0 (size (ba_ring a))) as [Hs|Hs]; cbn [andb].
  2:{ unfold buckets. destruct (ring_list no_bucket (ba_ring a)); [|cbn in Hlen; lia].
      split_and!; try done. intros. rewrite wrap_u64_id; cbn; [lia|by rewrite Z.add_0_r]. }
  pose proof (ring_at_lookup _ _ Hs) as Hhd.
  change (ring_list no_bucket (ba_ring a)) with (buckets a) in *.
  destruct (buckets a) as [|b bs] eqn:Hbs; [done|]. injection Hhd as Hhd.
  cbn [drop_expired]. unfold expired. rewrite <- Hhd.
  destruct (_ <? cutoff).
  2:{ split_and!; try done.
      intros. rewrite Hbs, Nat.sub_diag, Z.add_0_r. by rewrite wrap_u64_id. }
  assert (capacity (ba_ring a) ≠ 0%nat) by (destruct Hwf; lia).
  set (a1 := mkAccumulator _ _ _ _ _ _).
  assert (buckets a1 = bs) as Hb1.
  { unfold buckets, a1. cbn [ba_ring]. rewrite ring_drop_list by done.
    change (ring_list no_bucket (ba_ring a)) with (buckets a). by rewrite Hbs. }
  destruct (IH a1) as (-> & H1 & H2 & H3 & H4 & H5 & H6 & H7);
    [apply ring_drop_wf; done|cbn; lia|]. rewrite Hb1 in *.
  split_and!; try done.
  - rewrite H2. apply capacity_insert.
  - intros He. rewrite H7 by apply wrap_u64_range. cbn [a1 ba_evicted length].
    rewrite wrap_u64_add_l. f_equal.
    pose proof (drop_expired_length cutoff bs). lia.
Qed.

Lemma expire_view now a :
  accumulator_wf a →
  let a' := expire now a in
  let kept := drop_expired (subtract_clamped now (ws_duration_ns (ba_spec a))) (buckets a) in
  accumulator_wf a' ∧ capacity (ba_ring a') = capacity (ba_ring a) ∧ ba_spec a' = ba_spec a ∧
  view a' = mkView kept (wrap_u64 (ba_evicted a + Z.of_nat (length (buckets a) - length kept)))
              (ba_observations a) (ba_late_dropped a).
Proof.
  intros (Hwf & Hc & Hcap & He). cbv zeta. unfold expire.
  destruct (Nat.eqb_spec (capacity (ba_ring a)) 0); [done|]. cbn [orb].
  pose proof (ring_list_length no_bucket (ba_ring a)) as Hlen.
  destruct (Nat.eqb_spec (size (ba_ring a)) 0) as [Hz|Hz].
  - unfold buckets. destruct (ring_list no_bucket (ba_ring a)) eqn:Hb; [|cbn in Hlen; lia].
    split_and!; try done. unfold view, buckets. rewrite Hb. cbn. f_equal.
    rewrite wrap_u64_id; [lia|by rewrite Z.add_0_r].
  - destruct (expire_loop_list (size (ba_ring a))
      (subtract_clamped now (ws_duration_ns (ba_spec a))) a Hwf ltac:(lia))
      as (H1 & H2 & H3 & H4 & H5 & H6 & H7 & H8).
    set (a' := expire_loop _ _ _) in *. rewrite <- H1. specialize (H8 He).
    split_and!; try congruence.
    + split_and!; try congruence. rewrite H8. apply wrap_u64_range.
    + unfold view. congruence.
Qed.

Lemma ring_at_head r b bs : ring_list no_bucket r = b :: bs → ring_at no_bucket r 0 = b.
Proof.
  intros H. pose proof (ring_list_length no_bucket r) as Hl. rewrite H in Hl. cbn in Hl.
  pose proof (ring_at_lookup r 0 ltac:(lia)) as Hg. rewrite H in Hg. by injection Hg.
Qed.

Lemma set_last_append (b b' : WindowBucket) bs :
  <[length bs := b']> (bs ++ [b]) = bs ++ [b'].
Proof. rewrite insert_app_r_alt by done. by rewrite Nat.sub_diag. Qed.

Lemma ring_at_last r xs b :
  ring_list no_bucket r = xs ++ [b] → ring_at no_bucket r (length xs) = b.
Proof.
  intros H. pose proof (ring_list_length no_bucket r) as Hl. rewrite H, length_app in Hl. cbn in Hl.
  pose proof (ring_at_lookup r (length xs) ltac:(lia)) as Hg.
  rewrite H, list_lookup_middle in Hg by done. by injection Hg.
Qed.

Lemma accumulator_wf_mk spec c r e o l :
  ring_wf r → c = true → capacity r ≠ 0%nat → is_u64 e → accumulator_wf (mkAccumulator spec c r e o l).
Proof. done. Qed.

Definition fold_found (o : WindowObservation) (found : BucketAccumulator * option nat) :
    BucketAccumulator :=
  match found with
  | (a, None) => a
  | (a, Some index) =>
      mkAccumulator (ba_spec a) (ba_configured a)
        (ring_set index (fold_bucket o (ring_at no_bucket (ba_ring a) index)) (ba_ring a))
        (ba_evicted a) (ba_observations a) (ba_late_dropped a)
  end.

Lemma place_view start o a :
  accumulator_wf a →
  let a' := fold_found o (find_or_create_bucket start a) in
  accumulator_wf a' ∧ ba_spec a' = ba_spec a ∧ capacity (ba_ring a') = capacity (ba_ring a) ∧
  view a' = place (capacity (ba_ring a)) start o (view a).
Proof.
  intros (Hwf & Hc & Hcap & He). cbv zeta. unfold find_or_create_bucket, place.
  pose proof (ring_list_length no_bucket (ba_ring a)) as Hlen. destruct (Hwf) as [_ Hsize].
  destruct (Nat.eqb_spec (capacity (ba_ring a)) 0); [done|].
  cbn [view wv_buckets wv_evicted wv_observations wv_late]. unfold buckets at 1 2 3 4 5 6.
  rewrite find_bucket_list, Hlen by done.
  destruct (last_index start _ _) as [i|] eqn:Hi; cbn [fold_found].
  { apply last_index_Some in Hi as (Hlt & b & Hb & _).
    rewrite ring_at_lookup in Hb by done. injection Hb as Hb.
    split_and!; [apply accumulator_wf_mk; [by apply ring_set_wf|done|by rewrite ring_set_capacity|done]
                |done|apply ring_set_capacity|].
    unfold view, buckets. cbn [ba_ring ba_evicted ba_observations ba_late_dropped]. f_equal.
    rewrite ring_set_list by done. rewrite list_insert_alter. apply list_alter_ext; [|done].
    intros x Hx. rewrite ring_at_lookup in Hx by done. congruence. }
  assert (match buckets a with b :: _ => start <? wb_start_ns b | [] => false end
    = (0 <? size (ba_ring a))%nat && (start <? wb_start_ns (ring_at no_bucket (ba_ring a) 0))) as Hlate.
  { unfold buckets. destruct (ring_list no_bucket (ba_ring a)) as [|b bs] eqn:Hbs; cbn in Hlen.
    - by rewrite <- Hlen.
    - rewrite <- Hlen. by rewrite (ring_at_head _ _ _ Hbs). }
  unfold buckets in Hlate. rewrite Hlate.
  destruct (_ && _); cbn [fold_found]; [done|].
  destruct (Nat.ltb_spec (size (ba_ring a)) (capacity (ba_ring a))) as [Hlt|Hge]; cbn [fold_found].
  - pose proof (ring_append_wf (bucket_at start) _ Hwf Hlt) as Hwf'.
    pose proof (ring_append_list no_bucket (bucket_at start) _ Hwf Hlt) as Hl.
    pose proof (ring_at_last _ _ _ Hl) as Hat. rewrite Hlen in Hat. cbn [ba_ring]. rewrite Hat.
    split_and!; [apply accumulator_wf_mk;
                   [by apply ring_set_wf|done|by rewrite ring_set_capacity, ring_append_capacity|done]
                |done|cbn [ba_ring]; by rewrite ring_set_capacity, ring_append_capacity|].
    unfold view, buckets. cbn [ba_ring ba_evicted ba_observations ba_late_dropped]. f_equal;
      [|rewrite Hlen; by rewrite (proj2 (Nat.ltb_lt _ _) Hlt)].
    rewrite ring_set_list, Hl by (done || cbn; lia). rewrite <- Hlen, set_last_append.
    rewrite keep_last_all; [done|]. rewrite length_app, Hlen. cbn. lia.
  - assert (size (ba_ring a) = capacity (ba_ring a)) as Hfull by lia.
    pose proof (ring_replace_wf (bucket_at start) _ Hwf Hcap) as Hwf'.
    pose proof (ring_replace_list no_bucket (bucket_at start) _ Hwf Hfull Hcap) as Hl.
    assert (length (tail (ring_list no_bucket (ba_ring a))) = size (ba_ring a) - 1)%nat as Htl
      by (rewrite <- Hlen; destruct (ring_list _ _); cbn; lia).
    pose proof (ring_at_last _ _ _ Hl) as Hat. rewrite Htl in Hat. cbn [ba_ring]. rewrite Hat.
    split_and!; [apply accumulator_wf_mk;
                   [by apply ring_set_wf|done|by rewrite ring_set_capacity, ring_replace_capacity
                   |apply wrap_u64_range]
                |done|cbn [ba_ring]; by rewrite ring_set_capacity, ring_replace_capacity|].
    unfold view, buckets. cbn [ba_ring ba_evicted ba_observations ba_late_dropped]. f_equal;
      [|rewrite Hlen; by rewrite (proj2 (Nat.ltb_ge _ _) Hge)].
    rewrite ring_set_list, Hl by (done || cbn; lia). rewrite <- Htl, set_last_append.
    unfold keep_last. rewrite length_app, Hlen, Hfull. cbn [length].
    replace (capacity (ba_ring a) + 1 - capacity (ba_ring a))%nat with 1%nat by lia.
    destruct (ring_list no_bucket (ba_ring a)); [cbn in Hlen; lia|done].
Qed.

Lemma observe_step (o : WindowObservation) (a : BucketAccumulator) :
  accumulator_wf a →
  accumulator_wf (observe o a) ∧ ba_spec (observe o a) = ba_spec a ∧
  capacity (ba_ring (observe o a)) = capacity (ba_ring a) ∧
  view (observe o a) = observe_view (ba_spec a) (capacity (ba_ring a)) o (view a).
Proof.
  intros (Hwf & Hc & Hcap & He). unfold observe. rewrite Hc. cbn [negb orb].
  destruct (Nat.eqb_spec (capacity (ba_ring a)) 0); [done|].
  set (a1 := mkAccumulator _ _ _ _ (_ +u 1) _).
  assert (accumulator_wf a1) as Hwf1 by by apply accumulator_wf_mk.
  destruct (expire_view (wo_steady_ns o) a1 Hwf1) as (Hwf2 & Hcap2 & Hspec2 & Hview2).
  set (a2 := expire (wo_steady_ns o) a1) in *.
  destruct (place_view (align_bucket (wo_steady_ns o) (ws_bucket_ns (ba_spec a2))) o a2 Hwf2)
    as (Hwf3 & Hspec3 & Hcap3 & Hview3).
  unfold fold_found in *. destruct (find_or_create_bucket _ a2) as [a3 found].
  change (ba_spec a1) with (ba_spec a) in *.
  change (capacity (ba_ring a1)) with (capacity (ba_ring a)) in *.
  destruct found; (split_and!; [done|congruence|congruence|]);
    rewrite Hview3, Hview2, Hcap2, Hspec2; done.
Qed.

(** ** What every window satisfies *)

Definition occupancy_ok (o : option (Z * Z * Z)) : Prop :=
  match o with Some (hi, lo, last) => lo <= last <= hi | None => True end.

(** A bucket of a window that has seen [n] observations. *)
Record bucket_ok (n : Z) (b : WindowBucket) : Prop := {
  bk_samples : 1 <= wb_sample_count b <= n;
  bk_occupancy : occupancy_ok (wb_occupancy b)
}.

Record view_ok (limit : nat) (n : Z) (w : WindowView) : Prop := {
  vo_length : (length (wv_buckets w) <= limit)%nat;
  vo_starts : NoDup (map wb_start_ns (wv_buckets w));
  vo_buckets : Forall (bucket_ok n) (wv_buckets w)
}.

Lemma fold_bucket_start o b : wb_start_ns (fold_bucket o b) = wb_start_ns b.
Proof. unfold fold_bucket. by destruct (add_deltas _ _ _). Qed.

Lemma fold_occupancy_ok o v : occupancy_ok o → occupancy_ok (fold_occupancy o v).
Proof.
  destruct v as [v|], o as [[[hi lo] last]|]; cbn; try lia; try done.
  bool_cases; lia.
Qed.

Lemma fold_bucket_ok n o b :
  0 <= wb_sample_count b <= n → n < u64_max → occupancy_ok (wb_occupancy b) →
  bucket_ok (n + 1) (fold_bucket o b).
Proof.
  intros Hb Hn Ho. unfold fold_bucket. destruct (add_deltas _ _ _).
  split; cbn; [rewrite wrap_u64_id by word_lia; lia|by apply fold_occupancy_ok].
Qed.

Lemma bucket_ok_mono n m b : n <= m → bucket_ok n b → bucket_ok m b.
Proof. intros H [??]. split; [lia|done]. Qed.

Lemma drop_expired_suffix cutoff bs : ∃ k, drop_expired cutoff bs = drop k bs.
Proof.
  induction bs as [|b bs [k IH]]; [by exists 0%nat|]. cbn [drop_expired].
  destruct (expired cutoff b); [by exists (S k)|by exists 0%nat].
Qed.

Lemma view_ok_drop limit n k w :
  view_ok limit n w → ∀ e o l, view_ok limit n (mkView (drop k (wv_buckets w)) e o l).
Proof.
  intros [H1 H2 H3] e o l. split; cbn.
  - rewrite length_drop. lia.
  - rewrite <- skipn_map. apply (NoDup_app (take k (map wb_start_ns (wv_buckets w)))).
    by rewrite take_drop.
  - by apply Forall_drop.
Qed.

Lemma map_start_alter o i bs : map wb_start_ns (alter (fold_bucket o) i bs) = map wb_start_ns bs.
Proof.
  apply list_eq. intros j. rewrite !list_lookup_fmap.
  destruct (decide (i = j)) as [->|Hne]; [|by rewrite list_lookup_alter_ne].
  rewrite list_lookup_alter_eq. destruct (bs !! j); [|done]. cbn. by rewrite fold_bucket_start.
Qed.

Lemma place_ok limit n start o w :
  0 <= n < u64_max → view_ok limit n w → (0 < limit)%nat → view_ok limit (n + 1) (place limit start o w).
Proof.
  intros Hn [H1 H2 H3] Hl. unfold place.
  assert (Forall (bucket_ok (n + 1)) (wv_buckets w)) as H3'.
  { eapply Forall_impl; [exact H3|]. intros b. apply bucket_ok_mono. lia. }
  destruct (last_index _ _ _) as [i|] eqn:Hi.
  - split; cbn; [by rewrite length_alter|by rewrite map_start_alter|].
    apply Forall_alter; [done|]. intros b Hb _.
    rewrite Forall_lookup in H3. destruct (H3 _ _ Hb). apply fold_bucket_ok; [lia|lia|done].
  - destruct (match wv_buckets w with b :: _ => _ | [] => false end); [by split|].
    set (w' := mkView (wv_buckets w ++ [fold_bucket o (bucket_at start)]) 0 0 0).
    assert (view_ok (limit + 1) (n + 1) w') as Hw'.
    { split; cbn.
      - rewrite length_app. cbn. lia.
      - rewrite map_app. apply NoDup_app. split_and!; [done| |apply NoDup_singleton].
        intros s Hs ->%list_elem_of_singleton. rewrite fold_bucket_start in Hs. cbn in Hs.
        rewrite list_elem_of_In, in_map_iff in Hs. destruct Hs as (b & Hb & Hin).
        apply (last_index_None _ _ _ b) in Hi; [done|]. rewrite firstn_all.
        by apply list_elem_of_In.
      - apply Forall_app. split; [done|]. apply Forall_singleton.
        apply fold_bucket_ok; cbn; [lia|lia|done]. }
    split; cbn; [apply keep_last_length|..]; unfold keep_last;
      by eapply (view_ok_drop _ _ _ w' Hw' 0 0 0).
Qed.

Lemma observe_view_ok spec limit n o w :
  0 <= n < u64_max → view_ok limit n w → (0 < limit)%nat →
  view_ok limit (n + 1) (observe_view spec limit o w).
Proof.
  intros Hn Hw Hl. unfold observe_view. apply place_ok; [done| |done].
  destruct (drop_expired_suffix (subtract_clamped (wo_steady_ns o) (ws_duration_ns spec))
    (wv_buckets w)) as [k Hk].
  rewrite Hk. by apply view_ok_drop.
Qed.

Definition observe_all (os : list WindowObservation) (a : BucketAccumulator) : BucketAccumulator :=
  fold_left (λ a o, observe o a) os a.

Lemma validate_window_ok spec :
  is_i64 (ws_duration_ns spec) → is_i64 (ws_bucket_ns spec) →
  0 <= ws_min_covered_buckets spec →
  ok (validate_window_spec spec) = true →
  ∃ n, window_buckets spec = Some n ∧ 0 < n <= ws_max_buckets spec ∧
    0 < ws_bucket_ns spec <= ws_duration_ns spec ∧
    1 <= ws_min_covered_buckets spec <= n ∧
    (n - 1) * ws_bucket_ns spec < ws_duration_ns spec <= n * ws_bucket_ns spec.
Proof.
  intros Hd Hb Hm. unfold validate_window_spec.
  destruct (bool_decide _); [done|].
  destruct (Z.leb_spec (ws_duration_ns spec) 0); [done|].
  destruct (Z.leb_spec (ws_bucket_ns spec) 0); [done|].
  destruct (Z.ltb_spec (ws_duration_ns spec) (ws_bucket_ns spec)); [done|].
  destruct (ws_max_buckets spec =? 0); [done|].
  unfold window_buckets. rewrite div_ceil_u64_spec by word_lia.
  rewrite (proj2 (Z.eqb_neq _ 0)) by lia.
  set (q := (_ + _ - 1) / _).
  destruct (Z.ltb_spec (ws_max_buckets spec) q); [done|].
  destruct (Z.eqb_spec (ws_min_covered_buckets spec) 0); [done|].
  destruct (Z.ltb_spec q (ws_min_covered_buckets spec)); [done|]. intros _.
  exists q.
  pose proof (Z.div_mod (ws_duration_ns spec + ws_bucket_ns spec - 1) (ws_bucket_ns spec) ltac:(lia)).
  pose proof (Z.mod_pos_bound (ws_duration_ns spec + ws_bucket_ns spec - 1) (ws_bucket_ns spec) ltac:(lia)).
  fold q in H2. split_and!; try done; nia.
Qed.

(** C13: a window never outgrows its budget and never invents a bucket.  An
    accumulator configured with a valid specification and fed any observations, in
    any order, holds at most the ceiling of duration over bucket width of them,
    which is within the specification's cap; their starts are distinct; each holds
    at least one sample and no more than were observed; and in each the last
    occupancy lies between the least and the greatest, so no excursion
    underflows. *)
Theorem window_bounded (spec : WindowSpec) (os : list WindowObservation) :
  is_i64 (ws_duration_ns spec) → is_i64 (ws_bucket_ns spec) → 0 <= ws_min_covered_buckets spec →
  ok (validate_window_spec spec) = true → Z.of_nat (length os) <= u64_max →
  let bs := buckets (observe_all os (configure spec no_accumulator).1) in
  Z.of_nat (length bs) <= ws_max_buckets spec ∧
  (Z.of_nat (length bs) - 1) * ws_bucket_ns spec < ws_duration_ns spec ∧
  NoDup (map wb_start_ns bs) ∧ Forall (bucket_ok (Z.of_nat (length os))) bs.
Proof.
  intros Hd Hb Hm Hok Hlen. cbv zeta. unfold configure. rewrite Hok. cbn [fst].
  destruct (validate_window_ok spec Hd Hb Hm Hok) as (n & -> & Hn & Hbd & _ & Hceil). cbn [default].
  set (a0 := mkAccumulator _ _ _ _ _ _).
  assert (capacity (ba_ring a0) = Z.to_nat n) as Hcap by (cbn; apply length_replicate).
  assert (accumulator_wf a0) as Hwf.
  { apply accumulator_wf_mk; [apply ring_make_wf|done| |word_lia].
    change (capacity (ba_ring a0) ≠ 0%nat). rewrite Hcap. lia. }
  assert (∀ os a m, accumulator_wf a → capacity (ba_ring a) = Z.to_nat n → 0 <= m →
    view_ok (Z.to_nat n) m (view a) → m + Z.of_nat (length os) <= u64_max →
    view_ok (Z.to_nat n) (m + Z.of_nat (length os)) (view (observe_all os a))) as Hall.
  { clear -Hn. intros os. induction os as [|o os IH]; intros a m Hwf Hcap Hm Hv Hlen.
    { by rewrite Z.add_0_r. }
    cbn [length] in *. destruct (observe_step o a Hwf) as (H1 & _ & H3 & H4).
    cbn [observe_all fold_left].
    replace (m + Z.of_nat (S (length os))) with (m + 1 + Z.of_nat (length os)) by lia.
    apply IH; [done|congruence|lia| |clear -Hlen; lia]. rewrite H4, Hcap. apply observe_view_ok; [lia|done|lia]. }
  destruct (Hall os a0 0) as [V1 V2 V3]; [done|done|lia| |lia|].
  { split; cbn; [lia|constructor|constructor]. }
  cbn [view wv_buckets] in *.
  set (bs := buckets _) in *. assert (Z.of_nat (length bs) <= n) by lia.
  split_and!; [lia|nia|done|done].
Qed.

Definition plain_observation (t : Nanos) (occupancy : option Z) : WindowObservation :=
  mkWindowObservation t occupancy no_delta no_delta no_delta no_delta no_delta no_delta true false.
Definition small_window : WindowSpec := mkWindowSpec "w" 40 10 1 4.
Definition small_run (os : list WindowObservation) : BucketAccumulator :=
  observe_all os (configure small_window no_accumulator).1.

(** C12: the window is a list of buckets.  On a configured accumulator, folding an
    observation in (expiring, searching, appending or overwriting in the ring, and
    updating the bucket in place) is, on the sequence of buckets, dropping the
    expired prefix and folding the observation into the bucket of its start, a new
    bucket going to the end and pushing the oldest out when the budget is full; the
    eviction, observation and late counters follow. *)
Theorem observe_refines (o : WindowObservation) (a : BucketAccumulator) :
  accumulator_wf a →
  accumulator_wf (observe o a) ∧ ba_spec (observe o a) = ba_spec a ∧
  view (observe o a) = observe_view (ba_spec a) (capacity (ba_ring a)) o (view a).
Proof. intros H. destruct (observe_step o a H) as (H1 & H2 & _ & H3). by split_and!. Qed.

Lemma small_run_wf os : accumulator_wf (small_run os).
Proof.
  unfold small_run. assert (accumulator_wf (configure small_window no_accumulator).1) as H.
  { split_and!; [apply ring_make_wf|reflexivity|vm_compute; discriminate|vm_compute; split; discriminate]. }
  revert H. generalize (configure small_window no_accumulator).1 as a.
  unfold observe_all. induction os as [|o os IH]; intros a Ha; cbn [fold_left]; [done|].
  apply IH. by destruct (observe_step o a Ha).
Qed.

Lemma observe_refines_witness :
  let a := small_run [plain_observation 5 (Some 7); plain_observation 27 (Some 9)] in
  view (observe (plain_observation 58 (Some 1)) a) =
    observe_view small_window 4 (plain_observation 58 (Some 1)) (view a).
Proof.
  exact (proj2 (proj2 (observe_refines (plain_observation 58 (Some 1))
    (small_run [plain_observation 5 (Some 7); plain_observation 27 (Some 9)]) (small_run_wf _)))).
Defined.

Lemma window_bounded_witness :
  let bs := buckets (small_run (map (λ t, plain_observation t (Some t)) [5; 12; 27; 33; 41; 58])) in
  Z.of_nat (length bs) <= 4 ∧ map wb_start_ns bs = [20; 30; 40; 50].
Proof.
  split; [|vm_compute; reflexivity].
  apply (window_bounded small_window (map (λ t, plain_observation t (Some t)) [5; 12; 27; 33; 41; 58]));
    cbn; try word_lia; reflexivity.
Defined.

(** ** Aggregates *)

(** The occupancy of an aggregate: the greatest of the maxima, the least of the
    minima, over the buckets that have samples and occupancy. *)
Definition occupancies (bs : list WindowBucket) : list (Z * Z * Z) :=
  omap (λ b, if wb_sample_count b =? 0 then None else wb_occupancy b) bs.

Definition is_max {A} (f : A → Z) (m : Z) (l : list A) : Prop :=
  (∃ x, x ∈ l ∧ f x = m) ∧ ∀ x, x ∈ l → f x <= m.
Definition is_min {A} (f : A → Z) (m : Z) (l : list A) : Prop :=
  (∃ x, x ∈ l ∧ f x = m) ∧ ∀ x, x ∈ l → m <= f x.

Definition hi_of (o : Z * Z * Z) : Z := o.1.1.
Definition lo_of (o : Z * Z * Z) : Z := o.1.2.

Lemma is_max_single {A} (f : A → Z) x : is_max f (f x) [x].
Proof. split; [exists x; by rewrite list_elem_of_singleton|]. by intros y ->%list_elem_of_singleton. Qed.
Lemma is_min_single {A} (f : A → Z) x : is_min f (f x) [x].
Proof. split; [exists x; by rewrite list_elem_of_singleton|]. by intros y ->%list_elem_of_singleton. Qed.

Lemma is_max_snoc {A} (f : A → Z) m l x :
  is_max f m l → is_max f (if m <? f x then f x else m) (l ++ [x]).
Proof.
  intros [(y & Hy & Ey) Hm]. split.
  - destruct (Z.ltb_spec m (f x)); [exists x|exists y]; rewrite elem_of_app, list_elem_of_singleton; auto.
  - intros z [Hz| ->%list_elem_of_singleton]%elem_of_app; [specialize (Hm z Hz)|];
      destruct (Z.ltb_spec m (f x)); lia.
Qed.
Lemma is_min_snoc {A} (f : A → Z) m l x :
  is_min f m l → is_min f (if f x <? m then f x else m) (l ++ [x]).
Proof.
  intros [(y & Hy & Ey) Hm]. split.
  - destruct (Z.ltb_spec (f x) m); [exists x|exists y]; rewrite elem_of_app, list_elem_of_singleton; auto.
  - intros z [Hz| ->%list_elem_of_singleton]%elem_of_app; [specialize (Hm z Hz)|];
      destruct (Z.ltb_spec (f x) m); lia.
Qed.

(** The extremes a loop over the buckets has found, if any. *)
Definition extremes (seen : option (Z * Z)) (os : list (Z * Z * Z)) : Prop :=
  match seen with
  | None => os = []
  | Some (hi, lo) => is_max hi_of hi os ∧ is_min lo_of lo os
  end.

Lemma extremes_snoc seen os o :
  extremes seen os →
  extremes (Some match seen with
                 | None => (hi_of o, lo_of o)
                 | Some (hi, lo) => (if hi <? hi_of o then hi_of o else hi,
                                     if lo_of o <? lo then lo_of o else lo)
                 end) (os ++ [o]).
Proof.
  destruct seen as [[hi lo]|]; cbn.
  - intros [? ?]. split; [by apply is_max_snoc|by apply is_min_snoc].
  - intros ->. split; [apply is_max_single|apply is_min_single].
Qed.

Lemma occupancies_snoc bs b :
  occupancies (bs ++ [b]) = occupancies bs ++
    (if wb_sample_count b =? 0 then [] else match wb_occupancy b with Some o => [o] | None => [] end).
Proof.
  unfold occupancies. rewrite omap_app. f_equal. cbn.
  destruct (wb_sample_count b =? 0); [done|]. by destruct (wb_occupancy b).
Qed.

Lemma aggregate_extremes bs :
  extremes (fst <$> al_occupancy (aggregate_loop bs)) (occupancies bs).
Proof.
  unfold aggregate_loop. induction bs as [|b bs IH] using rev_ind; [done|].
  rewrite fold_left_app, occupancies_snoc. cbn [fold_left].
  set (l := fold_left _ bs _) in *. unfold aggregate_bucket.
  destruct (wb_sample_count b =? 0); [by rewrite app_nil_r|]. cbn [al_occupancy].
  destruct (wb_occupancy b) as [[[bhi blo] blast]|].
  2:{ rewrite app_nil_r. by destruct (al_occupancy l) as [[[? ?] ?]|]. }
  apply (extremes_snoc _ _ (bhi, blo, blast)) in IH.
  destruct (al_occupancy l) as [[[hi lo] last]|]; exact IH.
Qed.

Lemma burst_extremes bs :
  extremes ((λ s, (s.1.1.1, s.1.1.2)) <$> (fold_left burst_bucket bs (0, None)).2) (occupancies bs).
Proof.
  induction bs as [|b bs IH] using rev_ind; [done|].
  rewrite fold_left_app, occupancies_snoc. cbn [fold_left].
  set (l := fold_left burst_bucket bs _) in *. unfold burst_bucket.
  destruct (wb_occupancy b) as [[[bhi blo] blast]|].
  2:{ destruct (wb_sample_count b =? 0); by rewrite app_nil_r. }
  destruct (wb_sample_count b =? 0); [by rewrite app_nil_r|]. cbn [snd].
  apply (extremes_snoc _ _ (bhi, blo, blast)) in IH.
  destruct l.2 as [[[[peak trough] peak_at] trough_at]|]; exact IH.
Qed.

Lemma occupancies_length bs : (length (occupancies bs) <= length bs)%nat.
Proof.
  induction bs as [|b bs IH] using rev_ind; [done|].
  rewrite occupancies_snoc, !length_app. cbn [length].
  destruct (wb_sample_count b =? 0), (wb_occupancy b); cbn; lia.
Qed.

Lemma burst_covered bs :
  Z.of_nat (length bs) <= u64_max →
  (fold_left burst_bucket bs (0, None)).1 = Z.of_nat (length (occupancies bs)).
Proof.
  induction bs as [|b bs IH] using rev_ind; [done|]. rewrite length_app. cbn [length]. intros Hlen.
  rewrite fold_left_app, occupancies_snoc, length_app. cbn [fold_left].
  set (l := fold_left burst_bucket bs _) in *. specialize (IH ltac:(lia)).
  assert (length (occupancies bs) <= length bs)%nat by apply occupancies_length.
  unfold burst_bucket.
  destruct (wb_occupancy b) as [[[bhi blo] blast]|], (wb_sample_count b =? 0); cbn; try lia.
  rewrite wrap_u64_id by word_lia. lia.
Qed.

(** Burst evidence is observed evidence.  Over buckets whose occupancies are
    64-bit values with minimum below maximum, the covered count is the number of
    buckets that hold occupancy, and a burst is detected exactly when there are
    enough of them and two of them, observed, are at least the required excursion
    apart; nothing between samples is
    reconstructed. *)
Theorem burst_detected_iff (a : BucketAccumulator) (min_excursion min_covered : Z) :
  Z.of_nat (length (buckets a)) <= u64_max → 0 < min_excursion →
  Forall (λ o, 0 <= lo_of o <= hi_of o ∧ hi_of o <= u64_max) (occupancies (buckets a)) →
  let e := burst_evidence min_excursion min_covered a in
  be_covered_buckets e = Z.of_nat (length (occupancies (buckets a))) ∧
  be_sub_sample_reconstructed e = false ∧
  (be_detected e = true ↔
     min_covered <= Z.of_nat (length (occupancies (buckets a))) ∧
     ∃ x y, x ∈ occupancies (buckets a) ∧ y ∈ occupancies (buckets a) ∧
            min_excursion <= hi_of x - lo_of y).
Proof.
  intros Hlen Hmin Hocc. cbv zeta. unfold burst_evidence.
  pose proof (burst_extremes (buckets a)) as Hext. pose proof (burst_covered (buckets a) Hlen) as Hcov.
  destruct (fold_left burst_bucket (buckets a) (0, None)) as [covered seen]. cbn [fst snd] in *.
  destruct seen as [[[[peak trough] peak_at] trough_at]|]; cbn [default from_option] in *; unfold id.
  - cbn in Hext. destruct Hext as [[(x & Hx & Ex) Hmax] [(y & Hy & Ey) Hlo]].
    cbn [be_covered_buckets be_sub_sample_reconstructed be_detected].
    rewrite Forall_forall in Hocc.
    pose proof (Hocc x Hx) as Ox. pose proof (Hocc y Hy) as Oy.
    pose proof (Hmax y Hy). rewrite wrap_u64_id by word_lia.
    split_and!; [done|done|]. rewrite andb_true_iff, !Z.leb_le, Hcov. split.
    + intros [Hc He]. split; [done|]. exists x, y. by rewrite Ex, Ey.
    + intros [Hc (x' & y' & Hx' & Hy' & He)]. split; [done|].
      specialize (Hmax x' Hx'). specialize (Hlo y' Hy'). lia.
  - cbn in Hext. rewrite Hext in *. cbn. split_and!; [done|done|].
    rewrite andb_true_iff, !Z.leb_le. split; [lia|].
    intros [_ (x & y & Hx & _)]. by apply not_elem_of_nil in Hx.
Qed.

Lemma burst_detected_iff_witness :
  be_detected (burst_evidence 30 3
    (small_run [plain_observation 5 (Some 0); plain_observation 12 (Some 40);
                plain_observation 27 (Some 8)])) = true.
Proof.
  apply (burst_detected_iff
    (small_run [plain_observation 5 (Some 0); plain_observation 12 (Some 40);
                plain_observation 27 (Some 8)]) 30 3);
    [vm_compute; discriminate|lia| |].
  - replace (occupancies _) with [(0, 0, 0); (40, 40, 40); (8, 8, 8)] by (vm_compute; reflexivity).
    do 3 (constructor; [cbn; word_lia|]). constructor.
  - split; [vm_compute; discriminate|].
    exists (40, 40, 40), (0, 0, 0). split_and!; [| |vm_compute; discriminate];
      apply list_elem_of_In; vm_compute; tauto.
Defined.

(** ** What the window does not guarantee

    An observation newer than the oldest bucket, whose own bucket was never made,
    is put after newer buckets: [buckets] is then not in time order, and the last
    occupancy of the aggregate is that of the older observation. *)
Lemma late_bucket_out_of_order :
  let a := small_run [plain_observation 5 (Some 1); plain_observation 31 (Some 2);
                      plain_observation 15 (Some 3)] in
  map wb_start_ns (buckets a) = [0; 30; 10] ∧
  wa_occupancy (aggregate 31 default_freshness a) = Some (3, 1, 3).
Proof. vm_compute. done. Qed.

(** Buckets saturate, but their sum wraps: two buckets of [2^63] drops add up to
    none. *)
Definition with_drops (t drops : Z) : WindowObservation :=
  mkWindowObservation t None (mkDelta CounterContinuity.Continuous true drops) no_delta no_delta
    no_delta no_delta no_delta true false.

Lemma aggregate_sums_wrap :
  let a := small_run [with_drops 5 9223372036854775808; with_drops 15 9223372036854775808] in
  sum_drops (wa_sums (aggregate 20 default_freshness a)) = 0 ∧
  wa_saturation_events (aggregate 20 default_freshness a) = 0.
Proof. vm_compute. done. Qed.
