(* ===== verification/OrderedMap.v ===== *)
(** * Ordered maps

    [std::map] with a strict total order on its keys: an association list in
    ascending key order.  The store iterates its maps in this order, so the order
    is part of what its queries answer. *)

From Stdlib Require Sorting.Sorted.
From S2P Require Import Prelude Identity.

Section ordered_map.
Context {K V : Type} `{!EqDecision K} (ltb : K → K → bool) `{!StrictOrder ltb}.

Definition OrderedMap : Type := list (K * V).

Fixpoint om_find (k : K) (m : OrderedMap) : option V :=
  match m with
  | [] => None
  | (k', v) :: m => if decide (k = k') then Some v else om_find k m
  end.

(** [emplace]: an existing entry is left alone. *)
Fixpoint om_emplace (k : K) (v : V) (m : OrderedMap) : OrderedMap :=
  match m with
  | [] => [(k, v)]
  | (k', v') :: m' =>
      if decide (k = k') then m
      else if ltb k k' then (k, v) :: m else (k', v') :: om_emplace k v m'
  end.

(** An assignment through the reference or iterator that [find] returned. *)
Fixpoint om_update (k : K) (f : V → V) (m : OrderedMap) : OrderedMap :=
  match m with
  | [] => []
  | (k', v) :: m => if decide (k = k') then (k', f v) :: m else (k', v) :: om_update k f m
  end.

(** [erase] of a key. *)
Fixpoint om_erase (k : K) (m : OrderedMap) : OrderedMap :=
  match m with
  | [] => []
  | (k', v) :: m => if decide (k = k') then m else (k', v) :: om_erase k m
  end.

Definition om_keys (m : OrderedMap) : list K := map fst m.

Definition om_sorted (m : OrderedMap) : Prop :=
  Sorted.StronglySorted (λ a b, ltb a b = true) (om_keys m).

Lemma om_find_emplace_eq k v m : om_find k m = None → om_find k (om_emplace k v m) = Some v.
Proof.
  induction m as [|[k' v'] m IH]; cbn; intros H; [by rewrite decide_True|].
  destruct (decide (k = k')) as [->|Hne]; [done|].
  destruct (ltb k k'); cbn; [by rewrite decide_True|]. rewrite decide_False by done. by apply IH.
Qed.

Lemma om_find_emplace_ne k k' v m : k' ≠ k → om_find k' (om_emplace k v m) = om_find k' m.
Proof.
  intros Hne. induction m as [|[k2 v2] m IH]; cbn; [by rewrite decide_False|].
  destruct (decide (k = k2)) as [->|]; [done|].
  destruct (ltb k k2); cbn; [by rewrite decide_False|]. by destruct (decide (k' = k2)).
Qed.

Lemma om_find_emplace k k' v m :
  om_find k m = None →
  om_find k' (om_emplace k v m) = if decide (k' = k) then Some v else om_find k' m.
Proof.
  intros H. destruct (decide (k' = k)) as [->|Hne];
    [by apply om_find_emplace_eq|by apply om_find_emplace_ne].
Qed.

Lemma om_find_update k k' f m :
  om_find k' (om_update k f m) = if decide (k' = k) then f <$> om_find k m else om_find k' m.
Proof.
  induction m as [|[k2 v2] m IH]; cbn; [by destruct (decide _)|].
  destruct (decide (k = k2)) as [->|Hne]; cbn.
  - destruct (decide (k' = k2)) as [->|]; done.
  - rewrite IH. destruct (decide (k' = k2)) as [->|]; [|done].
    by rewrite decide_False by done.
Qed.

Lemma om_emplace_length k v m :
  om_find k m = None → length (om_emplace k v m) = S (length m).
Proof.
  induction m as [|[k' v'] m IH]; cbn; [done|].
  destruct (decide (k = k')); [done|]. intros H. destruct (ltb k k'); cbn; [done|].
  by rewrite IH.
Qed.

Lemma om_update_keys k f m : om_keys (om_update k f m) = om_keys m.
Proof.
  induction m as [|[k' v'] m IH]; cbn; [done|]. destruct (decide (k = k')); cbn; [done|].
  unfold om_keys in *. by rewrite IH.
Qed.

Lemma om_update_length k f m : length (om_update k f m) = length m.
Proof.
  pose proof (f_equal length (om_update_keys k f m)) as H. unfold om_keys in H.
  by rewrite !length_map in H.
Qed.

Lemma om_update_sorted k f m : om_sorted m → om_sorted (om_update k f m).
Proof. unfold om_sorted. by rewrite om_update_keys. Qed.

Lemma om_emplace_keys_forall (P : K → Prop) k v m :
  P k → Forall P (om_keys m) → Forall P (om_keys (om_emplace k v m)).
Proof.
  intros Hk. induction m as [|[k' v'] m IH]; cbn; intros H; [by constructor|].
  apply Forall_cons_1 in H as [??].
  destruct (decide (k = k')); [by constructor|].
  destruct (ltb k k'); cbn; [by repeat apply Forall_cons_2|]. apply Forall_cons_2; [done|by apply IH].
Qed.

Lemma om_emplace_sorted k v m : om_sorted m → om_sorted (om_emplace k v m).
Proof.
  unfold om_sorted. induction m as [|[k' v'] m IH]; cbn; intros H; [repeat constructor|].
  destruct (decide (k = k')) as [|Hne]; [done|].
  apply Sorted.StronglySorted_inv in H as [Hs Hall].
  destruct (ltb k k') eqn:E; cbn.
  - constructor; [by constructor|]. constructor; [done|].
    eapply List.Forall_impl; [|exact Hall]. intros k2 Hk2. by apply (ltb_trans _ k').
  - constructor; [by apply IH|]. apply om_emplace_keys_forall; [|done].
    destruct (ltb_total k k' Hne); congruence.
Qed.

(** In a sorted map the entries are what [find] finds. *)
Lemma om_find_elem k v m : om_sorted m → (k, v) ∈ m ↔ om_find k m = Some v.
Proof.
  unfold om_sorted. induction m as [|[k' v'] m IH]; cbn; intros Hs.
  { split; [by intros ?%not_elem_of_nil|done]. }
  apply Sorted.StronglySorted_inv in Hs as [Hs Hall]. rewrite elem_of_cons.
  destruct (decide (k = k')) as [->|Hne].
  - split; [|by intros [= ->]; left]. intros [[= ->]|Hin]; [done|].
    exfalso. rewrite list.Forall_forall in Hall.
    assert (ltb k' k' = true) as Hkk; [|by rewrite ltb_irrefl in Hkk].
    apply Hall, list_elem_of_In, in_map_iff. exists (k', v). by rewrite <- list_elem_of_In.
  - rewrite IH by done. split; [|by right]. intros [[= -> ->]|]; done.
Qed.

Lemma om_find_In k v m : om_find k m = Some v → (k, v) ∈ m.
Proof.
  induction m as [|[k' v'] m IH]; cbn; [done|].
  destruct (decide (k = k')) as [->|]; [intros [= ->]; by left|].
  intros H. right. by apply IH.
Qed.

(** [om_forall P m]: every entry satisfies [P]. *)
Definition om_forall (P : K → V → Prop) (m : OrderedMap) : Prop :=
  Forall (λ e, P e.1 e.2) m.

Lemma om_forall_find P m k v : om_forall P m → om_find k m = Some v → P k v.
Proof.
  intros H Hf%om_find_In. unfold om_forall in H. rewrite list.Forall_forall in H. by apply (H (k, v)).
Qed.

Lemma om_forall_emplace (P : K → V → Prop) k v m :
  P k v → om_forall P m → om_forall P (om_emplace k v m).
Proof.
  intros Hk H. unfold om_forall in *. induction H as [|[k' v'] m Hx H IH]; cbn.
  - by constructor.
  - destruct (decide (k = k')); [by constructor|].
    destruct (ltb k k'); [by repeat apply Forall_cons_2|by apply Forall_cons_2].
Qed.

Lemma om_forall_update (P : K → V → Prop) k f m :
  (∀ v, P k v → P k (f v)) → om_forall P m → om_forall P (om_update k f m).
Proof.
  intros Hf H. unfold om_forall in *. induction H as [|[k' v'] m Hx H IH]; cbn; [constructor|].
  destruct (decide (k = k')) as [->|]; constructor; cbn; auto.
Qed.

Lemma om_forall_update_emplace (P : K → V → Prop) k f v m :
  P k (f v) → om_find k m = None → om_forall P m → om_forall P (om_update k f (om_emplace k v m)).
Proof.
  intros Hk Hf H. unfold om_forall in *. induction H as [|[k' v'] m Hx H IH]; cbn in *.
  - rewrite decide_True by done. by constructor.
  - destruct (decide (k = k')); [done|]. destruct (ltb k k'); cbn.
    + rewrite decide_True by done. by repeat apply Forall_cons_2.
    + rewrite decide_False by done. apply Forall_cons_2; [done|by apply IH].
Qed.

Lemma om_forall_impl (P Q : K → V → Prop) m :
  (∀ k v, P k v → Q k v) → om_forall P m → om_forall Q m.
Proof. intros H. apply List.Forall_impl. intros [k v]. apply H. Qed.
End ordered_map.
Arguments OrderedMap : clear implicits.

#[export] Hint Resolve om_update_sorted om_emplace_sorted : qobs.
#[export] Hint Rewrite @om_update_length @om_update_keys : qobs.
