(* ===== verification/Admission.v ===== *)
(** * Admission types

    The data of [store/Store.hpp]: outcomes, the registry record of a source, the
    conflict record, the per-queue state, admission results and the store's
    counters, with the assignments its handlers make on them. *)

From S2P Require Import Prelude Result Text Identity Time Evidence Sample Counter Policy Rules.
From S2P Require Import Explanation Ring History.
Open Scope Z_scope.
Open Scope word_scope.

Module AdmissionOutcome.
Inductive AdmissionOutcome : Set :=
| Accepted | AcceptedNewSource | AcceptedNewIncarnation | AcceptedNewGeneration
| AcceptedLateButFresh | RejectedInvalid | RejectedLimit | RejectedNotRunning
| FencedStaleIncarnation | FencedStaleSequence | FencedStaleGeneration
| FencedAuthorityDowngrade.
#[export] Instance AdmissionOutcome_eq_dec : EqDecision AdmissionOutcome.
Proof. solve_decision. Defined.

Definition to_string (outcome : AdmissionOutcome) : string :=
  match outcome with
  | Accepted => "accepted"
  | AcceptedNewSource => "accepted_new_source"
  | AcceptedNewIncarnation => "accepted_new_incarnation"
  | AcceptedNewGeneration => "accepted_new_generation"
  | AcceptedLateButFresh => "accepted_late_but_fresh"
  | RejectedInvalid => "rejected_invalid"
  | RejectedLimit => "rejected_limit"
  | RejectedNotRunning => "rejected_not_running"
  | FencedStaleIncarnation => "fenced_stale_incarnation"
  | FencedStaleSequence => "fenced_stale_sequence"
  | FencedStaleGeneration => "fenced_stale_generation"
  | FencedAuthorityDowngrade => "fenced_authority_downgrade"
  end.

Definition admitted (outcome : AdmissionOutcome) : bool :=
  match outcome with
  | Accepted | AcceptedNewSource | AcceptedNewIncarnation | AcceptedNewGeneration
  | AcceptedLateButFresh => true
  | _ => false
  end.

Definition fence_reason (outcome : AdmissionOutcome) : string :=
  match outcome with
  | FencedStaleIncarnation =>
      "the sample names an incarnation that this runtime has already superseded"
  | FencedStaleSequence =>
      "the sample sequence is not strictly newer than the last accepted sequence"
  | FencedStaleGeneration =>
      "the sample names a device generation older than the current one"
  | FencedAuthorityDowngrade =>
      "the source declared a lower authority than it previously established"
  | _ => EmptyString
  end.
End AdmissionOutcome.
#[export] Existing Instance AdmissionOutcome.AdmissionOutcome_eq_dec.
Abbreviation AdmissionOutcome := AdmissionOutcome.AdmissionOutcome.

Record SourceRecord := mkSource {
  sr_id : SourceId;
  sr_authority : SourceAuthority;
  sr_declared_authority : SourceAuthority;
  sr_incarnation : IncarnationId;
  sr_incarnation_ordinal : IncarnationOrdinal;
  sr_last_sequence : SourceSequence;
  sr_generation : GenerationId;
  sr_clock_domain : ClockDomainId;
  sr_first_seen : ReceiveTime;
  sr_last_seen : ReceiveTime;
  sr_accepted : Z;
  sr_fenced : Z;
  sr_duplicates : Z;
  sr_rejected : Z;
  sr_last_observed_ns : Nanos;
  sr_recent_incarnations : list (IncarnationId * IncarnationOrdinal)
}.
#[export] Instance SourceRecord_eq_dec : EqDecision SourceRecord.
Proof. solve_decision. Defined.

(** [kMaxRecentIncarnations] *)
Definition kMaxRecentIncarnations : nat := 4.

(** The assignments of a new incarnation; the insertion in front and the [pop_back]s
    keep the newest entries. *)
Definition source_new_incarnation (incarnation : IncarnationId) (ordinal : IncarnationOrdinal) (r
    : SourceRecord) : SourceRecord :=
  mkSource (sr_id r) (sr_authority r) (sr_declared_authority r) incarnation ordinal 0
    (sr_generation r) (sr_clock_domain r) (sr_first_seen r) (sr_last_seen r) (sr_accepted r)
    (sr_fenced r) (sr_duplicates r) (sr_rejected r) (sr_last_observed_ns r) (take
    kMaxRecentIncarnations ((incarnation, ordinal) :: sr_recent_incarnations r)).
Definition source_set_generation (generation : GenerationId) (r : SourceRecord) : SourceRecord :=
  mkSource (sr_id r) (sr_authority r) (sr_declared_authority r) (sr_incarnation r)
    (sr_incarnation_ordinal r) (sr_last_sequence r) generation (sr_clock_domain r)
    (sr_first_seen r) (sr_last_seen r) (sr_accepted r) (sr_fenced r) (sr_duplicates r)
    (sr_rejected r) (sr_last_observed_ns r) (sr_recent_incarnations r).
Definition source_set_authority (authority : SourceAuthority) (r : SourceRecord) : SourceRecord :=
  mkSource (sr_id r) authority authority (sr_incarnation r) (sr_incarnation_ordinal r)
    (sr_last_sequence r) (sr_generation r) (sr_clock_domain r) (sr_first_seen r) (sr_last_seen
    r) (sr_accepted r) (sr_fenced r) (sr_duplicates r) (sr_rejected r) (sr_last_observed_ns r)
    (sr_recent_incarnations r).
Definition source_count_duplicate (r : SourceRecord) : SourceRecord :=
  mkSource (sr_id r) (sr_authority r) (sr_declared_authority r) (sr_incarnation r)
    (sr_incarnation_ordinal r) (sr_last_sequence r) (sr_generation r) (sr_clock_domain r)
    (sr_first_seen r) (sr_last_seen r) (sr_accepted r) (sr_fenced r) (sr_duplicates r +u 1)
    (sr_rejected r) (sr_last_observed_ns r) (sr_recent_incarnations r).
Definition source_count_fenced (r : SourceRecord) : SourceRecord :=
  mkSource (sr_id r) (sr_authority r) (sr_declared_authority r) (sr_incarnation r)
    (sr_incarnation_ordinal r) (sr_last_sequence r) (sr_generation r) (sr_clock_domain r)
    (sr_first_seen r) (sr_last_seen r) (sr_accepted r) (sr_fenced r +u 1) (sr_duplicates r)
    (sr_rejected r) (sr_last_observed_ns r) (sr_recent_incarnations r).
Definition source_count_accepted (r : SourceRecord) : SourceRecord :=
  mkSource (sr_id r) (sr_authority r) (sr_declared_authority r) (sr_incarnation r)
    (sr_incarnation_ordinal r) (sr_last_sequence r) (sr_generation r) (sr_clock_domain r)
    (sr_first_seen r) (sr_last_seen r) (sr_accepted r +u 1) (sr_fenced r) (sr_duplicates r)
    (sr_rejected r) (sr_last_observed_ns r) (sr_recent_incarnations r).
(** The updates that follow the fences. *)
Definition source_touch (sample : QueueSample) (r : SourceRecord) : SourceRecord :=
  mkSource (sr_id r) (sr_authority r) (sr_declared_authority r) (sr_incarnation r)
    (sr_incarnation_ordinal r) (qs_sequence sample) (sr_generation r) (if obs_known
    (qs_observed sample) then obs_domain (qs_observed sample) else sr_clock_domain r)
    (sr_first_seen r) (qs_received sample) (sr_accepted r) (sr_fenced r) (sr_duplicates r)
    (sr_rejected r) (wrap_u64 (obs_ns (qs_observed sample))) (sr_recent_incarnations r).

(** The record [ingest_locked] registers for an unknown source. *)
Definition new_source (sample : QueueSample) (ordinal : IncarnationOrdinal) : SourceRecord :=
  mkSource (qs_source sample) (qs_authority sample) (qs_authority sample) (qs_incarnation sample)
    ordinal 0 (qs_generation sample) (obs_domain (qs_observed sample)) (qs_received sample)
    (qs_received sample) 0 0 0 0 (wrap_u64 (obs_ns (qs_observed sample)))
    [(qs_incarnation sample, ordinal)].

Record ConflictRecord := mkConflictRecord {
  cn_queue : QueuePath;
  cn_detected : ReceiveTime;
  cn_source_a : SourceId;
  cn_source_b : SourceId;
  cn_value_a : Z;
  cn_value_b : Z;
  cn_difference : Z;
  cn_tolerance : Z;
  cn_active : bool
}.
#[export] Instance ConflictRecord_eq_dec : EqDecision ConflictRecord.
Proof. solve_decision. Defined.
Definition conflict_deactivate (c : ConflictRecord) : ConflictRecord :=
  mkConflictRecord (cn_queue c) (cn_detected c) (cn_source_a c) (cn_source_b c) (cn_value_a c)
    (cn_value_b c) (cn_difference c) (cn_tolerance c) false.

Record AdmissionResult := mkAdmission {
  ar_outcome : AdmissionOutcome;
  ar_accepted : bool;
  ar_reason : string;
  ar_queue : QueuePath;
  ar_classification : ClassificationResult;
  ar_conflict_detected : bool;
  ar_state_changed : bool;
  ar_previous_state : PressureState;
  ar_queue_created : bool
}.
#[export] Instance AdmissionResult_eq_dec : EqDecision AdmissionResult.
Proof. solve_decision. Defined.
Definition no_admission : AdmissionResult :=
  mkAdmission AdmissionOutcome.Accepted false EmptyString no_path no_classification false false
    PressureState.Unknown false.
Definition admission_for (queue : QueuePath) (r : AdmissionResult) : AdmissionResult :=
  mkAdmission (ar_outcome r) (ar_accepted r) (ar_reason r) queue (ar_classification r)
    (ar_conflict_detected r) (ar_state_changed r) (ar_previous_state r) (ar_queue_created r).
Definition admission_refused (outcome : AdmissionOutcome) (reason : string) (r : AdmissionResult)
    : AdmissionResult :=
  mkAdmission outcome false reason (ar_queue r) (ar_classification r) (ar_conflict_detected r)
    (ar_state_changed r) (ar_previous_state r) (ar_queue_created r).
Definition admission_created (created : bool) (r : AdmissionResult) : AdmissionResult :=
  mkAdmission (ar_outcome r) (ar_accepted r) (ar_reason r) (ar_queue r) (ar_classification r)
    (ar_conflict_detected r) (ar_state_changed r) (ar_previous_state r) created.
Definition admission_conflict (r : AdmissionResult) : AdmissionResult :=
  mkAdmission (ar_outcome r) (ar_accepted r) (ar_reason r) (ar_queue r) (ar_classification r)
    true (ar_state_changed r) (ar_previous_state r) (ar_queue_created r).
Definition admission_transition (changed : bool) (previous : PressureState) (r : AdmissionResult)
    : AdmissionResult :=
  mkAdmission (ar_outcome r) (ar_accepted r) (ar_reason r) (ar_queue r) (ar_classification r)
    (ar_conflict_detected r) changed previous (ar_queue_created r).
Definition admission_accepted (outcome : AdmissionOutcome) (c : ClassificationResult) (r :
    AdmissionResult) : AdmissionResult :=
  mkAdmission outcome true (ar_reason r) (ar_queue r) c (ar_conflict_detected r)
    (ar_state_changed r) (ar_previous_state r) (ar_queue_created r).

Record AdmissionFailure := mkAdmissionFailure {
  af_index : nat;
  af_outcome : AdmissionOutcome;
  af_queue : QueuePath;
  af_reason : string
}.
#[export] Instance AdmissionFailure_eq_dec : EqDecision AdmissionFailure.
Proof. solve_decision. Defined.
Record BatchAdmission := mkBatch {
  bt_presented : Z;
  bt_accepted : Z;
  bt_rejected : Z;
  bt_fenced : Z;
  bt_duplicates : Z;
  bt_conflicts : Z;
  bt_state_changes : Z;
  bt_queues_created : Z;
  bt_failures : list AdmissionFailure;
  bt_failures_truncated : bool
}.
#[export] Instance BatchAdmission_eq_dec : EqDecision BatchAdmission.
Proof. solve_decision. Defined.
Definition no_batch : BatchAdmission := mkBatch 0 0 0 0 0 0 0 0 [] false.

Record MetadataAdmission := mkMetadataAdmission {
  ma_accepted : bool;
  ma_fenced : bool;
  ma_reason : string;
  ma_previous_revision : Revision
}.
Definition no_metadata_admission : MetadataAdmission := mkMetadataAdmission false false EmptyString 0.

(** [StoreCounters]: a structure of 64-bit counters, all of one kind, as the
    value of each of its members. *)
Module StoreCounter.
Inductive StoreCounter : Set :=
| samples_presented | samples_accepted | samples_rejected | samples_fenced
| duplicates_suppressed | conflicts_detected | conflicts_cleared | state_transitions
| events_recorded | events_evicted | history_records_pushed | history_records_evicted
| sources_registered | metadata_updates | metadata_fenced | counter_wraps | counter_resets
| counter_ambiguous | counter_discontinuous.
#[export] Instance StoreCounter_eq_dec : EqDecision StoreCounter.
Proof. solve_decision. Defined.
End StoreCounter.
#[export] Existing Instance StoreCounter.StoreCounter_eq_dec.
Abbreviation StoreCounter := StoreCounter.StoreCounter.
Definition StoreCounters : Type := StoreCounter → Z.
Definition no_counters : StoreCounters := λ _, 0.

(** [counters_.x += n] *)
Definition bump (x : StoreCounter) (n : Z) (c : StoreCounters) : StoreCounters :=
  λ y, if decide (y = x) then c y +u n else c y.

(** [has_occupancy] and [occupancy] are one option. *)
Record PeerObservation := mkPeer {
  po_source : SourceId;
  po_authority : SourceAuthority;
  po_occupancy : option Z;
  po_reported : FieldMask;
  po_occupancy_field : SampleField;
  po_received_ns : Nanos;
  po_observed : ObservationTime
}.
#[export] Instance PeerObservation_eq_dec : EqDecision PeerObservation.
Proof. solve_decision. Defined.

(** [last_input] is [None] until the first classification: the default
    [ClassificationInput] is never read. *)
Record QueueState := mkQueue {
  q_queue : QueuePath;
  q_classes : QueueClassAttributes;
  q_classes_known : bool;
  q_counters : list CounterState;
  q_history : HistoryRing;
  q_latest : ClassificationResult;
  q_last_received : ReceiveTime;
  q_last_observed : ObservationTime;
  q_peers : list PeerObservation;
  q_counters_seen : FieldMask;
  q_last_input : option ClassificationInput;
  q_class_reference_unsupported : bool;
  q_conflict_active : bool;
  q_conflict_since : ReceiveTime;
  q_accepted : Z;
  q_conflicts : Z
}.
Definition new_queue (queue : QueuePath) : QueueState :=
  mkQueue queue no_classes false (replicate kSampleFieldCount fresh_counter) no_history
    no_classification no_receive no_observation [] 0 None false false no_receive 0 0.
Definition queue_reserve (n : nat) (q : QueueState) : QueueState :=
  mkQueue (q_queue q) (q_classes q) (q_classes_known q) (q_counters q) (history_reserve n)
    (q_latest q) (q_last_received q) (q_last_observed q) (q_peers q) (q_counters_seen q)
    (q_last_input q) (q_class_reference_unsupported q) (q_conflict_active q) (q_conflict_since
    q) (q_accepted q) (q_conflicts q).
Definition queue_set_latest (c : ClassificationResult) (q : QueueState) : QueueState :=
  mkQueue (q_queue q) (q_classes q) (q_classes_known q) (q_counters q) (q_history q) c
    (q_last_received q) (q_last_observed q) (q_peers q) (q_counters_seen q) (q_last_input q)
    (q_class_reference_unsupported q) (q_conflict_active q) (q_conflict_since q) (q_accepted
    q) (q_conflicts q).
Definition queue_set_classes (classes : QueueClassAttributes) (q : QueueState) : QueueState :=
  mkQueue (q_queue q) classes true (q_counters q) (q_history q) (q_latest q) (q_last_received
    q) (q_last_observed q) (q_peers q) (q_counters_seen q) (q_last_input q)
    (q_class_reference_unsupported q) (q_conflict_active q) (q_conflict_since q) (q_accepted
    q) (q_conflicts q).
Definition queue_unsupported_class (q : QueueState) : QueueState :=
  mkQueue (q_queue q) (q_classes q) (q_classes_known q) (q_counters q) (q_history q) (q_latest
    q) (q_last_received q) (q_last_observed q) (q_peers q) (q_counters_seen q) (q_last_input
    q) true (q_conflict_active q) (q_conflict_since q) (q_accepted q) (q_conflicts q).
Definition queue_see_counters (mask : FieldMask) (q : QueueState) : QueueState :=
  mkQueue (q_queue q) (q_classes q) (q_classes_known q) (q_counters q) (q_history q) (q_latest
    q) (q_last_received q) (q_last_observed q) (q_peers q) (Z.lor (q_counters_seen q) mask)
    (q_last_input q) (q_class_reference_unsupported q) (q_conflict_active q) (q_conflict_since
    q) (q_accepted q) (q_conflicts q).
Definition queue_set_counter (index : nat) (c : CounterState) (q : QueueState) : QueueState :=
  mkQueue (q_queue q) (q_classes q) (q_classes_known q) (<[index := c]> (q_counters q))
    (q_history q) (q_latest q) (q_last_received q) (q_last_observed q) (q_peers q)
    (q_counters_seen q) (q_last_input q) (q_class_reference_unsupported q) (q_conflict_active
    q) (q_conflict_since q) (q_accepted q) (q_conflicts q).
Definition queue_raise_conflict (since : ReceiveTime) (q : QueueState) : QueueState :=
  mkQueue (q_queue q) (q_classes q) (q_classes_known q) (q_counters q) (q_history q) (q_latest
    q) (q_last_received q) (q_last_observed q) (q_peers q) (q_counters_seen q) (q_last_input
    q) (q_class_reference_unsupported q) true since (q_accepted q) (q_conflicts q +u 1).
Definition queue_drop_conflict (q : QueueState) : QueueState :=
  mkQueue (q_queue q) (q_classes q) (q_classes_known q) (q_counters q) (q_history q) (q_latest
    q) (q_last_received q) (q_last_observed q) (q_peers q) (q_counters_seen q) (q_last_input
    q) (q_class_reference_unsupported q) false (q_conflict_since q) (q_accepted q)
    (q_conflicts q).
Definition queue_classified (c : ClassificationResult) (input : ClassificationInput) (q :
    QueueState) : QueueState :=
  mkQueue (q_queue q) (q_classes q) (q_classes_known q) (q_counters q) (q_history q) c
    (q_last_received q) (q_last_observed q) (q_peers q) (q_counters_seen q) (Some input)
    (q_class_reference_unsupported q) (q_conflict_active q) (q_conflict_since q) (q_accepted
    q) (q_conflicts q).
Definition queue_push (record : HistoryRecord) (sample : QueueSample) (q : QueueState) :
    QueueState :=
  mkQueue (q_queue q) (q_classes q) (q_classes_known q) (q_counters q) (history_push record
    (q_history q)) (q_latest q) (qs_received sample) (qs_observed sample) (q_peers q)
    (q_counters_seen q) (q_last_input q) (q_class_reference_unsupported q) (q_conflict_active
    q) (q_conflict_since q) (q_accepted q +u 1) (q_conflicts q).
Definition queue_set_peers (peers : list PeerObservation) (q : QueueState) : QueueState :=
  mkQueue (q_queue q) (q_classes q) (q_classes_known q) (q_counters q) (q_history q) (q_latest
    q) (q_last_received q) (q_last_observed q) peers (q_counters_seen q) (q_last_input q)
    (q_class_reference_unsupported q) (q_conflict_active q) (q_conflict_since q) (q_accepted
    q) (q_conflicts q).
