(* ===== verification/Store.v ===== *)
(** * The store: ingest

    [store/Store.hpp] and [store/Store.cpp]: the state of a [QueueStore] and
    [ingest_locked] with everything it calls, stage by stage.

    The store's parameters are its configuration (what the constructor computes
    and no operation changes), the clock and the size of a history record.  The
    clock is what [Clock::now] answers: the [n]-th read of the run gives
    [clock n], and the store counts its reads.  [sizeof(HistoryRecord)] is chosen
    by the C++ implementation and only enters the byte budget.

    The C++ code mutates a queue's state and a source's record through references
    into the two maps.  Here they are values, written back with [put_queue] and
    [put_source]; between the read and the write-back no code looks at the map. *)

From S2P Require Import Prelude Result Checked Text Identity Time Evidence Sample Counter.
From S2P Require Import Metadata Event Limits Policy Rules Explanation Classification.
From S2P Require Import Ring History Window OrderedMap Admission.
Open Scope Z_scope.
Open Scope word_scope.

Record SessionInfo := mkSession {
  ss_runtime_id : string;
  ss_started : ReceiveTime;
  ss_policy_version : Z;
  ss_policy_name : string
}.

(** [make_runtime_id] *)
Definition make_runtime_id (seed : Z) : string := "qobs-" +:+ to_hex seed 16.

Record StoreConfig := mkStoreConfig {
  cfg_policy : PressurePolicy;
  cfg_history : HistoryLimits;
  cfg_query : QueryLimits;
  cfg_evaluation_spec : WindowSpec;
  cfg_microburst_spec : WindowSpec;
  cfg_contention_spec : WindowSpec;
  cfg_status : Status;
  cfg_session : SessionInfo
}.

(** The [bucket_for] lambda and the constructor of [QueueStore]. *)
Definition bucket_for (duration : Nanos) (buckets : Z) : Nanos :=
  if (buckets =? 0) || (duration <=? 0) then duration
  else let bucket := Z.quot duration buckets in if bucket <=? 0 then duration else bucket.

Definition kEvaluationBuckets : Z := 8.
Definition kContentionBuckets : Z := 8.

Definition make_config (policy : PressurePolicy) (history : HistoryLimits) (query : QueryLimits)
    (started : ReceiveTime) : StoreConfig :=
  let evaluation :=
    mkWindowSpec "evaluation" (evaluation_window_ns policy)
      (bucket_for (evaluation_window_ns policy) kEvaluationBuckets) 1 kEvaluationBuckets in
  let microburst :=
    mkWindowSpec "microburst" (mb_window_ns (pl_microburst policy))
      (mb_bucket_ns (pl_microburst policy)) (mb_min_covered_buckets (pl_microburst policy))
      (mb_max_buckets (pl_microburst policy)) in
  let contention :=
    mkWindowSpec "contention" (ct_window_ns (pl_contention policy))
      (bucket_for (ct_window_ns (pl_contention policy)) kContentionBuckets)
      (ct_min_covered_buckets (pl_contention policy)) kContentionBuckets in
  let status :=
    TRY validate_history history ;;
    TRY validate_query query ;;
    TRY validate_policy policy ;;
    TRY validate_window_spec evaluation ;;
    TRY validate_window_spec microburst ;;
    validate_window_spec contention in
  mkStoreConfig policy history query evaluation microburst contention status
    (mkSession (make_runtime_id (wrap_u64 (wall started))) started (pl_version policy)
       (pl_name policy)).

Record Store := mkStore {
  st_queues : OrderedMap QueuePath QueueState;
  st_sources : OrderedMap SourceId SourceRecord;
  st_metadata : ClassMetadataTable;
  st_has_metadata : bool;
  st_recovered_mode : bool;
  st_conflicts : list ConflictRecord;
  st_events : Ring EventRecord;
  st_next_ordinal : IncarnationOrdinal;
  st_history_bytes : Z;
  st_counters : StoreCounters;
  st_clock : nat
}.
Definition set_queues (queues : OrderedMap QueuePath QueueState) (s : Store) : Store :=
  mkStore queues (st_sources s) (st_metadata s) (st_has_metadata s) (st_recovered_mode s)
    (st_conflicts s) (st_events s) (st_next_ordinal s) (st_history_bytes s) (st_counters s)
    (st_clock s).
Definition set_sources (sources : OrderedMap SourceId SourceRecord) (s : Store) : Store :=
  mkStore (st_queues s) sources (st_metadata s) (st_has_metadata s) (st_recovered_mode s)
    (st_conflicts s) (st_events s) (st_next_ordinal s) (st_history_bytes s) (st_counters s)
    (st_clock s).
Definition set_metadata (table : ClassMetadataTable) (s : Store) : Store :=
  mkStore (st_queues s) (st_sources s) table true (st_recovered_mode s) (st_conflicts s)
    (st_events s) (st_next_ordinal s) (st_history_bytes s) (st_counters s) (st_clock s).
Definition set_recovered_mode (mode : bool) (s : Store) : Store :=
  mkStore (st_queues s) (st_sources s) (st_metadata s) (st_has_metadata s) mode (st_conflicts
    s) (st_events s) (st_next_ordinal s) (st_history_bytes s) (st_counters s) (st_clock s).
Definition set_conflicts (conflicts : list ConflictRecord) (s : Store) : Store :=
  mkStore (st_queues s) (st_sources s) (st_metadata s) (st_has_metadata s) (st_recovered_mode
    s) conflicts (st_events s) (st_next_ordinal s) (st_history_bytes s) (st_counters s)
    (st_clock s).
Definition set_events (events : Ring EventRecord) (s : Store) : Store :=
  mkStore (st_queues s) (st_sources s) (st_metadata s) (st_has_metadata s) (st_recovered_mode
    s) (st_conflicts s) events (st_next_ordinal s) (st_history_bytes s) (st_counters s)
    (st_clock s).
Definition set_history_bytes (bytes : Z) (s : Store) : Store :=
  mkStore (st_queues s) (st_sources s) (st_metadata s) (st_has_metadata s) (st_recovered_mode
    s) (st_conflicts s) (st_events s) (st_next_ordinal s) bytes (st_counters s) (st_clock s).
Definition store_bump (x : StoreCounter) (n : Z) (s : Store) : Store :=
  mkStore (st_queues s) (st_sources s) (st_metadata s) (st_has_metadata s) (st_recovered_mode
    s) (st_conflicts s) (st_events s) (st_next_ordinal s) (st_history_bytes s) (bump x n
    (st_counters s)) (st_clock s).
(** [next_incarnation_ordinal_++] *)
Definition take_ordinal (s : Store) : Store :=
  mkStore (st_queues s) (st_sources s) (st_metadata s) (st_has_metadata s) (st_recovered_mode
    s) (st_conflicts s) (st_events s) (st_next_ordinal s +u 1) (st_history_bytes s)
    (st_counters s) (st_clock s).
(** A read of the clock. *)
Definition tick (s : Store) : Store :=
  mkStore (st_queues s) (st_sources s) (st_metadata s) (st_has_metadata s) (st_recovered_mode
    s) (st_conflicts s) (st_events s) (st_next_ordinal s) (st_history_bytes s) (st_counters s)
    (S (st_clock s)).

Definition put_queue (path : QueuePath) (q : QueueState) (s : Store) : Store :=
  set_queues (om_update path (λ _, q) (st_queues s)) s.
Definition put_source (id : SourceId) (r : SourceRecord) (s : Store) : Store :=
  set_sources (om_update id (λ _, r) (st_sources s)) s.

(** ** Window sums

    [any_unknown] and [considered] are left out: nothing reads them. *)

Record WindowSums := mkWindowSums {
  ws_drops : CounterDelta;
  ws_marks : CounterDelta;
  ws_pause_frames : CounterDelta;
  ws_pause_duration : CounterDelta;
  ws_enqueues : CounterDelta;
  ws_dequeues : CounterDelta
}.
Definition no_window_sums : WindowSums :=
  mkWindowSums no_delta no_delta no_delta no_delta no_delta no_delta.

Definition accumulate_delta (target value : CounterDelta) : CounterDelta :=
  if negb (cd_known value) then target
  else
    let target :=
      if negb (cd_known target) then mkDelta CounterContinuity.Continuous true 0 else target in
    mkDelta (cd_continuity target) true
      (match add_u64 (cd_delta target) (cd_delta value) with Some sum => sum | None => u64_max end).

Definition accumulate_field (record : HistoryRecord) (field : SampleField) (target : CounterDelta) :
    CounterDelta :=
  if negb (has_field (hr_reported record) field) then target
  else accumulate_delta target (record_delta record field).

Definition accumulate_record (sums : WindowSums) (record : HistoryRecord) : WindowSums :=
  mkWindowSums (accumulate_field record SampleField.DropPackets (ws_drops sums))
    (accumulate_field record SampleField.MarkPackets (ws_marks sums))
    (accumulate_field record SampleField.PauseFrames (ws_pause_frames sums))
    (accumulate_field record SampleField.PauseDurationNanos (ws_pause_duration sums))
    (accumulate_field record SampleField.EnqueuePackets (ws_enqueues sums))
    (accumulate_field record SampleField.DequeuePackets (ws_dequeues sums)).

(** The scan from the newest record; [remaining] are left to visit. *)
Fixpoint window_sums_loop (history : HistoryRing) (cutoff_ns : Nanos) (remaining : nat)
    (sums : WindowSums) : WindowSums :=
  match remaining with
  | O => sums
  | S remaining =>
      let record := history_at history remaining in
      if steady (hr_received record) <? cutoff_ns then sums
      else window_sums_loop history cutoff_ns remaining (accumulate_record sums record)
  end.
Definition window_sums (history : HistoryRing) (cutoff_ns : Nanos) : WindowSums :=
  window_sums_loop history cutoff_ns (history_size history) no_window_sums.

Definition describe_missing (mask : FieldMask) : string := field_list mask.

(** What a fencing stage decides about a sample. *)
Inductive Fencing : Type :=
| Refuse (outcome : AdmissionOutcome) (code : ErrorCode) (reason : string)
| Fence (outcome : AdmissionOutcome)
| Admit (outcome : AdmissionOutcome).

Section ingest.
Context (cfg : StoreConfig) (clock : nat → ReceiveTime) (record_bytes : Z).

Definition new_event (kind : EventKind) (severity : Severity) (received : ReceiveTime)
    (detail : string) : EventRecord :=
  mkEvent kind severity received no_observation no_path EmptyString EmptyString 0 0 detail.
Definition blank_event : EventRecord :=
  new_event EventKind.SampleAccepted Severity.Info no_receive EmptyString.

Definition record_event_global (kind : EventKind) (severity : Severity) (detail : string)
    (s : Store) : Store :=
  if (capacity (st_events s) =? 0)%nat then s
  else
    let record := new_event kind severity (clock (st_clock s)) detail in
    let s := tick s in
    let s :=
      if (size (st_events s) <? capacity (st_events s))%nat
      then set_events (ring_append record (st_events s)) s
      else store_bump StoreCounter.events_evicted 1
             (set_events (ring_replace record (st_events s)) s) in
    store_bump StoreCounter.events_recorded 1 s.

Definition annotate (sample : option QueueSample) (queue : QueuePath) (e : EventRecord) :
    EventRecord :=
  match sample with
  | None =>
      mkEvent (ev_kind e) (ev_severity e) (ev_received e) (ev_observed e) queue (ev_source e)
        (ev_incarnation e) (ev_sequence e) (ev_revision e) (ev_detail e)
  | Some sample =>
      mkEvent (ev_kind e) (ev_severity e) (ev_received e) (qs_observed sample) queue
        (qs_source sample) (qs_incarnation sample) (qs_sequence sample) (qs_revision sample)
        (ev_detail e)
  end.

(** The newest event, rewritten in place. *)
Definition amend_newest (f : EventRecord → EventRecord) (s : Store) : Store :=
  let r := st_events s in
  if (size r =? 0)%nat then s
  else
    let last := (size r - 1)%nat in
    set_events (ring_set last (f (ring_at blank_event r last)) r) s.

Definition record_event (kind : EventKind) (severity : Severity) (sample : option QueueSample)
    (queue : QueuePath) (detail : string) (s : Store) : Store :=
  amend_newest (annotate sample queue) (record_event_global kind severity detail s).

Definition per_queue : Z := max_samples_per_queue (cfg_history cfg) *u record_bytes.

(** [acquire_queue]: the queue's state and whether it was created. *)
Definition acquire_queue (queue : QueuePath) (s : Store) : Store * QueueState * bool :=
  match om_find queue (st_queues s) with
  | Some q => (s, q, false)
  | None =>
      let q := new_queue queue in
      let s := set_queues (om_emplace path_ltb queue q (st_queues s)) s in
      match add_u64 (st_history_bytes s) per_queue with
      | Some needed =>
          let q := queue_reserve (Z.to_nat (max_samples_per_queue (cfg_history cfg))) q in
          (set_history_bytes needed (put_queue queue q s), q, true)
      | None => (s, q, true)
      end
  end.

(** [assess], at the receive time [now]. *)
Definition assess_at (now : ReceiveTime) (recovered : bool) (sample : QueueSample)
    (source : SourceRecord) (metadata_derived : bool) : EvidenceAssessment :=
  let policy := cfg_policy cfg in
  let age := steady now -s steady (qs_received sample) in
  let freshness := assess_freshness age (pl_freshness policy) in
  let freshness :=
    if recovered && (bool_decide (freshness = Freshness.Fresh) ||
                     bool_decide (freshness = Freshness.Unknown))
    then Freshness.Stale else freshness in
  let provenance :=
    if recovered then Provenance.RecoveredFromPersistence
    else if metadata_derived then Provenance.DerivedFromMetadata else Provenance.Observed in
  let flags := 0 in
  let flags := if age <? 0 then with_flag flags EvidenceFlag.OrderAnomaly else flags in
  let flags :=
    if negb (obs_known (qs_observed sample)) then with_flag flags EvidenceFlag.ClockDomainUnknown
    else if name_valid (sr_clock_domain source) &&
            bool_decide (sr_clock_domain source ≠ obs_domain (qs_observed sample))
    then with_flag flags EvidenceFlag.ClockDomainMismatch else flags in
  let flags :=
    if metadata_derived then with_flag flags EvidenceFlag.ClassResolvedFromMetadata else flags in
  let flags := if recovered then with_flag flags EvidenceFlag.Recovered else flags in
  let missing := Z.ldiff (required_fields policy) (qs_reported sample) in
  let quality :=
    if recovered || negb (missing =? 0) then EvidenceQuality.Incomplete
    else EvidenceQuality.Complete in
  let reason :=
    if recovered then
      "evidence was read back from persistence and cannot define the current state"
    else if negb (missing =? 0)
    then "required fields were not reported: " +:+ describe_missing missing
    else EmptyString in
  mkAssessment freshness quality provenance (sr_authority source) flags
    (if age <? 0 then 0 else age) reason.

Definition assess (sample : QueueSample) (source : SourceRecord) (metadata_derived : bool)
    (s : Store) : Store * EvidenceAssessment :=
  (tick s, assess_at (clock (st_clock s)) (st_recovered_mode s) sample source metadata_derived).

(** ** Conflicts *)

Definition resolve_conflict_tolerance (value_a value_b : Z) : Z :=
  let conflict := pl_conflict (cfg_policy cfg) in
  let tolerance := cf_absolute_tolerance conflict in
  match permille_of (Z.max value_a value_b) (cf_relative_permille conflict) with
  | Value relative => if tolerance <? relative then relative else tolerance
  | Failure _ => tolerance
  end.

Definition difference_of (a b : Z) : Z := if b <? a then a -u b else b -u a.

Definition occupancy_field_of (sample : QueueSample) : SampleField :=
  if has sample SampleField.OccupancyCells then SampleField.OccupancyCells
  else SampleField.OccupancyBytes.

(** The body of the loop over the peers: the peer's value when it disagrees. *)
Definition peer_disagrees (sample : QueueSample) (source : SourceRecord) (occupancy : Z)
    (peer : PeerObservation) : option Z :=
  let now_ns := steady (qs_received sample) in
  match po_occupancy peer with
  | None => None
  | Some value =>
      if bool_decide (po_source peer = qs_source sample) then None
      else if bool_decide (po_occupancy_field peer ≠ occupancy_field_of sample) then None
      else if (cf_window_ns (pl_conflict (cfg_policy cfg)) <? now_ns -s po_received_ns peer)
           || (now_ns <? po_received_ns peer) then None
      else if bool_decide (po_authority peer ≠ sr_authority source) then None
      else if resolve_conflict_tolerance occupancy value <? difference_of occupancy value
      then Some value else None
  end.

Fixpoint find_disagreement (sample : QueueSample) (source : SourceRecord) (occupancy : Z)
    (peers : list PeerObservation) : option (SourceId * Z) :=
  match peers with
  | [] => None
  | peer :: peers =>
      match peer_disagrees sample source occupancy peer with
      | Some value => Some (po_source peer, value)
      | None => find_disagreement sample source occupancy peers
      end
  end.

(** [erase(begin())] when full, then [push_back]. *)
Definition push_bounded {A} (limit : Z) (x : A) (xs : list A) : list A :=
  (if limit <=? Z.of_nat (length xs) then drop 1 xs else xs) ++ [x].

(** Clear the last active record of the queue. *)
Fixpoint clear_first (queue : QueuePath) (newest_first : list ConflictRecord) :
    list ConflictRecord :=
  match newest_first with
  | [] => []
  | c :: rest =>
      if bool_decide (cn_queue c = queue) && cn_active c then conflict_deactivate c :: rest
      else c :: clear_first queue rest
  end.
Definition clear_last_active (queue : QueuePath) (conflicts : list ConflictRecord) :
    list ConflictRecord := rev (clear_first queue (rev conflicts)).

Definition disagreement (q : QueueState) (sample : QueueSample) (source : SourceRecord) :
    option (Z * SourceId * Z) :=
  match occupancy_for_pressure sample with
  | None => None
  | Some occupancy =>
      match find_disagreement sample source occupancy (q_peers q) with
      | None => None
      | Some (other, value) => Some (occupancy, other, value)
      end
  end.

Definition detect_conflict (q : QueueState) (sample : QueueSample) (source : SourceRecord)
    (r : AdmissionResult) (s : Store) : Store * QueueState * AdmissionResult :=
  if negb (cf_enabled (pl_conflict (cfg_policy cfg))) then (s, q, r)
  else
    match disagreement q sample source, q_conflict_active q with
    | Some (occupancy, other, value), false =>
        let difference := difference_of occupancy value in
        let tolerance := resolve_conflict_tolerance occupancy value in
        let q := queue_raise_conflict (qs_received sample) q in
        let s := store_bump StoreCounter.conflicts_detected 1 s in
        let record := mkConflictRecord (q_queue q) (qs_received sample) (qs_source sample) other
                        occupancy value difference tolerance true in
        let s := set_conflicts (push_bounded (max_conflicts (cfg_history cfg)) record
                                  (st_conflicts s)) s in
        let s := record_event EventKind.ConflictDetected Severity.Warning (Some sample)
                   (q_queue q)
                   ("sources " +:+ qs_source sample +:+ " and " +:+ other +:+ " disagree by " +:+
                    u64_to_string difference +:+ " (tolerance " +:+ u64_to_string tolerance +:+
                    ")") s in
        (s, q, admission_conflict r)
    | None, true =>
        let q := queue_drop_conflict q in
        let s := store_bump StoreCounter.conflicts_cleared 1 s in
        let s := set_conflicts (clear_last_active (q_queue q) (st_conflicts s)) s in
        let s := record_event EventKind.ConflictCleared Severity.Notice (Some sample) (q_queue q)
                   "peer sources agree again within tolerance" s in
        (s, q, r)
    | Some _, true => (s, q, admission_conflict r)
    | None, false => (s, q, r)
    end.

(** ** Refusals and fences *)

(** The [reject] lambda. *)
Definition reject (sample : QueueSample) (r : AdmissionResult) (outcome : AdmissionOutcome)
    (code : ErrorCode) (reason : string) (s : Store) : Store * AdmissionResult * Status :=
  let s := store_bump StoreCounter.samples_rejected 1 s in
  let s := record_event EventKind.SampleRejected Severity.Warning (Some sample)
             (qs_queue sample) reason s in
  (s, admission_refused outcome reason r, failure code reason).

(** The [fence] lambda. *)
Definition fence (sample : QueueSample) (r : AdmissionResult) (outcome : AdmissionOutcome)
    (s : Store) : Store * AdmissionResult * Status :=
  let reason := AdmissionOutcome.fence_reason outcome in
  let s := store_bump StoreCounter.samples_fenced 1 s in
  let s := set_sources (om_update (qs_source sample) source_count_fenced (st_sources s)) s in
  let kind := if bool_decide (outcome = AdmissionOutcome.FencedStaleSequence)
              then EventKind.DuplicateReplay else EventKind.SampleFenced in
  let s := record_event kind Severity.Warning (Some sample) (qs_queue sample) reason s in
  (s, admission_refused outcome reason r, success).

Definition stamp (sample : QueueSample) (s : Store) : Store * QueueSample :=
  if (steady (qs_received sample) =? 0) && (wall (qs_received sample) =? 0)
  then (tick s, set_received (clock (st_clock s)) sample) else (s, sample).

Definition validate_sample (sample : QueueSample) : option string :=
  if negb (path_valid (qs_queue sample)) || negb (name_valid (qs_source sample))
     || negb (name_valid (qs_incarnation sample)) || negb (id_valid (qs_generation sample))
     || negb (id_valid (qs_sequence sample)) then
    Some "sample identity is incomplete: queue, source, incarnation, generation and sequence are all required"
  else if qs_reported sample =? 0 then Some "sample reports no measurement fields"
  else
    let undeclared := Z.ldiff (qs_reported sample) (qs_declared sample) in
    if negb (qs_declared sample =? 0) && negb (undeclared =? 0) then
      Some ("sample reports fields it did not declare: " +:+ describe_missing undeclared)
    else None.

(** ** The source registry *)

Definition notice (kind : EventKind) (sample : QueueSample) (detail : string) (s : Store) : Store :=
  record_event kind Severity.Notice (Some sample) (qs_queue sample) detail s.

Definition register_source (sample : QueueSample) (s : Store) : Store * Fencing :=
  if max_sources (cfg_history cfg) <=? Z.of_nat (length (st_sources s)) then
    (s, Refuse AdmissionOutcome.RejectedLimit ErrorCode.LimitExceeded
          "the source registry is full; no further sources may be registered")
  else
    let record := new_source sample (st_next_ordinal s) in
    let s := take_ordinal s in
    let s := set_sources (om_emplace string_ltb (qs_source sample) record (st_sources s)) s in
    let s := store_bump StoreCounter.sources_registered 1 s in
    let s := notice EventKind.SourceRegistered sample
               ("registered source with authority " +:+
                SourceAuthority.to_string (qs_authority sample)) s in
    (s, Admit AdmissionOutcome.AcceptedNewSource).

Definition check_incarnation (sample : QueueSample) (record : SourceRecord) (s : Store) :
    Store * SourceRecord * Fencing :=
  if bool_decide (sr_incarnation record = qs_incarnation sample) then
    (s, record, Admit AdmissionOutcome.Accepted)
  else
    let known :=
      find (λ entry : IncarnationId * IncarnationOrdinal,
              bool_decide (entry.1 = qs_incarnation sample)) (sr_recent_incarnations record) in
    let superseded :=
      match known with
      | Some entry => (entry.2 <? sr_incarnation_ordinal record)
                      || (entry.2 =? sr_incarnation_ordinal record)
      | None => false
      end in
    if superseded then (s, record, Fence AdmissionOutcome.FencedStaleIncarnation)
    else
      let ordinal := st_next_ordinal s in
      let s := take_ordinal s in
      let record := source_new_incarnation (qs_incarnation sample) ordinal record in
      let s := put_source (qs_source sample) record s in
      let s := notice EventKind.SourceIncarnationChanged sample
                 "source presented a new incarnation token; its sequence space was reset" s in
      (s, record, Admit AdmissionOutcome.AcceptedNewIncarnation).

Definition check_generation (sample : QueueSample) (record : SourceRecord)
    (outcome : AdmissionOutcome) (s : Store) : Store * SourceRecord * Fencing :=
  if qs_generation sample <? sr_generation record then
    (s, record, Fence AdmissionOutcome.FencedStaleGeneration)
  else if sr_generation record <? qs_generation sample then
    let record := source_set_generation (qs_generation sample) record in
    let s := put_source (qs_source sample) record s in
    let s := notice EventKind.SampleAccepted sample
               ("source advanced to generation " +:+ id_to_string (qs_generation sample)) s in
    (s, record,
     Admit (if bool_decide (outcome = AdmissionOutcome.Accepted)
            then AdmissionOutcome.AcceptedNewGeneration else outcome))
  else (s, record, Admit outcome).

Definition check_authority (sample : QueueSample) (record : SourceRecord)
    (outcome : AdmissionOutcome) (s : Store) : Store * SourceRecord * Fencing :=
  if authority_ltb (qs_authority sample) (sr_authority record) then
    (s, record, Fence AdmissionOutcome.FencedAuthorityDowngrade)
  else if authority_ltb (sr_authority record) (qs_authority sample) then
    let record := source_set_authority (qs_authority sample) record in
    let s := put_source (qs_source sample) record s in
    let s := notice EventKind.SourceAuthorityChanged sample
               ("source raised its authority to " +:+
                SourceAuthority.to_string (qs_authority sample)) s in
    (s, record, Admit outcome)
  else (s, record, Admit outcome).

Definition check_sequence (sample : QueueSample) (record : SourceRecord)
    (outcome : AdmissionOutcome) (s : Store) : Store * SourceRecord * Fencing :=
  if qs_sequence sample <=? sr_last_sequence record then
    let record := source_count_duplicate record in
    let s := put_source (qs_source sample) record s in
    let s := store_bump StoreCounter.duplicates_suppressed 1 s in
    (s, record, Fence AdmissionOutcome.FencedStaleSequence)
  else (s, record, Admit outcome).

(** The next check, when the last one admitted. *)
Definition then_check (result : Store * SourceRecord * Fencing)
    (next : SourceRecord → AdmissionOutcome → Store → Store * SourceRecord * Fencing) :
    Store * SourceRecord * Fencing :=
  match result with
  | (s, record, Admit outcome) => next record outcome s
  | _ => result
  end.

Definition check_source (sample : QueueSample) (record : SourceRecord) (s : Store) :
    Store * SourceRecord * Fencing :=
  then_check
    (then_check
       (then_check (check_incarnation sample record s) (check_generation sample))
       (check_authority sample))
    (check_sequence sample).

Definition admit_source (sample : QueueSample) (s : Store) : Store * Fencing :=
  match om_find (qs_source sample) (st_sources s) with
  | None => register_source sample s
  | Some record => let '(s, _, verdict) := check_source sample record s in (s, verdict)
  end.

(** ** The queue of an admitted sample *)

Definition queue_refusal (sample : QueueSample) (s : Store) : option string :=
  if is_some (om_find (qs_queue sample) (st_queues s)) then None
  else if max_queues (cfg_history cfg) <=? Z.of_nat (length (st_queues s)) then
    Some "the queue registry is full; no further queues may be tracked"
  else
    match add_u64 (st_history_bytes s) per_queue with
    | Some needed =>
        if max_history_bytes (cfg_history cfg) <? needed
        then Some "the history byte budget is exhausted; no further queue history may be allocated"
        else None
    | None => Some "the history byte budget is exhausted; no further queue history may be allocated"
    end.

(** A new queue's first result and event. *)
Definition open_queue (sample : QueueSample) (s : Store) : Store * QueueState * bool :=
  let '(s, q, created) := acquire_queue (qs_queue sample) s in
  if created then
    let c := mkClassification PressureState.Unknown (path_to_string (qs_queue sample)) [] no_basis
               no_assessment 0 EmptyString 0 RuleId.EvidencePresence in
    (record_event EventKind.QueueLimitReached Severity.Debug (Some sample) (qs_queue sample)
       "queue state created" s, queue_set_latest c q, true)
  else (s, q, false).

(** The class attributes; the flag is [metadata_derived]. *)
Definition resolve_classes (sample : QueueSample) (q : QueueState) (s : Store) :
    Store * QueueState * bool :=
  let resolution :=
    resolve_class_attributes (st_metadata s) (qs_queue sample) (qs_classes sample) in
  let derived := st_has_metadata s && mr_used_metadata resolution in
  let q :=
    if derived then queue_set_classes (mr_attributes resolution) q
    else if is_some (qc_traffic_class (qs_classes sample))
            || is_some (qc_scheduling_class (qs_classes sample))
    then queue_set_classes (qs_classes sample) q else q in
  if st_has_metadata s && mr_referenced_unknown_class resolution
     && negb (q_class_reference_unsupported q) then
    (notice EventKind.SampleAccepted sample
       "the sample names a class that the current metadata table does not describe" s,
     queue_unsupported_class q, derived)
  else (s, q, derived).

(** ** Counters *)

Definition counters_reported (sample : QueueSample) : FieldMask :=
  fold_left (λ mask field,
               if is_counter_field field && has sample field
               then Z.lor mask (field_bit field) else mask) all_fields 0.

(** The counter and the event of a noteworthy continuity. *)
Definition continuity_event (c : CounterContinuity) : option (StoreCounter * EventKind) :=
  match c with
  | CounterContinuity.Wrapped => Some (StoreCounter.counter_wraps, EventKind.CounterWrap)
  | CounterContinuity.Reset => Some (StoreCounter.counter_resets, EventKind.CounterReset)
  | CounterContinuity.AmbiguousWrap =>
      Some (StoreCounter.counter_ambiguous, EventKind.CounterAmbiguous)
  | CounterContinuity.Discontinuous =>
      Some (StoreCounter.counter_discontinuous, EventKind.CounterDiscontinuous)
  | _ => None
  end.

(** One turn of the loop; [deltas] is the array indexed by field. *)
Definition ingest_counter (sample : QueueSample) (acc : Store * QueueState * list CounterDelta)
    (field : SampleField) : Store * QueueState * list CounterDelta :=
  let '(s, q, deltas) := acc in
  let index := SampleField.index field in
  if negb (is_counter_field field) || negb (has_field (q_counters_seen q) field) then acc
  else if negb (has sample field) then acc
  else
    let '(counter, update) :=
      update_counter (nth index (q_counters q) fresh_counter) (raw_value_or_zero sample field)
        (qs_observed sample) (qs_received sample) (pl_continuity (cfg_policy cfg)) in
    let q := queue_set_counter index counter q in
    let deltas :=
      <[index := mkDelta (cu_continuity update) (cu_delta_known update) (cu_delta update)]> deltas in
    let s :=
      match continuity_event (cu_continuity update) with
      | Some (count, kind) =>
          record_event kind Severity.Warning (Some sample) (qs_queue sample)
            (field_to_string field +:+ ": " +:+ cu_reason update) (store_bump count 1 s)
      | None => s
      end in
    (s, q, deltas).

Definition ingest_counters (sample : QueueSample) (q : QueueState) (s : Store) :
    Store * QueueState * list CounterDelta :=
  let q := queue_see_counters (counters_reported sample) q in
  fold_left (ingest_counter sample) all_fields (s, q, replicate kSampleFieldCount no_delta).

(** ** Classification and history *)

Definition delta_of (deltas : list CounterDelta) (field : SampleField) : CounterDelta :=
  nth (SampleField.index field) deltas no_delta.

Definition classification_input (sample : QueueSample) (q : QueueState)
    (deltas : list CounterDelta) (assessment : EvidenceAssessment) : ClassificationInput :=
  let sums :=
    window_sums (q_history q)
      (steady (qs_received sample) -s evaluation_window_ns (cfg_policy cfg)) in
  with_deltas
    (accumulate_delta (ws_drops sums) (delta_of deltas SampleField.DropPackets))
    (accumulate_delta (ws_marks sums) (delta_of deltas SampleField.MarkPackets))
    (accumulate_delta (ws_pause_frames sums) (delta_of deltas SampleField.PauseFrames))
    (accumulate_delta (ws_pause_duration sums) (delta_of deltas SampleField.PauseDurationNanos))
    (accumulate_delta (ws_enqueues sums) (delta_of deltas SampleField.EnqueuePackets))
    (accumulate_delta (ws_dequeues sums) (delta_of deltas SampleField.DequeuePackets))
    (with_evidence assessment (q_conflict_active q) (make_classification_input sample)).

Definition transition_text (previous : PressureState) (c : ClassificationResult) : string :=
  PressureState.to_string previous +:+ " -> " +:+ PressureState.to_string (cr_state c) +:+
  " by " +:+ RuleId.rule_name (cr_deciding_rule c).

Definition classify_queue (sample : QueueSample) (q : QueueState) (deltas : list CounterDelta)
    (assessment : EvidenceAssessment) (r : AdmissionResult) (s : Store) :
    Store * QueueState * AdmissionResult * ClassificationResult :=
  let input := classification_input sample q deltas assessment in
  let classification := classify (cfg_policy cfg) input in
  let previous_state := cr_state (q_latest q) in
  let had_state := negb (history_size (q_history q) =? 0)%nat in
  let changed := had_state && bool_decide (previous_state ≠ cr_state classification) in
  let r := admission_transition changed previous_state r in
  let s :=
    if changed then
      notice EventKind.StateTransition sample (transition_text previous_state classification)
        (store_bump StoreCounter.state_transitions 1 s)
    else s in
  (s, queue_classified classification input q, r, classification).

Definition history_record (sample : QueueSample) (source : SourceRecord)
    (deltas : list CounterDelta) (assessment : EvidenceAssessment)
    (classification : ClassificationResult) : HistoryRecord :=
  mkRecord (qs_received sample) (qs_observed sample) (qs_source sample) (qs_generation sample)
    (sr_incarnation_ordinal source) (qs_sequence sample) (sr_authority source)
    (qs_reported sample) (ea_freshness assessment) (ea_quality assessment) (ea_flags assessment)
    (ea_age_ns assessment) (qs_values sample) deltas (cr_state classification)
    (cr_explanation_digest classification).

Definition push_history (sample : QueueSample) (record : HistoryRecord) (q : QueueState)
    (s : Store) : Store * QueueState :=
  let evicted_before := hs_evicted (q_history q) in
  let q := queue_push record sample q in
  let s := store_bump StoreCounter.history_records_pushed 1 s in
  let evicted_after := hs_evicted (q_history q) in
  if evicted_before <? evicted_after then
    let newly_evicted := evicted_after -u evicted_before in
    let s := store_bump StoreCounter.history_records_evicted newly_evicted s in
    (record_event EventKind.HistoryEvicted Severity.Debug (Some sample) (qs_queue sample)
       ("evicted " +:+ u64_to_string newly_evicted +:+
        " history records to stay inside the ring capacity") s, q)
  else (s, q).

(** ** Peers *)

Definition peer_of (sample : QueueSample) (source : SourceRecord) : PeerObservation :=
  match occupancy_for_pressure sample with
  | Some occupancy =>
      mkPeer (qs_source sample) (sr_authority source) (Some occupancy) (qs_reported sample)
        (occupancy_field_of sample) (steady (qs_received sample)) (qs_observed sample)
  | None =>
      mkPeer (qs_source sample) (sr_authority source) None (qs_reported sample)
        SampleField.Count (steady (qs_received sample)) (qs_observed sample)
  end.

(** Replace the entry of the same source; [None] when there is none. *)
Fixpoint replace_peer (peer : PeerObservation) (peers : list PeerObservation) :
    option (list PeerObservation) :=
  match peers with
  | [] => None
  | existing :: peers =>
      if bool_decide (po_source existing = po_source peer) then Some (peer :: peers)
      else match replace_peer peer peers with Some rest => Some (existing :: rest) | None => None end
  end.

Definition update_peers (peer : PeerObservation) (peers : list PeerObservation) :
    list PeerObservation :=
  match replace_peer peer peers with
  | Some updated => updated
  | None => push_bounded (max_sources (cfg_history cfg)) peer peers
  end.

(** ** The whole handler *)

(** From the creation of the queue to the totals. *)
Definition admit_queue (sample : QueueSample) (source : SourceRecord)
    (outcome : AdmissionOutcome) (r : AdmissionResult) (s : Store) :
    Store * AdmissionResult * Status :=
  let '(s, q, created) := open_queue sample s in
  let r := admission_created created r in
  let '(s, q, metadata_derived) := resolve_classes sample q s in
  let '(s, assessment) := assess sample source metadata_derived s in
  let '(s, q, deltas) := ingest_counters sample q s in
  let '(s, q, r) := detect_conflict q sample source r s in
  let '(s, q, r, classification) := classify_queue sample q deltas assessment r s in
  let record := history_record sample source deltas assessment classification in
  let '(s, q) := push_history sample record q s in
  let q := queue_set_peers (update_peers (peer_of sample source) (q_peers q)) q in
  let s := put_queue (qs_queue sample) q s in
  let s := put_source (qs_source sample) (source_count_accepted source) s in
  let s := store_bump StoreCounter.samples_accepted 1 s in
  (s, admission_accepted outcome classification r, success).

Definition ingest_locked (sample : QueueSample) (r : AdmissionResult) (s : Store) :
    Store * AdmissionResult * Status :=
  let r := admission_for (qs_queue sample) r in
  let s := store_bump StoreCounter.samples_presented 1 s in
  let '(s, sample) := stamp sample s in
  match validate_sample sample with
  | Some reason =>
      reject sample r AdmissionOutcome.RejectedInvalid ErrorCode.InvalidArgument reason s
  | None =>
      let '(s, verdict) := admit_source sample s in
      match verdict with
      | Refuse outcome code reason => reject sample r outcome code reason s
      | Fence outcome => fence sample r outcome s
      | Admit outcome =>
          let source := source_touch sample
            (default (new_source sample 0) (om_find (qs_source sample) (st_sources s))) in
          let s := put_source (qs_source sample) source s in
          match queue_refusal sample s with
          | Some reason =>
              reject sample r AdmissionOutcome.RejectedLimit ErrorCode.LimitExceeded reason s
          | None => admit_queue sample source outcome r s
          end
      end
  end.
End ingest.
