(* ===== verification/StoreOps.v ===== *)
(** * The store: operations

    The public operations of [QueueStore] that change it: [ingest],
    [ingest_batch], [admit_recovered], [import_events] and [apply_metadata], the
    initial state, and the runs they generate.  Each holds the store's exclusive
    lock for its whole body, so the operations are the atomic steps of a run. *)

From S2P Require Import Prelude Result Checked Text Identity Time Evidence Sample Counter.
From S2P Require Import Metadata Event Limits Policy Rules Explanation Classification.
From S2P Require Import Ring History Window OrderedMap Admission Store.
Open Scope Z_scope.
Open Scope word_scope.

Definition kMaxFailureDetails : nat := 64.

Section operations.
Context (cfg : StoreConfig) (clock : nat → ReceiveTime) (record_bytes : Z).

(** The constructor reads the clock once, for the session. *)
Definition init_store : Store :=
  mkStore [] [] no_metadata false false []
    (ring_make blank_event (Z.to_nat (max_events_total (cfg_history cfg)))) 1 0 no_counters 1.

Definition ingest (sample : QueueSample) (r : AdmissionResult) (s : Store) :
    Store * AdmissionResult * Status :=
  if negb (ok (cfg_status cfg)) then (s, r, cfg_status cfg)
  else ingest_locked cfg clock record_bytes sample r s.

(** ** Batches *)

Definition failure_reason (admission : AdmissionResult) (status : Status) : string :=
  if bool_decide (ar_reason admission = EmptyString) then message status else ar_reason admission.

Definition record_failure (index : nat) (admission : AdmissionResult) (status : Status)
    (b : BatchAdmission) : BatchAdmission :=
  let room := (length (bt_failures b) <? kMaxFailureDetails)%nat in
  mkBatch (bt_presented b) (bt_accepted b) (bt_rejected b +u 1) (bt_fenced b) (bt_duplicates b)
    (bt_conflicts b) (bt_state_changes b) (bt_queues_created b)
    (if room then
       bt_failures b ++ [mkAdmissionFailure index (ar_outcome admission) (ar_queue admission)
                           (failure_reason admission status)]
     else bt_failures b)
    (if room then bt_failures_truncated b else true).

Definition count_presented (b : BatchAdmission) : BatchAdmission :=
  mkBatch (bt_presented b +u 1) (bt_accepted b) (bt_rejected b) (bt_fenced b) (bt_duplicates b)
    (bt_conflicts b) (bt_state_changes b) (bt_queues_created b) (bt_failures b)
    (bt_failures_truncated b).

(** The [switch] over the outcome of a sample that was not rejected. *)
Definition count_outcome (outcome : AdmissionOutcome) (b : BatchAdmission) : BatchAdmission :=
  let admitted := AdmissionOutcome.admitted outcome in
  let duplicate := bool_decide (outcome = AdmissionOutcome.FencedStaleSequence) in
  mkBatch (bt_presented b) (if admitted then bt_accepted b +u 1 else bt_accepted b)
    (bt_rejected b) (if admitted then bt_fenced b else bt_fenced b +u 1)
    (if duplicate then bt_duplicates b +u 1 else bt_duplicates b)
    (bt_conflicts b) (bt_state_changes b) (bt_queues_created b) (bt_failures b)
    (bt_failures_truncated b).

Definition count_effects (conflict changed created : bool) (b : BatchAdmission) : BatchAdmission :=
  mkBatch (bt_presented b) (bt_accepted b) (bt_rejected b) (bt_fenced b) (bt_duplicates b)
    (if conflict then bt_conflicts b +u 1 else bt_conflicts b)
    (if changed then bt_state_changes b +u 1 else bt_state_changes b)
    (if created then bt_queues_created b +u 1 else bt_queues_created b)
    (bt_failures b) (bt_failures_truncated b).

(** One sample of [ingest_batch]; a rejected one [continue]s. *)
Definition tally (index : nat) (admission : AdmissionResult) (status : Status)
    (b : BatchAdmission) : BatchAdmission :=
  let b := count_presented b in
  if negb (ok status) then record_failure index admission status b
  else count_effects (ar_conflict_detected admission) (ar_state_changed admission)
         (ar_queue_created admission) (count_outcome (ar_outcome admission) b).

(** One sample of [admit_recovered], which does not [continue] and does not
    count state changes. *)
Definition tally_recovered (index : nat) (admission : AdmissionResult) (status : Status)
    (b : BatchAdmission) : BatchAdmission :=
  let b := count_presented b in
  count_effects (ar_conflict_detected admission) false (ar_queue_created admission)
    (if negb (ok status) then record_failure index admission status b
     else count_outcome (ar_outcome admission) b).

(** The loop of [ingest_batch]: [stop index] is the token's answer before the
    sample [index], [total] the size of the batch. *)
Fixpoint batch_loop (stop : nat → bool) (total index : nat) (samples : list QueueSample)
    (b : BatchAdmission) (s : Store) : Store * BatchAdmission * Status :=
  match samples with
  | [] => (s, b, success)
  | sample :: samples =>
      if stop index then
        (s, b, failure ErrorCode.Cancelled
                 ("batch ingest was cancelled after " +:+ size_to_string index +:+ " of " +:+
                  size_to_string total +:+ " samples"))
      else
        let '(s, admission, status) :=
          ingest_locked cfg clock record_bytes sample no_admission s in
        batch_loop stop total (S index) samples (tally index admission status b) s
  end.

Definition ingest_batch (stop : nat → bool) (samples : list QueueSample) (s : Store) :
    Store * BatchAdmission * Status :=
  if negb (ok (cfg_status cfg)) then (s, no_batch, cfg_status cfg)
  else batch_loop stop (length samples) 0 samples no_batch s.

Fixpoint recovered_loop (index : nat) (samples : list QueueSample) (b : BatchAdmission)
    (s : Store) : Store * BatchAdmission :=
  match samples with
  | [] => (s, b)
  | sample :: samples =>
      let '(s, admission, status) :=
        ingest_locked cfg clock record_bytes sample no_admission s in
      recovered_loop (S index) samples (tally_recovered index admission status b) s
  end.

Definition admit_recovered (samples : list QueueSample) (s : Store) :
    Store * BatchAdmission * Status :=
  if negb (ok (cfg_status cfg)) then (s, no_batch, cfg_status cfg)
  else
    let '(s, b) := recovered_loop 0 samples no_batch (set_recovered_mode true s) in
    (set_recovered_mode false s, b, success).

(** ** Events and metadata *)

Definition restore_event (event : EventRecord) (stored : EventRecord) : EventRecord :=
  mkEvent (ev_kind stored) (ev_severity stored) (ev_received event) (ev_observed event)
    (ev_queue event) (ev_source event) (ev_incarnation event) (ev_sequence event)
    (ev_revision event) (ev_detail stored).

Fixpoint import_loop (events : list EventRecord) (imported : nat) (s : Store) : Store * nat :=
  match events with
  | [] => (s, imported)
  | event :: events =>
      if max_events_total (cfg_history cfg) <=? Z.of_nat (size (st_events s)) then (s, imported)
      else
        let s := record_event_global clock (ev_kind event) (ev_severity event) (ev_detail event) s in
        if (size (st_events s) =? 0)%nat then (s, imported)
        else import_loop events (S imported) (amend_newest (restore_event event) s)
  end.

Definition import_events (events : list EventRecord) (s : Store) : Store * nat * Status :=
  if negb (ok (cfg_status cfg)) then (s, 0%nat, cfg_status cfg)
  else let '(s, imported) := import_loop events 0 s in (s, imported, success).

(** [(generation, revision)] pairs in lexicographic order: the newer one is
    accepted. *)
Definition metadata_newer (table current : ClassMetadataTable) : bool :=
  let newer_generation := md_generation current <? md_generation table in
  let same_generation_newer_revision :=
    (md_generation table =? md_generation current) && (md_revision current <? md_revision table) in
  newer_generation || same_generation_newer_revision.

Definition apply_metadata (table : ClassMetadataTable) (s : Store) :
    Store * MetadataAdmission * Status :=
  if negb (ok (cfg_status cfg)) then (s, no_metadata_admission, cfg_status cfg)
  else
    let valid := validate_metadata table (max_queues (cfg_history cfg)) in
    if negb (ok valid) then (s, no_metadata_admission, valid)
    else if st_has_metadata s && negb (metadata_newer table (st_metadata s)) then
      let reason := "metadata revision is not newer than the stored revision for this generation" in
      let s' := store_bump StoreCounter.metadata_fenced 1 s in
      let s' := record_event_global clock EventKind.MetadataRevisionFenced Severity.Warning
                  (reason +:+ " (revision " +:+ id_to_string (md_revision table) +:+ ", source " +:+
                   md_source table +:+ ")") s' in
      (s', mkMetadataAdmission false true reason (md_revision (st_metadata s)), success)
    else
      let previous := if st_has_metadata s then md_revision (st_metadata s) else 0 in
      let s' := store_bump StoreCounter.metadata_updates 1 (set_metadata table s) in
      let s' := record_event_global clock EventKind.MetadataUpdated Severity.Notice
                  ("metadata revision " +:+ id_to_string (md_revision table) +:+
                   " for generation " +:+ id_to_string (md_generation table) +:+ " accepted") s' in
      (s', mkMetadataAdmission true false EmptyString previous, success).

(** ** Runs *)

(** The atomic operations, one constructor per public method. *)
Inductive Operation : Type :=
| Ingest (sample : QueueSample)
| IngestBatch (stop : nat → bool) (samples : list QueueSample)
| AdmitRecovered (samples : list QueueSample)
| ImportEvents (events : list EventRecord)
| ApplyMetadata (table : ClassMetadataTable).

Definition perform (operation : Operation) (s : Store) : Store :=
  match operation with
  | Ingest sample => (ingest sample no_admission s).1.1
  | IngestBatch stop samples => (ingest_batch stop samples s).1.1
  | AdmitRecovered samples => (admit_recovered samples s).1.1
  | ImportEvents events => (import_events events s).1.1
  | ApplyMetadata table => (apply_metadata table s).1.1
  end.

(** A sequence number is unsigned. *)
Definition typed_sample (sample : QueueSample) : Prop := 0 <= qs_sequence sample.
Definition typed_operation (operation : Operation) : Prop :=
  match operation with
  | Ingest sample => typed_sample sample
  | IngestBatch _ samples | AdmitRecovered samples => Forall typed_sample samples
  | ImportEvents _ | ApplyMetadata _ => True
  end.

(** The states a store reaches. *)
Inductive reachable : Store → Prop :=
| reachable_init : reachable init_store
| reachable_step s operation :
    reachable s → typed_operation operation → reachable (perform operation s).
End operations.
