(* ===== verification/Queries.v ===== *)
(** * The store: queries

    The read side of [QueueStore] ([store/Query.hpp], the queries of
    [store/Store.cpp]): filters and pages, [inspect], [pressure], [history],
    [explain], [events], [sources] and [conflicts].  Each holds the shared lock
    and changes nothing; those that need the time read the clock themselves, and
    [clock n] is the [n]-th read of the one query. *)

From S2P Require Import Prelude Result Checked Text Identity Time Evidence Sample Counter.
From S2P Require Import Metadata Event Limits Policy Rules Explanation Classification.
From S2P Require Import Ring History Window OrderedMap Admission Store StoreOps.
Open Scope Z_scope.
Open Scope word_scope.

Record QueryPagination := mkPagination { pg_offset : Z; pg_limit : Z }.

Record QueueFilter := mkFilter {
  qf_device : option DeviceId;
  qf_port : option PortId;
  qf_queue : option QueueId;
  qf_traffic_class : option TrafficClassId;
  qf_scheduling_class : option SchedulingClassId;
  qf_state : option PressureState
}.
Definition no_filter : QueueFilter := mkFilter None None None None None None.

(** [wanted.has_value() && actual != *wanted] *)
Definition excludes {A} `{EqDecision A} (wanted : option A) (actual : A) : bool :=
  match wanted with Some w => bool_decide (actual ≠ w) | None => false end.
Definition excludes_optional {A} `{EqDecision A} (wanted actual : option A) : bool :=
  match wanted with
  | Some w => match actual with Some a => bool_decide (a ≠ w) | None => true end
  | None => false
  end.

Definition matches_filter (filter : QueueFilter) (queue : QueuePath)
    (classes : QueueClassAttributes) (state : PressureState) : bool :=
  if excludes (qf_device filter) (qp_device queue) then false
  else if excludes (qf_port filter) (qp_port queue) then false
  else if excludes (qf_queue filter) (qp_queue queue) then false
  else if excludes_optional (qf_traffic_class filter) (qc_traffic_class classes) then false
  else if excludes_optional (qf_scheduling_class filter) (qc_scheduling_class classes) then false
  else if excludes (qf_state filter) state then false
  else true.

(** ** Pages *)

(** [rows], [total_matched] and [truncated], the three members every paged result
    has. *)
Record Page (A : Type) := mkPage {
  page_rows : list A;
  page_total : Z;
  page_truncated : bool
}.
Arguments mkPage {A} _ _ _.
Arguments page_rows {A} _.
Arguments page_total {A} _.
Arguments page_truncated {A} _.
Definition no_page {A} : Page A := mkPage [] 0 false.

Definition page_limit (query : QueryLimits) (page : QueryPagination) : Z :=
  if pg_limit page =? 0 then default_rows query else Z.min (pg_limit page) (max_rows query).

(** The end of the loop body each query has: count the match, skip it before the
    offset, drop it past the limit. *)
Definition page_add {A} (offset limit : Z) (row : A) (p : Page A) : Page A :=
  let total := page_total p + 1 in
  if total <=? offset then mkPage (page_rows p) total (page_truncated p)
  else if limit <=? Z.of_nat (length (page_rows p)) then mkPage (page_rows p) total true
  else mkPage (page_rows p ++ [row]) total (page_truncated p).

Definition page_all {A} (offset limit : Z) (rows : list A) : Page A :=
  fold_left (λ p row, page_add offset limit row p) rows no_page.

Record InspectRow := mkInspectRow {
  ir_queue : QueuePath;
  ir_classes : QueueClassAttributes;
  ir_state : PressureState;
  ir_assessment : EvidenceAssessment;
  ir_explanation_summary : string;
  ir_last_received : ReceiveTime;
  ir_last_observed : ObservationTime;
  ir_history_records : nat;
  ir_history_capacity : nat;
  ir_history_evicted : Z;
  ir_accepted : Z;
  ir_conflicts : Z;
  ir_counter_wraps : Z;
  ir_counter_resets : Z;
  ir_counter_ambiguous : Z;
  ir_counter_discontinuous : Z;
  ir_conflict_active : bool;
  ir_class_reference_unsupported : bool
}.

Definition sum_counters (f : CounterState → Z) (counters : list CounterState) : Z :=
  fold_left (λ sum counter, sum +u f counter) (take kSampleFieldCount counters) 0.

Definition build_inspect_row (q : QueueState) : InspectRow :=
  mkInspectRow (q_queue q) (q_classes q) (cr_state (q_latest q)) (cr_assessment (q_latest q))
    (render_explanation_summary (q_latest q)) (q_last_received q) (q_last_observed q)
    (history_size (q_history q)) (history_capacity (q_history q)) (hs_evicted (q_history q))
    (q_accepted q) (q_conflicts q) (sum_counters wraps (q_counters q))
    (sum_counters resets (q_counters q)) (sum_counters ambiguous (q_counters q))
    (sum_counters discontinuities (q_counters q)) (q_conflict_active q)
    (q_class_reference_unsupported q).

Record PressureRow := mkPressureRow {
  pr_queue : QueuePath;
  pr_classes : QueueClassAttributes;
  pr_state : PressureState;
  pr_assessment : EvidenceAssessment;
  pr_basis : PressureBasis;
  pr_deciding_rule : RuleId;
  pr_explanation_digest : Z;
  pr_trace : list TraceEntry
}.
Definition build_pressure_row (include_trace : bool) (q : QueueState) : PressureRow :=
  mkPressureRow (q_queue q) (q_classes q) (cr_state (q_latest q)) (cr_assessment (q_latest q))
    (cr_basis (q_latest q)) (cr_deciding_rule (q_latest q)) (cr_explanation_digest (q_latest q))
    (if include_trace then cr_trace (q_latest q) else []).

Record HistoryQuery := mkHistoryQuery {
  hq_queue : QueuePath;
  hq_window : WindowSpec;
  hq_page : QueryPagination;
  hq_include_records : bool
}.
Definition no_aggregate : WindowAggregate :=
  mkAggregate no_window_spec 0 0 0 0 0 None 0 no_sums 0 0 0 false no_assessment.

Record HistoryResult := mkHistoryResult {
  ht_queue : QueuePath;
  ht_found : bool;
  ht_aggregate : WindowAggregate;
  ht_records : list HistoryRecord;
  ht_records_retained : nat;
  ht_records_total : nat;
  ht_records_evicted : Z;
  ht_truncated : bool
}.
Definition no_history_result (queue : QueuePath) : HistoryResult :=
  mkHistoryResult queue false no_aggregate [] 0 0 0 false.

Record ExplainQuery := mkExplainQuery { xq_queue : QueuePath; xq_policy : option PressurePolicy }.
Record ExplainResult := mkExplainResult {
  er_queue : QueuePath;
  er_found : bool;
  er_classification : ClassificationResult;
  er_explanation : string;
  er_lines : list ExplanationLine;
  er_policy_overridden : bool
}.
Definition no_explanation (queue : QueuePath) : ExplainResult :=
  mkExplainResult queue false no_classification EmptyString [] false.
(** A default-constructed [ClassificationInput]. *)
Definition no_input : ClassificationInput :=
  mkInput no_path no_assessment 0 None None None None None None no_delta no_delta no_delta no_delta
    no_delta no_delta false.

Record EventQuery := mkEventQuery {
  vq_kind : option EventKind;
  vq_queue : option QueuePath;
  vq_min_severity : option Severity;
  vq_page : QueryPagination
}.

(** [to_observation] *)
Definition record_occupancy (record : HistoryRecord) : option Z :=
  match record_value record SampleField.OccupancyCells with
  | Some occupancy => Some occupancy
  | None => record_value record SampleField.OccupancyBytes
  end.
Definition to_observation (record : HistoryRecord) : WindowObservation :=
  let drops := record_delta record SampleField.DropPackets in
  let marks := record_delta record SampleField.MarkPackets in
  let pause_frames := record_delta record SampleField.PauseFrames in
  let pause_duration := record_delta record SampleField.PauseDurationNanos in
  let enqueues := record_delta record SampleField.EnqueuePackets in
  let dequeues := record_delta record SampleField.DequeuePackets in
  mkWindowObservation (steady (hr_received record)) (record_occupancy record) drops marks pause_frames
    pause_duration enqueues dequeues (establishes_current record)
    (negb (cd_known drops) || negb (cd_known marks) || negb (cd_known pause_frames)
     || negb (cd_known pause_duration) || negb (cd_known enqueues) || negb (cd_known dequeues)).

(** The records of a ring, oldest first, folded into an accumulator. *)
Definition observe_history (h : HistoryRing) (a : BucketAccumulator) : BucketAccumulator :=
  fold_left (λ a record, observe (to_observation record) a) (history_snapshot h) a.

Section queries.
Context (cfg : StoreConfig) (clock : nat → ReceiveTime).

Definition matching (filter : QueueFilter) (s : Store) : list QueueState :=
  omap (λ entry : QueuePath * QueueState,
          let '(path, q) := entry in
          if matches_filter filter path (q_classes q) (cr_state (q_latest q)) then Some q else None)
    (st_queues s).

Definition inspect (filter : QueueFilter) (page : QueryPagination) (s : Store) :
    Page InspectRow * Status :=
  if negb (ok (cfg_status cfg)) then (no_page, cfg_status cfg)
  else
    (page_all (pg_offset page) (page_limit (cfg_query cfg) page)
       (map build_inspect_row (matching filter s)), success).

Definition pressure (filter : QueueFilter) (page : QueryPagination) (include_trace : bool)
    (s : Store) : Page PressureRow * Status :=
  if negb (ok (cfg_status cfg)) then (no_page, cfg_status cfg)
  else
    (page_all (pg_offset page) (page_limit (cfg_query cfg) page)
       (map (build_pressure_row include_trace) (matching filter s)), success).

Definition history (query : HistoryQuery) (s : Store) : HistoryResult * Status :=
  let nothing := no_history_result (hq_queue query) in
  if negb (ok (cfg_status cfg)) then (nothing, cfg_status cfg)
  else if negb (path_valid (hq_queue query)) then
    (nothing, failure ErrorCode.InvalidArgument "a history query requires a queue path")
  else
    let spec_status := validate_window_spec (hq_window query) in
    if negb (ok spec_status) then (nothing, spec_status)
    else
      match om_find (hq_queue query) (st_queues s) with
      | None => (nothing, success)
      | Some q =>
          let now_ns := steady (clock 0) in
          let '(accumulator, configured) := configure (hq_window query) no_accumulator in
          if negb (ok configured) then (nothing, configured)
          else
            let accumulator := expire now_ns (observe_history (q_history q) accumulator) in
            let size := history_size (q_history q) in
            let records :=
              if hq_include_records query then
                page_all (pg_offset (hq_page query)) (page_limit (cfg_query cfg) (hq_page query))
                  (history_snapshot (q_history q))
              else no_page in
            (mkHistoryResult (hq_queue query) true
               (aggregate now_ns (pl_freshness (cfg_policy cfg)) accumulator)
               (page_rows records) size size (hs_evicted (q_history q)) (page_truncated records),
             success)
      end.

Definition explain (query : ExplainQuery) (s : Store) : ExplainResult * Status :=
  let nothing := no_explanation (xq_queue query) in
  if negb (ok (cfg_status cfg)) then (nothing, cfg_status cfg)
  else if negb (path_valid (xq_queue query)) then
    (nothing, failure ErrorCode.InvalidArgument "an explain query requires a queue path")
  else
    let policy_status :=
      match xq_policy query with Some policy => validate_policy policy | None => success end in
    if negb (ok policy_status) then (nothing, policy_status)
    else
      match om_find (xq_queue query) (st_queues s) with
      | None => (nothing, success)
      | Some q =>
          let classification :=
            match xq_policy query with
            | Some policy => classify policy (default no_input (q_last_input q))
            | None => q_latest q
            end in
          (mkExplainResult (xq_queue query) true classification
             (render_explanation classification) (explanation_lines classification)
             (is_some (xq_policy query)), success)
      end.

Definition event_matches (query : EventQuery) (e : EventRecord) : bool :=
  if excludes (vq_kind query) (ev_kind e) then false
  else if excludes (vq_queue query) (ev_queue e) then false
  else match vq_min_severity query with
       | Some severity => negb (Severity.rank (ev_severity e) <? Severity.rank severity)
       | None => true
       end.

Definition events (query : EventQuery) (s : Store) : Page EventRecord * Status :=
  if negb (ok (cfg_status cfg)) then (no_page, cfg_status cfg)
  else
    (page_all (pg_offset (vq_page query)) (page_limit (cfg_query cfg) (vq_page query))
       (List.filter (event_matches query) (ring_list blank_event (st_events s))), success).

Definition sources (s : Store) : list SourceRecord * Status :=
  if negb (ok (cfg_status cfg)) then ([], cfg_status cfg)
  else (map snd (st_sources s), success).

Definition conflicts (s : Store) : list ConflictRecord * Status :=
  if negb (ok (cfg_status cfg)) then ([], cfg_status cfg) else (st_conflicts s, success).

(** The copy [for_each_queue] takes under the lock; the visitor sees it after
    the lock is released. *)
Definition for_each_queue (max_queues : Z) (s : Store) :
    list (QueuePath * list HistoryRecord) * Status :=
  if negb (ok (cfg_status cfg)) then ([], cfg_status cfg)
  else
    (map (λ entry : QueuePath * QueueState, (entry.1, history_snapshot (q_history entry.2)))
       (take (Z.to_nat (Z.min max_queues (Z.of_nat (length (st_queues s))))) (st_queues s)), success).

Definition metadata_snapshot (s : Store) : option (ClassMetadataTable * bool) * Status :=
  if negb (ok (cfg_status cfg)) then (None, cfg_status cfg)
  else (Some (st_metadata s, st_has_metadata s), success).
End queries.
