(* ===== verification/Contention.v ===== *)
(** * Correlation

    [store/Correlation.cpp]: fractions in lowest terms.  The loop of
    [greatest_common_divisor] at least halves its second argument every two
    turns, so that 129 turns are enough for 64-bit arguments. *)

From S2P Require Import Prelude Result Checked Text Identity Time Evidence Sample Counter Metadata.
From S2P Require Import Event Limits Policy Rules Explanation Classification Ring History Window.
From S2P Require Import OrderedMap Admission Store Queries.
Open Scope Z_scope.

Fixpoint gcd_loop (fuel : nat) (a b : Z) : Z :=
  match fuel with
  | O => a
  | S fuel => if b =? 0 then a else gcd_loop fuel b (a mod b)
  end.
Definition kGcdTurns : nat := 129.
Definition greatest_common_divisor (a b : Z) : Z := gcd_loop kGcdTurns a b.

Definition reduce_fraction (numerator denominator : Z) : Z * Z :=
  if denominator =? 0 then (0, 1)
  else if numerator =? 0 then (numerator, 1)
  else
    let divisor := greatest_common_divisor numerator denominator in
    if 1 <? divisor then (numerator / divisor, denominator / divisor) else (numerator, denominator).

Lemma mod_halves a b : 0 < a → a <= b → 2 * (b mod a) < b.
Proof.
  intros Ha Hb. pose proof (Z.mod_pos_bound b a Ha). pose proof (Z.div_mod b a ltac:(lia)).
  assert (1 <= b / a) by (apply Z.div_le_lower_bound; lia). nia.
Qed.

Lemma gcd_loop_zero fuel a : gcd_loop fuel a 0 = a.
Proof. by destruct fuel. Qed.

(** Two turns. *)
Lemma gcd_loop_two fuel a b :
  0 < b → a mod b ≠ 0 → gcd_loop (S (S fuel)) a b = gcd_loop fuel (a mod b) (b mod (a mod b)).
Proof.
  intros Hb Hm. cbn. destruct (Z.eqb_spec b 0); [lia|]. by destruct (Z.eqb_spec (a mod b) 0).
Qed.

Lemma gcd_loop_enough k a b :
  0 <= a → 0 <= b < 2 ^ Z.of_nat k → gcd_loop (2 * k + 1) a b = Z.gcd a b.
Proof.
  revert a b. induction k as [|k IH]; intros a b Ha Hb.
  { replace b with 0 by (cbn in Hb; lia). rewrite gcd_loop_zero, Z.gcd_0_r. lia. }
  destruct (decide (b = 0)) as [->|Hb0]; [rewrite gcd_loop_zero, Z.gcd_0_r; lia|].
  pose proof (Z.mod_pos_bound a b ltac:(lia)) as Hm.
  assert (Z.gcd a b = Z.gcd b (a mod b)) as Hg by (by rewrite (Z.gcd_comm b), Z.gcd_mod, (Z.gcd_comm b) by lia).
  replace (2 * S k + 1)%nat with (S (S (2 * k + 1))) by lia.
  destruct (decide (a mod b = 0)) as [Hz|Hz].
  - cbn [gcd_loop]. destruct (Z.eqb_spec b 0); [lia|]. rewrite Hg, Hz, Z.gcd_0_r. cbn. lia.
  - rewrite gcd_loop_two by lia. pose proof (Z.mod_pos_bound b (a mod b) ltac:(lia)).
    pose proof (mod_halves (a mod b) b ltac:(lia) ltac:(lia)).
    rewrite IH, Hg; [|lia|rewrite Nat2Z.inj_succ, Z.pow_succ_r in Hb by lia; lia].
    by rewrite (Z.gcd_comm (a mod b)), Z.gcd_mod, (Z.gcd_comm (a mod b)) by lia.
Qed.

Lemma greatest_common_divisor_spec a b :
  is_u64 a → is_u64 b → greatest_common_divisor a b = Z.gcd a b.
Proof. intros Ha Hb. apply (gcd_loop_enough 64); word_lia. Qed.

(** A reported ratio is the fraction in lowest terms.  For every numerator and
    every denominator but zero the result is the same rational number, its
    parts are coprime and the denominator positive, and the loop that computes the
    divisor ends; with a zero denominator the result is 0/1. *)
Theorem reduce_fraction_lowest (n d : Z) :
  is_u64 n → is_u64 d →
  let '(n', d') := reduce_fraction n d in
  Z.gcd n' d' = 1 ∧ 0 < d' ∧ 0 <= n' ∧ (if d =? 0 then n' = 0 ∧ d' = 1 else n' * d = n * d').
Proof.
  intros Hn Hd. unfold reduce_fraction. destruct (Z.eqb_spec d 0); [by split_and!|].
  destruct (Z.eqb_spec n 0) as [->|Hn0]; [split_and!; done|].
  rewrite greatest_common_divisor_spec by done.
  assert (0 < Z.gcd n d) as Hg.
  { pose proof (Z.gcd_nonneg n d). enough (Z.gcd n d ≠ 0) by lia. intros Hz%Z.gcd_eq_0. lia. }
  destruct (Z.ltb_spec 1 (Z.gcd n d)); [|split_and!; word_lia].
  pose proof (Z.gcd_divide_l n d) as [p Hp]. pose proof (Z.gcd_divide_r n d) as [q Hq].
  split_and!.
  - apply Z.gcd_div_gcd; lia.
  - apply Z.div_str_pos. split; [lia|]. apply Z.divide_pos_le; [word_lia|apply Z.gcd_divide_r].
  - apply Z.div_pos; word_lia.
  - rewrite Hp at 1. rewrite Hq at 4. rewrite !Z.div_mul by lia. nia.
Qed.

Lemma reduce_fraction_lowest_witness :
  let '(n', d') := reduce_fraction 6 8 in Z.gcd n' d' = 1 ∧ 0 < d' ∧ 0 <= n' ∧ n' * 8 = 6 * d'.
Proof. apply (reduce_fraction_lowest 6 8); word_lia. Defined.

(** ** Microbursts and contention

    [QueueStore::microburst] and [QueueStore::contention] of [store/Store.cpp]:
    the two queries that draw conclusions from several records. *)

Open Scope word_scope.

Record MicroburstRecord := mkMicroburstRecord {
  mr_queue : QueuePath;
  mr_window : WindowSpec;
  mr_peak : Z;
  mr_trough : Z;
  mr_excursion : Z;
  mr_required_excursion : Z;
  mr_covered_buckets : Z;
  mr_required_buckets : Z;
  mr_peak_at_ns : Nanos;
  mr_trough_at_ns : Nanos;
  mr_detected : bool;
  mr_coverage_sufficient : bool;
  mr_sub_sample_reconstructed : bool;
  mr_assessment : EvidenceAssessment
}.
Record MicroburstResult := mkMicroburstResult {
  mb_records : Page MicroburstRecord;
  mb_queues_examined : Z;
  mb_queues_insufficient : Z
}.
Definition no_microbursts : MicroburstResult := mkMicroburstResult no_page 0 0.

Record ContentionRecord := mkContentionRecord {
  cr_port : PortPath;
  cr_scheduling_class : SchedulingClassId;
  cr_queue_a : QueuePath;
  cr_queue_b : QueuePath;
  cr_window : WindowSpec;
  cr_covered_buckets : Z;
  cr_simultaneous_buckets : Z;
  cr_union_buckets : Z;
  cr_ratio_numerator : Z;
  cr_ratio_denominator : Z;
  cr_window_start_ns : Nanos;
  cr_window_end_ns : Nanos;
  cr_contention_assessment : EvidenceAssessment
}.
Record ContentionQuery := mkContentionQuery {
  cq_port : option PortPath;
  cq_scheduling_class : option SchedulingClassId;
  cq_page : QueryPagination
}.
Record ContentionResult := mkContentionResult {
  cx_records : Page ContentionRecord;
  cx_ports_examined : Z;
  cx_pairs_examined : Z;
  cx_pairs_insufficient_coverage : Z
}.
Definition no_contention : ContentionResult := mkContentionResult no_page 0 0 0.

(** [BucketFlags]: by bucket start, whether it is covered and whether it
    contends. *)
Definition BucketFlags : Type := OrderedMap Nanos (bool * bool).
Definition Sibling : Type := QueuePath * BucketFlags.
Definition ContentionGroups : Type :=
  OrderedMap PortPath (OrderedMap SchedulingClassId (list Sibling)).

(** [m[k]] with a default, then an assignment through the reference. *)
Definition om_at {K V} `{EqDecision K} (ltb : K → K → bool) (k : K) (v : V) (f : V → V)
    (m : OrderedMap K V) : OrderedMap K V :=
  om_update k f (om_emplace ltb k v m).

(** The loops over [left] and [right > left]. *)
Fixpoint ordered_pairs {A} (xs : list A) : list (A * A) :=
  match xs with
  | [] => []
  | x :: xs => map (λ y, (x, y)) xs ++ ordered_pairs xs
  end.

Section correlation.
Context (cfg : StoreConfig) (clock : nat → ReceiveTime).
Let policy := pl_contention (cfg_policy cfg).

(** ** Microbursts *)

Definition build_microburst (now : ReceiveTime) (q : QueueState) : MicroburstRecord :=
  let spec := cfg_microburst_spec cfg in
  let '(accumulator, configured) := configure spec no_accumulator in
  if negb (ok configured) then
    mkMicroburstRecord (q_queue q) spec 0 0 0 0 0 0 0 0 false false false no_assessment
  else
    let accumulator := expire (steady now) (observe_history (q_history q) accumulator) in
    let evidence :=
      burst_evidence (mb_min_excursion (pl_microburst (cfg_policy cfg)))
        (mb_min_covered_buckets (pl_microburst (cfg_policy cfg))) accumulator in
    let assessment :=
      wa_assessment (aggregate (steady now) (pl_freshness (cfg_policy cfg)) accumulator) in
    mkMicroburstRecord (q_queue q) spec (be_peak evidence) (be_trough evidence)
      (be_excursion evidence) (be_required_excursion evidence) (be_covered_buckets evidence)
      (be_required_buckets evidence) (be_peak_at_ns evidence) (be_trough_at_ns evidence)
      (be_detected evidence) (be_coverage_sufficient evidence) false
      (if be_coverage_sufficient evidence then assessment
       else
         mkAssessment (ea_freshness assessment) EvidenceQuality.Incomplete
           (ea_provenance assessment) (ea_authority assessment)
           (with_flag (ea_flags assessment) EvidenceFlag.CoverageInsufficient)
           (ea_age_ns assessment)
           ("only " +:+ u64_to_string (be_covered_buckets evidence) +:+ " of the required " +:+
            u64_to_string (be_required_buckets evidence) +:+
            " buckets contain observations; no burst conclusion is drawn")).

(** One matching queue; its clock read is the one of its number. *)
Definition examine_burst (include_insufficient : bool) (offset limit : Z) (acc : MicroburstResult * nat)
    (q : QueueState) : MicroburstResult * nat :=
  let '(r, reads) := acc in
  let record := build_microburst (clock reads) q in
  let sufficient := mr_coverage_sufficient record in
  (mkMicroburstResult
     (if sufficient || include_insufficient then page_add offset limit record (mb_records r)
      else mb_records r)
     (mb_queues_examined r + 1)
     (if sufficient then mb_queues_insufficient r else mb_queues_insufficient r + 1), S reads).

Definition microburst (filter : QueueFilter) (page : QueryPagination) (include_insufficient : bool)
    (s : Store) : MicroburstResult * Status :=
  if negb (ok (cfg_status cfg)) then (no_microbursts, cfg_status cfg)
  else
    ((fold_left
        (examine_burst include_insufficient (pg_offset page) (page_limit (cfg_query cfg) page))
        (matching filter s) (no_microbursts, 0%nat)).1, success).

(** ** Contention *)

Definition is_contending_state (state : PressureState) : bool :=
  match state with
  | PressureState.Pressured => count_pressured policy
  | PressureState.Saturated => count_saturated policy
  | PressureState.Dropping => count_dropping policy
  | PressureState.Paused => count_paused policy
  | _ => false
  end.

Definition flag_record (cutoff : Nanos) (flags : BucketFlags) (record : HistoryRecord) : BucketFlags :=
  if steady (hr_received record) <? cutoff then flags
  else
    let start :=
      align_bucket (steady (hr_received record)) (ws_bucket_ns (cfg_contention_spec cfg)) in
    om_at Z.ltb start (false, false)
      (λ slot, (true, if is_contending_state (hr_state record) then true else slot.2)) flags.

Definition bucket_flags (cutoff : Nanos) (h : HistoryRing) : BucketFlags :=
  fold_left (flag_record cutoff) (history_snapshot h) [].

(** The body of the loop over the queues. *)
Definition group_queue (query : ContentionQuery) (cutoff : Nanos) (groups : ContentionGroups)
    (entry : QueuePath * QueueState) : ContentionGroups :=
  let '(path, q) := entry in
  let port := mkPortPath (qp_device path) (qp_port path) in
  match (if q_classes_known q then qc_scheduling_class (q_classes q) else None) with
  | None => groups
  | Some class =>
      if excludes (cq_port query) port then groups
      else if excludes (cq_scheduling_class query) class then groups
      else
        om_at port_ltb port []
          (om_at string_ltb class []
             (λ siblings, siblings ++ [(path, bucket_flags cutoff (q_history q))])) groups
  end.

Definition contention_groups (query : ContentionQuery) (cutoff : Nanos) (s : Store) :
    ContentionGroups := fold_left (group_queue query cutoff) (st_queues s) [].

(** The loop over the buckets of the left sibling: [union_buckets] and
    [simultaneous]. *)
Definition count_bucket (flags_b : BucketFlags) (counts : Z * Z) (bucket : Nanos * (bool * bool)) :
    Z * Z :=
  let '(start, (covered, contending)) := bucket in
  let other := om_find start flags_b in
  if negb covered && negb (is_some other) then counts
  else
    (counts.1 + 1,
     if contending && match other with Some slot => slot.2 | None => false end
     then counts.2 + 1 else counts.2).
Definition count_buckets (flags_a flags_b : BucketFlags) : Z * Z :=
  fold_left (count_bucket flags_b) flags_a (0, 0).

Definition contention_record (now_ns : Nanos) (port : PortPath) (class : SchedulingClassId)
    (queue_a queue_b : QueuePath) (union_buckets simultaneous : Z) : ContentionRecord :=
  let '(numerator, denominator) := reduce_fraction simultaneous union_buckets in
  mkContentionRecord port class queue_a queue_b (cfg_contention_spec cfg) union_buckets simultaneous
    union_buckets numerator denominator
    (now_ns -s ws_duration_ns (cfg_contention_spec cfg)) now_ns
    (mkAssessment (assess_freshness 0 (pl_freshness (cfg_policy cfg))) EvidenceQuality.Complete
       Provenance.Correlated SourceAuthority.Primary 0 0
       ("both queues were observed under pressure in " +:+ u64_to_string simultaneous +:+ " of " +:+
        u64_to_string union_buckets +:+ " covered buckets")).

(** The body of the two inner loops. *)
Definition examine_pair (now_ns : Nanos) (offset limit : Z) (port : PortPath)
    (class : SchedulingClassId) (r : ContentionResult) (pair : Sibling * Sibling) :
    ContentionResult :=
  let '((queue_a, flags_a), (queue_b, flags_b)) := pair in
  let '(union_buckets, simultaneous) := count_buckets flags_a flags_b in
  let insufficient := union_buckets <? ct_min_covered_buckets policy in
  mkContentionResult
    (if insufficient || (simultaneous <? ct_min_simultaneous_buckets policy) then cx_records r
     else
       page_add offset limit
         (contention_record now_ns port class queue_a queue_b union_buckets simultaneous)
         (cx_records r))
    (cx_ports_examined r) (cx_pairs_examined r + 1)
    (if insufficient then cx_pairs_insufficient_coverage r + 1
     else cx_pairs_insufficient_coverage r).

Definition examine_class (now_ns : Nanos) (offset limit : Z) (port : PortPath)
    (r : ContentionResult) (entry : SchedulingClassId * list Sibling) : ContentionResult :=
  fold_left (examine_pair now_ns offset limit port entry.1) (ordered_pairs entry.2) r.

Definition examine_port (now_ns : Nanos) (offset limit : Z) (r : ContentionResult)
    (entry : PortPath * OrderedMap SchedulingClassId (list Sibling)) : ContentionResult :=
  fold_left (examine_class now_ns offset limit entry.1) entry.2
    (mkContentionResult (cx_records r) (cx_ports_examined r + 1) (cx_pairs_examined r)
       (cx_pairs_insufficient_coverage r)).

Definition contention (query : ContentionQuery) (s : Store) : ContentionResult * Status :=
  if negb (ok (cfg_status cfg)) then (no_contention, cfg_status cfg)
  else
    let now_ns := steady (clock 0) in
    let cutoff := now_ns -s ws_duration_ns (cfg_contention_spec cfg) in
    let page := cq_page query in
    (fold_left (examine_port now_ns (pg_offset page) (page_limit (cfg_query cfg) page))
       (contention_groups query cutoff s) no_contention, success).
End correlation.
