(* ===== verification/StoreInvariant.v ===== *)
(** * The store: invariant

    What every state a store reaches satisfies ([store_inv], [reachable_inv]):
    the registries, the event log, the conflict list, the peer tables and the
    history within their limits, the byte budget exact, and every presented
    sample accounted for. *)

From S2P Require Import Prelude Result Checked Text Identity Time Evidence Sample Counter.
From S2P Require Import Metadata Event Limits Policy Rules Explanation Classification.
From S2P Require Import Ring History Window OrderedMap Admission Store StoreOps.
Open Scope Z_scope.
Open Scope word_scope.

Lemma bump_other x y n c : y ≠ x → bump x n c y = c y.
Proof. intros H. unfold bump. by rewrite decide_False. Qed.
Lemma bump_same x n c : bump x n c x = c x +u n.
Proof. unfold bump. by rewrite decide_True. Qed.

(** A counter that only the event log moves. *)
Definition log_counter (x : StoreCounter) : Prop :=
  x = StoreCounter.events_recorded ∨ x = StoreCounter.events_evicted.

(** [only_log s s']: nothing but the event log, its counters and the clock
    differs, and the log is still a ring of the same capacity. *)
Record only_log (s s' : Store) : Prop := {
  ol_queues : st_queues s' = st_queues s;
  ol_sources : st_sources s' = st_sources s;
  ol_metadata : st_metadata s' = st_metadata s;
  ol_has_metadata : st_has_metadata s' = st_has_metadata s;
  ol_recovered : st_recovered_mode s' = st_recovered_mode s;
  ol_conflicts : st_conflicts s' = st_conflicts s;
  ol_ordinal : st_next_ordinal s' = st_next_ordinal s;
  ol_bytes : st_history_bytes s' = st_history_bytes s;
  ol_counters : ∀ x, ¬ log_counter x → st_counters s' x = st_counters s x;
  ol_capacity : capacity (st_events s') = capacity (st_events s);
  ol_ring : ring_wf (st_events s) → ring_wf (st_events s')
}.

#[export] Instance only_log_refl : Reflexive only_log.
Proof. by split. Qed.

#[export] Instance only_log_trans : Transitive only_log.
Proof.
  intros a b c [] []. split; try congruence; [|tauto].
  intros x Hx. transitivity (st_counters b x); auto.
Qed.

(** [log_counter_tac]: bumps of the log's counters do not show elsewhere. *)
Ltac not_log := let H := fresh in intros H; apply H; unfold log_counter; auto.

Lemma tick_only_log s : only_log s (tick s).
Proof. by split. Qed.

Lemma set_events_only_log r s :
  capacity r = capacity (st_events s) → (ring_wf (st_events s) → ring_wf r) →
  only_log s (set_events r s).
Proof. intros H1 H2. by split. Qed.

Lemma bump_only_log x n s : log_counter x → only_log s (store_bump x n s).
Proof.
  intros Hx. split; try done. intros y Hy. cbn. apply bump_other. congruence.
Qed.

Lemma record_event_global_only_log clock kind severity detail s :
  only_log s (record_event_global clock kind severity detail s).
Proof.
  unfold record_event_global. destruct (Nat.eqb_spec (capacity (st_events s)) 0); [done|].
  etransitivity; [|apply bump_only_log; by left]. cbv zeta.
  transitivity (tick s); [apply tick_only_log|].
  destruct (Nat.ltb_spec (size (st_events (tick s))) (capacity (st_events (tick s)))).
  - apply set_events_only_log; [apply ring_append_capacity|]. intros Hwf.
    by apply ring_append_wf.
  - etransitivity; [|apply bump_only_log; by right].
    apply set_events_only_log; [apply ring_replace_capacity|]. intros Hwf. by apply ring_replace_wf.
Qed.

Lemma amend_newest_only_log f s : only_log s (amend_newest f s).
Proof.
  unfold amend_newest. destruct (_ =? 0)%nat; [done|].
  apply set_events_only_log; [apply ring_set_capacity|]. apply ring_set_wf.
Qed.

Lemma record_event_only_log clock kind severity sample queue detail s :
  only_log s (record_event clock kind severity sample queue detail s).
Proof.
  unfold record_event. etransitivity; [apply record_event_global_only_log|].
  apply amend_newest_only_log.
Qed.

Lemma notice_only_log clock kind sample detail s : only_log s (notice clock kind sample detail s).
Proof. apply record_event_only_log. Qed.

#[export] Hint Resolve tick_only_log record_event_global_only_log amend_newest_only_log
  record_event_only_log notice_only_log : qobs.

(** ** The invariant *)

Section invariant.
Context (cfg : StoreConfig) (clock : nat → ReceiveTime) (record_bytes : Z).
Let limits := cfg_history cfg.

Record queue_ok (path : QueuePath) (q : QueueState) : Prop := {
  qo_path : q_queue q = path;
  qo_history : history_wf (q_history q);
  qo_capacity : history_capacity (q_history q) = Z.to_nat (max_samples_per_queue limits);
  qo_counters : length (q_counters q) = kSampleFieldCount;
  qo_peers : Z.of_nat (length (q_peers q)) <= max_sources limits
}.

Record source_ok (id : SourceId) (r : SourceRecord) : Prop := {
  so_id : sr_id r = id;
  so_recent : ∃ rest, sr_recent_incarnations r = (sr_incarnation r, sr_incarnation_ordinal r) :: rest;
  so_bound : (length (sr_recent_incarnations r) <= kMaxRecentIncarnations)%nat
}.

(** The parts of the state the registries and the byte budget constrain. *)
Record core_inv (s : Store) : Prop := {
  ci_queues_sorted : om_sorted path_ltb (st_queues s);
  ci_queues_limit : Z.of_nat (length (st_queues s)) <= max_queues limits;
  ci_queues_ok : om_forall queue_ok (st_queues s);
  ci_bytes : st_history_bytes s = Z.of_nat (length (st_queues s)) * per_queue cfg record_bytes;
  ci_budget : st_history_bytes s <= max_history_bytes limits;
  ci_sources_sorted : om_sorted string_ltb (st_sources s);
  ci_sources_limit : Z.of_nat (length (st_sources s)) <= max_sources limits;
  ci_sources_ok : om_forall source_ok (st_sources s);
  ci_conflicts : Z.of_nat (length (st_conflicts s)) <= max_conflicts limits;
  ci_events : ring_wf (st_events s);
  ci_events_capacity : capacity (st_events s) = Z.to_nat (max_events_total limits)
}.

(** Presented samples that have been filed. *)
Definition filed (s : Store) : Z :=
  st_counters s StoreCounter.samples_accepted +u st_counters s StoreCounter.samples_rejected
  +u st_counters s StoreCounter.samples_fenced.

Definition accounted (s : Store) : Prop :=
  st_counters s StoreCounter.samples_presented = filed s.

Record store_inv (s : Store) : Prop := {
  si_core : core_inv s;
  si_accounted : accounted s
}.

Lemma only_log_core s s' : only_log s s' → core_inv s → core_inv s'.
Proof.
  intros [] []. split; rewrite ?ol_queues0, ?ol_sources0, ?ol_conflicts0, ?ol_bytes0; auto.
  congruence.
Qed.

Lemma set_sources_core sources s :
  om_sorted string_ltb sources → Z.of_nat (length sources) <= max_sources limits →
  om_forall source_ok sources → core_inv s → core_inv (set_sources sources s).
Proof. intros ??? []. by split. Qed.

Lemma update_source_core id f s :
  (∀ r, source_ok id r → source_ok id (f r)) → core_inv s →
  core_inv (set_sources (om_update id f (st_sources s)) s).
Proof.
  intros Hf Hs. apply set_sources_core; [| | |done]; destruct Hs.
  - by apply om_update_sorted.
  - by rewrite om_update_length.
  - by apply om_forall_update.
Qed.

Lemma put_source_core id r s : source_ok id r → core_inv s → core_inv (put_source id r s).
Proof. intros Hr. by apply update_source_core. Qed.

Lemma set_queues_core queues s :
  om_sorted path_ltb queues → length queues = length (st_queues s) →
  om_forall queue_ok queues → core_inv s → core_inv (set_queues queues s).
Proof. intros ? Hl ? []. split; cbn; rewrite ?Hl; auto. Qed.

Lemma put_queue_core path q s : queue_ok path q → core_inv s → core_inv (put_queue path q s).
Proof.
  intros Hq Hs. apply set_queues_core; [| | |done].
  - apply om_update_sorted, Hs.
  - apply om_update_length.
  - apply om_forall_update; [done|apply Hs].
Qed.

Lemma bump_core x n s : core_inv s → core_inv (store_bump x n s).
Proof. intros []. by split. Qed.

Lemma take_ordinal_core s : core_inv s → core_inv (take_ordinal s).
Proof. intros []. by split. Qed.

(** ** Sources *)

Lemma new_source_ok sample ordinal : source_ok (qs_source sample) (new_source sample ordinal).
Proof. split; cbn; [done|by eexists|unfold kMaxRecentIncarnations; lia]. Qed.

Lemma source_new_incarnation_ok id incarnation ordinal r :
  source_ok id r → source_ok id (source_new_incarnation incarnation ordinal r).
Proof.
  intros []. split; cbn [source_new_incarnation sr_id sr_recent_incarnations sr_incarnation
    sr_incarnation_ordinal]; [done|by eexists|]. rewrite length_take. lia.
Qed.

Lemma source_set_generation_ok id g r : source_ok id r → source_ok id (source_set_generation g r).
Proof. intros []. by split. Qed.
Lemma source_set_authority_ok id a r : source_ok id r → source_ok id (source_set_authority a r).
Proof. intros []. by split. Qed.
Lemma source_count_duplicate_ok id r : source_ok id r → source_ok id (source_count_duplicate r).
Proof. intros []. by split. Qed.
Lemma source_count_fenced_ok id r : source_ok id r → source_ok id (source_count_fenced r).
Proof. intros []. by split. Qed.
Lemma source_count_accepted_ok id r : source_ok id r → source_ok id (source_count_accepted r).
Proof. intros []. by split. Qed.
Lemma source_touch_ok id sample r : source_ok id r → source_ok id (source_touch sample r).
Proof. intros []. by split. Qed.
End invariant.

#[export] Hint Resolve only_log_core put_source_core put_queue_core bump_core take_ordinal_core
  new_source_ok source_new_incarnation_ok source_set_generation_ok source_set_authority_ok
  source_count_duplicate_ok source_count_fenced_ok source_count_accepted_ok source_touch_ok : qobs.

(** ** What the registry stages leave alone *)

(** The counters that file a sample. *)
Definition tally_counter (x : StoreCounter) : Prop :=
  x = StoreCounter.samples_presented ∨ x = StoreCounter.samples_accepted ∨
  x = StoreCounter.samples_rejected ∨ x = StoreCounter.samples_fenced.

(** [registry_step s s']: the queues, the conflicts, the metadata, the byte count
    and the filing counters are as they were. *)
Record registry_step (s s' : Store) : Prop := {
  rg_queues : st_queues s' = st_queues s;
  rg_metadata : st_metadata s' = st_metadata s;
  rg_has_metadata : st_has_metadata s' = st_has_metadata s;
  rg_recovered : st_recovered_mode s' = st_recovered_mode s;
  rg_conflicts : st_conflicts s' = st_conflicts s;
  rg_bytes : st_history_bytes s' = st_history_bytes s;
  rg_tallies : ∀ x, tally_counter x → st_counters s' x = st_counters s x
}.

#[export] Instance registry_step_refl : Reflexive registry_step.
Proof. by split. Qed.
#[export] Instance registry_step_trans : Transitive registry_step.
Proof.
  intros a b c [] []. split; try congruence. intros x Hx. transitivity (st_counters b x); auto.
Qed.

Lemma tally_not_log x : tally_counter x → ¬ log_counter x.
Proof. unfold tally_counter, log_counter. intuition congruence. Qed.

Lemma only_log_registry s s' : only_log s s' → registry_step s s'.
Proof. intros []. split; auto. intros x Hx. by apply ol_counters0, tally_not_log. Qed.
Lemma set_sources_registry sources s : registry_step s (set_sources sources s).
Proof. by split. Qed.
Lemma put_source_registry id r s : registry_step s (put_source id r s).
Proof. by split. Qed.
Lemma take_ordinal_registry s : registry_step s (take_ordinal s).
Proof. by split. Qed.
Lemma bump_registry x n s : ¬ tally_counter x → registry_step s (store_bump x n s).
Proof. intros Hx. split; try done. intros y Hy. cbn. apply bump_other. by intros ->. Qed.

#[export] Hint Resolve only_log_registry set_sources_registry put_source_registry
  take_ordinal_registry : qobs.

(** [registry]: a chain of such steps. *)
Ltac not_tally := unfold tally_counter; intuition congruence.
Ltac registry :=
  repeat first
    [ done
    | etransitivity; [|solve [apply only_log_registry, record_event_only_log]]
    | etransitivity; [|solve [apply only_log_registry, notice_only_log]]
    | etransitivity; [|solve [apply only_log_registry, record_event_global_only_log]]
    | etransitivity; [|solve [apply only_log_registry, tick_only_log]]
    | etransitivity; [|solve [apply put_source_registry]]
    | etransitivity; [|solve [apply set_sources_registry]]
    | etransitivity; [|solve [apply take_ordinal_registry]]
    | etransitivity; [|solve [apply bump_registry; not_tally]] ].

Section stages.
Context (cfg : StoreConfig) (clock : nat → ReceiveTime) (record_bytes : Z).
Abbreviation core := (core_inv cfg record_bytes).

Lemma only_log_core' s s' : only_log s s' → core s → core s'.
Proof. apply only_log_core. Qed.

(** [core_tac]: invariant goals about the log, bumps and assignments. *)
Ltac core_tac :=
  repeat first
    [ assumption
    | apply (only_log_core _ _ _ _ (notice_only_log _ _ _ _ _))
    | apply (only_log_core _ _ _ _ (record_event_only_log _ _ _ _ _ _ _))
    | apply (only_log_core _ _ _ _ (record_event_global_only_log _ _ _ _ _))
    | apply (only_log_core _ _ _ _ (tick_only_log _))
    | apply put_source_core | apply bump_core | apply take_ordinal_core ];
  auto with qobs.

Lemma register_source_spec sample s s' v :
  om_find (qs_source sample) (st_sources s) = None →
  register_source cfg clock sample s = (s', v) →
  registry_step s s' ∧ (core s → core s') ∧
  (v = Admit AdmissionOutcome.AcceptedNewSource ∨
   ∃ reason, v = Refuse AdmissionOutcome.RejectedLimit ErrorCode.LimitExceeded reason).
Proof.
  intros Hf. unfold register_source.
  destruct (Z.leb_spec (max_sources (cfg_history cfg)) (Z.of_nat (length (st_sources s)))).
  { intros [= <- <-]. split_and!; [done|done|right; by eexists]. }
  intros [= <- <-]. split_and!; [registry| |by left].
  intros Hs. core_tac. destruct Hs. apply set_sources_core.
  - apply om_emplace_sorted; [apply _|done].
  - rewrite om_emplace_length by done. lia.
  - apply om_forall_emplace; [apply new_source_ok|done].
  - by split.
Qed.

(** A checking stage: the record stays the source's, the store keeps its
    invariant, and the verdict is to admit or to fence. *)
Definition stage_ok (id : SourceId) (s : Store) (result : Store * SourceRecord * Fencing) : Prop :=
  let '(s', record', v) := result in
  registry_step s s' ∧ (core s → core s') ∧ source_ok id record' ∧
  match v with
  | Refuse _ _ _ => False
  | Fence outcome => AdmissionOutcome.admitted outcome = false ∧ AdmissionOutcome.fence_reason outcome ≠ EmptyString
  | Admit outcome => AdmissionOutcome.admitted outcome = true
  end.

Ltac stage_tac :=
  split_and!;
  first [done | by auto with qobs | solve [registry] | by intros Hs; core_tac | by case_bool_decide].

Lemma check_incarnation_ok sample record s :
  source_ok (qs_source sample) record →
  stage_ok (qs_source sample) s (check_incarnation clock sample record s).
Proof.
  intros Hr. unfold check_incarnation, stage_ok. case_bool_decide; [stage_tac|].
  destruct (match find _ _ with Some _ => _ | None => false end); stage_tac.
Qed.

Lemma check_generation_ok sample record outcome s :
  source_ok (qs_source sample) record → AdmissionOutcome.admitted outcome = true →
  stage_ok (qs_source sample) s (check_generation clock sample record outcome s).
Proof.
  intros Hr Ho. unfold check_generation, stage_ok. bool_cases; stage_tac.
Qed.

Lemma check_authority_ok sample record outcome s :
  source_ok (qs_source sample) record → AdmissionOutcome.admitted outcome = true →
  stage_ok (qs_source sample) s (check_authority clock sample record outcome s).
Proof.
  intros Hr Ho. unfold check_authority, stage_ok. bool_cases; stage_tac.
Qed.

Lemma check_sequence_ok sample record outcome s :
  source_ok (qs_source sample) record → AdmissionOutcome.admitted outcome = true →
  stage_ok (qs_source sample) s (check_sequence sample record outcome s).
Proof.
  intros Hr Ho. unfold check_sequence, stage_ok. bool_cases; stage_tac.
Qed.

Lemma then_check_ok id s result next :
  stage_ok id s result →
  (∀ record outcome s', source_ok id record → AdmissionOutcome.admitted outcome = true →
     stage_ok id s' (next record outcome s')) →
  stage_ok id s (then_check result next).
Proof.
  destruct result as [[s1 record] [outcome code reason|outcome|outcome]]; try done.
  intros (H1 & H2 & H3 & H4) Hnext. cbn [then_check].
  specialize (Hnext record outcome s1 H3 H4). unfold stage_ok in *.
  destruct (next record outcome s1) as [[s2 record2] v]. destruct Hnext as (N1 & N2 & N3).
  split; [by etransitivity|]. split; [auto|done].
Qed.

Lemma check_source_ok sample record s :
  source_ok (qs_source sample) record →
  stage_ok (qs_source sample) s (check_source clock sample record s).
Proof.
  intros Hr. unfold check_source. apply then_check_ok; [apply then_check_ok; [apply then_check_ok|]|].
  - by apply check_incarnation_ok.
  - intros; by apply check_generation_ok.
  - intros; by apply check_authority_ok.
  - intros; by apply check_sequence_ok.
Qed.

(** The verdict on a sample's source. *)
Definition verdict_ok (v : Fencing) : Prop :=
  match v with
  | Refuse outcome code _ =>
      outcome = AdmissionOutcome.RejectedLimit ∧ code = ErrorCode.LimitExceeded
  | Fence outcome => AdmissionOutcome.admitted outcome = false ∧ AdmissionOutcome.fence_reason outcome ≠ EmptyString
  | Admit outcome => AdmissionOutcome.admitted outcome = true
  end.

Lemma admit_source_ok sample s s' v :
  core s → admit_source cfg clock sample s = (s', v) →
  registry_step s s' ∧ core s' ∧ verdict_ok v.
Proof.
  intros Hs. unfold admit_source. destruct (om_find _ (st_sources s)) as [record|] eqn:Hf.
  - assert (source_ok (qs_source sample) record) as Hr
      by (eapply om_forall_find; [apply Hs|done]).
    pose proof (check_source_ok sample record s Hr) as Hok. unfold stage_ok in Hok.
    destruct (check_source _ _ _ _) as [[s1 record1] v1]. intros [= <- <-].
    destruct Hok as (H1 & H2 & _ & H3). split_and!; [done|auto|]. by destruct v1.
  - intros Hrun. destruct (register_source_spec _ _ _ _ Hf Hrun) as (H1 & H2 & H3).
    split_and!; [done|auto|]. by destruct H3 as [-> | [reason ->]].
Qed.

(** ** The queue stages *)

Lemma queue_refusal_None sample s :
  is_u64 (st_history_bytes s) →
  queue_refusal cfg record_bytes sample s = None →
  om_find (qs_queue sample) (st_queues s) = None →
  Z.of_nat (length (st_queues s)) < max_queues (cfg_history cfg) ∧
  st_history_bytes s + per_queue cfg record_bytes <= max_history_bytes (cfg_history cfg) ∧
  add_u64 (st_history_bytes s) (per_queue cfg record_bytes) =
    Some (st_history_bytes s + per_queue cfg record_bytes).
Proof.
  intros Hb. unfold queue_refusal. intros H Hf. rewrite Hf in H. cbn [is_some] in H.
  destruct (Z.leb_spec (max_queues (cfg_history cfg)) (Z.of_nat (length (st_queues s)))); [done|].
  rewrite add_u64_spec in * by (done || apply wrap_u64_range).
  destruct (Z.leb_spec (st_history_bytes s + per_queue cfg record_bytes) u64_max); [|done].
  destruct (Z.ltb_spec (max_history_bytes (cfg_history cfg))
    (st_history_bytes s + per_queue cfg record_bytes)); [done|]. done.
Qed.

Abbreviation qok := (queue_ok cfg).

Lemma new_queue_ok path n :
  n = Z.to_nat (max_samples_per_queue (cfg_history cfg)) → 0 <= max_sources (cfg_history cfg) →
  qok path (queue_reserve n (new_queue path)).
Proof.
  intros -> H. split; cbn [queue_reserve new_queue q_queue q_history q_counters q_peers length].
  - done.
  - apply history_reserve_wf.
  - apply length_replicate.
  - apply length_replicate.
  - lia.
Qed.

(** The queue registry after [acquire_queue] on a sample that was not refused. *)
Lemma acquire_queue_ok sample s s' q created :
  core s → 0 <= st_history_bytes s → max_history_bytes (cfg_history cfg) <= u64_max →
  0 <= max_sources (cfg_history cfg) →
  queue_refusal cfg record_bytes sample s = None →
  acquire_queue cfg record_bytes (qs_queue sample) s = (s', q, created) →
  core s' ∧ qok (qs_queue sample) q ∧ om_find (qs_queue sample) (st_queues s') = Some q ∧
  (∀ path, path ≠ qs_queue sample → om_find path (st_queues s') = om_find path (st_queues s)) ∧
  (created = true ↔ om_find (qs_queue sample) (st_queues s) = None) ∧
  (created = false → om_find (qs_queue sample) (st_queues s) = Some q) ∧
  (created = true → history_snapshot (q_history q) = []) ∧
  st_sources s' = st_sources s ∧ st_metadata s' = st_metadata s ∧
  st_has_metadata s' = st_has_metadata s ∧ st_recovered_mode s' = st_recovered_mode s ∧
  st_conflicts s' = st_conflicts s ∧ st_counters s' = st_counters s ∧
  st_next_ordinal s' = st_next_ordinal s.
Proof.
  intros Hs Hb Hmax Hsrc Href. unfold acquire_queue.
  assert (is_u64 (st_history_bytes s)) by (pose proof (ci_budget _ _ _ Hs); word_lia).
  destruct (om_find (qs_queue sample) (st_queues s)) as [q0|] eqn:Hf.
  { intros [= <- <- <-]. split_and!; try done. eapply om_forall_find; [apply Hs|done]. }
  destruct (queue_refusal_None sample s) as (Hlim & Hbud & Hadd); [done..|].
  cbn [set_queues st_history_bytes]. rewrite Hadd. intros [= <- <- <-].
  set (q := queue_reserve _ _).
  assert (qok (qs_queue sample) q) as Hq by by apply new_queue_ok.
  split_and!; try done.
  - cbn [put_queue set_history_bytes set_queues]. destruct Hs. split; cbn.
    + apply om_update_sorted, om_emplace_sorted; [apply _|done].
    + rewrite om_update_length, om_emplace_length by done. lia.
    + apply om_forall_update_emplace; [done|done|done].
    + rewrite om_update_length, om_emplace_length by done. lia.
    + done.
    + done.
    + done.
    + done.
    + done.
    + done.
    + done.
  - cbn. by rewrite om_find_update, decide_True, om_find_emplace_eq.
  - intros path Hne. cbn. by rewrite om_find_update, decide_False, om_find_emplace_ne.
Qed.
End stages.
