(* ===== verification/StoreStages.v ===== *)
(** * The store: the stages of an ingest

    The order a source's samples are accepted in (what an admitted sample says of
    its source's record, and that no other sample is admitted), and what the other
    stages of [ingest_locked] preserve. *)

From S2P Require Import Prelude Result Checked Text Identity Time Evidence Sample Counter Metadata.
From S2P Require Import Event Limits Policy Rules Explanation Classification Ring History Window.
From S2P Require Import OrderedMap Admission Store StoreOps StoreInvariant.
Open Scope Z_scope.
Open Scope word_scope.

Lemma notice_sources clock kind sample detail s :
  st_sources (notice clock kind sample detail s) = st_sources s.
Proof. apply (ol_sources _ _ (notice_only_log clock kind sample detail s)). Qed.
Lemma put_source_find id other r s :
  om_find other (st_sources (put_source id r s)) =
    if decide (other = id) then (λ _, r) <$> om_find id (st_sources s)
    else om_find other (st_sources s).
Proof. apply om_find_update. Qed.

(** [advances sample r r']: [r'] is [r] brought to the identity the sample
    declares, which is not behind [r]'s. *)
Record advances (sample : QueueSample) (r r' : SourceRecord) : Prop := {
  av_incarnation : sr_incarnation r' = qs_incarnation sample;
  av_generation : sr_generation r' = qs_generation sample;
  av_no_older : sr_generation r <= qs_generation sample;
  av_authority : sr_authority r' = qs_authority sample;
  av_no_weaker : authority_ltb (qs_authority sample) (sr_authority r) = false;
  av_sequence : sr_last_sequence r' < qs_sequence sample;
  av_same : sr_incarnation r = qs_incarnation sample → sr_last_sequence r' = sr_last_sequence r
}.

(** [holds id r s]: the registry's record of the source. *)
Definition holds (id : SourceId) (r : SourceRecord) (s : Store) : Prop :=
  om_find id (st_sources s) = Some r.

Lemma holds_put_source id r r' s : holds id r s → holds id r' (put_source id r' s).
Proof. unfold holds. intros H. by rewrite put_source_find, decide_True, H. Qed.
Lemma holds_notice id r clock kind sample detail s :
  holds id r s → holds id r (notice clock kind sample detail s).
Proof. unfold holds. by rewrite notice_sources. Qed.
#[export] Hint Resolve holds_put_source holds_notice : qobs.

Lemma authority_same a b : authority_ltb a b = false → authority_ltb b a = false → a = b.
Proof. by destruct a, b. Qed.

Section sources.
Context (cfg : StoreConfig) (clock : nat → ReceiveTime).

(** What each check keeps, and what its admission says. *)
Lemma incarnation_checked sample r s :
  holds (qs_source sample) r s →
  let '(s', r', v) := check_incarnation clock sample r s in
  holds (qs_source sample) r' s' ∧
  sr_generation r' = sr_generation r ∧ sr_authority r' = sr_authority r ∧
  (∀ o, v = Admit o → sr_incarnation r' = qs_incarnation sample) ∧
  (sr_incarnation r = qs_incarnation sample → r' = r ∧ v = Admit AdmissionOutcome.Accepted).
Proof.
  intros H. unfold check_incarnation. case_bool_decide; [by split_and!|].
  destruct (match find _ _ with Some _ => _ | None => false end); split_and!; try done.
  by eauto with qobs.
Qed.

Lemma generation_checked sample r outcome s :
  holds (qs_source sample) r s →
  let '(s', r', v) := check_generation clock sample r outcome s in
  holds (qs_source sample) r' s' ∧ sr_incarnation r' = sr_incarnation r ∧
  sr_authority r' = sr_authority r ∧ sr_last_sequence r' = sr_last_sequence r ∧
  (∀ o, v = Admit o →
     sr_generation r' = qs_generation sample ∧ sr_generation r <= qs_generation sample).
Proof.
  intros H. unfold check_generation.
  destruct (Z.ltb_spec (qs_generation sample) (sr_generation r)); [by split_and!|].
  destruct (Z.ltb_spec (sr_generation r) (qs_generation sample)); split_and!; try done.
  all: first [by eauto with qobs | intros _ _; cbn; lia].
Qed.

Lemma authority_checked sample r outcome s :
  holds (qs_source sample) r s →
  let '(s', r', v) := check_authority clock sample r outcome s in
  holds (qs_source sample) r' s' ∧ sr_incarnation r' = sr_incarnation r ∧
  sr_generation r' = sr_generation r ∧ sr_last_sequence r' = sr_last_sequence r ∧
  (∀ o, v = Admit o → sr_authority r' = qs_authority sample ∧
     authority_ltb (qs_authority sample) (sr_authority r) = false).
Proof.
  intros H. unfold check_authority. bool_cases; split_and!; try done.
  all: first [by eauto with qobs | intros _ _; split; [by apply authority_same|done]].
Qed.

Lemma sequence_checked sample r outcome s :
  holds (qs_source sample) r s →
  let '(s', r', v) := check_sequence sample r outcome s in
  holds (qs_source sample) r' s' ∧
  (∀ o, v = Admit o → r' = r ∧ sr_last_sequence r < qs_sequence sample) ∧
  (qs_sequence sample <= sr_last_sequence r → v = Fence AdmissionOutcome.FencedStaleSequence).
Proof.
  intros H. unfold check_sequence.
  destruct (Z.leb_spec (qs_sequence sample) (sr_last_sequence r)); split_and!; try done.
  all: first [lia | unfold holds; cbn; by rewrite om_find_update, decide_True, H].
Qed.

(** The four checks in sequence. *)
Lemma source_checked sample r s :
  holds (qs_source sample) r s →
  let '(s', r', v) := check_source clock sample r s in
  holds (qs_source sample) r' s' ∧ (∀ o, v = Admit o → advances sample r r').
Proof.
  intros H. unfold check_source.
  pose proof (incarnation_checked _ _ _ H) as I.
  destruct (check_incarnation _ _ _ _) as [[s1 r1] [o1 c1 m1|o1|o1]]; cbn [then_check].
  { by destruct I. } { by destruct I. }
  destruct I as (I1 & I2 & I3 & I4 & I5). specialize (I4 o1 eq_refl).
  pose proof (generation_checked sample r1 o1 s1 I1) as G.
  destruct (check_generation _ _ _ _ _) as [[s2 r2] [o2 c2 m2|o2|o2]]; cbn [then_check].
  { by destruct G. } { by destruct G. }
  destruct G as (G1 & G2 & G3 & G4 & G5). specialize (G5 o2 eq_refl) as [G5 G6].
  pose proof (authority_checked sample r2 o2 s2 G1) as A.
  destruct (check_authority _ _ _ _ _) as [[s3 r3] [o3 c3 m3|o3|o3]]; cbn [then_check].
  { by destruct A. } { by destruct A. }
  destruct A as (A1 & A2 & A3 & A4 & A5). specialize (A5 o3 eq_refl) as [A5 A6].
  pose proof (sequence_checked sample r3 o3 s3 A1) as Q.
  destruct (check_sequence _ _ _ _) as [[s4 r4] v]. destruct Q as (Q1 & Q2 & _).
  split; [done|]. intros o Hv. destruct (Q2 o Hv) as [-> Q3].
  split; try congruence.
  - intros Hi. destruct (I5 Hi) as [-> _]. congruence.
Qed.

(** *** What a source remembers of its incarnations *)

(** The newest incarnation is in front, and the ordinals are those given out so far. *)
Record source_ordered (next : Z) (r : SourceRecord) : Prop := {
  sd_front : ∃ older, sr_recent_incarnations r = (sr_incarnation r, sr_incarnation_ordinal r) :: older;
  sd_ordinals : Forall (λ entry : IncarnationId * IncarnationOrdinal, entry.2 <= sr_incarnation_ordinal r)
    (sr_recent_incarnations r);
  sd_next : sr_incarnation_ordinal r < next
}.

(** The same incarnations, and a sequence that is not behind. *)
Record source_kept (r r' : SourceRecord) : Prop := {
  kp_incarnation : sr_incarnation r' = sr_incarnation r;
  kp_ordinal : sr_incarnation_ordinal r' = sr_incarnation_ordinal r;
  kp_recent : sr_recent_incarnations r' = sr_recent_incarnations r;
  kp_sequence : sr_last_sequence r <= sr_last_sequence r'
}.
#[export] Instance source_kept_preorder : PreOrder source_kept.
Proof. split; [by split|]. intros a b c [] []. split; [congruence..|lia]. Qed.

(** What one sample does to its source's record: the incarnations stay, or the sample's, which
    the source does not remember, becomes the newest. *)
Inductive source_moved (sample : QueueSample) (next next' : Z) (r r' : SourceRecord) : Prop :=
| source_stayed : next' = next → source_kept r r' → source_moved sample next next' r r'
| source_renewed :
    qs_incarnation sample ∉ map fst (sr_recent_incarnations r) → next' = next +u 1 →
    sr_incarnation r' = qs_incarnation sample → sr_incarnation_ordinal r' = next →
    sr_recent_incarnations r' =
      take kMaxRecentIncarnations ((qs_incarnation sample, next) :: sr_recent_incarnations r) →
    source_moved sample next next' r r'.

Lemma moved_kept sample next next' r r1 r2 :
  source_moved sample next next' r r1 → source_kept r1 r2 → source_moved sample next next' r r2.
Proof.
  intros [Hn H|Hn1 Hn2 Hi Ho Hr] K; [apply source_stayed; [done|by transitivity r1]|].
  destruct K. apply source_renewed; congruence.
Qed.

(** The records of the other sources. *)
Definition others_same (id : SourceId) (s s' : Store) : Prop :=
  ∀ other, other ≠ id → om_find other (st_sources s') = om_find other (st_sources s).
#[export] Instance others_same_preorder id : PreOrder (others_same id).
Proof. split; [by intros s other|]. intros a b c H1 H2 other Ho. by rewrite H2, H1. Qed.
Lemma others_put_source id r s : others_same id s (put_source id r s).
Proof. intros other Ho. by rewrite put_source_find, decide_False. Qed.
Lemma notice_ordinal kind sample detail s :
  st_next_ordinal (notice clock kind sample detail s) = st_next_ordinal s.
Proof. apply (ol_ordinal _ _ (notice_only_log clock kind sample detail s)). Qed.

(** A remembered incarnation, found in the list. *)
Lemma recent_found (inc : IncarnationId) (recent : list (IncarnationId * IncarnationOrdinal)) :
  find (λ entry, bool_decide (entry.1 = inc)) recent = None → inc ∉ map fst recent.
Proof.
  intros H ([x o] & -> & Hin)%list_elem_of_fmap. apply list_elem_of_In in Hin.
  pose proof (find_none _ _ H _ Hin) as E. cbn in E. by apply bool_decide_eq_false in E.
Qed.

Lemma incarnation_moves sample r s :
  source_ordered (st_next_ordinal s) r →
  let '(s', r', _) := check_incarnation clock sample r s in
  others_same (qs_source sample) s s' ∧
  source_moved sample (st_next_ordinal s) (st_next_ordinal s') r r'.
Proof.
  intros [_ Hle _]. unfold check_incarnation. case_bool_decide; [split; [done|by apply source_stayed]|].
  destruct (find _ _) as [[x o]|] eqn:E.
  - apply find_some in E as [E _]. apply list_elem_of_In in E. rewrite list.Forall_forall in Hle.
    specialize (Hle _ E). cbn in Hle |- *.
    destruct (Z.ltb_spec o (sr_incarnation_ordinal r)); cbn [orb]; [split; [done|by apply source_stayed]|].
    destruct (Z.eqb_spec o (sr_incarnation_ordinal r)); [split; [done|by apply source_stayed]|lia].
  - cbn. split.
    + intros other Ho. rewrite notice_sources. by apply (others_put_source _ _ (take_ordinal s)).
    + rewrite notice_ordinal. by apply source_renewed; [apply recent_found|..].
Qed.

Lemma generation_moves sample r outcome s :
  let '(s', r', _) := check_generation clock sample r outcome s in
  others_same (qs_source sample) s s' ∧ st_next_ordinal s' = st_next_ordinal s ∧ source_kept r r'.
Proof.
  unfold check_generation. bool_case; [done|]. bool_case; [|done]. cbv zeta. split_and!; [| |by split].
  - intros other Ho. rewrite notice_sources. by apply others_put_source.
  - by rewrite notice_ordinal.
Qed.
Lemma authority_moves sample r outcome s :
  let '(s', r', _) := check_authority clock sample r outcome s in
  others_same (qs_source sample) s s' ∧ st_next_ordinal s' = st_next_ordinal s ∧ source_kept r r'.
Proof.
  unfold check_authority. destruct (authority_ltb _ _); [done|]. destruct (authority_ltb _ _); [|done].
  cbv zeta. split_and!; [| |by split].
  - intros other Ho. rewrite notice_sources. by apply others_put_source.
  - by rewrite notice_ordinal.
Qed.
Lemma sequence_moves sample r outcome s :
  let '(s', r', _) := check_sequence sample r outcome s in
  others_same (qs_source sample) s s' ∧ st_next_ordinal s' = st_next_ordinal s ∧ source_kept r r'.
Proof.
  unfold check_sequence. bool_case; [|done]. cbv zeta. split_and!; [apply others_put_source|done|by split].
Qed.

Lemma source_moves sample r s :
  source_ordered (st_next_ordinal s) r →
  let '(s', r', _) := check_source clock sample r s in
  others_same (qs_source sample) s s' ∧
  source_moved sample (st_next_ordinal s) (st_next_ordinal s') r r'.
Proof.
  intros Hr. unfold check_source. pose proof (incarnation_moves sample r s Hr) as I.
  destruct (check_incarnation _ _ _ _) as [[s1 r1] [o1 c1 m1|o1|o1]]; [done|done|]. destruct I as [O1 M1].
  cbn [then_check]. pose proof (generation_moves sample r1 o1 s1) as G.
  destruct (check_generation _ _ _ _ _) as [[s2 r2] v2]. destruct G as (O2 & N2 & K2).
  assert (others_same (qs_source sample) s s2) as O12 by by transitivity s1.
  assert (source_moved sample (st_next_ordinal s) (st_next_ordinal s2) r r2) as M2
    by (rewrite N2; by eapply moved_kept).
  destruct v2 as [o2 c2 m2|o2|o2]; [done|done|]. cbn [then_check].
  pose proof (authority_moves sample r2 o2 s2) as A.
  destruct (check_authority _ _ _ _ _) as [[s3 r3] v3]. destruct A as (O3 & N3 & K3).
  assert (others_same (qs_source sample) s s3) as O13 by by transitivity s2.
  assert (source_moved sample (st_next_ordinal s) (st_next_ordinal s3) r r3) as M3
    by (rewrite N3; by eapply moved_kept).
  destruct v3 as [o3 c3 m3|o3|o3]; [done|done|]. cbn [then_check].
  pose proof (sequence_moves sample r3 o3 s3) as Q.
  destruct (check_sequence _ _ _ _) as [[s4 r4] v4]. destruct Q as (O4 & N4 & K4).
  split; [by transitivity s3|]. rewrite N4. by eapply moved_kept.
Qed.

(** A sample the source does not admit: behind the last sequence of the current incarnation, or
    of an incarnation that it remembers as an older one. *)
Definition refuses (sample : QueueSample) (r : SourceRecord) : Prop :=
  (sr_incarnation r = qs_incarnation sample ∧ qs_sequence sample <= sr_last_sequence r) ∨
  (sr_incarnation r ≠ qs_incarnation sample ∧
   ∃ entry, find (λ entry : IncarnationId * IncarnationOrdinal, bool_decide (entry.1 = qs_incarnation sample))
              (sr_recent_incarnations r) = Some entry ∧ entry.2 <= sr_incarnation_ordinal r).

Lemma refused_is_fenced sample r s :
  holds (qs_source sample) r s → refuses sample r →
  ∃ s' outcome, admit_source cfg clock sample s = (s', Fence outcome).
Proof.
  intros H Hrefuses. unfold admit_source. rewrite H. unfold check_source.
  destruct Hrefuses as [[Hi Hq]|(Hi & entry & Hfind & Hle)].
  2:{ assert (check_incarnation clock sample r s = (s, r, Fence AdmissionOutcome.FencedStaleIncarnation)) as ->.
      { unfold check_incarnation. rewrite bool_decide_eq_false_2, Hfind by done.
        destruct (Z.ltb_spec entry.2 (sr_incarnation_ordinal r)); [done|].
        by destruct (Z.eqb_spec entry.2 (sr_incarnation_ordinal r)); [|lia]. }
      cbn [then_check]. by eauto. }
  assert (check_incarnation clock sample r s = (s, r, Admit AdmissionOutcome.Accepted)) as ->.
  { unfold check_incarnation. by rewrite bool_decide_eq_true_2. }
  cbn [then_check]. pose proof (generation_checked sample r AdmissionOutcome.Accepted s H) as G.
  destruct (check_generation _ _ _ _ _) as [[s2 r2] [o2 c2 m2|o2|o2]] eqn:E2; cbn [then_check].
  { unfold check_generation in E2. repeat case_match; congruence. } { by eauto. }
  destruct G as (G1 & _ & _ & G4 & _).
  pose proof (authority_checked sample r2 o2 s2 G1) as A.
  destruct (check_authority _ _ _ _ _) as [[s3 r3] [o3 c3 m3|o3|o3]] eqn:E3; cbn [then_check].
  { unfold check_authority in E3. repeat case_match; congruence. } { by eauto. }
  destruct A as (A1 & _ & _ & A4 & _).
  pose proof (sequence_checked sample r3 o3 s3 A1) as Q.
  destruct (check_sequence _ _ _ _) as [[s4 r4] v]. destruct Q as (_ & _ & Q3).
  rewrite Q3 by lia. by eauto.
Qed.
End sources.

(** ** The store: stages

    What each stage of [admit_queue] and [ingest_locked] does to the store and to
    the queue it works on, and the effect of the whole handler on each of its
    three endings: rejected, fenced, accepted. *)

(** [queue_step s s']: a stage that works on a queue's state, which the caller
    holds, and outside it only on the conflict list, the log and the counters
    that do not file samples. *)
Record queue_step (cfg : StoreConfig) (s s' : Store) : Prop := {
  qt_queues : st_queues s' = st_queues s;
  qt_sources : st_sources s' = st_sources s;
  qt_ordinal : st_next_ordinal s' = st_next_ordinal s;
  qt_metadata : st_metadata s' = st_metadata s;
  qt_has_metadata : st_has_metadata s' = st_has_metadata s;
  qt_recovered : st_recovered_mode s' = st_recovered_mode s;
  qt_bytes : st_history_bytes s' = st_history_bytes s;
  qt_tallies : ∀ x, tally_counter x → st_counters s' x = st_counters s x;
  qt_conflicts : Z.of_nat (length (st_conflicts s)) <= max_conflicts (cfg_history cfg) →
    Z.of_nat (length (st_conflicts s')) <= max_conflicts (cfg_history cfg);
  qt_capacity : capacity (st_events s') = capacity (st_events s);
  qt_ring : ring_wf (st_events s) → ring_wf (st_events s')
}.

#[export] Instance queue_step_refl cfg : Reflexive (queue_step cfg).
Proof. by split. Qed.
#[export] Instance queue_step_trans cfg : Transitive (queue_step cfg).
Proof.
  intros a b c [] []. split; try congruence; try tauto.
  intros x Hx. transitivity (st_counters b x); auto.
Qed.

Lemma queue_step_core cfg record_bytes s s' :
  queue_step cfg s s' → core_inv cfg record_bytes s → core_inv cfg record_bytes s'.
Proof.
  intros [] []. split; rewrite ?qt_queues0, ?qt_sources0, ?qt_bytes0; auto. congruence.
Qed.

Lemma only_log_queue cfg s s' : only_log s s' → queue_step cfg s s'.
Proof.
  intros H. split; try apply H; [|by rewrite (ol_conflicts _ _ H)].
  intros x Hx. by apply (ol_counters _ _ H), tally_not_log.
Qed.
Lemma bump_queue cfg x n s : ¬ tally_counter x → queue_step cfg s (store_bump x n s).
Proof. intros Hx. split; try done. intros y Hy. cbn. apply bump_other. by intros ->. Qed.
Lemma set_conflicts_queue cfg conflicts s :
  (Z.of_nat (length (st_conflicts s)) <= max_conflicts (cfg_history cfg) →
   Z.of_nat (length conflicts) <= max_conflicts (cfg_history cfg)) →
  queue_step cfg s (set_conflicts conflicts s).
Proof. intros H. by split. Qed.

(** [queue_tac]: a chain of such steps. *)
Ltac queue_tac :=
  repeat first
    [ done
    | etransitivity; [|solve [apply only_log_queue, record_event_only_log]]
    | etransitivity; [|solve [apply only_log_queue, notice_only_log]]
    | etransitivity; [|solve [apply only_log_queue, tick_only_log]]
    | etransitivity; [|solve [apply bump_queue; not_tally]] ].

(** [queue_kept q q']: neither the history, the peers nor the last result of the
    queue moves. *)
Record queue_kept (q q' : QueueState) : Prop := {
  qk_path : q_queue q' = q_queue q;
  qk_history : q_history q' = q_history q;
  qk_counters : length (q_counters q') = length (q_counters q);
  qk_peers : q_peers q' = q_peers q;
  qk_latest : q_latest q' = q_latest q
}.
#[export] Instance queue_kept_refl : Reflexive queue_kept.
Proof. by split. Qed.
#[export] Instance queue_kept_trans : Transitive queue_kept.
Proof. intros a b c [] []. split; congruence. Qed.

Lemma queue_kept_ok cfg path q q' : queue_kept q q' → queue_ok cfg path q → queue_ok cfg path q'.
Proof. intros [] []. split; congruence. Qed.

(** [admission_kept r r']: the result still names the same queue and reason. *)
Record admission_kept (r r' : AdmissionResult) : Prop := {
  ak_queue : ar_queue r' = ar_queue r;
  ak_reason : ar_reason r' = ar_reason r;
  ak_created : ar_queue_created r' = ar_queue_created r
}.
#[export] Instance admission_kept_refl : Reflexive admission_kept.
Proof. by split. Qed.
#[export] Instance admission_kept_trans : Transitive admission_kept.
Proof. intros a b c [] []. split; congruence. Qed.

Lemma push_bounded_length {A} limit (x : A) xs :
  0 < limit → Z.of_nat (length xs) <= limit → Z.of_nat (length (push_bounded limit x xs)) <= limit.
Proof.
  intros Hl Hx. unfold push_bounded.
  destruct (Z.leb_spec limit (Z.of_nat (length xs))); rewrite length_app; cbn [length].
  - rewrite length_drop. lia.
  - lia.
Qed.

Lemma clear_first_length queue cs : length (clear_first queue cs) = length cs.
Proof. induction cs; cbn; [done|]. case_match; cbn; congruence. Qed.
Lemma clear_last_active_length queue cs : length (clear_last_active queue cs) = length cs.
Proof. unfold clear_last_active. by rewrite length_rev, clear_first_length, length_rev. Qed.

Lemma replace_peer_length peer peers updated :
  replace_peer peer peers = Some updated → length updated = length peers.
Proof.
  revert updated. induction peers as [|p peers IH]; cbn; intros updated; [done|].
  case_bool_decide; [by intros [= <-]|].
  destruct (replace_peer peer peers) as [rest|]; [|done]. intros [= <-]. cbn. by rewrite IH.
Qed.

Section stages.
Context (cfg : StoreConfig) (clock : nat → ReceiveTime) (record_bytes : Z).
Let limits := cfg_history cfg.

Lemma update_peers_length peer peers :
  0 < max_sources limits → Z.of_nat (length peers) <= max_sources limits →
  Z.of_nat (length (update_peers cfg peer peers)) <= max_sources limits.
Proof.
  intros Hm Hp. unfold update_peers. destruct (replace_peer peer peers) as [u|] eqn:E.
  - by rewrite (replace_peer_length _ _ _ E).
  - by apply push_bounded_length.
Qed.

Lemma resolve_classes_ok sample q s s' q' derived :
  resolve_classes clock sample q s = (s', q', derived) → queue_step cfg s s' ∧ queue_kept q q'.
Proof.
  unfold resolve_classes. bool_cases; intros [= <- <- _]; (split; [queue_tac|by split]).
Qed.

Lemma assess_ok sample source derived s s' a :
  assess cfg clock sample source derived s = (s', a) →
  queue_step cfg s s' ∧
  a = assess_at cfg (clock (st_clock s)) (st_recovered_mode s) sample source derived.
Proof. intros [= <- <-]. split; [queue_tac|done]. Qed.

Lemma ingest_counter_ok sample s q deltas field :
  let '(s', q', deltas') := ingest_counter cfg clock sample (s, q, deltas) field in
  queue_step cfg s s' ∧ queue_kept q q' ∧ length deltas' = length deltas.
Proof.
  unfold ingest_counter. destruct (negb _ || negb _); [done|]. destruct (negb _); [done|].
  destruct (update_counter _ _ _ _ _) as [counter update].
  split_and!; [|split; try done; apply length_insert|apply length_insert].
  destruct (continuity_event _) as [[count kind]|] eqn:E; [|done].
  etransitivity; [|apply only_log_queue, record_event_only_log]. apply bump_queue.
  destruct (cu_continuity update); simplify_eq/=; not_tally.
Qed.

Lemma ingest_counters_ok sample q s s' q' deltas :
  ingest_counters cfg clock sample q s = (s', q', deltas) →
  queue_step cfg s s' ∧ queue_kept q q' ∧ length deltas = kSampleFieldCount.
Proof.
  unfold ingest_counters.
  assert (∀ fields s q deltas,
    let '(s', q', deltas') := fold_left (ingest_counter cfg clock sample) fields (s, q, deltas) in
    queue_step cfg s s' ∧ queue_kept q q' ∧ length deltas' = length deltas) as Hfold.
  { induction fields as [|f fields IH]; intros s0 q0 d0; cbn [fold_left]; [done|].
    pose proof (ingest_counter_ok sample s0 q0 d0 f) as Hf.
    destruct (ingest_counter _ _ _ _ _) as [[s1 q1] d1]. destruct Hf as (F1 & F2 & F3).
    specialize (IH s1 q1 d1). destruct (fold_left _ _ _) as [[s2 q2] d2].
    destruct IH as (I1 & I2 & I3). split_and!; [by etransitivity|by etransitivity|congruence]. }
  specialize (Hfold all_fields s (queue_see_counters (counters_reported sample) q)
                (replicate kSampleFieldCount no_delta)).
  destruct (fold_left _ _ _) as [[s2 q2] d2]. intros [= <- <- <-].
  destruct Hfold as (H1 & H2 & H3). split_and!; [done| |by rewrite length_replicate in H3].
  etransitivity; [|exact H2]. by split.
Qed.

Lemma detect_conflict_ok q sample source r s s' q' r' :
  0 < max_conflicts limits → detect_conflict cfg clock q sample source r s = (s', q', r') →
  queue_step cfg s s' ∧ queue_kept q q' ∧ admission_kept r r'.
Proof.
  intros Hm. unfold detect_conflict. destruct (negb _); [by intros [= <- <- <-]|].
  destruct (disagreement _ _ _ _) as [[[occupancy other] value]|], (q_conflict_active q);
    intros [= <- <- <-]; (split_and!; [|by split|by split]).
  - done.
  - queue_tac. etransitivity; [|apply set_conflicts_queue].
    + queue_tac.
    + by apply push_bounded_length.
  - queue_tac. etransitivity; [|apply set_conflicts_queue].
    + queue_tac.
    + by rewrite clear_last_active_length.
  - done.
Qed.

Lemma classify_queue_ok sample q deltas assessment r s s' q' r' c :
  classify_queue cfg clock sample q deltas assessment r s = (s', q', r', c) →
  let input := classification_input cfg sample q deltas assessment in
  queue_step cfg s s' ∧ admission_kept r r' ∧
  c = classify (cfg_policy cfg) input ∧ q' = queue_classified c input q.
Proof.
  unfold classify_queue. intros [= <- <- <- <-]. split_and!; [|by split|done|done].
  bool_cases; queue_tac.
Qed.

Lemma push_history_ok sample record q s s' q' :
  push_history clock sample record q s = (s', q') →
  queue_step cfg s s' ∧ q' = queue_push record sample q.
Proof.
  unfold push_history. bool_cases; intros [= <- <-]; (split; [|done]); queue_tac.
Qed.
(** ** The three endings *)

(** Limits a validated configuration has, at the width of their types. *)
Record limits_ok (l : HistoryLimits) : Prop := {
  lo_queues : 0 < max_queues l;
  lo_samples : 0 < max_samples_per_queue l;
  lo_sources : 0 < max_sources l;
  lo_conflicts : 0 < max_conflicts l;
  lo_bytes : 0 < max_history_bytes l <= u64_max
}.

Definition queue_records (path : QueuePath) (s : Store) : list HistoryRecord :=
  match om_find path (st_queues s) with
  | Some q => history_snapshot (q_history q)
  | None => []
  end.

(** What no ending touches. *)
Record bystanders (path : QueuePath) (s s' : Store) : Prop := {
  by_queues : ∀ other, other ≠ path → om_find other (st_queues s') = om_find other (st_queues s);
  by_metadata : st_metadata s' = st_metadata s;
  by_has_metadata : st_has_metadata s' = st_has_metadata s;
  by_recovered : st_recovered_mode s' = st_recovered_mode s
}.

(** The effect of an accepted sample on its queue: the assessment [a] the
    handler made, the result [c] classified from it and the record it kept. *)
Record accepted_effect (sample : QueueSample) (outcome : AdmissionOutcome) (s s' : Store)
    (r : AdmissionResult) (now : ReceiveTime) (input : ClassificationInput)
    (q : QueueState) : Prop := {
  ae_queue : om_find (qs_queue sample) (st_queues s') = Some q;
  ae_latest : q_latest q = classify (cfg_policy cfg) input;
  ae_assessment : ∃ source derived,
    ci_assessment input = assess_at cfg now (st_recovered_mode s) sample source derived;
  ae_history : ∃ record,
    history_snapshot (q_history q) =
      keep_last (Z.to_nat (max_samples_per_queue limits))
        (queue_records (qs_queue sample) s ++ [record]) ∧
    hr_sequence record = qs_sequence sample ∧ hr_source record = qs_source sample ∧
    hr_values record = qs_values sample ∧ hr_reported record = qs_reported sample ∧
    hr_state record = cr_state (q_latest q);
  ae_outcome : ar_outcome r = outcome;
  ae_accepted : ar_accepted r = true;
  ae_result : ar_classification r = q_latest q;
  ae_created : ar_queue_created r = true ↔ om_find (qs_queue sample) (st_queues s) = None;
  ae_input : q_last_input q = Some input
}.

Lemma assess_recovered now sample source derived :
  ea_provenance (assess_at cfg now true sample source derived) = Provenance.RecoveredFromPersistence.
Proof. done. Qed.

Lemma open_queue_ok sample s s' q created :
  core_inv cfg record_bytes s → limits_ok limits → 0 <= record_bytes ->
  queue_refusal cfg record_bytes sample s = None →
  open_queue cfg clock record_bytes sample s = (s', q, created) →
  core_inv cfg record_bytes s' ∧ queue_ok cfg (qs_queue sample) q ∧
  is_Some (om_find (qs_queue sample) (st_queues s')) ∧ bystanders (qs_queue sample) s s' ∧
  history_snapshot (q_history q) = queue_records (qs_queue sample) s ∧
  (created = true ↔ om_find (qs_queue sample) (st_queues s) = None) ∧
  st_sources s' = st_sources s ∧ st_next_ordinal s' = st_next_ordinal s ∧
  (∀ x, tally_counter x → st_counters s' x = st_counters s x).
Proof.
  intros Hs [] Hrb Href. unfold open_queue.
  destruct (acquire_queue _ _ _ _) as [[s1 q1] created1] eqn:E.
  assert (0 <= st_history_bytes s).
  { rewrite (ci_bytes _ _ _ Hs). apply Z.mul_nonneg_nonneg; [lia|apply wrap_u64_range]. }
  apply (acquire_queue_ok cfg record_bytes sample s) in E; try (done || word_lia).
  2: fold limits; lia. 2: fold limits; lia.
  destruct E as (E1 & E2 & E3 & E4 & E5 & E6 & E7 & E8 & E9 & E10 & E11 & E12 & E13 & E14).
  assert (history_snapshot (q_history q1) = queue_records (qs_queue sample) s) as Hrec.
  { unfold queue_records. destruct created1.
    - rewrite (proj1 E5) by done. by apply E7.
    - by rewrite E6. }
  destruct created1; intros [= <- <- <-].
  - match goal with |- core_inv _ _ ?s2 ∧ _ => assert (only_log s1 s2) as L
      by apply record_event_only_log; generalize dependent s2 end.
    intros s2 L. split_and!; try done.
    + by eapply only_log_core.
    + destruct E2. by split.
    + rewrite (ol_queues _ _ L). by eexists.
    + split; [by intros; rewrite (ol_queues _ _ L), E4| | |].
      * by rewrite (ol_metadata _ _ L).
      * by rewrite (ol_has_metadata _ _ L).
      * by rewrite (ol_recovered _ _ L).
    + by rewrite (ol_sources _ _ L).
    + by rewrite (ol_ordinal _ _ L).
    + intros x Hx. rewrite (ol_counters _ _ L) by by apply tally_not_log. by rewrite E13.
  - split_and!; try done. by rewrite E13.
Qed.
(** The last three writes of the handler. *)
Lemma finish_core path id q source s :
  core_inv cfg record_bytes s → queue_ok cfg path q → source_ok id source →
  core_inv cfg record_bytes
    (store_bump StoreCounter.samples_accepted 1 (put_source id source (put_queue path q s))).
Proof. intros. by apply bump_core, put_source_core, put_queue_core. Qed.

(** [find_queue]: the registry after one queue's entry was assigned. *)
Lemma put_queue_find path other q s :
  om_find other (st_queues (put_queue path q s)) =
    if decide (other = path) then (λ _, q) <$> om_find path (st_queues s)
    else om_find other (st_queues s).
Proof. apply om_find_update. Qed.

Lemma admit_queue_ok sample source outcome r s s' r' st :
  core_inv cfg record_bytes s → limits_ok limits → 0 <= record_bytes →
  source_ok (qs_source sample) source →
  queue_refusal cfg record_bytes sample s = None →
  admit_queue cfg clock record_bytes sample source outcome r s = (s', r', st) →
  core_inv cfg record_bytes s' ∧ bystanders (qs_queue sample) s s' ∧ st = success ∧
  (∃ now input q, accepted_effect sample outcome s s' r' now input q) ∧
  st_sources s' = om_update (qs_source sample) (λ _, source_count_accepted source) (st_sources s) ∧
  st_counters s' StoreCounter.samples_accepted = st_counters s StoreCounter.samples_accepted +u 1 ∧
  (∀ x, tally_counter x → x ≠ StoreCounter.samples_accepted → st_counters s' x = st_counters s x) ∧
  st_next_ordinal s' = st_next_ordinal s.
Proof.
  intros Hs Hl Hrb Hsrc Href. unfold admit_queue.
  destruct (open_queue _ _ _ _ _) as [[s1 q1] created] eqn:E1.
  apply open_queue_ok in E1 as (C1 & Q1 & [q0 Hq0] & B1 & R1 & N1 & S1 & O1 & T1); try done.
  destruct (resolve_classes _ _ _ _) as [[s2 q2] derived] eqn:E2.
  apply resolve_classes_ok in E2 as (A2 & K2).
  destruct (assess _ _ _ _ _ _) as [s3 a] eqn:E3. apply assess_ok in E3 as (A3 & Ha).
  destruct (ingest_counters _ _ _ _ _) as [[s4 q4] deltas] eqn:E4.
  apply ingest_counters_ok in E4 as (A4 & K4 & D4).
  destruct (detect_conflict _ _ _ _ _ _ _) as [[s5 q5] r5] eqn:E5.
  apply detect_conflict_ok in E5 as (A5 & K5 & W5); [|apply Hl].
  destruct (classify_queue _ _ _ _ _ _ _ _) as [[[s6 q6] r6] c] eqn:E6.
  apply classify_queue_ok in E6 as (A6 & W6 & Hc & ->).
  destruct (push_history _ _ _ _ _) as [s7 q7] eqn:E7.
  apply push_history_ok in E7 as (A7 & ->).
  set (record := history_record _ _ _ _ _).
  intros [= <- <- <-].
  assert (queue_step cfg s1 s7) as A by by do 5 (etransitivity; [eassumption|]).
  assert (queue_kept q1 q5) as K by by do 2 (etransitivity; [eassumption|]).
  set (q8 := queue_set_peers _ _).
  assert (queue_ok cfg (qs_queue sample) q8) as Q8.
  { destruct (queue_kept_ok _ _ _ _ K Q1) as [P1 P2 P3 P4 P5]. split; cbn; try done.
    - by apply history_push_wf.
    - rewrite <- P3. apply history_push_capacity.
    - by apply update_peers_length; [apply Hl|]. }
  assert (om_find (qs_queue sample) (st_queues s7) = Some q0) as Hq7 by (by rewrite (qt_queues _ _ _ A)).
  split_and!; [| |done| | | | |].
  - apply finish_core; [by eapply queue_step_core|done|by apply source_count_accepted_ok].
  - destruct A, B1. split; cbn; try congruence. intros other Hne.
    rewrite om_find_update, decide_False by done. by rewrite qt_queues0, by_queues0.
  - exists (clock (st_clock s2)), (classification_input cfg sample q5 deltas a), q8.
    split; try done.
    + cbn. by rewrite om_find_update, decide_True, Hq7.
    + exists source, derived. cbn. rewrite Ha. f_equal.
      by rewrite (qt_recovered _ _ _ A2), (by_recovered _ _ _ B1).
    + exists record. split_and!; try done. cbn [q8 queue_set_peers queue_push q_history].
      change (history_snapshot (history_push record (q_history q5)) = keep_last
        (Z.to_nat (max_samples_per_queue limits)) (queue_records (qs_queue sample) s ++ [record])).
      destruct (queue_kept_ok _ _ _ _ K Q1) as [P1 P2 P3 P4 P5]. rewrite history_push_list by done.
      by rewrite P3, (qk_history _ _ K), R1.
    + cbn. rewrite (ak_created _ _ W6), (ak_created _ _ W5). done.
  - cbn. by rewrite (qt_sources _ _ _ A), S1.
  - cbn. rewrite bump_same. rewrite (qt_tallies _ _ _ A), T1 by (unfold tally_counter; auto). done.
  - intros x Hx Hne. cbn. rewrite bump_other by done. by rewrite (qt_tallies _ _ _ A), T1.
  - cbn. by rewrite (qt_ordinal _ _ _ A).
Qed.
End stages.
