(* ===== verification/StoreIngest.v ===== *)
(** * The store: one sample

    The three endings of [ingest_locked] and what each does to the store. *)

From S2P Require Import Prelude Result Checked Text Identity Time Evidence Sample Counter.
From S2P Require Import Metadata Event Limits Policy Rules Explanation Classification.
From S2P Require Import Ring History Window OrderedMap Admission Store StoreOps StoreInvariant.
From S2P Require Import StoreStages.
Open Scope Z_scope.
Open Scope word_scope.

(** How the handler ends, and the counter that files the sample. *)
Inductive Ending : Set := Rejected | Fenced | Accepted.
#[export] Instance Ending_eq_dec : EqDecision Ending.
Proof. solve_decision. Defined.
Definition tally_of (e : Ending) : StoreCounter :=
  match e with
  | Rejected => StoreCounter.samples_rejected
  | Fenced => StoreCounter.samples_fenced
  | Accepted => StoreCounter.samples_accepted
  end.

(** The four filing counters after a sample. *)
Definition filed_as (e : Ending) (s s' : Store) : Prop :=
  ∀ x, tally_counter x →
    st_counters s' x =
      if decide (x = StoreCounter.samples_presented ∨ x = tally_of e)
      then st_counters s x +u 1 else st_counters s x.

Lemma filed_accounted e s s' : filed_as e s s' → accounted s → accounted s'.
Proof.
  unfold filed_as, accounted, filed, tally_counter. intros H Ha.
  rewrite !H by auto. destruct e; cbn [tally_of];
    repeat first [rewrite decide_True by auto | rewrite decide_False by (intros [?|?]; congruence)];
    rewrite Ha; unfold wrap_u64; Z.to_euclidean_division_equations; lia.
Qed.

(** A sample that is not accepted leaves the observations alone. *)
Record refused_effect (s s' : Store) (r : AdmissionResult) : Prop := {
  rf_queues : st_queues s' = st_queues s;
  rf_conflicts : st_conflicts s' = st_conflicts s;
  rf_metadata : st_metadata s' = st_metadata s;
  rf_has_metadata : st_has_metadata s' = st_has_metadata s;
  rf_recovered : st_recovered_mode s' = st_recovered_mode s;
  rf_bytes : st_history_bytes s' = st_history_bytes s;
  rf_accepted : ar_accepted r = false;
  rf_outcome : AdmissionOutcome.admitted (ar_outcome r) = false
}.

Lemma registry_refused x m y n s s1 s' r :
  registry_step (store_bump x m s) s1 → registry_step (store_bump y n s1) s' →
  ar_accepted r = false → AdmissionOutcome.admitted (ar_outcome r) = false → refused_effect s s' r.
Proof. intros [] [] ??. split; cbn in *; congruence. Qed.

Section ingest.
Context (cfg : StoreConfig) (clock : nat → ReceiveTime) (record_bytes : Z).
Abbreviation core := (core_inv cfg record_bytes).

Lemma stamp_registry sample s : registry_step s (stamp clock sample s).1.
Proof. unfold stamp. by bool_cases. Qed.
Lemma stamp_sources sample s : st_sources (stamp clock sample s).1 = st_sources s.
Proof. unfold stamp. by bool_cases. Qed.
Lemma stamp_core sample s : core s → core (stamp clock sample s).1.
Proof. unfold stamp. bool_cases; [|done]. apply only_log_core, tick_only_log. Qed.

(** The stamp only fills in the receive time. *)
Lemma stamp_sample sample s :
  ∃ received, (stamp clock sample s).2 = sample ∨ (stamp clock sample s).2 = set_received received sample.
Proof.
  unfold stamp. bool_cases; [eexists; by right|]. exists no_receive. by left.
Qed.

Lemma presented_filed s s1 s2 e :
  registry_step (store_bump StoreCounter.samples_presented 1 s) s1 →
  (∀ x, tally_counter x → st_counters s2 x =
     if decide (x = tally_of e) then st_counters s1 x +u 1 else st_counters s1 x) →
  filed_as e s s2.
Proof.
  intros R H x Hx. rewrite (H x Hx), (rg_tallies _ _ R x Hx). cbn. unfold bump.
  destruct e; cbn [tally_of]; repeat case_decide; subst; intuition congruence.
Qed.

Lemma reject_effect sample r outcome code reason s :
  let '(s', r', st) := reject clock sample r outcome code reason s in
  registry_step (store_bump StoreCounter.samples_rejected 1 s) s' ∧ (core s → core s') ∧
  ar_accepted r' = false ∧ ar_outcome r' = outcome ∧ st = failure code reason.
Proof.
  unfold reject. split_and!; try done; [registry|]. intros Hs.
  eapply only_log_core; [apply record_event_only_log|]. by apply bump_core.
Qed.

Lemma fence_effect sample r outcome s :
  let '(s', r', st) := fence clock sample r outcome s in
  registry_step (store_bump StoreCounter.samples_fenced 1 s) s' ∧ (core s → core s') ∧
  ar_accepted r' = false ∧ ar_outcome r' = outcome ∧ st = success.
Proof.
  unfold fence. split_and!; try done; [registry|]. intros Hs.
  eapply only_log_core; [apply record_event_only_log|]. cbn [store_bump set_sources].
  apply (update_source_core _ _ _ _ (store_bump StoreCounter.samples_fenced 1 s));
    [apply source_count_fenced_ok|by apply bump_core].
Qed.
(** The registry stage of an admitted sample. *)
Lemma admit_source_find sample s s' o :
  core s → is_true (id_valid (qs_sequence sample)) → 0 <= qs_sequence sample →
  admit_source cfg clock sample s = (s', Admit o) →
  ∃ r', holds (qs_source sample) r' s' ∧ source_ok (qs_source sample) r' ∧
    sr_incarnation r' = qs_incarnation sample ∧ sr_generation r' = qs_generation sample ∧
    sr_authority r' = qs_authority sample ∧
    (∀ r, holds (qs_source sample) r s → advances sample r r').
Proof.
  intros Hs Hv Hq. unfold admit_source, holds at 2.
  destruct (om_find (qs_source sample) (st_sources s)) as [r|] eqn:E.
  - pose proof (source_checked clock sample r s E) as C.
    assert (source_ok (qs_source sample) r) as Hr by (eapply om_forall_find; [apply Hs|done]).
    pose proof (check_source_ok cfg clock record_bytes sample r s Hr) as K.
    destruct (check_source _ _ _ _) as [[s1 r1] v]. intros [= <- ->].
    destruct C as (C1 & C2). destruct (C2 o eq_refl) as [].
    exists r1. split_and!; try done; [apply K|]. by intros r0 [= <-].
  - unfold register_source. bool_case; [done|]. intros [= <- <-].
    exists (new_source sample (st_next_ordinal s)). split_and!; try done; [|apply new_source_ok].
    unfold holds. rewrite notice_sources. by apply om_find_emplace_eq.
Qed.

(** The effect of an accepted sample outside its queue. *)
Definition accepted_source (sample : QueueSample) (s s' : Store) : Prop :=
  ∃ r', holds (qs_source sample) r' s' ∧
    sr_incarnation r' = qs_incarnation sample ∧ sr_generation r' = qs_generation sample ∧
    sr_authority r' = qs_authority sample ∧ sr_last_sequence r' = qs_sequence sample ∧
    (∀ r, holds (qs_source sample) r s →
       sr_generation r <= sr_generation r' ∧
       authority_ltb (sr_authority r') (sr_authority r) = false ∧
       (sr_incarnation r' = sr_incarnation r → sr_last_sequence r < sr_last_sequence r')).

Definition handled (sample : QueueSample) (s s' : Store) (r' : AdmissionResult) (st : Status) : Prop :=
  (∃ code reason, filed_as Rejected s s' ∧ refused_effect s s' r' ∧ st = failure code reason ∧
     code ≠ ErrorCode.Ok) ∨
  (filed_as Fenced s s' ∧ refused_effect s s' r' ∧ st = success) ∨
  (∃ now input q, filed_as Accepted s s' ∧ bystanders (qs_queue sample) s s' ∧ st = success ∧
     AdmissionOutcome.admitted (ar_outcome r') = true ∧ validate_sample sample = None ∧
     accepted_effect cfg sample (ar_outcome r') s s' r' now input q ∧
     accepted_source sample s s').

(** The stages before [admit_queue] change nothing these effects speak of. *)
Lemma bystanders_registry x n path s s1 s2 :
  registry_step (store_bump x n s) s1 → bystanders path s1 s2 → bystanders path s s2.
Proof.
  intros [R1 R2 R3 R4 _ _ _] [B1 B2 B3 B4]. cbn in *. split; [|congruence..].
  intros o Ho. by rewrite B1, R1.
Qed.
Lemma accepted_registry x n sample outcome s s1 s2 r now input q :
  registry_step (store_bump x n s) s1 → accepted_effect cfg sample outcome s1 s2 r now input q →
  accepted_effect cfg sample outcome s s2 r now input q.
Proof.
  intros [R1 R2 R3 R4 _ _ _] [A1 A2 A3 A4 A5 A6 A7 A8 A9]. cbn in *.
  unfold queue_records in *. rewrite R1 in A4, A8. rewrite R4 in A3. by split.
Qed.

Lemma validated sample :
  validate_sample sample = None →
  is_true (id_valid (qs_sequence sample)) ∧ is_true (id_valid (qs_generation sample)).
Proof.
  unfold validate_sample. destruct (id_valid (qs_sequence sample)), (id_valid (qs_generation sample));
    rewrite ?orb_true_r; cbn; done.
Qed.

(** Rejections and fences end the same way, whatever stage asks for them. *)
Lemma rejected_handled sample r outcome code reason s s1 s' r' st :
  core s1 → registry_step (store_bump StoreCounter.samples_presented 1 s) s1 →
  AdmissionOutcome.admitted outcome = false → code ≠ ErrorCode.Ok →
  reject clock sample r outcome code reason s1 = (s', r', st) →
  core s' ∧ handled sample s s' r' st.
Proof.
  intros Hs R Ho Hc E. pose proof (reject_effect sample r outcome code reason s1) as H.
  rewrite E in H. destruct H as (H1 & H2 & H3 & H4 & H5). split; [auto|]. left.
  exists code, reason. split_and!; [|eapply registry_refused; [exact R|exact H1|done|congruence]|done|done].
  eapply presented_filed; [exact R|]. intros x Hx. by rewrite (rg_tallies _ _ H1 x Hx).
Qed.

Lemma fenced_handled sample r outcome s s1 s' r' st :
  core s1 → registry_step (store_bump StoreCounter.samples_presented 1 s) s1 →
  AdmissionOutcome.admitted outcome = false →
  fence clock sample r outcome s1 = (s', r', st) → core s' ∧ handled sample s s' r' st.
Proof.
  intros Hs R Ho E. pose proof (fence_effect sample r outcome s1) as H.
  rewrite E in H. destruct H as (H1 & H2 & H3 & H4 & H5). split; [auto|]. right; left.
  split_and!; [|eapply registry_refused; [exact R|exact H1|done|congruence]|done].
  eapply presented_filed; [exact R|]. intros x Hx. by rewrite (rg_tallies _ _ H1 x Hx).
Qed.

Lemma touched_core sample r s :
  core s → source_ok (qs_source sample) r → core (put_source (qs_source sample) (source_touch sample r) s).
Proof. intros. apply put_source_core; [by apply source_touch_ok|done]. Qed.

Lemma accepted_handled sample r outcome record s s1 s' r' st :
  core s1 → limits_ok (cfg_history cfg) → 0 <= record_bytes →
  registry_step (store_bump StoreCounter.samples_presented 1 s) s1 →
  AdmissionOutcome.admitted outcome = true → validate_sample sample = None →
  holds (qs_source sample) record s1 → source_ok (qs_source sample) record →
  sr_incarnation record = qs_incarnation sample → sr_generation record = qs_generation sample →
  sr_authority record = qs_authority sample →
  (∀ r, holds (qs_source sample) r s → advances sample r record) →
  let source := source_touch sample record in
  let s2 := put_source (qs_source sample) source s1 in
  queue_refusal cfg record_bytes sample s2 = None →
  admit_queue cfg clock record_bytes sample source outcome r s2 = (s', r', st) →
  core s' ∧ handled sample s s' r' st.
Proof.
  intros Hs Hl Hrb R Ho Hv Hr Hok I1 I2 I3 Hadv source s2 Href E.
  assert (core s2) as Hs2 by by apply touched_core.
  assert (registry_step (store_bump StoreCounter.samples_presented 1 s) s2) as R2
    by (etransitivity; [exact R|apply put_source_registry]).
  apply admit_queue_ok in E as (E1 & E2 & E3 & (now & input & q & E4) & E5 & E6 & E7 & _);
    [|done|done|done|by apply source_touch_ok|done].
  split; [done|]. right; right. exists now, input, q. split_and!; try done.
  - eapply presented_filed; [exact R2|]. intros x Hx. cbn [tally_of].
    case_decide; [by subst|by apply E7].
  - by eapply bystanders_registry.
  - by rewrite (ae_outcome _ _ _ _ _ _ _ _ _ E4).
  - rewrite (ae_outcome _ _ _ _ _ _ _ _ _ E4). by eapply accepted_registry.
  - exists (source_count_accepted source). split_and!; try done.
    + unfold holds. rewrite E5, om_find_update, decide_True by done.
      unfold s2. by rewrite put_source_find, decide_True, Hr.
    + intros r0 Hr0. destruct (Hadv r0 Hr0) as [V1 V2 V3 V4 V5 V6 V7]. cbn.
      split_and!; [congruence|congruence|]. intros Hi. rewrite <- V7 by congruence. done.
Qed.
(** [stamped sample s]: the sample as the handler sees it. *)
Definition stamped (sample : QueueSample) (s : Store) : QueueSample :=
  (stamp clock sample (store_bump StoreCounter.samples_presented 1 s)).2.

Lemma stamped_fields sample s :
  qs_queue (stamped sample s) = qs_queue sample ∧ qs_source (stamped sample s) = qs_source sample ∧
  qs_incarnation (stamped sample s) = qs_incarnation sample ∧
  qs_sequence (stamped sample s) = qs_sequence sample ∧
  qs_generation (stamped sample s) = qs_generation sample ∧
  qs_authority (stamped sample s) = qs_authority sample ∧
  qs_values (stamped sample s) = qs_values sample ∧
  qs_reported (stamped sample s) = qs_reported sample.
Proof. unfold stamped, stamp. by bool_cases. Qed.

Lemma ingest_handled sample r s s' r' st :
  core s → limits_ok (cfg_history cfg) → 0 <= record_bytes → 0 <= qs_sequence sample →
  ingest_locked cfg clock record_bytes sample r s = (s', r', st) →
  core s' ∧ handled (stamped sample s) s s' r' st.
Proof.
  intros Hs Hl Hrb Hq. unfold ingest_locked.
  pose proof (stamp_registry sample (store_bump StoreCounter.samples_presented 1 s)) as R0.
  pose proof (stamp_core sample (store_bump StoreCounter.samples_presented 1 s)
                (bump_core _ _ _ _ _ Hs)) as C0.
  pose proof (stamp_sources sample (store_bump StoreCounter.samples_presented 1 s)) as S0.
  destruct (stamped_fields sample s) as (_ & _ & _ & F4 & _). unfold stamped in *.
  destruct (stamp clock sample _) as [s0 sample']. cbn [fst snd] in *.
  destruct (validate_sample sample') as [reason|] eqn:Hv; [by apply rejected_handled|].
  destruct (admit_source cfg clock sample' s0) as [s1 v] eqn:Ha.
  pose proof (admit_source_ok cfg clock record_bytes _ _ _ _ C0 Ha) as (R1 & C1 & V1).
  assert (registry_step (store_bump StoreCounter.samples_presented 1 s) s1) as R by by etransitivity.
  destruct v as [outcome code reason|outcome|outcome].
  - destruct V1 as [-> ->]. by apply rejected_handled.
  - destruct V1 as [V1 _]. by apply fenced_handled.
  - destruct (validated _ Hv) as [Hv1 Hv2].
    destruct (admit_source_find _ _ _ _ C0 Hv1 ltac:(lia) Ha) as (record & H1 & H2 & H3 & H4 & H5 & H6).
    unfold holds in H1. rewrite H1. cbn [default from_option]. unfold id.
    destruct (queue_refusal _ _ _ _) as [reason|] eqn:Href.
    + apply rejected_handled; try done; [by apply touched_core|].
      etransitivity; [exact R|apply put_source_registry].
    + apply (accepted_handled _ _ _ record _ s1); try done.
      intros r0 Hr0. apply H6. revert Hr0. unfold holds. by rewrite S0.
Qed.

(** ** What one sample does to the registry of sources *)

Record sources_moved (sample : QueueSample) (s s' : Store) : Prop := {
  sm_others : others_same (qs_source sample) s s';
  sm_next : st_next_ordinal s' = st_next_ordinal s ∨ st_next_ordinal s' = st_next_ordinal s +u 1;
  sm_known : ∀ r, holds (qs_source sample) r s →
    ∃ r', holds (qs_source sample) r' s' ∧
      source_moved sample (st_next_ordinal s) (st_next_ordinal s') r r';
  sm_new : om_find (qs_source sample) (st_sources s) = None → ∀ r', holds (qs_source sample) r' s' →
    sr_incarnation r' = qs_incarnation sample ∧ sr_incarnation_ordinal r' = st_next_ordinal s ∧
    sr_recent_incarnations r' = [(qs_incarnation sample, st_next_ordinal s)] ∧
    st_next_ordinal s' = st_next_ordinal s +u 1
}.

(** What comes after the checks: the source keeps its incarnations. *)
Record follows (id : SourceId) (s s' : Store) : Prop := {
  fl_others : others_same id s s';
  fl_next : st_next_ordinal s' = st_next_ordinal s;
  fl_none : om_find id (st_sources s) = None → om_find id (st_sources s') = None;
  fl_known : ∀ r, holds id r s → ∃ r', holds id r' s' ∧ source_kept r r'
}.

Lemma follows_same id s s' :
  st_sources s' = st_sources s → st_next_ordinal s' = st_next_ordinal s → follows id s s'.
Proof.
  intros Hs Hn. split; [|done|by rewrite Hs|].
  - intros other _. by rewrite Hs.
  - intros r Hr. exists r. split; [unfold holds; by rewrite Hs|done].
Qed.
Lemma follows_only_log id s s' : only_log s s' → follows id s s'.
Proof. intros []. by apply follows_same. Qed.
Lemma follows_update id f s s' :
  st_sources s' = om_update id f (st_sources s) → st_next_ordinal s' = st_next_ordinal s →
  (∀ r, holds id r s → source_kept r (f r)) → follows id s s'.
Proof.
  intros Hs Hn Hf. split; [|done| |].
  - intros other Ho. by rewrite Hs, om_find_update, decide_False.
  - intros Hnone. by rewrite Hs, om_find_update, decide_True, Hnone.
  - intros r Hr. exists (f r). split; [|by apply Hf]. unfold holds in *.
    by rewrite Hs, om_find_update, decide_True, Hr.
Qed.
Lemma follows_trans id a b c : follows id a b → follows id b c → follows id a c.
Proof.
  intros [O1 N1 M1 K1] [O2 N2 M2 K2]. split; [by transitivity b|congruence|auto|].
  intros r Hr. destruct (K1 r Hr) as (r1 & H1 & L1). destruct (K2 r1 H1) as (r2 & H2 & L2).
  exists r2. split; [done|by transitivity r1].
Qed.

Lemma moved_follows sample s s1 s2 :
  sources_moved sample s s1 → follows (qs_source sample) s1 s2 → sources_moved sample s s2.
Proof.
  intros [O1 N1 K1 M1] [O2 N2 M2 K2]. split; [by transitivity s1|by rewrite N2| |].
  - intros r Hr. destruct (K1 r Hr) as (r1 & H1 & L1). destruct (K2 r1 H1) as (r2 & H2 & L2).
    exists r2. split; [done|]. rewrite N2. by eapply moved_kept.
  - intros Hnone r2 Hr2. destruct (om_find (qs_source sample) (st_sources s1)) as [r1|] eqn:E.
    + destruct (M1 Hnone r1 E) as (I1 & I2 & I3 & I4). destruct (K2 r1 E) as (r & H & [L1 L2 L3 _]).
      unfold holds in H, Hr2. rewrite H in Hr2. injection Hr2 as <-. split_and!; congruence.
    + unfold holds in Hr2. by rewrite M2 in Hr2.
Qed.

Lemma admit_moves sample s :
  (∀ r, holds (qs_source sample) r s → source_ordered (st_next_ordinal s) r) →
  let '(s1, v) := admit_source cfg clock sample s in
  sources_moved sample s s1 ∧
  ∀ o r1, v = Admit o → om_find (qs_source sample) (st_sources s) ≠ None →
    holds (qs_source sample) r1 s1 → sr_last_sequence r1 < qs_sequence sample.
Proof.
  intros Hord. unfold admit_source. destruct (om_find (qs_source sample) (st_sources s)) as [r|] eqn:E.
  - pose proof (source_moves clock sample r s (Hord r E)) as M.
    pose proof (source_checked clock sample r s E) as C.
    destruct (check_source _ _ _ _) as [[s1 r1] v]. destruct M as [O M], C as [C1 C2]. split.
    + split; [done| | |by rewrite E].
      * destruct M as [->|]; auto.
      * intros r0 Hr0. unfold holds in Hr0. rewrite E in Hr0. injection Hr0 as <-. by exists r1.
    + intros o r2 Hv _ Hr2. unfold holds in C1, Hr2. rewrite C1 in Hr2. injection Hr2 as <-.
      by destruct (C2 o Hv).
  - unfold register_source. destruct (_ <=? _).
    + split; [|done]. split; [done|by left| |].
      * intros r Hr. unfold holds in Hr. congruence.
      * intros _ r Hr. unfold holds in Hr. congruence.
    + cbv zeta. split; [|done]. set (s2 := store_bump _ _ _).
      assert (st_sources (notice clock EventKind.SourceRegistered sample ("registered source with authority " +:+
        SourceAuthority.to_string (qs_authority sample)) s2) = st_sources s2) as Hsrc by apply notice_sources.
      pose proof (notice_ordinal clock EventKind.SourceRegistered sample ("registered source with authority " +:+
        SourceAuthority.to_string (qs_authority sample)) s2) as Hnext.
      generalize dependent (notice clock EventKind.SourceRegistered sample ("registered source with authority " +:+
        SourceAuthority.to_string (qs_authority sample)) s2). intros s3 Hsrc Hnext. cbn in Hsrc, Hnext. split.
      * intros other Ho. by rewrite Hsrc, om_find_emplace_ne.
      * by right.
      * intros r Hr. unfold holds in Hr. congruence.
      * intros _ r Hr. unfold holds in Hr. rewrite Hsrc, om_find_emplace_eq in Hr by done. by injection Hr as <-.
Qed.

Lemma reject_follows sample r outcome code reason s id :
  follows id s (reject clock sample r outcome code reason s).1.1.
Proof.
  unfold reject. cbn [fst]. eapply follows_trans; [|apply follows_only_log, record_event_only_log].
  by apply follows_same.
Qed.
Lemma fence_follows sample r outcome s :
  follows (qs_source sample) s (fence clock sample r outcome s).1.1.
Proof.
  unfold fence. cbn [fst]. eapply follows_trans; [|apply follows_only_log, record_event_only_log].
  eapply follows_update; [done|done|]. intros r0 _. by split.
Qed.

Lemma ingest_moves sample r s s' r' st :
  core s → limits_ok (cfg_history cfg) → 0 <= record_bytes → 0 <= qs_sequence sample →
  (∀ r, holds (qs_source sample) r s → source_ordered (st_next_ordinal s) r) →
  ingest_locked cfg clock record_bytes sample r s = (s', r', st) → sources_moved sample s s'.
Proof.
  intros Hs Hl Hrb Hq Hord. unfold ingest_locked.
  destruct (stamped_fields sample s) as (_ & F2 & F3 & F4 & _). unfold stamped in *.
  pose proof (stamp_sources sample (store_bump StoreCounter.samples_presented 1 s)) as S0.
  assert (st_next_ordinal (stamp clock sample (store_bump StoreCounter.samples_presented 1 s)).1 =
    st_next_ordinal s) as N0 by (unfold stamp; by destruct (_ && _)).
  pose proof (stamp_core sample (store_bump StoreCounter.samples_presented 1 s)
                (bump_core _ _ _ _ _ Hs)) as C0.
  destruct (stamp clock sample _) as [s0 sample']. cbn [fst snd] in *. change (st_sources (store_bump _ _ s)) with (st_sources s) in S0.
  assert (∀ s2, sources_moved sample' s0 s2 → sources_moved sample s s2) as Hback.
  { intros s2 [O N K M]. unfold others_same, holds in *. rewrite F2, S0, N0, F3 in *. split; unfold others_same, holds; try done.
    intros r0 Hr0. destruct (K r0 Hr0) as (r1 & H1 & Hm). exists r1. split; [done|].
    destruct Hm; [by apply source_stayed|apply source_renewed; congruence]. }
  assert (∀ s2, follows (qs_source sample') s0 s2 → sources_moved sample s s2) as Hfollows.
  { intros s2 Hf. apply Hback. eapply moved_follows; [|exact Hf]. split; [done|by left| |].
    - intros r0 Hr0. exists r0. split; [done|by apply source_stayed].
    - intros Hnone r0 Hr0. unfold holds in Hr0. congruence. }
  destruct (validate_sample sample') as [reason|] eqn:Hv.
  { intros E. apply Hfollows. pose proof (reject_follows sample' (admission_for (qs_queue sample) r)
      AdmissionOutcome.RejectedInvalid ErrorCode.InvalidArgument reason s0 (qs_source sample')) as H.
    by rewrite E in H. }
  pose proof (admit_moves sample' s0) as M. destruct (admit_source cfg clock sample' s0) as [s1 v] eqn:Ha.
  destruct M as [M Hlast]; [by unfold holds in *; rewrite F2, S0, N0|].
  destruct v as [outcome code reason|outcome|outcome]; intros E; apply Hback.
  - pose proof (reject_follows sample' (admission_for (qs_queue sample) r) outcome code reason s1 (qs_source sample')) as H.
    rewrite E in H. by eapply moved_follows.
  - pose proof (fence_follows sample' (admission_for (qs_queue sample) r) outcome s1) as H.
    rewrite E in H. by eapply moved_follows.
  - destruct (validated _ Hv) as [Hv1 Hv2].
    destruct (admit_source_find _ _ _ _ C0 Hv1 ltac:(lia) Ha) as (record & H1 & H2 & _).
    pose proof (admit_source_ok cfg clock record_bytes _ _ _ _ C0 Ha) as (_ & C1 & _).
    unfold holds in H1. rewrite H1 in E. cbn [default from_option] in E. unfold id in E.
    assert (sources_moved sample' s0 (put_source (qs_source sample') (source_touch sample' record) s1)) as M2.
    { destruct (om_find (qs_source sample') (st_sources s0)) as [r0|] eqn:E0.
      - eapply moved_follows; [exact M|]. eapply follows_update; [done|done|]. intros r1 Hr1.
        unfold holds in Hr1. rewrite H1 in Hr1. injection Hr1 as <-. split; [done..|]. cbn.
        pose proof (Hlast outcome record eq_refl ltac:(done) H1). lia.
      - destruct M as [O N K Mn]. destruct (Mn E0 record H1) as (I1 & I2 & I3 & I4). split; [| | |].
        + etransitivity; [exact O|apply others_put_source].
        + by right.
        + intros r0 Hr0. unfold holds in Hr0. congruence.
        + intros _ r1 Hr1. unfold holds in Hr1. rewrite put_source_find, decide_True, H1 in Hr1 by done.
          injection Hr1 as <-. by split_and!. }
    destruct (queue_refusal _ _ _ _) as [reason|] eqn:Href.
    + pose proof (reject_follows sample' (admission_for (qs_queue sample) r) AdmissionOutcome.RejectedLimit
        ErrorCode.LimitExceeded reason (put_source (qs_source sample') (source_touch sample' record) s1)
        (qs_source sample')) as H.
      rewrite E in H. by eapply moved_follows.
    + apply admit_queue_ok in E as (_ & _ & _ & _ & E5 & _ & _ & E8);
        [|by apply touched_core, H2; apply C1|done|done|by apply source_touch_ok|done].
      eapply moved_follows; [exact M2|]. eapply follows_update; [exact E5|exact E8|]. intros r1 Hr1.
      unfold holds in Hr1. rewrite put_source_find, decide_True, H1 in Hr1 by done. injection Hr1 as <-. by split.
Qed.
End ingest.
