(* ===== verification/StoreExample.v ===== *)
(** * The store: an example run

    A small configuration and a run on it, the concrete inputs at which the
    store's theorems are instantiated. *)

From S2P Require Import Prelude Result Checked Text Identity Time Evidence Sample Counter.
From S2P Require Import Metadata Event Limits Policy Rules Explanation Classification.
From S2P Require Import Ring History Window OrderedMap Admission Store StoreOps.
Open Scope Z_scope.

(** Four queues of three records, eight sources, six events. *)
Definition small_limits : HistoryLimits := mkHistoryLimits 4 3 10000 6 8 8 4 4 4 4 4.

Definition example_clock (n : nat) : ReceiveTime :=
  mkReceive (1000000000 + 1000 * Z.of_nat n) (1700000000000000000 + 1000 * Z.of_nat n).
Definition example_started : ReceiveTime := example_clock 0.
Definition example_config : StoreConfig :=
  make_config default_pressure_policy small_limits default_query_limits example_started.
Definition example_record_bytes : Z := 400.

Definition leaf_queue : QueuePath := mkQueuePath "leaf" "eth0" 3.

Definition cells_sample (source incarnation : string) (sequence cells : Z) : QueueSample :=
  set_value SampleField.DropPackets 5
    (set_value SampleField.DynamicThresholdCells 1000
      (set_value SampleField.OccupancyCells cells
        (mkSample leaf_queue no_classes source incarnation sequence SourceAuthority.Primary 1 1
           (mkObservation (sequence * 100) "dom") no_receive 0 0 (replicate kSampleFieldCount 0)))).

Definition example_step (operation : Operation) (s : Store) : Store :=
  perform example_config example_clock example_record_bytes operation s.
Definition example_run (operations : list Operation) : Store :=
  fold_left (λ s operation, example_step operation s) operations (init_store example_config).

(** Two samples of one source, then its new incarnation. *)
Definition example_operations : list Operation :=
  [Ingest (cells_sample "a" "i1" 1 100); Ingest (cells_sample "a" "i1" 2 800)].
Definition example_store : Store := example_run example_operations.

Abbreviation example_reachable := (reachable example_config example_clock example_record_bytes).

Lemma example_run_reachable operations :
  Forall typed_operation operations → example_reachable (example_run operations).
Proof.
  unfold example_run. assert (example_reachable (init_store example_config)) as Hinit by constructor.
  revert Hinit. generalize (init_store example_config) as s. intros s Hs H. revert s Hs.
  induction H as [|operation operations Ho H IH]; intros s Hs; cbn [fold_left]; [done|].
  apply IH. by constructor.
Qed.

Lemma example_store_reachable : example_reachable example_store.
Proof.
  apply example_run_reachable. repeat apply Forall_cons_2; [| |constructor]; vm_compute; discriminate.
Qed.

Lemma result_parts {A B C} (x : A * B * C) : x = (x.1.1, x.1.2, x.2).
Proof. by destruct x as [[]]. Qed.

(** ** Refused samples and the source registry

    A sample of the queue [index], of the generation [generation]. *)
Definition queue_sample (incarnation : string) (sequence generation index : Z) : QueueSample :=
  set_value SampleField.OccupancyCells 10
    (mkSample (mkQueuePath "leaf" "eth0" index) no_classes "a" incarnation sequence
       SourceAuthority.Primary generation 1 (mkObservation (sequence * 100) "dom") no_receive 0 0
       (replicate kSampleFieldCount 0)).

Definition example_outcome (sample : QueueSample) (s : Store) : AdmissionOutcome :=
  ar_outcome (ingest example_config example_clock example_record_bytes sample no_admission s).1.2.

(** A sample that the queue limit rejects has used its sequence number: sending it
    again, for a queue that is tracked, is a duplicate. *)
Lemma rejected_sample_consumes_its_sequence :
  let full := example_run (map (λ index, Ingest (queue_sample "i1" index 1 index)) [1; 2; 3; 4]) in
  let after := example_step (Ingest (queue_sample "i1" 5 1 5)) full in
  example_outcome (queue_sample "i1" 5 1 5) full = AdmissionOutcome.RejectedLimit ∧
  example_outcome (queue_sample "i1" 5 1 4) full = AdmissionOutcome.Accepted ∧
  example_outcome (queue_sample "i1" 5 1 4) after = AdmissionOutcome.FencedStaleSequence.
Proof. vm_compute. done. Qed.

(** A sample of a new incarnation that is fenced for its generation has replaced
    the source's incarnation: the next sample of the old one is fenced. *)
Lemma fenced_sample_moves_the_source :
  let running := example_run [Ingest (queue_sample "i1" 1 2 1)] in
  let after := example_step (Ingest (queue_sample "i2" 2 1 1)) running in
  example_outcome (queue_sample "i2" 2 1 1) running = AdmissionOutcome.FencedStaleGeneration ∧
  example_outcome (queue_sample "i1" 3 2 1) running = AdmissionOutcome.Accepted ∧
  example_outcome (queue_sample "i1" 3 2 1) after = AdmissionOutcome.FencedStaleIncarnation.
Proof. vm_compute. done. Qed.
