(* ===== verification/StoreTheorems.v ===== *)
(** * The store: theorems

    What a client of the store relies on, for every run of its operations on a
    configuration the constructor built. *)

From stdpp Require Import sets.
From S2P Require Import Prelude Result Checked Text Identity Time Evidence Sample Counter.
From S2P Require Import Metadata Event Limits Policy Rules Explanation Classification.
From S2P Require Import Ring History Window OrderedMap Admission Store StoreOps StoreInvariant.
From S2P Require Import StoreStages StoreIngest StoreExample.
Open Scope Z_scope.
Open Scope word_scope.

(** The limits at the width of their C++ types. *)
Record typed_limits (l : HistoryLimits) : Prop := {
  tl_queues : 0 <= max_queues l;
  tl_samples : 0 <= max_samples_per_queue l;
  tl_events_queue : 0 <= max_events_per_queue l;
  tl_events : 0 <= max_events_total l;
  tl_sources : 0 <= max_sources l;
  tl_conflicts : 0 <= max_conflicts l;
  tl_bursts : 0 <= max_burst_records l;
  tl_contention : 0 <= max_contention_records l;
  tl_windows : 0 <= max_windows_per_queue l;
  tl_metadata : 0 <= max_metadata_revisions l;
  tl_bytes : 0 <= max_history_bytes l <= u64_max
}.

Section theorems.
Context (policy : PressurePolicy) (history : HistoryLimits) (query : QueryLimits)
  (started : ReceiveTime) (clock : nat → ReceiveTime) (record_bytes : Z).
Let cfg := make_config policy history query started.
Abbreviation run := (perform cfg clock record_bytes).
Abbreviation run_state := (reachable cfg clock record_bytes).
Context (Htyped : typed_limits history) (Hbytes : 0 <= record_bytes).

Lemma valid_limits : ok (cfg_status cfg) = true → limits_ok (cfg_history cfg).
Proof.
  unfold cfg, make_config. cbn [cfg_status cfg_history]. rewrite ok_try. intros [H _]%andb_prop.
  destruct Htyped. apply validate_history_ok in H; [split; lia|lia..].
Qed.

Lemma init_core : core_inv cfg record_bytes (init_store cfg).
Proof.
  destruct Htyped. split; try apply ring_make_wf; try apply length_replicate;
    change (cfg_history cfg) with history; try apply (Sorted.SSorted_nil _);
    try apply (List.Forall_nil _); cbn; lia.
Qed.

Definition inv (s : Store) : Prop := store_inv cfg record_bytes s.

Lemma init_inv : inv (init_store cfg).
Proof. split; [apply init_core|done]. Qed.

Lemma handled_accounted sample s s' r st :
  handled cfg sample s s' r st → accounted s → accounted s'.
Proof.
  intros [(? & ? & H & _)|[(H & _)|(? & ? & ? & H & _)]]; by eapply filed_accounted.
Qed.

Lemma ingest_locked_inv sample r s s' r' st :
  ok (cfg_status cfg) = true → typed_sample sample → inv s →
  ingest_locked cfg clock record_bytes sample r s = (s', r', st) → inv s'.
Proof.
  intros Hok Ht [] E.
  apply ingest_handled in E as [H1 H2]; try done; [|by apply valid_limits].
  split; [done|]. by eapply handled_accounted.
Qed.

Lemma batch_inv stop total index samples b s s' b' st :
  ok (cfg_status cfg) = true → Forall typed_sample samples → inv s →
  batch_loop cfg clock record_bytes stop total index samples b s = (s', b', st) → inv s'.
Proof.
  intros Hok Ht. revert index b s. induction Ht as [|x xs Hx Ht IH]; cbn; intros index b s Hs E.
  { by injection E as <- _ _. }
  destruct (stop index); [apply (f_equal (λ x, x.1.1)) in E; cbn in E; by subst|].
  destruct (ingest_locked _ _ _ _ _ _) as [[s1 r1] st1] eqn:E1.
  eapply IH; [|exact E]. by eapply ingest_locked_inv.
Qed.

Lemma recovered_inv index samples b s s' b' :
  ok (cfg_status cfg) = true → Forall typed_sample samples → inv s →
  recovered_loop cfg clock record_bytes index samples b s = (s', b') → inv s'.
Proof.
  intros Hok Ht. revert index b s. induction Ht as [|x xs Hx Ht IH]; cbn; intros index b s Hs E.
  { by injection E as <- _. }
  destruct (ingest_locked _ _ _ _ _ _) as [[s1 r1] st1] eqn:E1.
  eapply IH; [|exact E]. by eapply ingest_locked_inv.
Qed.

Lemma only_log_inv s s' : only_log s s' → inv s → inv s'.
Proof.
  intros H []. split; [by eapply only_log_core|].
  unfold accounted, filed in *. by rewrite !(ol_counters _ _ H) by (apply tally_not_log; unfold tally_counter; auto).
Qed.

Lemma import_only_log events imported s :
  only_log s (import_loop cfg clock events imported s).1.
Proof.
  revert imported s. induction events as [|e events IH]; intros imported s; cbn; [done|].
  bool_cases; [done|apply record_event_global_only_log|].
  etransitivity; [|apply IH]. etransitivity; [|apply amend_newest_only_log].
  apply record_event_global_only_log.
Qed.

Lemma perform_inv operation s : typed_operation operation → inv s → inv (run operation s).
Proof.
  intros Ht Hs. destruct operation as [sample|stop samples|samples|events|table];
    cbn [perform typed_operation] in *.
  - unfold ingest. destruct (ok (cfg_status cfg)) eqn:Hok; [|done]. cbn [negb].
    destruct (ingest_locked _ _ _ _ _ _) as [[s1 r1] st1] eqn:E. by eapply ingest_locked_inv.
  - unfold ingest_batch. destruct (ok (cfg_status cfg)) eqn:Hok; [|done]. cbn [negb].
    destruct (batch_loop _ _ _ _ _ _ _ _ _) as [[s1 b1] st1] eqn:E. by eapply batch_inv.
  - unfold admit_recovered. destruct (ok (cfg_status cfg)) eqn:Hok; [|done]. cbn [negb].
    destruct (recovered_loop _ _ _ _ _ _ _) as [s1 b1] eqn:E.
    apply recovered_inv in E as [C A]; [|done|done|by destruct Hs as [[] ?]]. by destruct C.
  - unfold import_events. destruct (ok (cfg_status cfg)); [|done]. cbn [negb].
    pose proof (import_only_log events 0 s) as H. destruct (import_loop _ _ _ _ _) as [s1 n].
    by eapply only_log_inv.
  - unfold apply_metadata. destruct (ok (cfg_status cfg)); [|done]. cbn [negb].
    destruct (ok (validate_metadata _ _)); [|done]. cbn [negb].
    bool_case; eapply only_log_inv; try apply record_event_global_only_log;
      destruct Hs as [[] ?]; by split.
Qed.

Lemma reachable_inv s : run_state s → inv s.
Proof. induction 1; [apply init_inv|by apply perform_inv]. Qed.
(** What every handled sample keeps of the queues, every run keeps. *)
Section queues_kept.
Context (P : OrderedMap QueuePath QueueState → Prop).
Context (Hkeep : ∀ sample s s' r st, inv s →
  handled cfg sample s s' r st → P (st_queues s) → P (st_queues s')).

Lemma ingest_locked_keeps sample r s s' r' st :
  ok (cfg_status cfg) = true → typed_sample sample → inv s → P (st_queues s) →
  ingest_locked cfg clock record_bytes sample r s = (s', r', st) → P (st_queues s').
Proof.
  intros Hok Ht Hs Hp E.
  apply ingest_handled in E as [_ E]; try done; [by eapply Hkeep|apply Hs|by apply valid_limits].
Qed.

Lemma batch_keeps stop total index samples b s s' b' st :
  ok (cfg_status cfg) = true → Forall typed_sample samples → inv s → P (st_queues s) →
  batch_loop cfg clock record_bytes stop total index samples b s = (s', b', st) →
  P (st_queues s').
Proof.
  intros Hok Ht. revert index b s. induction Ht as [|x xs Hx Ht IH]; cbn; intros index b s Hs Hp E.
  { by injection E as <- _ _. }
  destruct (stop index); [apply (f_equal (λ x, x.1.1)) in E; cbn in E; by subst|].
  destruct (ingest_locked _ _ _ _ _ _) as [[s1 r1] st1] eqn:E1.
  eapply IH; [| |exact E]; [by eapply ingest_locked_inv|by eapply ingest_locked_keeps].
Qed.

Lemma recovered_keeps index samples b s s' b' :
  ok (cfg_status cfg) = true → Forall typed_sample samples → inv s → P (st_queues s) →
  recovered_loop cfg clock record_bytes index samples b s = (s', b') → P (st_queues s').
Proof.
  intros Hok Ht. revert index b s. induction Ht as [|x xs Hx Ht IH]; cbn; intros index b s Hs Hp E.
  { by injection E as <- _. }
  destruct (ingest_locked _ _ _ _ _ _) as [[s1 r1] st1] eqn:E1.
  eapply IH; [| |exact E]; [by eapply ingest_locked_inv|by eapply ingest_locked_keeps].
Qed.

Lemma perform_keeps operation s :
  typed_operation operation → inv s → P (st_queues s) → P (st_queues (run operation s)).
Proof.
  intros Ht Hs Hp. destruct operation as [sample|stop samples|samples|events|table];
    cbn [perform typed_operation] in *.
  - unfold ingest. destruct (ok (cfg_status cfg)) eqn:Hok; [|done]. cbn [negb].
    destruct (ingest_locked _ _ _ _ _ _) as [[s1 r1] st1] eqn:E. by eapply ingest_locked_keeps.
  - unfold ingest_batch. destruct (ok (cfg_status cfg)) eqn:Hok; [|done]. cbn [negb].
    destruct (batch_loop _ _ _ _ _ _ _ _ _) as [[s1 b1] st1] eqn:E. by eapply batch_keeps.
  - unfold admit_recovered. destruct (ok (cfg_status cfg)) eqn:Hok; [|done]. cbn [negb].
    destruct (recovered_loop _ _ _ _ _ _ _) as [s1 b1] eqn:E.
    apply recovered_keeps in E; [done|done|done| |done]. by destruct Hs as [[] ?].
  - unfold import_events. destruct (ok (cfg_status cfg)); [|done]. cbn [negb].
    pose proof (import_only_log events 0 s) as H. destruct (import_loop _ _ _ _ _) as [s1 n].
    cbn [fst] in *. by rewrite (ol_queues _ _ H).
  - unfold apply_metadata. destruct (ok (cfg_status cfg)); [|done]. cbn [negb].
    destruct (ok (validate_metadata _ _)); [|done]. cbn [negb].
    bool_case; cbn [fst]; by rewrite (ol_queues _ _ (record_event_global_only_log _ _ _ _ _)).
Qed.

Lemma reachable_keeps s : P [] → run_state s → P (st_queues s).
Proof.
  intros Hinit. induction 1 as [|s operation Hs IH Ht]; [done|].
  apply perform_keeps; [done|by apply reachable_inv|done].
Qed.
End queues_kept.

(** C1: a store never grows past its configuration.  In every state a store
    reaches the queue and source registries, the conflict list and the event
    log are within their limits, every queue keeps at most the configured
    number of records and peers under its own path, every source its four
    newest incarnations, and the byte budget is exactly what the tracked queues
    reserve and within the configured total. *)
Theorem store_bounded (s : Store) :
  run_state s →
  Z.of_nat (length (st_queues s)) <= max_queues history ∧
  st_history_bytes s = Z.of_nat (length (st_queues s)) * per_queue cfg record_bytes ∧
  st_history_bytes s <= max_history_bytes history ∧
  Z.of_nat (length (st_sources s)) <= max_sources history ∧
  Z.of_nat (length (st_conflicts s)) <= max_conflicts history ∧
  Z.of_nat (size (st_events s)) <= max_events_total history ∧
  (∀ path q, om_find path (st_queues s) = Some q →
     q_queue q = path ∧ Z.of_nat (history_size (q_history q)) <= max_samples_per_queue history ∧
     Z.of_nat (length (q_peers q)) <= max_sources history) ∧
  (∀ id r, om_find id (st_sources s) = Some r →
     sr_id r = id ∧ (length (sr_recent_incarnations r) <= kMaxRecentIncarnations)%nat).
Proof.
  intros [[C1 C2 C3 C4 C5 C6 C7 C8 C9 C10 C11] _]%reachable_inv. split_and!; try done.
  - apply rw_size in C10. rewrite C11 in C10. destruct Htyped. cbn in C10. lia.
  - intros path q Hf. destruct (om_forall_find _ _ _ _ C3 Hf) as [Q1 Q2 Q3 Q4 Q5].
    split_and!; [done| |done]. apply rw_size in Q2. unfold history_capacity, history_size in *.
    rewrite Q3 in Q2. destruct Htyped. cbn in Q2. lia.
  - intros id r Hf. destruct (om_forall_find _ _ _ _ C8 Hf) as [R1 R2 R3]. done.
Qed.

(** C2: no sample is lost or counted twice.  In every reachable state the
    number of presented samples is the number of accepted, rejected and fenced
    ones together (modulo 2^64, the width of the counters). *)
Theorem every_sample_accounted (s : Store) :
  reachable cfg clock record_bytes s →
  st_counters s StoreCounter.samples_presented =
    st_counters s StoreCounter.samples_accepted +u st_counters s StoreCounter.samples_rejected
    +u st_counters s StoreCounter.samples_fenced.
Proof. intros H. apply (reachable_inv s H). Qed.

Lemma ingest_cases sample s s' r' st :
  inv s → typed_sample sample →
  ingest cfg clock record_bytes sample no_admission s = (s', r', st) →
  (s' = s ∧ r' = no_admission) ∨ handled cfg (stamped clock sample s) s s' r' st.
Proof.
  intros [Hs _] Ht. unfold ingest. destruct (ok (cfg_status cfg)) eqn:Hok; cbn [negb].
  - intros E. right. apply ingest_handled in E as [_ E]; try done. by apply valid_limits.
  - intros E. left. split; [by apply (f_equal (λ x, x.1.1)) in E|by apply (f_equal (λ x, x.1.2)) in E].
Qed.

(** The two halves of [ingest_cases] by the [accepted] flag. *)
Lemma ingest_refused sample s s' r st :
  inv s → typed_sample sample →
  ingest cfg clock record_bytes sample no_admission s = (s', r, st) → ar_accepted r = false →
  s' = s ∨ refused_effect s s' r.
Proof.
  intros Hs Ht E Hr. destruct (ingest_cases _ _ _ _ _ Hs Ht E) as [[-> ->]|[H|[H|H]]]; [by left| | |].
  - destruct H as (? & ? & _ & H & _). by right.
  - destruct H as (_ & H & _). by right.
  - destruct H as (? & ? & ? & _ & _ & _ & _ & _ & [] & _). congruence.
Qed.
Lemma ingest_accepted sample s s' r st :
  inv s → typed_sample sample →
  ingest cfg clock record_bytes sample no_admission s = (s', r, st) → ar_accepted r = true →
  ∃ now input q, bystanders (qs_queue sample) s s' ∧ st = success ∧
    AdmissionOutcome.admitted (ar_outcome r) = true ∧
    accepted_effect cfg (stamped clock sample s) (ar_outcome r) s s' r now input q ∧
    accepted_source sample s s'.
Proof.
  intros Hs Ht E Hr.
  destruct (stamped_fields clock sample s) as (F1 & F2 & F3 & F4 & F5 & F6 & _).
  destruct (ingest_cases _ _ _ _ _ Hs Ht E) as [[-> ->]|[H|[H|H]]]; [done| | |].
  - destruct H as (? & ? & _ & [] & _). congruence.
  - destruct H as (_ & [] & _). congruence.
  - destruct H as (now & input & q & _ & B & -> & Ho & _ & A & S).
    exists now, input, q. unfold accepted_source in *. rewrite F2, F3, F4, F5, F6 in S.
    rewrite F1 in B. by split_and!.
Qed.

(** C4: a sample that is not accepted leaves no trace among the observations.
    Whatever the reason of a rejection or fence, every queue, conflict record,
    metadata table and the byte budget are exactly as before. *)
Theorem refused_changes_no_observation (sample : QueueSample) (s s' : Store)
    (r : AdmissionResult) (st : Status) :
  run_state s → typed_sample sample →
  ingest cfg clock record_bytes sample no_admission s = (s', r, st) → ar_accepted r = false →
  st_queues s' = st_queues s ∧ st_conflicts s' = st_conflicts s ∧
  st_metadata s' = st_metadata s ∧ st_has_metadata s' = st_has_metadata s ∧
  st_history_bytes s' = st_history_bytes s.
Proof.
  intros Hs%reachable_inv Ht E Hr. by destruct (ingest_refused _ _ _ _ _ Hs Ht E Hr) as [->|[]].
Qed.

(** C3: an accepted sample adds exactly one record.  Its queue's history is
    what it was with a record of the sample at the end, cut to the newest
    records the limit allows; the record has the state of the queue's new
    classification, which the result reports; no other queue changes; and the
    metadata stays. *)
Theorem accepted_appends_record (sample : QueueSample) (s s' : Store)
    (r : AdmissionResult) (st : Status) :
  run_state s → typed_sample sample →
  ingest cfg clock record_bytes sample no_admission s = (s', r, st) → ar_accepted r = true →
  st = success ∧ AdmissionOutcome.admitted (ar_outcome r) = true ∧
  (∃ q record,
     om_find (qs_queue sample) (st_queues s') = Some q ∧
     history_snapshot (q_history q) =
       keep_last (Z.to_nat (max_samples_per_queue history))
         (queue_records (qs_queue sample) s ++ [record]) ∧
     hr_sequence record = qs_sequence sample ∧ hr_source record = qs_source sample ∧
     hr_values record = qs_values sample ∧ hr_reported record = qs_reported sample ∧
     hr_state record = cr_state (q_latest q) ∧ ar_classification r = q_latest q) ∧
  (∀ other, other ≠ qs_queue sample →
     om_find other (st_queues s') = om_find other (st_queues s)) ∧
  st_metadata s' = st_metadata s.
Proof.
  intros Hs%reachable_inv Ht E Hr.
  destruct (stamped_fields clock sample s) as (F1 & F2 & F3 & F4 & F5 & F6 & F7 & F8).
  destruct (ingest_accepted _ _ _ _ _ Hs Ht E Hr)
    as (now & input & q & [B1 B2 _ _] & -> & Ho & [A1 _ _ A4 _ _ A7 _ _] & _).
  destruct A4 as (record & R1 & R2 & R3 & R4 & R5 & R6).
  rewrite F1, F2, F4, F7, F8 in *. split_and!; try done. exists q, record. by split_and!.
Qed.

(** C5: a source's identity only moves forward.  After an accepted sample the
    registry's record of its source has the sample's incarnation, generation,
    authority and sequence; where the source was known its generation and
    authority did not fall, and within one incarnation its sequence strictly
    increased. *)
Theorem accepted_advances_source (sample : QueueSample) (s s' : Store)
    (r : AdmissionResult) (st : Status) :
  run_state s → typed_sample sample →
  ingest cfg clock record_bytes sample no_admission s = (s', r, st) → ar_accepted r = true →
  accepted_source sample s s'.
Proof.
  intros Hs%reachable_inv Ht E Hr. by destruct (ingest_accepted _ _ _ _ _ Hs Ht E Hr) as (? & ? & ? & _ & _ & _ & _ & ?).
Qed.

Lemma refused_not_accepted sample r s s' r' st :
  holds (qs_source sample) r s → refuses sample r →
  ingest_locked cfg clock record_bytes sample no_admission s = (s', r', st) →
  ar_accepted r' = false.
Proof.
  intros H Hrefuses. unfold ingest_locked.
  destruct (stamped_fields clock sample s) as (_ & F2 & F3 & F4 & _). unfold stamped in *.
  pose proof (stamp_sources clock sample (store_bump StoreCounter.samples_presented 1 s)) as S0.
  destruct (stamp clock sample _) as [s0 sample']. cbn [fst snd] in *.
  destruct (validate_sample sample') as [reason|].
  { intros E. pose proof (reject_effect cfg clock record_bytes sample' (admission_for (qs_queue sample) no_admission)
      AdmissionOutcome.RejectedInvalid ErrorCode.InvalidArgument reason s0) as R.
    rewrite E in R. apply R. }
  destruct (refused_is_fenced cfg clock sample' r s0) as (s1 & outcome & ->).
  - unfold holds in *. rewrite F2, S0. exact H.
  - unfold refuses in *. by rewrite F3, F4.
  - intros E. pose proof (fence_effect cfg clock record_bytes sample'
      (admission_for (qs_queue sample) no_admission) outcome s1) as R.
    rewrite E in R. apply R.
Qed.

(** *** Runs of operations, sample by sample *)

Definition presented_by (operation : Operation) : list QueueSample :=
  match operation with
  | Ingest sample => [sample]
  | IngestBatch _ samples | AdmitRecovered samples => samples
  | ImportEvents _ | ApplyMetadata _ => []
  end.
Definition run_all (operations : list Operation) (s : Store) : Store :=
  fold_left (λ s operation, run operation s) operations s.

(** What each of so many samples keeps, a run of them keeps: [Q k] holds where [k] more
    samples of the [allowed] ones do not break it. *)
Record counted_law (Q : nat → Store → Prop) (allowed : QueueSample → Prop) : Prop := {
  cl_less : ∀ k s, Q (S k) s → Q k s;
  cl_same : ∀ k s s', st_sources s' = st_sources s → st_next_ordinal s' = st_next_ordinal s →
    Q k s → Q k s';
  cl_step : ∀ k sample s s', allowed sample → sources_moved sample s s' → Q (S k) s → Q k s';
  cl_ordered : ∀ k s id r, Q k s → holds id r s → source_ordered (st_next_ordinal s) r
}.

Section counted.
Context (Q : nat → Store → Prop) (allowed : QueueSample → Prop) (L : counted_law Q allowed).
Let Hless := cl_less _ _ L.
Let Hsame := cl_same _ _ L.
Let Hstep := cl_step _ _ L.

Lemma counted_less k n s : Q (k + n) s → Q k s.
Proof using L.
  induction n as [|n IH]; [by rewrite Nat.add_0_r|]. rewrite Nat.add_succ_r. intros H. by apply IH, Hless.
Qed.
Lemma counted_locked k sample s s' r st :
  ok (cfg_status cfg) = true → allowed sample → typed_sample sample → inv s → Q (S k) s →
  ingest_locked cfg clock record_bytes sample no_admission s = (s', r, st) → Q k s'.
Proof using Hbytes Htyped L.
  intros Hok Ha Ht [Hs _] HQ E. eapply Hstep; [exact Ha| |exact HQ].
  eapply ingest_moves; [exact Hs|by apply valid_limits|done|exact Ht| |exact E]. intros. by eapply (cl_ordered _ _ L (S k)).
Qed.

Lemma counted_batch stop total index samples k b s :
  ok (cfg_status cfg) = true → Forall allowed samples → Forall typed_sample samples → inv s →
  Q (k + length samples) s →
  Q k (batch_loop cfg clock record_bytes stop total index samples b s).1.1.
Proof using Hbytes Htyped L.
  intros Hok Ha Ht. revert index b s. induction Ht as [|x xs Hx Ht IH]; intros index b s Hs HQ; cbn [batch_loop].
  { by rewrite Nat.add_0_r in HQ. }
  apply Forall_cons in Ha as [Hax Ha]. destruct (stop index); [by apply counted_less in HQ|].
  destruct (ingest_locked _ _ _ _ _ _) as [[s1 r1] st1] eqn:E. apply IH; [done|by eapply ingest_locked_inv|].
  cbn [length] in HQ. rewrite Nat.add_succ_r in HQ. by eapply counted_locked.
Qed.
Lemma counted_recovered index samples k b s :
  ok (cfg_status cfg) = true → Forall allowed samples → Forall typed_sample samples → inv s →
  Q (k + length samples) s → Q k (recovered_loop cfg clock record_bytes index samples b s).1.
Proof using Hbytes Htyped L.
  intros Hok Ha Ht. revert index b s. induction Ht as [|x xs Hx Ht IH]; intros index b s Hs HQ; cbn [recovered_loop].
  { by rewrite Nat.add_0_r in HQ. }
  apply Forall_cons in Ha as [Hax Ha].
  destruct (ingest_locked _ _ _ _ _ _) as [[s1 r1] st1] eqn:E. apply IH; [done|by eapply ingest_locked_inv|].
  cbn [length] in HQ. rewrite Nat.add_succ_r in HQ. by eapply counted_locked.
Qed.
Lemma counted_only_log k s s' : only_log s s' → Q k s → Q k s'.
Proof using L. intros []. by apply Hsame. Qed.

Lemma counted_operation operation k s :
  typed_operation operation → Forall allowed (presented_by operation) → inv s →
  Q (k + length (presented_by operation)) s → Q k (run operation s).
Proof using Hbytes Htyped L.
  intros Ht Ha Hs HQ. destruct operation as [sample|stop samples|samples|events|table];
    cbn [perform typed_operation presented_by length] in *.
  - unfold ingest. rewrite Nat.add_1_r in HQ. apply Forall_cons in Ha as [Ha _].
    destruct (ok (cfg_status cfg)) eqn:Hok; cbn [negb]; [|by apply Hless].
    destruct (ingest_locked _ _ _ _ _ _) as [[s1 r1] st1] eqn:E. by eapply counted_locked.
  - unfold ingest_batch. destruct (ok (cfg_status cfg)) eqn:Hok; cbn [negb]; [|by apply counted_less in HQ].
    by apply counted_batch.
  - unfold admit_recovered. destruct (ok (cfg_status cfg)) eqn:Hok; cbn [negb]; [|by apply counted_less in HQ].
    pose proof (counted_recovered 0 samples k no_batch (set_recovered_mode true s) Hok Ha Ht) as H.
    destruct (recovered_loop _ _ _ _ _ _ _) as [s1 b1]. cbn [fst] in *. apply (Hsame k s1); [done..|].
    apply H; [by destruct Hs as [[] ?]|]. by apply (Hsame _ s).
  - rewrite Nat.add_0_r in HQ. unfold import_events. destruct (negb _); [done|].
    pose proof (import_only_log events 0 s) as H. destruct (import_loop _ _ _ _ _) as [s1 n].
    by eapply counted_only_log.
  - rewrite Nat.add_0_r in HQ. unfold apply_metadata. destruct (negb _); [done|]. destruct (negb _); [done|].
    destruct (_ && _); cbn [fst];
      (eapply counted_only_log; [apply record_event_global_only_log|]; by apply (Hsame _ s)).
Qed.

Lemma counted_run operations k s :
  Forall typed_operation operations → Forall allowed (operations ≫= presented_by) → inv s →
  Q (k + length (operations ≫= presented_by)) s → Q k (run_all operations s).
Proof using Hbytes Htyped L.
  intros Ht. revert s. induction Ht as [|operation operations Ho Ht IH]; intros s Ha Hs HQ.
  { by rewrite Nat.add_0_r in HQ. }
  cbn [mbind list_bind] in Ha, HQ. apply Forall_app in Ha as [Ha1 Ha2]. rewrite length_app in HQ.
  unfold run_all. cbn [fold_left]. apply IH; [done|by apply perform_inv|].
  apply counted_operation; [done..|]. by rewrite <- Nat.add_assoc, (Nat.add_comm (length _)).
Qed.
End counted.

Lemma run_all_inv operations s : Forall typed_operation operations → inv s → inv (run_all operations s).
Proof.
  intros Ht. revert s. induction Ht as [|operation operations Ho Ht IH]; intros s Hs; [done|].
  by apply IH, perform_inv.
Qed.

(** *** The memory of a source *)

(** So many further samples do not exhaust the ordinals. *)
Definition room (k : nat) (s : Store) : Prop :=
  1 <= st_next_ordinal s ∧ st_next_ordinal s + Z.of_nat k <= u64_max ∧
  ∀ id r, holds id r s → source_ordered (st_next_ordinal s) r.

Lemma room_step k sample s s' : sources_moved sample s s' → room (S k) s → room k s'.
Proof.
  intros [Hothers Hnext Hknown Hnew] (Hn & Hk & Hord).
  assert (st_next_ordinal s +u 1 = st_next_ordinal s + 1) as Hadd.
  { apply wrap_u64_id. unfold is_u64, u64_max in *. lia. }
  rewrite Hadd in Hnext. split_and!; [lia|lia|]. intros id r Hr.
  destruct (decide (id = qs_source sample)) as [->|Hne].
  2:{ unfold holds in Hr. rewrite Hothers in Hr by done. destruct (Hord id r Hr) as [? ? ?].
      split; [done|done|lia]. }
  destruct (om_find (qs_source sample) (st_sources s)) as [r0|] eqn:E.
  - destruct (Hknown r0 E) as (r1 & H1 & M). unfold holds in H1, Hr. rewrite H1 in Hr. injection Hr as ->.
    destruct (Hord _ r0 E) as [[older Ho] Hle Hlt]. destruct M as [-> [K1 K2 K3 _]|_ M2 M3 M4 M5].
    + split; rewrite ?K1, ?K2, ?K3; [by eexists|done|done].
    + rewrite Hadd in M2. split; rewrite ?M3, ?M4, ?M5; [by eexists| |lia].
      cbn [take kMaxRecentIncarnations]. constructor; [cbn; lia|]. apply Forall_take.
      eapply Forall_impl; [exact Hle|]. cbv beta. intros. lia.
  - destruct (Hnew eq_refl r Hr) as (I1 & I2 & I3 & I4). rewrite Hadd in I4.
    split; rewrite ?I1, ?I2, ?I3; [by eexists|by constructor; [cbn; lia|constructor]|lia].
Qed.

Lemma init_room k : 1 + Z.of_nat k <= u64_max → room k (init_store cfg).
Proof. intros Hk. split_and!; [done|exact Hk|by intros id r Hr]. Qed.
Lemma room_counted : counted_law room (λ _, True).
Proof.
  split.
  - intros k s (? & ? & ?). split_and!; [done|lia|done].
  - intros k s s' Hsources Hn. unfold room, holds. by rewrite Hsources, Hn.
  - intros k sample s s' _. apply room_step.
  - intros k s id r (_ & _ & H). apply H.
Qed.

(** The source [id] remembers that [inc] got as far as [sequence]: it is the current
    incarnation, or the newer ones are among [others]. *)
Definition remembers (id : SourceId) (inc : IncarnationId) (sequence : SourceSequence)
    (others : list IncarnationId) (s : Store) : Prop :=
  ∃ r newer ordinal older, holds id r s ∧
    sr_recent_incarnations r = newer ++ (inc, ordinal) :: older ∧
    NoDup (map fst newer) ∧ map fst newer ⊆ others ∧ (inc ∉ map fst newer) ∧
    (newer = [] → sequence <= sr_last_sequence r).
Definition recalls id inc sequence others (k : nat) (s : Store) : Prop :=
  room k s ∧ remembers id inc sequence others s.
(** The samples of the source are of [inc] or of the [others]. *)
Definition known_incarnation (id : SourceId) (inc : IncarnationId) (others : list IncarnationId)
    (sample : QueueSample) : Prop :=
  qs_source sample = id → qs_incarnation sample = inc ∨ qs_incarnation sample ∈ others.

Lemma recalls_step id inc sequence others k sample s s' :
  (length others < kMaxRecentIncarnations)%nat → known_incarnation id inc others sample →
  sources_moved sample s s' → recalls id inc sequence others (S k) s → recalls id inc sequence others k s'.
Proof.
  intros Hlen Hinc Hmoved [Hroom (r & newer & ordinal & older & Hr & Hrecent & Hnodup & Hsub & Hnotin & Hseq)].
  split; [by eapply room_step|]. destruct Hmoved as [Hothers _ Hknown _].
  destruct (decide (qs_source sample = id)) as [Hid|Hne].
  2:{ exists r, newer, ordinal, older. split; [|done]. unfold holds. by rewrite Hothers by congruence. }
  rewrite Hid in Hknown. destruct (Hknown r Hr) as (r' & Hr' & M).
  destruct M as [_ [_ _ K3 K4]|Hfresh _ _ _ M5].
  { exists r', newer, ordinal, older. rewrite K3. split_and!; try done. intros Hn. specialize (Hseq Hn). lia. }
  assert (qs_incarnation sample ≠ inc) as Hdiff.
  { intros Heq. apply Hfresh. rewrite Heq, Hrecent, map_app. cbn. set_solver. }
  destruct (Hinc Hid) as [?|Hin]; [done|].
  set (newer' := (qs_incarnation sample, st_next_ordinal s) :: newer).
  assert (NoDup (map fst newer')) as Hnodup'.
  { cbn. apply NoDup_cons. split; [|done]. intros Hx. apply Hfresh. rewrite Hrecent, map_app. set_solver. }
  assert (map fst newer' ⊆ others) as Hsub' by (cbn; set_solver).
  assert (length newer' < kMaxRecentIncarnations)%nat as Hshort.
  { pose proof (submseteq_length _ _ (NoDup_submseteq _ _ Hnodup' Hsub')) as H. rewrite length_map in H. lia. }
  exists r', newer', ordinal, (take (kMaxRecentIncarnations - S (length newer')) older).
  rewrite M5, Hrecent. split_and!; [done| |done|done| |done].
  - change ((qs_incarnation sample, st_next_ordinal s) :: newer ++ (inc, ordinal) :: older)
      with (newer' ++ (inc, ordinal) :: older).
    rewrite take_app_ge by lia. f_equal.
    by replace (kMaxRecentIncarnations - length newer')%nat with (S (kMaxRecentIncarnations - S (length newer'))) by lia.
  - cbn. set_solver.
Qed.

Lemma recalls_counted id inc sequence others :
  (length others < kMaxRecentIncarnations)%nat →
  counted_law (recalls id inc sequence others) (known_incarnation id inc others).
Proof.
  intros Hlen. split.
  - intros k s [H Hm]. split; [by apply (cl_less _ _ room_counted)|done].
  - intros k s s' Hsources Hn. unfold recalls, room, remembers, holds. by rewrite Hsources, Hn.
  - intros k sample s s' Hk Hm. by eapply recalls_step.
  - intros k s i r [(_ & _ & H) _]. apply H.
Qed.

(** An accepted sample is remembered. *)
Lemma accepted_recalled sample others k s s' :
  accepted_source sample s s' → room k s' →
  recalls (qs_source sample) (qs_incarnation sample) (qs_sequence sample) others k s'.
Proof.
  intros (r & H1 & H2 & _ & _ & H5 & _) Hroom. split; [done|]. destruct Hroom as (_ & _ & Hord).
  destruct (Hord _ r H1) as [[older Ho] _ _].
  exists r, [], (sr_incarnation_ordinal r), older. rewrite Ho, H2.
  split_and!; try done; [constructor|set_solver|set_solver|]. intros _. lia.
Qed.

Lemma recalled_refuses id inc sequence others k s sample :
  recalls id inc sequence others k s → qs_source sample = id → qs_incarnation sample = inc →
  qs_sequence sample <= sequence → ∃ r, holds id r s ∧ refuses sample r.
Proof.
  intros [(_ & _ & Hord) (r & newer & ordinal & older & Hr & Hrecent & _ & _ & Hnotin & Hseq)] _ Hinc Hle.
  exists r. split; [done|]. destruct (Hord id r Hr) as [[front Hfront] Hall _]. unfold refuses. rewrite Hinc.
  destruct newer as [|[x o] newer].
  - left. rewrite Hrecent in Hfront. injection Hfront as <- _ _. split; [done|]. specialize (Hseq eq_refl). lia.
  - right. rewrite Hrecent in Hfront. injection Hfront as <- _ _. split.
    + intros ->. apply Hnotin. cbn. set_solver.
    + rewrite Hrecent in Hall |- *. exists (inc, ordinal). split.
      * clear -Hnotin. induction ((x, o) :: newer) as [|[y p] rest IH]; cbn in *.
        { by rewrite bool_decide_eq_true_2. }
        rewrite bool_decide_eq_false_2 by set_solver. apply IH. set_solver.
      * apply Forall_app in Hall as [_ [Hall _]%Forall_cons]. exact Hall.
Qed.

(** C6: a replay is not accepted while its incarnation is remembered.  Let a sample be accepted
    after any run of operations, and let any run follow in which the source presents, besides
    that sample's incarnation, fewer than four others.  Then a sample of the same source and
    incarnation whose sequence is not larger is refused, whatever else it carries, and leaves
    every queue as it was.  (The store has seen fewer than 2^64 - 2 samples.) *)
Theorem replay_is_refused (before between : list Operation) (first second : QueueSample)
    (others : list IncarnationId) (s1 s3 : Store) (r1 r2 : AdmissionResult) (st1 st2 : Status) :
  Forall typed_operation before → Forall typed_operation between →
  typed_sample first → typed_sample second →
  2 + Z.of_nat (length (before ≫= presented_by) + length (between ≫= presented_by)) <= u64_max →
  ingest cfg clock record_bytes first no_admission (run_all before (init_store cfg)) = (s1, r1, st1) →
  ar_accepted r1 = true →
  (length others < kMaxRecentIncarnations)%nat →
  Forall (known_incarnation (qs_source first) (qs_incarnation first) others) (between ≫= presented_by) →
  qs_source second = qs_source first → qs_incarnation second = qs_incarnation first →
  qs_sequence second <= qs_sequence first →
  let s2 := run_all between s1 in
  ingest cfg clock record_bytes second no_admission s2 = (s3, r2, st2) →
  ar_accepted r2 = false ∧ st_queues s3 = st_queues s2.
Proof.
  intros Hb Hbt Ht1 Ht2 Hmax E1 Hr1 Hlen Hinc Hsrc Hi Hseq s2 E2.
  set (s := run_all before (init_store cfg)) in *. set (k := length (between ≫= presented_by)) in *.
  assert (inv s) as Hs by (apply run_all_inv; [done|apply init_inv]).
  assert (s1 = run (Ingest first) s) as Hrun by (cbn [perform]; by rewrite E1).
  assert (inv s1) as Hs1 by (rewrite Hrun; by apply perform_inv).
  assert (inv s2) as Hs2 by by apply run_all_inv.
  assert (room k s1) as Hroom.
  { rewrite Hrun. apply (counted_operation _ _ room_counted); [done|by apply Forall_true|done|].
    apply (counted_run _ _ room_counted); [done|by apply Forall_true|apply init_inv|apply init_room].
    cbn [presented_by length]. lia. }
  destruct (ingest_accepted _ _ _ _ _ Hs Ht1 E1 Hr1) as (_ & _ & _ & _ & _ & _ & _ & Hsource).
  pose proof (counted_run _ _ (recalls_counted (qs_source first) (qs_incarnation first)
    (qs_sequence first) others Hlen) between 0 s1 Hbt Hinc Hs1
    (accepted_recalled _ _ _ _ _ Hsource Hroom)) as Hfinal.
  destruct (recalled_refuses _ _ _ _ _ _ second Hfinal Hsrc Hi Hseq) as (r' & Hr' & Hrefuses).
  assert (ar_accepted r2 = false) as Hr2.
  { unfold ingest in E2. destruct (negb (ok (cfg_status cfg))).
    - by apply (f_equal (λ x, x.1.2)) in E2; cbn in E2; rewrite <- E2.
    - eapply refused_not_accepted; [rewrite Hsrc; exact Hr'|exact Hrefuses|exact E2]. }
  split; [done|]. by destruct (ingest_refused _ _ _ _ _ Hs2 Ht2 E2 Hr2) as [->|[]].
Qed.
End theorems.

(** ** The theorems on the example run *)

Lemma small_limits_typed : typed_limits small_limits.
Proof. split; vm_compute; (discriminate || by split). Qed.

Lemma example_bytes_ok : 0 <= example_record_bytes.
Proof. vm_compute. discriminate. Qed.

Abbreviation on_example theorem :=
  (theorem default_pressure_policy small_limits default_query_limits example_started example_clock
     example_record_bytes small_limits_typed example_bytes_ok).

Abbreviation example_ingest sample s :=
  (ingest example_config example_clock example_record_bytes sample no_admission s).

(** The state, the result and the status of an example [ingest]. *)
Abbreviation state_of x := (x.1.1).
Abbreviation report_of_ingest x := (x.1.2).

Lemma cells_sample_typed source incarnation sequence cells :
  0 <= sequence → typed_sample (cells_sample source incarnation sequence cells).
Proof. done. Qed.

Lemma store_bounded_witness :
  length (st_queues example_store) = 1%nat ∧
  st_history_bytes example_store =
    Z.of_nat (length (st_queues example_store)) * per_queue example_config example_record_bytes.
Proof.
  split; [by vm_compute|].
  exact (proj1 (proj2 (on_example store_bounded example_store example_store_reachable))).
Defined.

Lemma every_sample_accounted_witness :
  st_counters example_store StoreCounter.samples_presented = 2 ∧
  st_counters example_store StoreCounter.samples_presented =
    st_counters example_store StoreCounter.samples_accepted
    +u st_counters example_store StoreCounter.samples_rejected
    +u st_counters example_store StoreCounter.samples_fenced.
Proof.
  split; [by vm_compute|].
  exact (on_example every_sample_accounted example_store example_store_reachable).
Defined.

Definition stale_sample : QueueSample := cells_sample "a" "i1" 2 900.
Definition next_sample : QueueSample := cells_sample "a" "i1" 3 10.
Definition other_sample : QueueSample := cells_sample "b" "j1" 7 950.

Lemma refused_changes_no_observation_witness :
  let result := example_ingest stale_sample example_store in
  ar_outcome (report_of_ingest result) = AdmissionOutcome.FencedStaleSequence ∧
  st_queues (state_of result) = st_queues example_store.
Proof.
  split; [by vm_compute|].
  refine (proj1 (on_example refused_changes_no_observation stale_sample example_store _ _ _
    example_store_reachable _ (result_parts (example_ingest stale_sample example_store)) _)).
  - vm_compute. discriminate.
  - by vm_compute.
Defined.

Lemma accepted_appends_record_witness :
  let result := example_ingest other_sample example_store in
  ar_accepted (report_of_ingest result) = true ∧ result.2 = success.
Proof.
  assert (ar_accepted (report_of_ingest (example_ingest other_sample example_store)) = true) as H
    by by vm_compute.
  split; [exact H|].
  refine (proj1 (on_example accepted_appends_record other_sample example_store _ _ _
    example_store_reachable _ (result_parts (example_ingest other_sample example_store)) H)).
  vm_compute. discriminate.
Defined.

Lemma accepted_advances_source_witness :
  accepted_source next_sample example_store (state_of (example_ingest next_sample example_store)).
Proof.
  refine (on_example accepted_advances_source next_sample example_store _ _ _
    example_store_reachable _ (result_parts (example_ingest next_sample example_store)) _).
  - vm_compute. discriminate.
  - by vm_compute.
Defined.

Definition replayed_sample : QueueSample := cells_sample "a" "i1" 3 999.

(** The source restarts as [i2] after [next_sample], and then as [i3], [i4] and [i5]. *)
Definition restarted_once : list Operation :=
  [Ingest (cells_sample "a" "i2" 1 20); Ingest (cells_sample "b" "j1" 1 30)].
Definition restarted_often : list Operation :=
  map (λ incarnation, Ingest (cells_sample "a" incarnation 1 20)) ["i2"; "i3"; "i4"; "i5"].

Abbreviation example_run_all := (run_all default_pressure_policy small_limits default_query_limits
  example_started example_clock example_record_bytes).
Abbreviation replayed between :=
  (example_ingest replayed_sample (example_run_all between
     (state_of (example_ingest next_sample (example_run_all example_operations (init_store example_config)))))).

Lemma replay_is_refused_witness :
  ar_outcome (report_of_ingest (replayed restarted_once)) = AdmissionOutcome.FencedStaleIncarnation ∧
  ar_accepted (report_of_ingest (replayed restarted_once)) = false.
Proof.
  split; [by vm_compute|].
  refine (proj1 (on_example replay_is_refused example_operations restarted_once next_sample
    replayed_sample ["i2"] _ _ _ _ _ _ _ _ _ _ _
    (result_parts (example_ingest next_sample (example_run_all example_operations (init_store example_config))))
    _ _ _ eq_refl eq_refl _ (result_parts (replayed restarted_once)))).
  - repeat apply Forall_cons_2; [| |constructor]; vm_compute; discriminate.
  - repeat apply Forall_cons_2; [| |constructor]; vm_compute; discriminate.
  - vm_compute. discriminate.
  - vm_compute. discriminate.
  - vm_compute. discriminate.
  - by vm_compute.
  - cbn. unfold kMaxRecentIncarnations. lia.
  - repeat apply Forall_cons_2; [| |constructor]; intros E; [right; by apply list_elem_of_here|].
    by vm_compute in E.
  - vm_compute. discriminate.
Defined.

(** With four other incarnations in between the first is forgotten, and the replay accepted. *)
Lemma forgotten_incarnation_is_accepted :
  ar_accepted (report_of_ingest (replayed restarted_often)) = true.
Proof. by vm_compute. Qed.
