(* ===== verification/StoreBatches.v ===== *)
(** * The store: batches, recovery and metadata

    [ingest_batch] against the sequence of [ingest]s it stands for, the evidence
    [admit_recovered] can establish, and the order [apply_metadata] enforces. *)

From S2P Require Import Prelude Result Checked Text Identity Time Evidence Sample Counter.
From S2P Require Import Metadata Event Limits Policy Rules Explanation Classification.
From S2P Require Import Ring History Window OrderedMap Admission Store StoreOps StoreInvariant.
From S2P Require Import StoreStages StoreIngest StoreExample StoreTheorems.
Open Scope Z_scope.
Open Scope word_scope.

(** ** Tallies *)

(** The member of a batch's report that a filing counter corresponds to. *)
Definition batch_count (b : BatchAdmission) (x : StoreCounter) : Z :=
  match x with
  | StoreCounter.samples_presented => bt_presented b
  | StoreCounter.samples_accepted => bt_accepted b
  | StoreCounter.samples_rejected => bt_rejected b
  | StoreCounter.samples_fenced => bt_fenced b
  | _ => 0
  end.

(** A report on [n] samples. *)
Record report_of (n : nat) (b : BatchAdmission) : Prop := {
  ro_presented : bt_presented b = Z.of_nat n;
  ro_sum : bt_accepted b + bt_rejected b + bt_fenced b = Z.of_nat n;
  ro_accepted : 0 <= bt_accepted b;
  ro_rejected : 0 <= bt_rejected b;
  ro_fenced : 0 <= bt_fenced b;
  ro_failures : Z.of_nat (length (bt_failures b)) = Z.min (bt_rejected b) 64;
  ro_truncated : bt_failures_truncated b = (64 <? bt_rejected b)
}.

(** [count_if e e' n]: [n], one more when the ending is [e']. *)
Definition count_if (e e' : Ending) (n : Z) : Z := if decide (e = e') then n +u 1 else n.

(** [counts_as e b b']: one more sample, with the ending [e]. *)
Definition counts_as (e : Ending) (b b' : BatchAdmission) : Prop :=
  bt_presented b' = bt_presented b +u 1 ∧ bt_accepted b' = count_if e Accepted (bt_accepted b) ∧
  bt_rejected b' = count_if e Rejected (bt_rejected b) ∧
  bt_fenced b' = count_if e Fenced (bt_fenced b).

Lemma add_one n : 0 <= n → n < u64_max → n +u 1 = n + 1.
Proof. intros. apply wrap_u64_id. word_lia. Qed.

Section tallies.
Context (cfg : StoreConfig).

(** The ending the handler reports is the one the batch counts. *)
Lemma tally_counts sample s s' r st index b :
  handled cfg sample s s' r st → ∃ e,
    filed_as e s s' ∧ counts_as e b (tally index r st b) ∧
    bt_failures (tally index r st b) =
      (if decide (e = Rejected) then bt_failures (record_failure index r st b) else bt_failures b) ∧
    bt_failures_truncated (tally index r st b) =
      (if decide (e = Rejected) then bt_failures_truncated (record_failure index r st b)
       else bt_failures_truncated b).
Proof.
  assert (∀ o, AdmissionOutcome.admitted o = false →
    counts_as Fenced b (count_effects (ar_conflict_detected r) (ar_state_changed r)
      (ar_queue_created r) (count_outcome o (count_presented b)))) as HF.
  { intros o Ho. unfold count_outcome. by rewrite Ho. }
  unfold tally. intros [(code & reason & F & R & -> & Hc)|[(F & R & ->)|(now & input & q & F & _ & -> & Ho & _)]].
  - exists Rejected. rewrite ok_failure by done. cbn [negb]. by split_and!.
  - exists Fenced. cbn [negb]. rewrite ok_success. cbn [negb]. split_and!; try done.
    apply HF. apply R.
  - exists Accepted. rewrite ok_success. cbn [negb]. unfold count_outcome. rewrite Ho. by split_and!.
Qed.

Lemma report_step n index r st b e :
  Z.of_nat (S n) <= u64_max → report_of n b → counts_as e b (tally index r st b) →
  bt_failures (tally index r st b) =
    (if decide (e = Rejected) then bt_failures (record_failure index r st b) else bt_failures b) →
  bt_failures_truncated (tally index r st b) =
    (if decide (e = Rejected) then bt_failures_truncated (record_failure index r st b)
     else bt_failures_truncated b) →
  report_of (S n) (tally index r st b).
Proof.
  intros Hn [R1 R2 R3 R4 R5 R6 R7] (H1 & H2 & H3 & H4) Hf Ht. unfold count_if in *.
  rewrite R1, add_one in H1 by word_lia.
  destruct e; repeat case_decide; try done;
    rewrite ?add_one in H2 by word_lia; rewrite ?add_one in H3 by word_lia;
    rewrite ?add_one in H4 by word_lia; split; rewrite ?Hf, ?Ht, ?H1, ?H2, ?H3, ?H4; try lia; try done.
  all: unfold record_failure, kMaxFailureDetails; cbn [bt_failures bt_failures_truncated];
    destruct (Nat.ltb_spec (length (bt_failures b)) 64).
  - rewrite length_app. cbn [length]. lia.
  - lia.
  - rewrite R7. apply eq_true_iff_eq. rewrite !Z.ltb_lt. lia.
  - symmetry. apply Z.ltb_lt. lia.
Qed.
End tallies.

(** The counters' movement against the report's. *)
Definition moved_together (s s' : Store) (b b' : BatchAdmission) : Prop :=
  ∀ x, tally_counter x → st_counters s' x -u st_counters s x = batch_count b' x -u batch_count b x.

Lemma moved_refl s b : moved_together s s b b.
Proof. intros x _. by rewrite !Z.sub_diag. Qed.

Lemma moved_trans s1 s2 s3 b1 b2 b3 :
  moved_together s1 s2 b1 b2 → moved_together s2 s3 b2 b3 → moved_together s1 s3 b1 b3.
Proof.
  intros H1 H2 x Hx. specialize (H1 x Hx). specialize (H2 x Hx). unfold wrap_u64 in *.
  Z.to_euclidean_division_equations; lia.
Qed.

Lemma moved_step e s s' b b' : filed_as e s s' → counts_as e b b' → moved_together s s' b b'.
Proof.
  intros F (H1 & H2 & H3 & H4) x Hx. rewrite (F x Hx).
  assert (∀ c n, (c +u 1) -u c = (n +u 1) -u n) as Hone.
  { intros c n. unfold wrap_u64. Z.to_euclidean_division_equations; lia. }
  destruct Hx as [-> | [-> | [-> | ->]]]; cbn [batch_count]; rewrite ?H1, ?H2, ?H3, ?H4;
    destruct e; cbn [tally_of count_if];
    first [rewrite decide_True by auto | rewrite decide_False by (intros [?|?]; congruence)];
    first [apply Hone | unfold count_if; by rewrite !Z.sub_diag].
Qed.

Section batches.
Context (policy : PressurePolicy) (history : HistoryLimits) (query : QueryLimits)
  (started : ReceiveTime) (clock : nat → ReceiveTime) (record_bytes : Z).
Let cfg := make_config policy history query started.
Abbreviation run_state := (reachable cfg clock record_bytes).
Abbreviation invariant := (inv policy history query started record_bytes).
Context (Htyped : typed_limits history) (Hbytes : 0 <= record_bytes).

(** One [ingest] after the other. *)
Definition ingest_each (samples : list QueueSample) (s : Store) : Store :=
  fold_left (λ s sample, (ingest cfg clock record_bytes sample no_admission s).1.1) samples s.

Lemma ingest_is_locked sample s :
  ok (cfg_status cfg) = true →
  ingest cfg clock record_bytes sample no_admission s =
    ingest_locked cfg clock record_bytes sample no_admission s.
Proof. intros H. unfold ingest. by rewrite H. Qed.

Lemma batch_loop_spec stop total samples index n b s s' b' st :
  ok (cfg_status cfg) = true → invariant s → Forall typed_sample samples →
  Z.of_nat (n + length samples) <= u64_max → report_of n b →
  batch_loop cfg clock record_bytes stop total index samples b s = (s', b', st) →
  ∃ k, (k <= length samples)%nat ∧ (∀ j, (j < k)%nat → stop (index + j)%nat = false) ∧
    s' = ingest_each (take k samples) s ∧ report_of (n + k) b' ∧ moved_together s s' b b' ∧
    ((k = length samples ∧ st = success) ∨
     ((k < length samples)%nat ∧ stop (index + k)%nat = true ∧ code st = ErrorCode.Cancelled)).
Proof.
  intros Hok Hs Ht. revert index n b s Hs.
  induction Ht as [|x xs Hx Ht IH]; cbn [batch_loop length]; intros index n b s Hs Hn Hb E.
  { injection E as <- <- <-. exists 0%nat. rewrite Nat.add_0_r.
    split_and!; try done; [intros; lia|apply moved_refl|by left]. }
  destruct (stop index) eqn:Hstop.
  { exists 0%nat. rewrite !Nat.add_0_r.
    pose proof (f_equal (λ x, x.1.1) E) as E1. pose proof (f_equal (λ x, x.1.2) E) as E2.
    pose proof (f_equal (λ x, code x.2) E) as E3. cbn in E1, E2, E3. clear E. subst s' b'.
    split_and!; try done; [lia|intros; lia|apply moved_refl|right; split_and!; [lia|done|done]]. }
  destruct (ingest_locked _ _ _ x _ s) as [[s1 r1] st1] eqn:E1.
  assert (handled cfg (stamped clock x s) s s1 r1 st1) as Hh.
  { apply ingest_handled in E1 as [_ E1]; try done; [apply Hs|by apply valid_limits]. }
  assert (invariant s1) as Hs1 by (by eapply ingest_locked_inv).
  destruct (tally_counts _ _ _ _ _ _ index b Hh) as (e & F1 & F2 & F3 & F4).
  assert (report_of (S n) (tally index r1 st1 b)) as Hr by (eapply report_step; try done; lia).
  destruct (IH _ (S n) _ _ Hs1 ltac:(lia) Hr E) as (k & K1 & K2 & K3 & K4 & K5 & K6).
  exists (S k). cbn [take]. split_and!.
  - lia.
  - intros [|j] Hj; [by rewrite Nat.add_0_r|]. rewrite <- (K2 j) by lia. f_equal. lia.
  - rewrite K3. cbn. by rewrite ingest_is_locked, E1.
  - by replace (n + S k)%nat with (S n + k)%nat by lia.
  - eapply moved_trans; [by eapply moved_step|done].
  - destruct K6 as [[-> ->]|(K6 & K7 & K8)]; [left; by split|right; split_and!; [lia| |done]].
    rewrite <- K7. f_equal. lia.
Qed.

(** C9: a batch is the sequence of its samples.  [ingest_batch] reaches the state
    that ingesting a prefix of the samples one by one reaches: all of them when
    it succeeds, and when it reports a cancellation exactly those before the
    first index at which the token answered.  Its report covers that prefix and
    nothing else: the accepted, rejected and fenced samples add up to the
    presented ones, each of the four counts is what the store's own counter
    moved by, and the first 64 failures are detailed. *)
Theorem batch_is_prefix (stop : nat → bool) (samples : list QueueSample) (s s' : Store)
    (b : BatchAdmission) (st : Status) :
  ok (cfg_status cfg) = true → run_state s → Forall typed_sample samples →
  Z.of_nat (length samples) <= u64_max →
  ingest_batch cfg clock record_bytes stop samples s = (s', b, st) →
  ∃ k, (k <= length samples)%nat ∧ (∀ j, (j < k)%nat → stop j = false) ∧
    s' = ingest_each (take k samples) s ∧
    ((k = length samples ∧ st = success) ∨
     ((k < length samples)%nat ∧ stop k = true ∧ code st = ErrorCode.Cancelled)) ∧
    bt_presented b = Z.of_nat k ∧
    bt_accepted b + bt_rejected b + bt_fenced b = Z.of_nat k ∧
    Z.of_nat (length (bt_failures b)) = Z.min (bt_rejected b) 64 ∧
    bt_failures_truncated b = (64 <? bt_rejected b) ∧
    st_counters s' StoreCounter.samples_accepted -u st_counters s StoreCounter.samples_accepted
      = bt_accepted b ∧
    st_counters s' StoreCounter.samples_fenced -u st_counters s StoreCounter.samples_fenced
      = bt_fenced b.
Proof.
  intros Hok Hs%reachable_inv Ht Hn; [|done|done]. unfold ingest_batch. rewrite Hok. cbn [negb].
  intros E. apply (batch_loop_spec _ _ _ _ 0 no_batch) in E as (k & K1 & K2 & K3 & K4 & K5 & K6);
    try done.
  exists k. destruct K4 as [R1 R2 R3 R4 R5 R6 R7]. split_and!; try done.
  - rewrite K5 by (unfold tally_counter; auto). cbn. rewrite Z.sub_0_r. apply wrap_u64_id. word_lia.
  - rewrite K5 by (unfold tally_counter; auto). cbn. rewrite Z.sub_0_r. apply wrap_u64_id. word_lia.
Qed.
(** ** Recovery *)

(** The states that do not describe a queue's present. *)
Definition not_present (state : PressureState) : Prop :=
  state = PressureState.Unknown ∨ state = PressureState.Stale ∨ state = PressureState.Conflicting.

Lemma recovered_not_fresh now sample source derived :
  ea_freshness (assess_at cfg now true sample source derived) ≠ Freshness.Fresh.
Proof.
  unfold assess_at. cbn [ea_freshness andb].
  destruct (assess_freshness _ _); cbn; discriminate.
Qed.

Lemma not_fresh_not_present input :
  ea_freshness (ci_assessment input) ≠ Freshness.Fresh →
  not_present (cr_state (classify policy input)).
Proof.
  intros Hf. pose proof (classify_first_state policy input) as H. unfold all_rules in H.
  rewrite first_state_app in H.
  destruct (evidence_rules_spec policy input) as [[[_ Hfresh _ _ _ _] _]|(_ & state & Heq & Hor)].
  - done.
  - rewrite Heq in H. injection H as ->. done.
Qed.

(** Every queue is as it was or has a state of that kind. *)
Definition only_not_present (s s' : Store) : Prop :=
  ∀ path q, om_find path (st_queues s') = Some q →
    om_find path (st_queues s) = Some q ∨ not_present (cr_state (q_latest q)).

Lemma recovered_step sample s s' r st :
  st_recovered_mode s = true → handled cfg sample s s' r st →
  only_not_present s s' ∧ st_recovered_mode s' = true.
Proof.
  intros Hm [(? & ? & _ & [F1 _ _ _ F5 _ _ _] & _)|[(_ & [F1 _ _ _ F5 _ _ _] & _)|(now & input & q & _ & [B1 B2 B3 B4] & _ & _ & _ & A & _)]].
  - split; [|congruence]. intros path q. rewrite F1. by left.
  - split; [|congruence]. intros path q. rewrite F1. by left.
  - split; [|congruence]. intros path q'. destruct (decide (path = qs_queue sample)) as [->|Hne].
    + destruct A as [A1 A2 (source & derived & A3) _ _ _ _ _ _]. rewrite A1. intros [= <-]. right.
      rewrite A2. apply not_fresh_not_present. rewrite A3, Hm. apply recovered_not_fresh.
    + rewrite B1 by done. by left.
Qed.

Lemma recovered_loop_spec index samples b s s' b' :
  ok (cfg_status cfg) = true → invariant s → Forall typed_sample samples →
  st_recovered_mode s = true →
  recovered_loop cfg clock record_bytes index samples b s = (s', b') → only_not_present s s'.
Proof.
  intros Hok Hs Ht. revert index b s Hs.
  induction Ht as [|x xs Hx Ht IH]; cbn [recovered_loop]; intros index b s Hs Hm E.
  { injection E as <- <-. intros path q. by left. }
  destruct (ingest_locked _ _ _ x _ s) as [[s1 r1] st1] eqn:E1.
  assert (invariant s1) as Hs1 by (by eapply ingest_locked_inv).
  apply ingest_handled in E1 as [_ E1]; try done; [|apply Hs|by apply valid_limits].
  destruct (recovered_step _ _ _ _ _ Hm E1) as [H1 Hm1].
  intros path q Hq. destruct (IH _ _ _ Hs1 Hm1 E path q Hq) as [H|H]; [by apply H1|by right].
Qed.

(** Recovered evidence never becomes the present.  After [admit_recovered]
    every queue either is exactly as before or has one of the states [Unknown],
    [Stale] and [Conflicting], and the store is out of its recovery mode. *)
Theorem recovery_establishes_no_present (samples : list QueueSample) (s s' : Store)
    (b : BatchAdmission) (st : Status) :
  run_state s → Forall typed_sample samples →
  admit_recovered cfg clock record_bytes samples s = (s', b, st) →
  only_not_present s s' ∧ (ok (cfg_status cfg) = true → st_recovered_mode s' = false).
Proof.
  intros Hs%reachable_inv Ht; [|done|done]. unfold admit_recovered.
  destruct (ok (cfg_status cfg)) eqn:Hok; cbn [negb].
  - destruct (recovered_loop _ _ _ _ _ _ _) as [s1 b1] eqn:E1. intros [= <- <- <-].
    split; [|done]. intros path q Hq.
    apply recovered_loop_spec in E1; try done; [by apply E1|by destruct Hs as [[] ?]].
  - intros E. apply (f_equal (λ x, x.1.1)) in E. cbn in E. subst s'. split; [|done].
    intros path q. by left.
Qed.

(** ** Metadata *)

(** Metadata only moves forward.  [apply_metadata] stores a table exactly when
    the table is valid and none is stored or its (generation, revision) pair is
    lexicographically larger than the stored one's; in every other case the
    stored table stays, and either way the queues do not move. *)
Theorem metadata_moves_forward (table : ClassMetadataTable) (s s' : Store)
    (r : MetadataAdmission) (st : Status) :
  ok (cfg_status cfg) = true →
  apply_metadata cfg clock table s = (s', r, st) →
  st_queues s' = st_queues s ∧ st_sources s' = st_sources s ∧
  ok st = ok (validate_metadata table (max_queues history)) ∧
  (ma_accepted r = true ↔
     ok (validate_metadata table (max_queues history)) = true ∧
     (st_has_metadata s = false ∨ md_generation (st_metadata s) < md_generation table ∨
      (md_generation (st_metadata s) = md_generation table ∧
       md_revision (st_metadata s) < md_revision table))) ∧
  (if ma_accepted r then st_metadata s' = table ∧ st_has_metadata s' = true
   else st_metadata s' = st_metadata s ∧ st_has_metadata s' = st_has_metadata s).
Proof.
  intros Hok. unfold apply_metadata. rewrite Hok. cbn [negb]. change (cfg_history cfg) with history.
  destruct (ok (validate_metadata table (max_queues history))) eqn:Hv; cbn [negb].
  2:{ intros [= <- <- <-]. cbn. rewrite Hv. split_and!; try done. split; [done|by intros []]. }
  assert (metadata_newer table (st_metadata s) = true ↔
    (md_generation (st_metadata s) < md_generation table ∨
      (md_generation (st_metadata s) = md_generation table ∧
       md_revision (st_metadata s) < md_revision table))) as Hnew.
  { unfold metadata_newer. rewrite orb_true_iff, andb_true_iff, !Z.ltb_lt, Z.eqb_eq. intuition lia. }
  destruct (st_has_metadata s) eqn:Hh; cbn [andb];
    [destruct (metadata_newer table (st_metadata s)); cbn [negb]|].
  all: set (s1 := record_event_global _ _ _ _ _);
    assert (only_log _ s1) as L by apply record_event_global_only_log; destruct L as [L1 L2 L3 L4 _ _ _ _ _ _ _];
    clearbody s1; intros E; injection E as <- <- <-; cbn in *;
    rewrite ?L1, ?L2, ?L3, ?L4; split_and!; try done.
  - split; [|done]. intros _. split; [done|]. right. by apply Hnew.
  - split; [done|]. intros [_ [?|H]]; [done|]. by apply Hnew in H.
  - split; [|done]. intros _. split; [done|by left].
Qed.
End batches.

(** ** The theorems on the example run *)

Definition example_batch : list QueueSample :=
  [cells_sample "a" "i1" 3 10; cells_sample "a" "i1" 3 10; cells_sample "a" "i1" 4 990].
Definition stop_at_two (index : nat) : bool := (index =? 2)%nat.

Lemma example_batch_typed : Forall typed_sample example_batch.
Proof. repeat apply Forall_cons_2; [| | |constructor]; vm_compute; discriminate. Qed.

Abbreviation example_cancelled :=
  (ingest_batch example_config example_clock example_record_bytes stop_at_two example_batch
    example_store).

Lemma batch_is_prefix_witness :
  bt_accepted example_cancelled.1.2 = 1 ∧ bt_fenced example_cancelled.1.2 = 1 ∧
  ∃ k, (k <= 3)%nat ∧ bt_presented example_cancelled.1.2 = Z.of_nat k.
Proof.
  split; [by vm_compute|]. split; [by vm_compute|].
  assert (ok (cfg_status example_config) = true) as Hok by by vm_compute.
  assert (Z.of_nat (length example_batch) <= u64_max) as Hn by (vm_compute; discriminate).
  destruct (on_example batch_is_prefix stop_at_two example_batch example_store _ _ _ Hok
    example_store_reachable example_batch_typed Hn (result_parts example_cancelled))
    as (k & H1 & _ & _ & _ & H2 & _).
  exists k. split; [exact H1|exact H2].
Defined.

Abbreviation example_recovered :=
  (admit_recovered example_config example_clock example_record_bytes example_batch example_store).

Lemma recovery_establishes_no_present_witness :
  bt_accepted example_recovered.1.2 = 2 ∧ only_not_present example_store example_recovered.1.1.
Proof.
  split; [by vm_compute|].
  exact (proj1 (on_example recovery_establishes_no_present example_batch example_store _ _ _
    example_store_reachable example_batch_typed (result_parts example_recovered))).
Defined.

Definition example_table : ClassMetadataTable :=
  mkMetadata 4 1 "controller" SourceAuthority.Primary no_receive [] [] [].
Abbreviation example_apply :=
  (apply_metadata example_config example_clock example_table example_store).

Lemma metadata_moves_forward_witness :
  ma_accepted example_apply.1.2 = true ∧ st_queues example_apply.1.1 = st_queues example_store.
Proof.
  split; [by vm_compute|].
  assert (ok (cfg_status example_config) = true) as Hok by by vm_compute.
  exact (proj1 (metadata_moves_forward default_pressure_policy small_limits default_query_limits
    example_started example_clock example_table example_store _ _ _ Hok (result_parts example_apply))).
Defined.
