(* ===== verification/QueryTheorems.v ===== *)
(** * The store: what its queries answer

    Pages, the explanation of a stored decision, and the claims of the
    contention query. *)

From Stdlib Require Sorting.Sorted.
From S2P Require Import Prelude Result Checked Text Identity Time Evidence Sample Counter.
From S2P Require Import Metadata Event Limits Policy Rules Explanation Classification.
From S2P Require Import Ring History Window OrderedMap Contention Admission Store StoreOps.
From S2P Require Import Queries StoreInvariant StoreStages StoreIngest.
From S2P Require Import StoreExample StoreTheorems.
Open Scope Z_scope.
Open Scope word_scope.

(** ** Pages *)

(** The rows at positions [offset] to [offset + limit - 1]. *)
Definition slice {A} (offset limit : Z) (rows : list A) : list A :=
  take (Z.to_nat limit) (drop (Z.to_nat offset) rows).

Lemma page_all_spec {A} (offset limit : Z) (rows : list A) :
  0 <= offset → 0 <= limit →
  page_all offset limit rows =
    mkPage (slice offset limit rows) (Z.of_nat (length rows))
      (offset + limit <? Z.of_nat (length rows)).
Proof.
  intros Ho Hl. unfold page_all, slice.
  induction rows as [|row rows IH] using rev_ind.
  { cbn. rewrite drop_nil, take_nil. unfold no_page. f_equal. symmetry. apply Z.ltb_ge. lia. }
  rewrite fold_left_app, IH. cbn [fold_left]. unfold page_add. cbn [page_total page_rows page_truncated].
  rewrite length_app. cbn [length]. rewrite Nat2Z.inj_add. change (Z.of_nat 1) with 1.
  destruct (Z.leb_spec (Z.of_nat (length rows) + 1) offset).
  { rewrite !drop_ge by (rewrite ?length_app; cbn; lia). f_equal. is_false (_ <? _). symmetry. solve_false. }
  rewrite drop_app_le by lia. rewrite length_take, length_drop.
  destruct (Z.leb_spec limit (Z.of_nat (Z.to_nat limit `min` (length rows - Z.to_nat offset)))).
  - rewrite take_app_le by (rewrite length_drop; lia). f_equal. symmetry. solve_true.
  - rewrite (take_ge (drop _ _ ++ _)) by (rewrite length_app, length_drop; cbn; lia).
    rewrite (take_ge (drop _ _)) by (rewrite length_drop; lia).
    f_equal. is_false (_ <? Z.of_nat (length rows)). symmetry. solve_false.
Qed.

(** A page is exact and says when it is not the whole answer.  A paged query
    reports the true number of matches; its rows are the matches at positions
    [offset] to [offset + limit - 1], in the store's order; and it is marked
    truncated exactly when the next page would not be empty. *)
Theorem page_exact {A} (offset limit : Z) (rows : list A) :
  0 <= offset → 0 < limit →
  let p := page_all offset limit rows in
  page_total p = Z.of_nat (length rows) ∧
  page_rows p = slice offset limit rows ∧
  (page_truncated p = true ↔ page_rows (page_all (offset + limit) limit rows) ≠ []).
Proof.
  intros Ho Hl. cbv zeta. rewrite !page_all_spec by lia.
  cbn [page_total page_rows page_truncated]. split_and!; [done|done|]. rewrite Z.ltb_lt. unfold slice.
  rewrite <- length_zero_iff_nil, length_take, length_drop. lia.
Qed.

Lemma page_exact_witness :
  let p := page_all 1 2 [10; 20; 30; 40] in
  page_rows p = [20; 30] ∧ page_total p = 4 ∧ page_truncated p = true.
Proof.
  destruct (page_exact 1 2 [10; 20; 30; 40] ltac:(lia) ltac:(lia)) as (H1 & H2 & _).
  split_and!; [exact H2|exact H1|reflexivity].
Defined.

(** ** Explanations *)

(** Every queue's decision is the policy's decision on the input it keeps. *)
Definition decided (policy : PressurePolicy) (queues : OrderedMap QueuePath QueueState) : Prop :=
  ∀ path q, om_find path queues = Some q →
    ∃ input, q_last_input q = Some input ∧ q_latest q = classify policy input.

Section explanations.
Context (policy : PressurePolicy) (history : HistoryLimits) (query : QueryLimits)
  (started : ReceiveTime) (clock : nat → ReceiveTime) (record_bytes : Z).
Let cfg := make_config policy history query started.
Abbreviation run_state := (reachable cfg clock record_bytes).
Abbreviation invariant := (inv policy history query started record_bytes).
Context (Htyped : typed_limits history) (Hbytes : 0 <= record_bytes).

Lemma handled_decided sample s s' r st :
  handled cfg sample s s' r st → decided policy (st_queues s) → decided policy (st_queues s').
Proof.
  intros [(? & ? & _ & [F _ _ _ _ _ _ _] & _)|[(_ & [F _ _ _ _ _ _ _] & _)
    |(now & input & q & _ & [B _ _ _] & _ & _ & _ & [A1 A2 _ _ _ _ _ _ A9] & _)]] Hd path q'.
  - rewrite F. apply Hd.
  - rewrite F. apply Hd.
  - destruct (decide (path = qs_queue sample)) as [->|Hne]; [|rewrite B by done; apply Hd].
    rewrite A1. intros [= <-]. by exists input.
Qed.

(** C15: a stored decision can be derived again.  In every reachable state, asking
    for the explanation of a tracked queue under the store's own policy gives,
    from the input the queue keeps, the classification, the lines and the text
    that the stored decision has, and both answers find the queue. *)
Theorem explain_rederives (path : QueuePath) (q : QueueState) (s : Store) :
  run_state s → ok (cfg_status cfg) = true → path_valid path = true →
  om_find path (st_queues s) = Some q →
  let stored := explain cfg (mkExplainQuery path None) s in
  let derived := explain cfg (mkExplainQuery path (Some policy)) s in
  stored.2 = success ∧ derived.2 = success ∧
  er_found stored.1 = true ∧ er_found derived.1 = true ∧
  er_classification stored.1 = q_latest q ∧
  er_classification derived.1 = er_classification stored.1 ∧
  er_lines derived.1 = er_lines stored.1 ∧ er_explanation derived.1 = er_explanation stored.1.
Proof.
  intros Hs Hok Hv Hf.
  assert (decided policy (st_queues s)) as Hd.
  { apply (reachable_keeps policy history query started clock record_bytes Htyped Hbytes (decided policy)); try done.
    intros sample s0 s1 r st _. apply handled_decided. }
  destruct (Hd path q Hf) as (input & Hi & Hc).
  assert (ok (validate_policy policy) = true) as Hp.
  { revert Hok. unfold cfg, make_config. cbn [cfg_status]. rewrite !ok_try, !andb_true_iff. tauto. }
  unfold explain. cbn [xq_queue xq_policy]. rewrite Hok, Hv, Hf, Hp. cbn [negb ok].
  rewrite ok_success. cbn [negb fst snd er_found er_classification er_lines er_explanation].
  rewrite Hi. cbn [default from_option]. unfold id. rewrite <- Hc. by split_and!.
Qed.
End explanations.

Lemma leaf_queue_tracked : is_some (om_find leaf_queue (st_queues example_store)) = true.
Proof. vm_compute. reflexivity. Qed.

Lemma explain_rederives_witness :
  let derived := explain example_config (mkExplainQuery leaf_queue (Some default_pressure_policy)) example_store in
  er_found derived.1 = true.
Proof.
  pose proof leaf_queue_tracked as Hq.
  destruct (om_find leaf_queue (st_queues example_store)) as [q|] eqn:Hf; [|discriminate].
  assert (ok (cfg_status example_config) = true) as Hok by by vm_compute.
  exact (proj1 (proj2 (proj2 (proj2 (on_example explain_rederives leaf_queue q example_store
    example_store_reachable Hok eq_refl Hf))))).
Defined.

(** ** Contention *)

Lemma om_forall_at {K V} `{EqDecision K} (ltb : K → K → bool) (P Q : K → V → Prop) k v f m :
  P k v → (∀ v, P k v → Q k (f v)) → (∀ k v, P k v → Q k v) → om_forall P m →
  om_forall Q (om_at ltb k v f m).
Proof.
  intros Hv Hf Hpq Hm. apply (om_forall_emplace ltb P k v m Hv) in Hm. unfold om_at.
  revert Hm. generalize (om_emplace ltb k v m) as m'. intros m' Hm. unfold om_forall in *.
  induction Hm as [|[k' v'] m' Hx Hm IH]; cbn [om_update]; [constructor|].
  destruct (decide (k = k')) as [->|]; constructor; cbn in *; auto.
  eapply List.Forall_impl; [|exact Hm]. intros [k2 v2]. apply Hpq.
Qed.

Lemma ordered_pairs_sorted {A} (R : A → A → Prop) (xs : list A) x y :
  Sorted.StronglySorted R xs → (x, y) ∈ ordered_pairs xs → x ∈ xs ∧ y ∈ xs ∧ R x y.
Proof.
  induction xs as [|z xs IH]; cbn; intros Hs Hin; [by apply not_elem_of_nil in Hin|].
  apply Sorted.StronglySorted_inv in Hs as [Hs Hall]. rewrite list.Forall_forall in Hall.
  apply elem_of_app in Hin as [Hin|Hin].
  - apply list_elem_of_fmap in Hin as (w & [= -> ->] & Hw).
    split_and!; [by left|by right|by apply Hall].
  - destruct (IH Hs Hin) as (H1 & H2 & H3). split_and!; [by right|by right|done].
Qed.

Lemma strongly_sorted_snoc {A} (R : A → A → Prop) (xs : list A) x :
  Sorted.StronglySorted R xs → Forall (λ y, R y x) xs → Sorted.StronglySorted R (xs ++ [x]).
Proof.
  induction xs as [|z xs IH]; cbn; intros Hs Hall; [repeat constructor|].
  apply Sorted.StronglySorted_inv in Hs as [Hs Hz]. apply Forall_cons_1 in Hall as [Hx Hall].
  constructor; [by apply IH|]. apply Forall_app_2; [done|by repeat constructor].
Qed.

Section contention.
Context (cfg : StoreConfig).
Abbreviation policy := (pl_contention (cfg_policy cfg)).

(** The entry a sibling was made from. *)
Record sibling_of (cutoff : Nanos) (seen : list (QueuePath * QueueState)) (port : PortPath)
    (class : SchedulingClassId) (sibling : Sibling) : Prop := {
  sb_entry : ∃ q, (sibling.1, q) ∈ seen ∧ q_classes_known q = true ∧
    qc_scheduling_class (q_classes q) = Some class ∧
    sibling.2 = bucket_flags cfg cutoff (q_history q);
  sb_device : qp_device sibling.1 = pp_device port;
  sb_port : qp_port sibling.1 = pp_port port
}.

Definition siblings_ok (cutoff : Nanos) (seen : list (QueuePath * QueueState)) (port : PortPath)
    (class : SchedulingClassId) (siblings : list Sibling) : Prop :=
  Forall (sibling_of cutoff seen port class) siblings ∧
  Sorted.StronglySorted (λ a b : Sibling, path_ltb a.1 b.1 = true) siblings.

Definition groups_ok (cutoff : Nanos) (seen : list (QueuePath * QueueState))
    (groups : ContentionGroups) : Prop :=
  om_forall (λ port, om_forall (siblings_ok cutoff seen port)) groups.

Lemma siblings_ok_more cutoff seen entry port class siblings :
  siblings_ok cutoff seen port class siblings → siblings_ok cutoff (seen ++ [entry]) port class siblings.
Proof.
  intros [Hall Hs]. split; [|done]. eapply List.Forall_impl; [|exact Hall].
  intros sibling [(q & H1 & H2) ? ?]. split; [|done|done]. exists q. split; [|done].
  apply elem_of_app. by left.
Qed.

Lemma groups_ok_step query cutoff seen path q groups :
  Forall (λ e : QueuePath * QueueState, path_ltb e.1 path = true) seen →
  groups_ok cutoff seen groups →
  groups_ok cutoff (seen ++ [(path, q)]) (group_queue cfg query cutoff groups (path, q)).
Proof.
  intros Hlt Hg.
  assert (∀ port classes, om_forall (siblings_ok cutoff seen port) classes →
    om_forall (siblings_ok cutoff (seen ++ [(path, q)]) port) classes) as Hmore.
  { intros port classes. apply om_forall_impl. intros class siblings. apply siblings_ok_more. }
  assert (groups_ok cutoff (seen ++ [(path, q)]) groups) as Hg'
    by exact (om_forall_impl _ _ _ Hmore Hg).
  unfold group_queue. destruct (q_classes_known q) eqn:Hk; [|done].
  destruct (qc_scheduling_class (q_classes q)) as [class|] eqn:Hc; [|done].
  destruct (excludes _ _); [done|]. destruct (excludes _ _); [done|].
  eapply om_forall_at; [| |exact Hmore|exact Hg]; [constructor|]. intros classes Hcl.
  eapply om_forall_at; [| |intros class'; apply siblings_ok_more|exact Hcl]; [split; constructor|].
  intros siblings Hsib. destruct (siblings_ok_more _ _ (path, q) _ _ _ Hsib) as [H1 H2].
  split.
  - apply Forall_app_2; [done|]. constructor; [|constructor]. split; [|done|done].
    exists q. split_and!; try done. apply elem_of_app. right. by left.
  - apply strongly_sorted_snoc; [done|]. destruct Hsib as [H3 _].
    eapply List.Forall_impl; [|exact H3]. intros [p fl] [(q0 & Hin & _) _ _]. cbn in *.
    rewrite list.Forall_forall in Hlt. by apply (Hlt (p, q0)).
Qed.

Lemma groups_ok_all query cutoff queues :
  om_sorted path_ltb queues → groups_ok cutoff queues (fold_left (group_queue cfg query cutoff) queues []).
Proof.
  induction queues as [|[path q] queues IH] using rev_ind; intros Hs; [constructor|].
  rewrite fold_left_app. cbn [fold_left]. unfold om_sorted, om_keys in Hs.
  rewrite map_app in Hs. cbn [map fst] in Hs.
  assert (Sorted.StronglySorted (λ a b, path_ltb a b = true) (map fst queues) ∧
    Forall (λ e : QueuePath * QueueState, path_ltb e.1 path = true) queues) as [H1 H2].
  { clear IH. induction queues as [|[p0 q0] queues IH]; [by repeat constructor|].
    cbn [map app fst] in Hs. apply Sorted.StronglySorted_inv in Hs as [Hs Hall].
    destruct (IH Hs) as [I1 I2]. rewrite list.Forall_forall in Hall. split.
    - cbn. constructor; [done|]. rewrite list.Forall_forall. intros x Hx. apply Hall.
      apply elem_of_app. by left.
    - constructor; [|done]. apply Hall. apply elem_of_app. right. by left. }
  apply groups_ok_step; [done|]. by apply IH.
Qed.

(** *** Buckets *)

(** The record was received in the bucket [start], not before [cutoff]. *)
Definition falls_in (cutoff start : Nanos) (r : HistoryRecord) : bool :=
  negb (steady (hr_received r) <? cutoff) &&
  (align_bucket (steady (hr_received r)) (ws_bucket_ns (cfg_contention_spec cfg)) =? start).
Definition pressed_in (cutoff start : Nanos) (r : HistoryRecord) : bool :=
  falls_in cutoff start r && is_contending_state cfg (hr_state r).
(** The queue was observed, and under pressure, in the bucket. *)
Definition observed_in (cutoff start : Nanos) (q : QueueState) : bool :=
  existsb (falls_in cutoff start) (history_snapshot (q_history q)).
Definition pressured_in (cutoff start : Nanos) (q : QueueState) : bool :=
  existsb (pressed_in cutoff start) (history_snapshot (q_history q)).

Lemma om_emplace_kept {K V} `{EqDecision K} (ltb : K → K → bool) `{!StrictOrder ltb} k (v v0 : V) m :
  om_sorted ltb m → om_find k m = Some v0 → om_emplace ltb k v m = m.
Proof.
  unfold om_sorted, om_keys. induction m as [|[k2 v2] m IH]; [done|]. cbn [om_find om_emplace map fst].
  intros [Hs Hall]%Sorted.StronglySorted_inv. destruct (decide (k = k2)) as [->|Hne]; [done|]. intros E.
  destruct (ltb k k2) eqn:Hlt; [|by rewrite IH]. exfalso. apply om_find_In in E.
  rewrite list.Forall_forall in Hall. assert (ltb k2 k = true) as Hgt.
  { apply Hall, list_elem_of_fmap. by exists (k, v0). }
  by rewrite (ltb_asym ltb _ _ Hlt) in Hgt.
Qed.
Lemma om_at_find {K V} `{EqDecision K} (ltb : K → K → bool) `{!StrictOrder ltb} k k' (v : V) f m :
  om_sorted ltb m →
  om_find k' (om_at ltb k v f m) =
    if decide (k' = k) then Some (f (default v (om_find k m))) else om_find k' m.
Proof.
  intros Hs. unfold om_at. rewrite om_find_update.
  destruct (decide (k' = k)) as [->|Hne]; [|by apply om_find_emplace_ne].
  destruct (om_find k m) as [v0|] eqn:E; [by rewrite (om_emplace_kept ltb k v v0 m Hs E), E|].
  by rewrite om_find_emplace_eq.
Qed.

Lemma flags_spec cutoff records :
  let flags := fold_left (flag_record cfg cutoff) records [] in
  om_sorted Z.ltb flags ∧
  ∀ start, om_find start flags =
    if existsb (falls_in cutoff start) records then Some (true, existsb (pressed_in cutoff start) records)
    else None.
Proof.
  cbv zeta. induction records as [|r records [IHs IH]] using rev_ind; [split; [constructor|done]|].
  rewrite fold_left_app. cbn [fold_left]. set (flags := fold_left (flag_record cfg cutoff) records []) in *.
  unfold flag_record. cbv zeta. destruct (steady (hr_received r) <? cutoff) eqn:Hcut.
  { split; [done|]. intros start. rewrite !existsb_app, IH. cbn [existsb]. unfold pressed_in, falls_in.
    rewrite Hcut. cbn [negb andb orb]. by rewrite !orb_false_r. }
  split; [unfold om_at; apply om_update_sorted; by apply (om_emplace_sorted Z.ltb)|]. intros start.
  rewrite (om_at_find Z.ltb _ _ _ _ _ IHs), !existsb_app, !IH. cbn [existsb]. rewrite !orb_false_r.
  set (k := align_bucket _ _).
  assert (∀ x, falls_in cutoff x r = (k =? x)) as Hfalls by (intros x; unfold falls_in; by rewrite Hcut).
  unfold pressed_in at 4. unfold pressed_in at 2. rewrite !Hfalls.
  destruct (decide (start = k)) as [->|Hne].
  - rewrite Z.eqb_refl, orb_true_r. cbn [andb]. do 2 f_equal.
    destruct (existsb (falls_in cutoff k) records) eqn:E; cbn [default from_option snd fst].
    + destruct (is_contending_state _ _); by rewrite ?orb_true_r, ?orb_false_r.
    + assert (existsb (pressed_in cutoff k) records = false) as ->.
      { apply not_true_iff_false. intros (x & Hx & [Hp _]%andb_prop)%existsb_exists.
        assert (existsb (falls_in cutoff k) records = true) by (apply existsb_exists; eauto). congruence. }
      by destruct (is_contending_state _ _).
  - assert ((k =? start) = false) as -> by (apply Z.eqb_neq; congruence). cbn [andb]. by rewrite !orb_false_r.
Qed.

(** What a claim counts: every bucket once. *)
Definition counts_buckets (n : Z) (P : Nanos → bool) : Prop :=
  ∃ starts, NoDup starts ∧ (∀ start, start ∈ starts ↔ P start = true) ∧ n = Z.of_nat (length starts).

Lemma count_buckets_exact (fa fb : BucketFlags) :
  Forall (λ e : Nanos * (bool * bool), e.2.1 = true) fa →
  count_buckets fa fb =
    (Z.of_nat (length fa),
     Z.of_nat (length (List.filter (λ e : Nanos * (bool * bool),
       e.2.2 && match om_find e.1 fb with Some slot => slot.2 | None => false end) fa))).
Proof.
  unfold count_buckets. induction fa as [|[start [covered contending]] fa IH] using rev_ind; intros H; [done|].
  apply Forall_app in H as [H [Hc _]%Forall_cons]. cbn in Hc. subst covered.
  rewrite fold_left_app, IH by done. cbn [fold_left count_bucket negb andb fst snd].
  rewrite List.filter_app, !length_app. cbn [List.filter fst snd length].
  destruct (contending && _); cbn [length]; f_equal; lia.
Qed.

Lemma sorted_starts (flags : BucketFlags) : om_sorted Z.ltb flags → NoDup (map fst flags).
Proof.
  unfold om_sorted, om_keys. generalize (map fst flags) as starts. clear. intros starts.
  induction 1 as [|start starts _ IH Hall]; constructor; [|done]. intros Hin.
  rewrite list.Forall_forall in Hall. specialize (Hall _ Hin). lia.
Qed.

Lemma buckets_counted cutoff a b :
  let counts := count_buckets (bucket_flags cfg cutoff (q_history a)) (bucket_flags cfg cutoff (q_history b)) in
  counts_buckets counts.1 (λ start, observed_in cutoff start a) ∧
  counts_buckets counts.2 (λ start, pressured_in cutoff start a && pressured_in cutoff start b).
Proof.
  cbv zeta. unfold bucket_flags, observed_in, pressured_in.
  destruct (flags_spec cutoff (history_snapshot (q_history a))) as [Hsa Hfa].
  destruct (flags_spec cutoff (history_snapshot (q_history b))) as [_ Hfb].
  generalize dependent (history_snapshot (q_history a)). intros ra Hsa Hfa.
  generalize dependent (history_snapshot (q_history b)). intros rb Hfb.
  set (fa := fold_left (flag_record cfg cutoff) ra []) in *.
  set (fb := fold_left (flag_record cfg cutoff) rb []) in *. clearbody fa fb.
  assert (∀ start slot, (start, slot) ∈ fa ↔ om_find start fa = Some slot) as Hin
    by (intros; by apply (om_find_elem Z.ltb)).
  assert (Forall (λ e : Nanos * (bool * bool), e.2.1 = true) fa) as Hcov.
  { apply list.Forall_forall. intros [start slot] H%Hin. rewrite Hfa in H.
    destruct (existsb (falls_in cutoff start) ra); [by injection H as <-|done]. }
  rewrite (count_buckets_exact fa fb Hcov). cbn [fst snd]. pose proof (sorted_starts fa Hsa) as Hnodup. split.
  - exists (map fst fa). split_and!; [done| |by rewrite length_map]. intros start. split.
    + intros ([? slot] & -> & H%Hin)%list_elem_of_fmap. cbn. rewrite Hfa in H.
      by destruct (existsb (falls_in cutoff _) ra).
    + intros H. apply list_elem_of_fmap. eexists (start, _). split; [done|]. apply Hin. by rewrite Hfa, H.
  - eexists (map fst (List.filter _ fa)). split_and!; [| |by rewrite length_map].
    + clear -Hnodup. induction fa as [|e fa IH]; [constructor|]. cbn [map] in Hnodup.
      apply NoDup_cons in Hnodup as [Hn Hd]. cbn [List.filter]. destruct (_ && _); [|by apply IH].
      cbn [map]. apply NoDup_cons. split; [|by apply IH]. intros (x & Hx & Hf)%list_elem_of_fmap. apply Hn.
      rewrite Hx. apply list_elem_of_fmap. exists x. split; [done|].
      apply list_elem_of_In in Hf. apply filter_In in Hf as [Hf _]. by apply list_elem_of_In.
    + intros start. split.
      * intros ([? slot] & -> & Hf)%list_elem_of_fmap. cbn. apply list_elem_of_In, filter_In in Hf as [Hf Hp].
        apply list_elem_of_In, Hin in Hf. cbn [fst snd] in Hp. rewrite Hfa in Hf. rewrite Hfb in Hp.
        destruct (existsb (falls_in _ _) ra); [|done]. injection Hf as <-. cbn [snd] in Hp.
        destruct (existsb (falls_in _ _) rb); [done|by rewrite andb_false_r in Hp].
      * intros [Ha Hb]%andb_prop. assert (∀ records, existsb (pressed_in cutoff start) records = true →
          existsb (falls_in cutoff start) records = true) as Hobs.
        { intros records (x & Hx & [Hp _]%andb_prop)%existsb_exists. apply existsb_exists. eauto. }
        apply list_elem_of_fmap. exists (start, (true, true)). split; [done|]. apply list_elem_of_In, filter_In.
        split; [apply list_elem_of_In, Hin; by rewrite Hfa, (Hobs _ Ha), Ha|].
        cbn [fst snd]. rewrite Hfb, (Hobs _ Hb). cbn [snd]. done.
Qed.

(** What a claim states, of the queues it is drawn from and their histories. *)
Record claim_holds (cutoff : Nanos) (s : Store) (c : ContentionRecord) : Prop := {
  ch_order : path_ltb (cr_queue_a c) (cr_queue_b c) = true;
  ch_port_a : qp_device (cr_queue_a c) = pp_device (cr_port c) ∧ qp_port (cr_queue_a c) = pp_port (cr_port c);
  ch_port_b : qp_device (cr_queue_b c) = pp_device (cr_port c) ∧ qp_port (cr_queue_b c) = pp_port (cr_port c);
  ch_queues : ∃ a b, om_find (cr_queue_a c) (st_queues s) = Some a ∧
    om_find (cr_queue_b c) (st_queues s) = Some b ∧
    qc_scheduling_class (q_classes a) = Some (cr_scheduling_class c) ∧
    qc_scheduling_class (q_classes b) = Some (cr_scheduling_class c) ∧
    counts_buckets (cr_simultaneous_buckets c)
      (λ start, pressured_in cutoff start a && pressured_in cutoff start b) ∧
    counts_buckets (cr_covered_buckets c) (λ start, observed_in cutoff start a);
  ch_counts : ct_min_simultaneous_buckets policy <= cr_simultaneous_buckets c <= cr_covered_buckets c;
  ch_coverage : ct_min_covered_buckets policy <= cr_covered_buckets c;
  ch_ratio : (cr_ratio_numerator c, cr_ratio_denominator c) =
    reduce_fraction (cr_simultaneous_buckets c) (cr_covered_buckets c)
}.

Lemma count_buckets_bound (fa fb : BucketFlags) :
  0 <= (count_buckets fa fb).2 <= (count_buckets fa fb).1.
Proof.
  unfold count_buckets. induction fa as [|[start [covered contending]] fa IH] using rev_ind; [cbn; lia|].
  rewrite fold_left_app. cbn [fold_left count_bucket].
  destruct (negb covered && _); [done|]. destruct (contending && _); cbn; lia.
Qed.

Lemma page_add_forall {A} (P : A → Prop) offset limit row p :
  P row → Forall P (page_rows p) → Forall P (page_rows (page_add offset limit row p)).
Proof.
  intros Hr Hp. unfold page_add. bool_cases; cbn [page_rows]; [done|done|].
  apply Forall_app_2; [done|by constructor].
Qed.

Abbreviation claims_hold cutoff s r := (Forall (claim_holds cutoff s) (page_rows (cx_records r))).

Lemma examine_pair_holds s cutoff now offset limit port class r (a b : Sibling) :
  om_sorted path_ltb (st_queues s) →
  sibling_of cutoff (st_queues s) port class a → sibling_of cutoff (st_queues s) port class b →
  path_ltb a.1 b.1 = true → claims_hold cutoff s r →
  claims_hold cutoff s (examine_pair cfg now offset limit port class r (a, b)).
Proof.
  intros Hsorted [(qa & A1 & A2 & A3 & A4) A5 A6] [(qb & B1 & B2 & B3 & B4) B5 B6] Hlt Hr.
  destruct a as [pa fa], b as [pb fb]. cbn [fst snd] in *. unfold examine_pair.
  subst fa fb. pose proof (buckets_counted cutoff qa qb) as Hcounts.
  set (fa := bucket_flags _ _ (q_history qa)) in *. set (fb := bucket_flags _ _ (q_history qb)) in *.
  pose proof (count_buckets_bound fa fb) as Hb. destruct (count_buckets fa fb) as [u si].
  cbn [fst snd] in Hb, Hcounts. destruct Hcounts as [Hu Hsi].
  destruct (Z.ltb_spec u (ct_min_covered_buckets policy)); [done|]. cbn [orb].
  destruct (Z.ltb_spec si (ct_min_simultaneous_buckets policy)); [done|].
  cbn [cx_records]. apply page_add_forall; [|done]. unfold contention_record.
  destruct (reduce_fraction si u) as [n d] eqn:Hratio. split; cbn; try done; [|lia].
  apply (om_find_elem path_ltb) in A1, B1; [|done|done]. by exists qa, qb.
Qed.
Lemma examine_class_holds s cutoff now offset limit port r class siblings :
  om_sorted path_ltb (st_queues s) → siblings_ok cutoff (st_queues s) port class siblings →
  claims_hold cutoff s r → claims_hold cutoff s (examine_class cfg now offset limit port r (class, siblings)).
Proof.
  intros Hs [Hall Hsorted] Hr. unfold examine_class. cbn [fst snd].
  assert (Forall (λ p : Sibling * Sibling, sibling_of cutoff (st_queues s) port class p.1 ∧
    sibling_of cutoff (st_queues s) port class p.2 ∧ path_ltb p.1.1 p.2.1 = true)
    (ordered_pairs siblings)) as Hp.
  { apply list.Forall_forall. intros [a b] Hin. pose proof (proj1 (list.Forall_forall _ _) Hall) as Hall'.
    destruct (ordered_pairs_sorted _ _ _ _ Hsorted Hin) as (H1 & H2 & H3). cbn. auto. }
  clear Hall Hsorted. revert r Hr. induction Hp as [|[a b] pairs (P1 & P2 & P3) Hp IH]; intros r Hr;
    cbn [fold_left]; [done|].
  apply IH. by eapply examine_pair_holds.
Qed.

Lemma examine_port_holds s cutoff now offset limit r port classes :
  om_sorted path_ltb (st_queues s) → om_forall (siblings_ok cutoff (st_queues s) port) classes →
  claims_hold cutoff s r → claims_hold cutoff s (examine_port cfg now offset limit r (port, classes)).
Proof.
  intros Hs Hall Hr. unfold examine_port. cbn [fst snd]. unfold om_forall in Hall.
  set (r0 := mkContentionResult _ _ _ _). assert (claims_hold cutoff s r0) as Hr0 by exact Hr.
  clearbody r0. clear Hr. revert r0 Hr0.
  induction Hall as [|[class siblings] classes Hc Hall IH]; intros r0 Hr0; cbn [fold_left]; [done|].
  apply IH. by eapply examine_class_holds.
Qed.
End contention.

Section contention_claims.
Context (policy : PressurePolicy) (history : HistoryLimits) (query_limits : QueryLimits)
  (started : ReceiveTime) (clock query_clock : nat → ReceiveTime) (record_bytes : Z).
Let cfg := make_config policy history query_limits started.
Abbreviation run_state := (reachable cfg clock record_bytes).
Context (Htyped : typed_limits history) (Hbytes : 0 <= record_bytes).

(** C16: contention is only claimed between two tracked queues of one port and one
    scheduling class, the first before the second in the store's order, so never a
    queue with itself.  The simultaneous buckets are those of the window in which the
    histories of both have a record whose state the policy counts as contending, each
    counted once, and are at least the policy's minimum; the covered buckets are those in
    which the first queue has a record at all, and are at least the policy's minimum; the
    ratio is the first over the second in lowest terms. *)
Theorem contention_claims_hold (query : ContentionQuery) (s : Store) :
  run_state s →
  let cutoff := steady (query_clock 0%nat) -s ws_duration_ns (cfg_contention_spec cfg) in
  Forall (claim_holds cfg cutoff s) (page_rows (cx_records (contention cfg query_clock query s).1)).
Proof.
  intros Hs cutoff. destruct (reachable_inv policy history query_limits started clock record_bytes Htyped
    Hbytes s Hs) as [[Hsorted _ _ _ _ _ _ _ _ _ _] _].
  unfold contention. destruct (negb _); [constructor|]. cbn [fst].
  fold cutoff.
  pose proof (groups_ok_all cfg query cutoff (st_queues s) Hsorted) as Hg.
  unfold contention_groups. revert Hg. generalize (fold_left (group_queue cfg query cutoff) (st_queues s) []) as groups.
  intros groups Hg. unfold groups_ok, om_forall in Hg.
  assert (Forall (claim_holds cfg cutoff s) (page_rows (cx_records no_contention))) as Hr by constructor.
  revert Hr. generalize no_contention as r.
  induction Hg as [|[port classes] groups Hp Hg IH]; intros r Hr; cbn [fold_left]; [done|].
  apply IH. by eapply examine_port_holds.
Qed.
End contention_claims.

(** Two queues of one port, saturated together in four buckets. *)
Definition wide_limits : HistoryLimits := mkHistoryLimits 4 8 10000 6 8 8 4 4 4 4 4.
Definition wide_config : StoreConfig :=
  make_config default_pressure_policy wide_limits default_query_limits example_started.
Definition contended_sample (queue sequence : Z) (round : Z) : QueueSample :=
  set_value SampleField.DynamicThresholdCells 1000
    (set_value SampleField.OccupancyCells 990
      (mkSample (mkQueuePath "leaf" "eth0" queue)
         (mkClasses None (Some "wrr") AttributeOrigin.ObservedInSample 0) "a" "i1" sequence
         SourceAuthority.Primary 1 1 (mkObservation (sequence * 100) "dom")
         (mkReceive (1000000000 + 700000000 * round) 1) 0 0 (replicate kSampleFieldCount 0))).
Definition contended_operations : list Operation :=
  map (λ e : Z * Z, Ingest (contended_sample e.1 e.2 (e.2 / 2)))
    [(3, 2); (5, 3); (3, 4); (5, 5); (3, 6); (5, 7); (3, 8); (5, 9)].
Definition contended_store : Store :=
  fold_left (λ s operation, perform wide_config example_clock example_record_bytes operation s)
    contended_operations (init_store wide_config).
Definition contended_clock (n : nat) : ReceiveTime := mkReceive 4000000000 1.

Lemma wide_limits_typed : typed_limits wide_limits.
Proof. split; vm_compute; (discriminate || by split). Qed.

Lemma contended_store_reachable :
  reachable wide_config example_clock example_record_bytes contended_store.
Proof.
  unfold contended_store.
  assert (Forall typed_operation contended_operations) as H
    by (repeat apply Forall_cons_2; try (vm_compute; discriminate); constructor).
  assert (reachable wide_config example_clock example_record_bytes (init_store wide_config)) as Hinit
    by constructor.
  revert Hinit. generalize (init_store wide_config) as s.
  induction H as [|operation operations Ho H IH]; intros s Hs; cbn [fold_left]; [done|].
  apply IH. by constructor.
Qed.

Definition contended_cutoff : Nanos :=
  steady (contended_clock 0%nat) -s ws_duration_ns (cfg_contention_spec wide_config).

Lemma contention_claims_hold_witness :
  let answer := contention wide_config contended_clock (mkContentionQuery None None (mkPagination 0 0))
                  contended_store in
  length (page_rows (cx_records answer.1)) = 1%nat ∧
  Forall (claim_holds wide_config contended_cutoff contended_store) (page_rows (cx_records answer.1)).
Proof.
  split; [by vm_compute|].
  exact (contention_claims_hold default_pressure_policy wide_limits default_query_limits
    example_started example_clock contended_clock example_record_bytes wide_limits_typed
    example_bytes_ok _ contended_store contended_store_reachable).
Defined.

(** The covered buckets of a claim are those of the first queue, whether or not the
    second was observed in them; buckets of the second queue alone do not count. *)
Lemma coverage_is_one_sided :
  count_buckets [(0, (true, true)); (1, (true, false))] [] = (2, 0) ∧
  count_buckets [] [(0, (true, true)); (1, (true, false))] = (0, 0).
Proof. split; reflexivity. Qed.
