(* ===== verification/Ingest.v ===== *)
(** * Ingesting a document

    [ingest/Ingest.cpp]: a document is decoded, its tables are applied and its samples
    handed to the store as one batch.  Reading the file is I/O.
    The samples of a decoded document are typed: their numbers come from integers that the
    parser found in range. *)

From S2P Require Import Prelude Result Checked Text Json JsonBounds Identity Time Evidence Sample.
From S2P Require Import Counter Metadata Event Limits Decode Policy Rules Explanation.
From S2P Require Import Classification Ring History Window OrderedMap Admission Store StoreOps.
Open Scope Z_scope.

#[local] Set Warnings "-register-all".

Record IngestReport := mkIngestReport {
  ig_decode : DecodeOutcome;
  ig_admission : BatchAdmission;
  ig_accepted : bool
}.
Definition no_report : IngestReport := mkIngestReport no_outcome no_batch false.

Section ingest.
Context (cfg : StoreConfig) (clock : nat → ReceiveTime) (record_bytes : Z).
Context (double_in_range : string → bool) (limits : IngestLimits).

(** The loop over the tables, up to the first that fails. *)
Fixpoint apply_tables (tables : list ClassMetadataTable) (s : Store) : Store * Status :=
  match tables with
  | [] => (s, success)
  | table :: tables =>
      let '(s, _, status) := apply_metadata cfg clock table s in
      if negb (ok status) then (s, status) else apply_tables tables s
  end.

(** The tables of a decoded document and then its samples; [stop] is what the token
    answers before each sample. *)
Definition apply_outcome (stop : nat → bool) (o : DecodeOutcome) (s : Store) :
    Store * BatchAdmission * Status :=
  let '(s, status) := apply_tables (do_metadata o) s in
  if negb (ok status) then (s, no_batch, status)
  else ingest_batch cfg clock record_bytes stop (do_samples o) s.

(** A token without a source is never cancelled. *)
Definition no_stop : nat → bool := λ _, false.

Definition ingest_document (payload : string) (s : Store) : Store * IngestReport * Status :=
  match decode_document double_in_range limits payload with
  | Failure e => (s, no_report, e)
  | Value o =>
      let '(s, admission, status) := apply_outcome no_stop o s in
      (s, mkIngestReport o admission (ok status), status)
  end.
End ingest.

(** ** Decoded samples are typed *)

(** What an accepted record satisfies. *)
Definition accepts {A} (r : Decoded A) (P : A → Prop) : Prop :=
  match r with Accepted a => P a | Refused _ _ => True end.

Lemma accepts_any {A} (r : Decoded A) : accepts r (λ _, True).
Proof. by destruct r. Qed.
Lemma accepts_bind {A B} (P : A → Prop) (r : Decoded A) (f : A → Decoded B) (Q : B → Prop) :
  accepts r P → (∀ a, P a → accepts (f a) Q) → accepts (r ≫= f) Q.
Proof. destruct r; cbn; auto. Qed.
Lemma accepts_then {A B} (r : Decoded A) (f : A → Decoded B) (Q : B → Prop) :
  (∀ a, accepts (f a) Q) → accepts (r ≫= f) Q.
Proof. intros H. apply (accepts_bind _ _ _ _ (accepts_any r)). auto. Qed.

(** The parts of a record of which nothing is kept. *)
Ltac skip_parts := repeat (apply accepts_then; intros ?).

Section decoded.
Context (double_in_range : string → bool) (limits : IngestLimits).

Section object.
Context (json_limits : JsonLimits) (object : JsonValue).
Context (Hobject : json_ok json_limits double_in_range object).

Lemma found_ok key child : json_find key object = Some child → json_ok json_limits double_in_range child.
Proof using Hobject.
  pose proof Hobject as Hc. destruct Hc as [| | | | | | |ks children _ _ _ _ Hc]; try done. cbn [json_find].
  clear Hobject. revert ks. induction Hc as [|c children Hok Hc IH]; intros [|k ks]; cbn; try done.
  case_bool_decide; [by intros [= <-]|apply IH].
Qed.

Lemma required_number line key : accepts (required (require_u64 line object key)) (λ n, 0 <= n).
Proof using Hobject.
  unfold require_u64. destruct (json_find key object) as [child|] eqn:E; [|done].
  apply found_ok in E. destruct E as [| |n ?|n [Hn _]| | | |]; try done.
  by destruct (Z.leb_spec 0 n).
Qed.

Lemma identity_typed line : accepts (sample_identity line limits object) typed_sample.
Proof using Hobject.
  unfold sample_identity. cbv zeta. do 7 (apply accepts_then; intros ?).
  apply (accepts_bind _ _ _ _ (required_number line "sequence")). intros sequence Hs.
  apply accepts_then. intros observed.
  repeat case_match; try exact I.
  skip_parts. exact Hs.
Qed.

Lemma attributes_typed line s :
  typed_sample s → accepts (sample_attributes line object s) typed_sample.
Proof using. intros Hs. unfold sample_attributes. skip_parts. exact Hs. Qed.

Lemma values_typed line table s :
  typed_sample s → accepts (sample_values line object table s) typed_sample.
Proof using.
  revert s. induction table as [|[key field] table IH]; intros s Hs; cbn [sample_values]; [done|].
  destruct (json_find key object); [|by apply IH]. apply accepts_then. intros value. apply IH.
  unfold typed_sample, set_value in *. by destruct (_ <=? _)%nat.
Qed.

Lemma record_typed line :
  accepts (parse_sample_record line limits object) (λ record, typed_sample record.1).
Proof using Hobject.
  unfold parse_sample_record. apply (accepts_bind _ _ _ _ (identity_typed line)). intros s0 H0.
  apply (accepts_bind _ _ _ _ (attributes_typed line s0 H0)). intros s1 H1.
  apply (accepts_bind _ _ _ _ (values_typed line keys_table s1 H1)). intros s2 H2.
  apply accepts_then. intros _. apply accepts_then. intros [declared unknown]. exact H2.
Qed.
End object.

Lemma parsed_ok json_limits text v :
  parse_json json_limits double_in_range text = Value v → json_ok json_limits double_in_range v.
Proof using.
  unfold parse_json, parse_prefix. destruct (document_too_long _ _); [done|].
  pose proof (proj1 (parser_fuel json_limits double_in_range (S (2 * String.length text)))
                0 text 0 ltac:(lia)) as H.
  destruct (parse_value _ _ _ _ _ _) as [[[w rest] nodes]|e]; cbn in *; [|done].
  case_bool_decide; cbn; [|done]. intros [= <-]. apply H.
Qed.

Lemma envelope_ok line trimmed :
  accepts (parse_envelope double_in_range limits line trimmed)
    (λ envelope, json_ok (wire_json_limits limits) double_in_range envelope.1).
Proof using.
  unfold parse_envelope. destruct (_ <? _); [done|].
  destruct (parse_json _ _ _) as [v|] eqn:E; [|done]. apply parsed_ok in E.
  skip_parts. by destruct (_ =? _).
Qed.

Lemma line_typed line trimmed samples tables :
  accepts (parse_line double_in_range limits line trimmed samples tables)
    (λ record, match record with SampleRecord s _ => typed_sample s | MetadataRecord _ => True end).
Proof using.
  unfold parse_line. apply (accepts_bind _ _ _ _ (envelope_ok line trimmed)).
  intros [object kind] Hobject. cbn [fst] in Hobject. case_bool_decide.
  - apply accepts_then. intros _. apply (accepts_bind _ _ _ _ (record_typed _ _ Hobject line)).
    by intros [s unknown] Hs.
  - case_bool_decide; [|done]. by skip_parts.
Qed.

Lemma lines_typed lines line_number o :
  Forall typed_sample (do_samples o) →
  Forall typed_sample (do_samples (decode_lines double_in_range limits line_number lines o)).
Proof using.
  revert line_number o. induction lines as [|line lines IH]; intros line_number o Ho; cbn [decode_lines]; [done|].
  apply IH. unfold decode_line. destruct (is_comment _); [done|].
  pose proof (line_typed line_number (trim (strip_carriage_return line))
    (Z.of_nat (length (do_samples (add_lines 1 0 o)))) (Z.of_nat (length (do_metadata (add_lines 1 0 o))))) as H.
  destruct (parse_line _ _ _ _ _ _) as [[s unknown|table]|[] reason]; try done.
  cbn. apply Forall_app_2; [done|]. by constructor.
Qed.

Lemma decoded_samples_typed payload o :
  decode_document double_in_range limits payload = Value o → Forall typed_sample (do_samples o).
Proof using.
  unfold decode_document. destruct (negb _); [done|]. destruct (_ <? _); [done|]. intros [= <-].
  by apply lines_typed.
Qed.
End decoded.
