(* ===== verification/Runtime.v ===== *)
(** * The runtime: documents in flight

    [runtime/Observatory.hpp] and [runtime/Observatory.cpp]: the queue of submitted
    documents, the workers that decode them in parallel and apply them in order, the
    callers that wait in [drain], and [stop].

    Every critical section under [queue_mutex_] is one atomic step on [Runtime]; what
    a thread does between two of them is its program counter.  Decoding happens
    outside the lock and reads only the document's own payload, so its result is taken
    at the step that publishes it.  A condition variable is the set of threads that
    wait for it: [notify_all] makes them ready, and they test their predicate again
    when they next hold the lock.

    What a persistence directory adds to the start and the stop is in Lifecycle. *)

From S2P Require Import Prelude Result Checked Text Identity Time Evidence Sample Counter.
From S2P Require Import Metadata Event Limits Policy Rules Explanation Classification.
From S2P Require Import Ring History Window OrderedMap Admission Store StoreOps Decode Ingest.
Open Scope Z_scope.
Open Scope word_scope.

#[local] Set Warnings "-register-all".

Module RuntimeState.
Inductive RuntimeState : Set := Created | Running | Stopping | Stopped.
#[export] Instance RuntimeState_eq_dec : EqDecision RuntimeState.
Proof. solve_decision. Defined.

Definition to_string (state : RuntimeState) : string :=
  match state with
  | Created => "created" | Running => "running" | Stopping => "stopping" | Stopped => "stopped"
  end.
End RuntimeState.
#[export] Existing Instance RuntimeState.RuntimeState_eq_dec.
Abbreviation RuntimeState := RuntimeState.RuntimeState.

Record PendingDocument := mkPending {
  pd_payload : string;
  pd_in_flight : bool;
  pd_decoded : bool;
  pd_applied : bool;
  pd_decode_status : Status;
  pd_decode : DecodeOutcome
}.
Definition new_document (payload : string) : PendingDocument :=
  mkPending payload false false false success no_outcome.

(** Where a worker is: about to take the lock, blocked in [queue_cv_.wait], decoding the
    document of a ticket without the lock, or returned. *)
Inductive Worker : Set :=
| Ready
| Waiting
| Decoding (ticket : Z)
| Exited.

(** Where a caller of [drain] is. *)
Inductive Drainer : Set := DrainReady | DrainWaiting | DrainDone.

(** How far [stop] has come: not called; the state stored; the stop requested; the
    workers notified.  After that it joins the workers and discards the queue. *)
Inductive StopPhase : Set := NotStopping | StateStored | StopRequested | WorkersNotified.

Record Runtime := mkRuntime {
  rt_state : RuntimeState;
  rt_phase : StopPhase;
  rt_stop_requested : bool;
  rt_store : Store;
  rt_pending : OrderedMap Z PendingDocument;
  rt_next_ticket : Z;
  rt_next_apply_ticket : Z;
  rt_queued_samples : Z;
  rt_queued_batches : Z;
  rt_applied : Z;
  rt_dropped : Z;
  rt_decode_failures : Z;
  rt_in_flight : Z;
  rt_workers : list Worker;
  rt_drainers : list Drainer
}.

Definition set_workers (workers : list Worker) (rt : Runtime) : Runtime :=
  mkRuntime (rt_state rt) (rt_phase rt) (rt_stop_requested rt) (rt_store rt) (rt_pending rt)
    (rt_next_ticket rt) (rt_next_apply_ticket rt) (rt_queued_samples rt) (rt_queued_batches rt)
    (rt_applied rt) (rt_dropped rt) (rt_decode_failures rt) (rt_in_flight rt) workers
    (rt_drainers rt).
Definition set_drainers (drainers : list Drainer) (rt : Runtime) : Runtime :=
  mkRuntime (rt_state rt) (rt_phase rt) (rt_stop_requested rt) (rt_store rt) (rt_pending rt)
    (rt_next_ticket rt) (rt_next_apply_ticket rt) (rt_queued_samples rt) (rt_queued_batches rt)
    (rt_applied rt) (rt_dropped rt) (rt_decode_failures rt) (rt_in_flight rt) (rt_workers rt)
    drainers.
Definition set_worker (i : nat) (w : Worker) (rt : Runtime) : Runtime :=
  set_workers (<[i := w]> (rt_workers rt)) rt.
Definition set_drainer (j : nat) (d : Drainer) (rt : Runtime) : Runtime :=
  set_drainers (<[j := d]> (rt_drainers rt)) rt.

(** [queue_cv_.notify_all()] and [apply_cv_.notify_all()] *)
Definition wake (w : Worker) : Worker := match w with Waiting => Ready | _ => w end.
Definition notify_queue (rt : Runtime) : Runtime := set_workers (map wake (rt_workers rt)) rt.
Definition wake_drainer (d : Drainer) : Drainer :=
  match d with DrainWaiting => DrainReady | _ => d end.
Definition notify_apply (rt : Runtime) : Runtime :=
  set_drainers (map wake_drainer (rt_drainers rt)) rt.

Section runtime.
Context (cfg : StoreConfig) (clock : nat → ReceiveTime) (record_bytes : Z).
Context (double_in_range : string → bool) (limits : IngestLimits) (runtime : RuntimeLimits).

(** [decode_only]: the status and the report of a document. *)
Definition decode_only (document : PendingDocument) : Status * DecodeOutcome :=
  match decode_document double_in_range limits (pd_payload document) with
  | Value o => (success, o)
  | Failure e => (e, no_outcome)
  end.

(** [apply_decoded]: the store, and whether the document counts as a decode failure. *)
Definition apply_decoded (stop : nat → bool) (document : PendingDocument) (s : Store) :
    Store * Z :=
  if negb (ok (pd_decode_status document)) then (s, 1)
  else ((apply_outcome cfg clock record_bytes stop (pd_decode document) s).1.1, 0).

(** ** Workers *)

(** The first entry that is neither decoded nor being decoded, in ticket order. *)
Definition undecoded (entry : Z * PendingDocument) : bool :=
  negb (pd_decoded entry.2) && negb (pd_in_flight entry.2).
Definition decode_candidate (rt : Runtime) : option (Z * PendingDocument) :=
  find undecoded (rt_pending rt).

(** The front document, when it can be applied. *)
Definition applicable (rt : Runtime) : option PendingDocument :=
  match om_find (rt_next_apply_ticket rt) (rt_pending rt) with
  | Some document => if pd_decoded document then Some document else None
  | None => None
  end.

(** The predicate a worker waits for. *)
Definition worker_wakes (rt : Runtime) : bool :=
  rt_stop_requested rt || is_some (applicable rt) || is_some (decode_candidate rt).

(** Applying the front document; [stop] is the token while the batch runs. *)
Definition apply_front (stop : nat → bool) (document : PendingDocument) (rt : Runtime) : Runtime :=
  let '(store, failures) := apply_decoded stop document (rt_store rt) in
  notify_queue (notify_apply
    (mkRuntime (rt_state rt) (rt_phase rt) (rt_stop_requested rt) store
       (om_erase (rt_next_apply_ticket rt) (rt_pending rt)) (rt_next_ticket rt)
       (rt_next_apply_ticket rt +u 1) (rt_queued_samples rt)
       (if 0 <? rt_queued_batches rt then rt_queued_batches rt - 1 else rt_queued_batches rt)
       (rt_applied rt +u 1) (rt_dropped rt) (rt_decode_failures rt +u failures) (rt_in_flight rt)
       (rt_workers rt) (rt_drainers rt))).

Definition mark_in_flight (document : PendingDocument) : PendingDocument :=
  mkPending (pd_payload document) true (pd_decoded document) (pd_applied document)
    (pd_decode_status document) (pd_decode document).
Definition take_document (i : nat) (ticket : Z) (rt : Runtime) : Runtime :=
  mkRuntime (rt_state rt) (rt_phase rt) (rt_stop_requested rt) (rt_store rt)
    (om_update ticket mark_in_flight (rt_pending rt)) (rt_next_ticket rt)
    (rt_next_apply_ticket rt) (rt_queued_samples rt) (rt_queued_batches rt) (rt_applied rt)
    (rt_dropped rt) (rt_decode_failures rt) (rt_in_flight rt +u 1)
    (<[i := Decoding ticket]> (rt_workers rt)) (rt_drainers rt).

(** One turn of [worker_loop] under the lock, by a worker that is [Ready]. *)
Definition worker_turn (stop : nat → bool) (i : nat) (rt : Runtime) : Runtime :=
  if negb (worker_wakes rt) then set_worker i Waiting rt
  else if rt_stop_requested rt then set_worker i Exited rt
  else
    match applicable rt with
    | Some document => apply_front stop document rt
    | None =>
        match decode_candidate rt with
        | Some (ticket, _) => if ticket =? 0 then rt else take_document i ticket rt
        | None => rt
        end
    end.

(** The end of the turn, after decoding, with the lock taken again. *)
Definition publish (document : PendingDocument) : PendingDocument :=
  let '(status, outcome) := decode_only document in
  mkPending (pd_payload document) false true (pd_applied document) status outcome.
Definition decoded_samples_of (document : PendingDocument) : Z :=
  Z.of_nat (length (do_samples (decode_only document).2)).
Definition worker_decoded (i : nat) (ticket : Z) (rt : Runtime) : Runtime :=
  let samples :=
    match om_find ticket (rt_pending rt) with
    | Some document => decoded_samples_of document | None => 0
    end in
  notify_apply (notify_queue
    (mkRuntime (rt_state rt) (rt_phase rt) (rt_stop_requested rt) (rt_store rt)
       (om_update ticket publish (rt_pending rt)) (rt_next_ticket rt)
       (rt_next_apply_ticket rt) (rt_queued_samples rt +u samples) (rt_queued_batches rt)
       (rt_applied rt) (rt_dropped rt) (rt_decode_failures rt) (rt_in_flight rt -u 1)
       (<[i := Ready]> (rt_workers rt)) (rt_drainers rt))).

(** ** Callers *)

(** The predicate [drain] waits for, and one of its turns under the lock. *)
Definition drained (rt : Runtime) : bool :=
  bool_decide (rt_pending rt = []) && (rt_in_flight rt =? 0).
Definition drain_turn (j : nat) (rt : Runtime) : Runtime :=
  set_drainer j (if drained rt then DrainDone else DrainWaiting) rt.
Definition call_drain (rt : Runtime) : Runtime :=
  set_drainers (rt_drainers rt ++ [DrainReady]) rt.

Definition refuse_submission (c : ErrorCode) (m : string) (rt : Runtime) : Runtime * Z * Status :=
  (rt, 0, failure c m).

(** [submit_document] without workers: the document is applied before it returns. *)
Definition submit_inline (stop : nat → bool) (payload : string) (rt : Runtime) : Runtime * Z * Status :=
  let document := new_document payload in
  let '(decode_status, outcome) := decode_only document in
  let decoded := mkPending payload false false false success outcome in
  let '(store, applied, failures) :=
    if ok decode_status then
      let '(store, failures) := apply_decoded stop decoded (rt_store rt) in
      (store, rt_applied rt +u 1, rt_decode_failures rt +u failures)
    else (rt_store rt, rt_applied rt, rt_decode_failures rt +u 1) in
  (mkRuntime (rt_state rt) (rt_phase rt) (rt_stop_requested rt) store (rt_pending rt)
     (rt_next_ticket rt +u 1) (rt_next_apply_ticket rt) (rt_queued_samples rt)
     (rt_queued_batches rt) applied (rt_dropped rt) failures (rt_in_flight rt) (rt_workers rt)
     (rt_drainers rt), rt_next_ticket rt, success).

(** The state, the ticket and the status. *)
Definition submit_document (stop : nat → bool) (payload : string) (rt : Runtime) :
    Runtime * Z * Status :=
  if max_payload_bytes limits <? Z.of_nat (String.length payload) then
    refuse_submission ErrorCode.LimitExceeded "the document exceeds the configured payload size" rt
  else if negb (bool_decide (rt_state rt = RuntimeState.Running)) then
    refuse_submission ErrorCode.NotRunning
      "the runtime must be started before it accepts documents" rt
  else if worker_threads runtime =? 0 then submit_inline stop payload rt
  else if max_pending_batches runtime <=? Z.of_nat (length (rt_pending rt)) then
    refuse_submission ErrorCode.Busy
      "the bounded document queue is full; the caller must retry" rt
  else
    let assigned := rt_next_ticket rt in
    (notify_queue
       (mkRuntime (rt_state rt) (rt_phase rt) (rt_stop_requested rt) (rt_store rt)
          (om_emplace Z.ltb assigned (new_document payload) (rt_pending rt))
          (rt_next_ticket rt +u 1) (rt_next_apply_ticket rt) (rt_queued_samples rt)
          (rt_queued_batches rt +u 1) (rt_applied rt) (rt_dropped rt) (rt_decode_failures rt)
          (rt_in_flight rt) (rt_workers rt) (rt_drainers rt)), assigned, success).

(** ** Starting and stopping *)

Definition set_phase (state : RuntimeState) (phase : StopPhase) (requested : bool) (rt : Runtime) :
    Runtime :=
  mkRuntime state phase requested (rt_store rt) (rt_pending rt) (rt_next_ticket rt)
    (rt_next_apply_ticket rt) (rt_queued_samples rt) (rt_queued_batches rt) (rt_applied rt)
    (rt_dropped rt) (rt_decode_failures rt) (rt_in_flight rt) (rt_workers rt) (rt_drainers rt).

(** The constructor's members, with the store it makes. *)
Definition created (s : Store) : Runtime :=
  mkRuntime RuntimeState.Created NotStopping false s [] 1 1 0 0 0 0 0 0 [] [].

Definition start (rt : Runtime) : Runtime * Status :=
  if negb (bool_decide (rt_state rt = RuntimeState.Created)) &&
     negb (bool_decide (rt_state rt = RuntimeState.Stopped))
  then (rt, failure ErrorCode.Busy "the runtime is already started")
  else
    (mkRuntime RuntimeState.Running NotStopping false (rt_store rt) [] 1 1 0 0 (rt_applied rt)
       (rt_dropped rt) (rt_decode_failures rt) 0
       (replicate (Z.to_nat (worker_threads runtime)) Ready) (rt_drainers rt), success).

(** The phases of [stop] on a running runtime. *)
Definition stop_store_state (rt : Runtime) : Runtime :=
  set_phase RuntimeState.Stopping StateStored (rt_stop_requested rt) rt.
Definition stop_request (rt : Runtime) : Runtime :=
  set_phase (rt_state rt) StopRequested true rt.
Definition stop_notify (rt : Runtime) : Runtime :=
  notify_queue (set_phase (rt_state rt) WorkersNotified (rt_stop_requested rt) rt).

(** After the last worker is joined: the queue is discarded and everyone notified. *)
Definition not_applied (pending : OrderedMap Z PendingDocument) : Z :=
  Z.of_nat (length (List.filter (λ entry, negb (pd_applied entry.2)) pending)).
Definition stop_discard (rt : Runtime) : Runtime :=
  notify_apply (notify_queue
    (mkRuntime RuntimeState.Stopped NotStopping (rt_stop_requested rt) (rt_store rt) []
       (rt_next_ticket rt) (rt_next_apply_ticket rt) 0 0 (rt_applied rt)
       (rt_dropped rt +u not_applied (rt_pending rt)) (rt_decode_failures rt) 0 []
       (rt_drainers rt))).

(** [stop] before [start], or a second time. *)
Definition stop_idle (rt : Runtime) : Runtime :=
  set_phase RuntimeState.Stopped (rt_phase rt) (rt_stop_requested rt) rt.

(** ** Steps *)

(** What the token answers in a batch: [Some n] when the stop is requested just before
    the [n]-th sample. *)
Definition token (requested : option nat) : nat → bool :=
  match requested with Some n => λ index, (n <=? index)%nat | None => no_stop end.

(** The steps by which accepted work moves on: a worker's turn, a worker that has
    decoded, a caller of [drain]. *)
Inductive progress : Runtime → Runtime → Prop :=
| progress_turn i rt :
    rt_workers rt !! i = Some Ready → progress rt (worker_turn no_stop i rt)
| progress_decoded i ticket rt :
    rt_workers rt !! i = Some (Decoding ticket) → progress rt (worker_decoded i ticket rt)
| progress_drain j rt :
    rt_drainers rt !! j = Some DrainReady → progress rt (drain_turn j rt).

(** All steps of a running runtime: those, a caller that starts to drain, a wake-up
    without notification, and the phases of [stop]; the stop can be requested while a
    document is being applied. *)
Inductive step : Runtime → Runtime → Prop :=
| step_progress rt rt' : progress rt rt' → step rt rt'
| step_call_drain rt : step rt (call_drain rt)
| step_wake_worker i rt :
    rt_workers rt !! i = Some Waiting → step rt (set_worker i Ready rt)
| step_wake_drainer j rt :
    rt_drainers rt !! j = Some DrainWaiting → step rt (set_drainer j DrainReady rt)
| step_stop rt :
    rt_state rt = RuntimeState.Running → step rt (stop_store_state rt)
| step_request rt : rt_phase rt = StateStored → step rt (stop_request rt)
| step_request_during i n rt document :
    rt_phase rt = StateStored → rt_workers rt !! i = Some Ready →
    rt_stop_requested rt = false → applicable rt = Some document →
    step rt (stop_request (worker_turn (token (Some n)) i rt))
| step_notify rt : rt_phase rt = StopRequested → step rt (stop_notify rt)
| step_discard rt :
    rt_phase rt = WorkersNotified → Forall (λ w, w = Exited) (rt_workers rt) →
    step rt (stop_discard rt).

(** The runs of a session, with the payloads accepted so far. *)
Inductive run (first : Runtime) : list string → Runtime → Prop :=
| run_start : run first [] first
| run_submit payloads rt payload rt' ticket :
    run first payloads rt → submit_document no_stop payload rt = (rt', ticket, success) →
    run first (payloads ++ [payload]) rt'
| run_step payloads rt rt' : run first payloads rt → step rt rt' → run first payloads rt'.
End runtime.
