(* ===== verification/RuntimeInvariant.v ===== *)
(** * The runtime: the invariant of a session

    The pending documents are numbered from the next one to apply, every ticket in a
    worker's hands is marked in the queue, nobody waits for something that has happened,
    and the store is the one synchronous ingestion of the applied documents gives. *)

From S2P Require Import Prelude Result Checked Text Identity Time Evidence Sample Counter.
From S2P Require Import Metadata Event Limits Policy Rules Explanation Classification.
From S2P Require Import Ring History Window OrderedMap Admission Store StoreOps Decode Ingest Runtime.
Open Scope Z_scope.
Open Scope word_scope.

#[local] Set Warnings "-register-all".

(** ** The pending documents, numbered from the next one to apply *)

Fixpoint numbered (a : Z) (docs : list PendingDocument) : OrderedMap Z PendingDocument :=
  match docs with
  | [] => []
  | d :: docs => (a, d) :: numbered (a + 1) docs
  end.

Lemma numbered_length a docs : length (numbered a docs) = length docs.
Proof. revert a. induction docs as [|d docs IH]; intros a; cbn; [done|]. by rewrite IH. Qed.

Lemma numbered_find t a docs :
  om_find t (numbered a docs) = if t <? a then None else docs !! Z.to_nat (t - a).
Proof.
  revert a. induction docs as [|d docs IH]; intros a; cbn; [by destruct (t <? a)|].
  rewrite IH. destruct (decide (t = a)) as [->|Hne].
  - rewrite Z.ltb_irrefl, Z.sub_diag. done.
  - destruct (Z.ltb_spec t a); destruct (Z.ltb_spec t (a + 1)); try lia; [done|].
    by replace (Z.to_nat (t - a)) with (S (Z.to_nat (t - (a + 1)))) by lia.
Qed.

Lemma numbered_find_front a docs : om_find a (numbered a docs) = docs !! 0%nat.
Proof. by rewrite numbered_find, Z.ltb_irrefl, Z.sub_diag. Qed.

Lemma numbered_erase_front a d docs :
  om_erase a (numbered a (d :: docs)) = numbered (a + 1) docs.
Proof. cbn. by rewrite decide_True. Qed.

Lemma numbered_update t f a docs :
  om_update t f (numbered a docs) =
    if t <? a then numbered a docs else numbered a (alter f (Z.to_nat (t - a)) docs).
Proof.
  revert a. induction docs as [|d docs IH]; intros a; cbn; [by destruct (t <? a)|].
  rewrite IH. destruct (decide (t = a)) as [->|Hne].
  - by rewrite Z.ltb_irrefl, Z.sub_diag.
  - destruct (Z.ltb_spec t a); destruct (Z.ltb_spec t (a + 1)); try lia; [done|].
    by replace (Z.to_nat (t - a)) with (S (Z.to_nat (t - (a + 1)))) by lia.
Qed.

Lemma numbered_emplace a docs d :
  om_emplace Z.ltb (a + Z.of_nat (length docs)) d (numbered a docs) = numbered a (docs ++ [d]).
Proof.
  revert a. induction docs as [|d' docs IH]; intros a; cbn [length].
  - cbn. by rewrite Z.add_0_r.
  - cbn [numbered om_emplace app]. rewrite decide_False by lia.
    rewrite (proj2 (Z.ltb_ge _ _)) by lia.
    replace (a + Z.of_nat (S (length docs))) with (a + 1 + Z.of_nat (length docs)) by lia.
    by rewrite IH.
Qed.

Lemma numbered_nil a docs : numbered a docs = [] ↔ docs = [].
Proof. by destruct docs. Qed.

Lemma numbered_lookup a docs k d :
  docs !! k = Some d → numbered a docs !! k = Some (a + Z.of_nat k, d).
Proof.
  revert a k. induction docs as [|d' docs IH]; intros a [|k] H; cbn in *; try done.
  - injection H as ->. by rewrite Z.add_0_r.
  - etransitivity; [apply (IH (a + 1) k H)|]. do 2 f_equal. lia.
Qed.
Lemma numbered_elem a docs t d :
  (t, d) ∈ numbered a docs → ∃ k, docs !! k = Some d ∧ t = a + Z.of_nat k.
Proof.
  revert a. induction docs as [|d' docs IH]; intros a; cbn; [by intros ?%elem_of_nil|].
  intros [[= -> ->]|H]%elem_of_cons; [by exists 0%nat; rewrite Z.add_0_r|].
  destruct (IH _ H) as (k & Hk & ->). exists (S k). split; [done|lia].
Qed.
Lemma numbered_insert a docs k d :
  numbered a (<[k := d]> docs) = <[k := (a + Z.of_nat k, d)]> (numbered a docs).
Proof.
  revert a k. induction docs as [|d' docs IH]; intros a [|k]; cbn; try done.
  - by rewrite Z.add_0_r.
  - rewrite IH. do 3 f_equal. lia.
Qed.
Lemma numbered_update_at a docs k d f :
  docs !! k = Some d →
  om_update (a + Z.of_nat k) f (numbered a docs) = numbered a (<[k := f d]> docs).
Proof.
  revert a k. induction docs as [|d' docs IH]; intros a [|k] H; cbn in *; try done.
  - injection H as ->. by rewrite decide_True by lia.
  - rewrite decide_False by lia. f_equal.
    replace (a + Z.of_nat (S k)) with (a + 1 + Z.of_nat k) by lia. by apply IH.
Qed.
Lemma numbered_find_at a docs k d :
  docs !! k = Some d → om_find (a + Z.of_nat k) (numbered a docs) = Some d.
Proof.
  intros H. rewrite numbered_find, (proj2 (Z.ltb_ge _ _)) by lia.
  by replace (Z.to_nat (a + Z.of_nat k - a)) with k by lia.
Qed.

(** ** Counting through an update *)

Section omap_insert.
Context {A B : Type} (f : A → option B).

Lemma omap_insert_split (l : list A) (i : nat) (x y : A) :
  l !! i = Some x →
  omap f l = omap f (take i l) ++ omap f (x :: drop (S i) l) ∧
  omap f (<[i := y]> l) = omap f (take i l) ++ omap f (y :: drop (S i) l).
Proof.
  intros H. rewrite <- !omap_app. split; f_equal; [by rewrite take_drop_middle|].
  apply insert_take_drop. by eapply lookup_lt_Some.
Qed.
Lemma omap_insert_more (l : list A) (i : nat) (x y : A) (b : B) :
  l !! i = Some x → f x = None → f y = Some b → omap f (<[i := y]> l) ≡ₚ b :: omap f l.
Proof.
  intros H Hx Hy. destruct (omap_insert_split l i x y H) as [-> ->]. cbn. rewrite Hx, Hy.
  by rewrite <- Permutation_middle.
Qed.
Lemma omap_insert_less (l : list A) (i : nat) (x y : A) (b : B) :
  l !! i = Some x → f x = Some b → f y = None → b :: omap f (<[i := y]> l) ≡ₚ omap f l.
Proof.
  intros H Hx Hy. destruct (omap_insert_split l i x y H) as [-> ->]. cbn. rewrite Hx, Hy.
  by rewrite <- Permutation_middle.
Qed.
Lemma omap_insert_same (l : list A) (i : nat) (x y : A) :
  l !! i = Some x → f x = f y → omap f (<[i := y]> l) = omap f l.
Proof.
  intros H Hxy. destruct (omap_insert_split l i x y H) as [-> ->]. cbn. by rewrite Hxy.
Qed.
End omap_insert.

Definition decoding (w : Worker) : option Z := match w with Decoding t => Some t | _ => None end.
Definition being_decoded (e : Z * PendingDocument) : option Z :=
  if pd_in_flight e.2 then Some e.1 else None.

Lemma omap_wake ws : omap decoding (map wake ws) = omap decoding ws.
Proof. induction ws as [|w ws IH]; cbn; [done|]. rewrite IH. by destruct w. Qed.
Lemma wake_waiting ws : Waiting ∉ map wake ws.
Proof.
  induction ws as [|w ws IH]; cbn; [by intros ?%elem_of_nil|].
  intros [H|H]%elem_of_cons; [by destruct w|done].
Qed.
Lemma is_some_false {A} (o : option A) : is_some o = false → o = None.
Proof. by destruct o. Qed.
Lemma elem_of_insert {A} (l : list A) (i : nat) (x y : A) : x ∈ <[i := y]> l → x = y ∨ x ∈ l.
Proof.
  intros (j & H)%list_elem_of_lookup. apply list_lookup_insert_Some in H as [(_ & -> & _)|[_ H]];
    [by left|right]. by eapply list_elem_of_lookup_2.
Qed.
Lemma wake_drainer_waiting ds : DrainWaiting ∉ map wake_drainer ds.
Proof.
  induction ds as [|d ds IH]; cbn; [by intros ?%elem_of_nil|].
  intros [H|H]%elem_of_cons; [by destruct d|done].
Qed.
Lemma wake_exited ws : Exited ∈ map wake ws ↔ Exited ∈ ws.
Proof.
  induction ws as [|w ws IH]; cbn; [done|]. rewrite !elem_of_cons, IH. destruct w; cbn; intuition congruence.
Qed.

Section session.
Context (cfg : StoreConfig) (clock : nat → ReceiveTime) (record_bytes : Z).
Context (double_in_range : string → bool) (limits : IngestLimits) (runtime : RuntimeLimits).
Context (s0 : Store).

#[local] Abbreviation decode_only := (Runtime.decode_only double_in_range limits).
#[local] Abbreviation apply_front := (Runtime.apply_front cfg clock record_bytes).
#[local] Abbreviation worker_turn := (Runtime.worker_turn cfg clock record_bytes).
#[local] Abbreviation worker_decoded := (Runtime.worker_decoded double_in_range limits).
#[local] Abbreviation publish := (Runtime.publish double_in_range limits).
#[local] Abbreviation submit_document :=
  (Runtime.submit_document cfg clock record_bytes double_in_range limits runtime).

(** Documents ingested synchronously, one after the other, and one document under a
    token. *)
Definition sequential (payloads : list string) : Store :=
  fold_left (λ s p,
    (ingest_document cfg clock record_bytes double_in_range limits p s).1.1) payloads s0.
Definition apply_payload (stop : nat → bool) (payload : string) (s : Store) : Store :=
  match decode_document double_in_range limits payload with
  | Value o => (apply_outcome cfg clock record_bytes stop o s).1.1
  | Failure _ => s
  end.

Record doc_ok (d : PendingDocument) : Prop := {
  do_unapplied : pd_applied d = false;
  do_decoded : pd_decoded d = true →
    pd_in_flight d = false ∧ (pd_decode_status d, pd_decode d) = decode_only d
}.

Record queue_inv (payloads : list string) (docs : list PendingDocument) (rt : Runtime) : Prop := {
  q_pending : rt_pending rt = numbered (rt_next_apply_ticket rt) docs;
  q_next : rt_next_ticket rt = 1 + Z.of_nat (length payloads);
  q_range : rt_next_apply_ticket rt + Z.of_nat (length docs) = rt_next_ticket rt;
  q_apply : 1 <= rt_next_apply_ticket rt;
  q_payloads : map pd_payload docs = drop (Z.to_nat (rt_next_apply_ticket rt - 1)) payloads;
  q_docs : Forall doc_ok docs;
  q_applied : rt_applied rt = rt_next_apply_ticket rt - 1;
  q_dropped : rt_dropped rt = 0;
  q_room : Z.of_nat (length docs) <= Z.max 0 (max_pending_batches runtime)
}.

Record worker_inv (rt : Runtime) : Prop := {
  w_flight : omap decoding (rt_workers rt) ≡ₚ omap being_decoded (rt_pending rt);
  w_count : rt_in_flight rt = Z.of_nat (length (omap decoding (rt_workers rt)));
  w_waiting : Waiting ∈ rt_workers rt →
    applicable rt = None ∧ decode_candidate rt = None ∧
    (rt_stop_requested rt = false ∨ rt_phase rt = StopRequested);
  w_exited : Exited ∈ rt_workers rt → rt_stop_requested rt = true;
  w_workers : length (rt_workers rt) = Z.to_nat (worker_threads runtime)
}.

Definition drain_inv (rt : Runtime) : Prop := DrainWaiting ∈ rt_drainers rt → drained rt = false.

Definition phase_inv (rt : Runtime) : Prop :=
  match rt_phase rt with
  | NotStopping => rt_state rt = RuntimeState.Running ∧ rt_stop_requested rt = false
  | StateStored => rt_state rt = RuntimeState.Stopping ∧ rt_stop_requested rt = false
  | _ => rt_state rt = RuntimeState.Stopping ∧ rt_stop_requested rt = true
  end.

(** The store after the first [k] documents; once a stop is requested the last of them
    may have been cut short. *)
Definition store_prefix (payloads : list string) (k : nat) (requested : bool) (s : Store) : Prop :=
  s = sequential (take k payloads) ∨
  (requested = true ∧ ∃ n j p, k = S j ∧ payloads !! j = Some p ∧
     s = apply_payload (token (Some n)) p (sequential (take j payloads))).
Definition store_inv (payloads : list string) (rt : Runtime) : Prop :=
  store_prefix payloads (Z.to_nat (rt_next_apply_ticket rt - 1)) (rt_stop_requested rt) (rt_store rt).

Record live (payloads : list string) (docs : list PendingDocument) (rt : Runtime) : Prop := {
  l_queue : queue_inv payloads docs rt;
  l_workers : worker_inv rt;
  l_drain : drain_inv rt;
  l_phase : phase_inv rt;
  l_store : store_inv payloads rt
}.

Record stopped (payloads : list string) (rt : Runtime) : Prop := {
  s_state : rt_state rt = RuntimeState.Stopped;
  s_phase : rt_phase rt = NotStopping;
  s_requested : rt_stop_requested rt = true;
  s_pending : rt_pending rt = [];
  s_flight : rt_in_flight rt = 0;
  s_workers : rt_workers rt = [];
  s_drain : DrainWaiting ∉ rt_drainers rt;
  s_count : 0 <= rt_applied rt ∧ 0 <= rt_dropped rt ∧
            rt_applied rt + rt_dropped rt = Z.of_nat (length payloads);
  s_store : store_prefix payloads (Z.to_nat (rt_applied rt)) true (rt_store rt)
}.

(** ** What the invariant says of the queue *)

Lemma queue_applicable payloads docs rt :
  queue_inv payloads docs rt →
  applicable rt = match docs with
                  | d :: _ => if pd_decoded d then Some d else None
                  | [] => None
                  end.
Proof.
  intros H. unfold applicable. rewrite (q_pending _ _ _ H), numbered_find_front. by destruct docs.
Qed.

Lemma queue_candidate payloads docs rt t d :
  queue_inv payloads docs rt → decode_candidate rt = Some (t, d) →
  ∃ k, docs !! k = Some d ∧ t = rt_next_apply_ticket rt + Z.of_nat k ∧
       pd_decoded d = false ∧ pd_in_flight d = false.
Proof.
  intros H [Hin Hd]%find_some. rewrite (q_pending _ _ _ H) in Hin.
  apply list_elem_of_In, numbered_elem in Hin as (k & Hk & ->). exists k.
  by apply andb_true_iff in Hd as [?%negb_true_iff ?%negb_true_iff].
Qed.

Lemma queue_no_candidate payloads docs rt k d :
  queue_inv payloads docs rt → decode_candidate rt = None → docs !! k = Some d →
  pd_decoded d = true ∨ pd_in_flight d = true.
Proof.
  intros H Hnone Hk. pose proof (find_none _ _ Hnone (rt_next_apply_ticket rt + Z.of_nat k, d)) as Hd.
  rewrite (q_pending _ _ _ H) in Hd. specialize (Hd ltac:(apply list_elem_of_In,
    (list_elem_of_lookup_2 _ k); by apply numbered_lookup)).
  unfold undecoded in Hd. cbn in Hd. destruct (pd_decoded d), (pd_in_flight d); naive_solver.
Qed.

(** What a worker's turn does, in terms of the queued documents. *)
Variant turn (stop : nat → bool) (i : nat) (docs : list PendingDocument) (rt : Runtime) :
    Runtime → Prop :=
| turn_waits : worker_wakes rt = false → turn stop i docs rt (set_worker i Waiting rt)
| turn_exits : rt_stop_requested rt = true → turn stop i docs rt (set_worker i Exited rt)
| turn_applies d docs' :
    rt_stop_requested rt = false → docs = d :: docs' → pd_decoded d = true →
    turn stop i docs rt (apply_front stop d rt)
| turn_takes k d :
    rt_stop_requested rt = false → is_some (decode_candidate rt) = true →
    docs !! k = Some d → pd_decoded d = false → pd_in_flight d = false →
    turn stop i docs rt (take_document i (rt_next_apply_ticket rt + Z.of_nat k) rt).

Lemma worker_turn_turn stop i payloads docs rt :
  queue_inv payloads docs rt → turn stop i docs rt (worker_turn stop i rt).
Proof.
  intros H. unfold Runtime.worker_turn. destruct (worker_wakes rt) eqn:Hw; [|by constructor].
  destruct (rt_stop_requested rt) eqn:Hs; [by constructor|]. cbn.
  destruct (applicable rt) as [d|] eqn:Ha.
  - rewrite (queue_applicable _ _ _ H) in Ha. destruct docs as [|d' docs']; [done|].
    destruct (pd_decoded d') eqn:Hd; [|done]. injection Ha as ->. by econstructor.
  - destruct (decode_candidate rt) as [[t d]|] eqn:Hc.
    + destruct (queue_candidate _ _ _ _ _ H Hc) as (k & Hk & -> & Hd & Hf).
      pose proof (q_apply _ _ _ H). is_false (rt_next_apply_ticket rt + Z.of_nat k =? 0).
      econstructor; try done. by rewrite Hc.
    + unfold worker_wakes in Hw. by rewrite Hs, Ha, Hc in Hw.
Qed.

(** ** The queue through each operation *)

Lemma doc_ok_new payload : doc_ok (new_document payload).
Proof. by split. Qed.
Lemma doc_ok_mark d : pd_decoded d = false → doc_ok d → doc_ok (mark_in_flight d).
Proof. intros Hd [Ha _]. split; [done|]. cbn. by rewrite Hd. Qed.
Lemma publish_eq d :
  publish d = mkPending (pd_payload d) false true (pd_applied d) (decode_only d).1 (decode_only d).2.
Proof. unfold Runtime.publish. by destruct (decode_only d). Qed.
Lemma doc_ok_publish d : doc_ok d → doc_ok (publish d).
Proof.
  intros [Ha _]. rewrite publish_eq. split; [done|]. intros _. split; [done|].
  symmetry. exact (surjective_pairing (decode_only d)).
Qed.

Lemma queue_forall payloads docs rt k d :
  queue_inv payloads docs rt → docs !! k = Some d → doc_ok d.
Proof. intros H Hk. by eapply Forall_lookup_1; [apply (q_docs _ _ _ H)|]. Qed.

(** The fields of the queue are the same. *)
Definition same_queue (rt rt' : Runtime) : Prop :=
  rt_pending rt' = rt_pending rt ∧ rt_next_ticket rt' = rt_next_ticket rt ∧
  rt_next_apply_ticket rt' = rt_next_apply_ticket rt ∧ rt_applied rt' = rt_applied rt ∧
  rt_dropped rt' = rt_dropped rt.
Lemma queue_same payloads docs rt rt' :
  same_queue rt rt' → queue_inv payloads docs rt → queue_inv payloads docs rt'.
Proof. intros (H1 & H2 & H3 & H4 & H5) H. destruct H. split; congruence. Qed.

Lemma queue_insert payloads docs rt rt' k d f :
  queue_inv payloads docs rt → docs !! k = Some d → pd_payload (f d) = pd_payload d →
  doc_ok (f d) →
  rt_pending rt' = om_update (rt_next_apply_ticket rt + Z.of_nat k) f (rt_pending rt) →
  rt_next_ticket rt' = rt_next_ticket rt → rt_next_apply_ticket rt' = rt_next_apply_ticket rt →
  rt_applied rt' = rt_applied rt → rt_dropped rt' = rt_dropped rt →
  queue_inv payloads (<[k := f d]> docs) rt'.
Proof.
  intros H Hk Hp Hok Hpend H2 H3 H4 H5. destruct H.
  split; rewrite ?H2, ?H3, ?H4, ?H5, ?length_insert; try done.
  - by rewrite Hpend, q_pending0, (numbered_update_at _ _ _ _ _ Hk).
  - rewrite <- q_payloads0, list_fmap_insert, Hp. apply list_insert_id.
    by rewrite list_lookup_fmap, Hk.
  - by apply Forall_insert.
Qed.

Lemma queue_take payloads docs rt i k d :
  queue_inv payloads docs rt → docs !! k = Some d → pd_decoded d = false →
  queue_inv payloads (<[k := mark_in_flight d]> docs)
    (take_document i (rt_next_apply_ticket rt + Z.of_nat k) rt).
Proof.
  intros H Hk Hd. eapply queue_insert; try done.
  apply doc_ok_mark; [done|]. by eapply queue_forall.
Qed.
Lemma queue_decoded payloads docs rt i k d :
  queue_inv payloads docs rt → docs !! k = Some d →
  queue_inv payloads (<[k := publish d]> docs)
    (worker_decoded i (rt_next_apply_ticket rt + Z.of_nat k) rt).
Proof.
  intros H Hk. eapply queue_insert; try done; [by rewrite publish_eq|].
  apply doc_ok_publish. by eapply queue_forall.
Qed.

Lemma queue_front payloads d docs rt stop :
  1 + Z.of_nat (length payloads) <= u64_max →
  queue_inv payloads (d :: docs) rt → queue_inv payloads docs (apply_front stop d rt).
Proof.
  intros Hlen H. destruct H. unfold Runtime.apply_front. cbn [length map] in *.
  destruct (apply_decoded _ _ _ _ _ _) as [store failures].
  assert (rt_next_apply_ticket rt +u 1 = rt_next_apply_ticket rt + 1) as Ha
    by (apply wrap_u64_id; word_lia).
  split; cbn; rewrite ?Ha; try done; try lia.
  - by rewrite q_pending0, numbered_erase_front.
  - replace (Z.to_nat _) with (Z.to_nat (rt_next_apply_ticket rt - 1) + 1)%nat by lia.
    by rewrite <- drop_drop, <- q_payloads0.
  - by inversion q_docs0.
  - rewrite q_applied0, wrap_u64_id by word_lia. lia.
Qed.

Lemma queue_length payloads docs rt :
  queue_inv payloads docs rt → (length docs <= length payloads)%nat.
Proof. intros H. destruct H. lia. Qed.

(** ** The workers through each operation *)

Lemma workers_wait i rt :
  rt_workers rt !! i = Some Ready → worker_wakes rt = false →
  worker_inv rt → worker_inv (set_worker i Waiting rt).
Proof.
  intros Hi Hw H. destruct H. unfold worker_wakes in Hw.
  apply orb_false_iff in Hw as [[Hs Ha]%orb_false_iff Hc].
  pose proof (omap_insert_same decoding _ _ _ Waiting Hi eq_refl) as Hsame.
  split; cbn; rewrite ?Hsame, ?length_insert; try done.
  - intros _. split_and!; [by apply is_some_false..|by left].
  - intros [?|?]%elem_of_insert; [done|auto].
Qed.

Lemma workers_exit i rt :
  rt_workers rt !! i = Some Ready → rt_stop_requested rt = true →
  worker_inv rt → worker_inv (set_worker i Exited rt).
Proof.
  intros Hi Hs H. destruct H.
  pose proof (omap_insert_same decoding _ _ _ Exited Hi eq_refl) as Hsame.
  split; cbn; rewrite ?Hsame, ?length_insert; try done.
  intros [?|?]%elem_of_insert; [done|auto].
Qed.

Lemma workers_ready i rt :
  rt_workers rt !! i = Some Waiting → worker_inv rt → worker_inv (set_worker i Ready rt).
Proof.
  intros Hi H. destruct H.
  pose proof (omap_insert_same decoding _ _ _ Ready Hi eq_refl) as Hsame.
  split; cbn; rewrite ?Hsame, ?length_insert; try done;
    intros [?|?]%elem_of_insert; solve [done|auto].
Qed.

(** After [queue_cv_.notify_all] nobody waits. *)
Lemma workers_notified rt' ws :
  rt_workers rt' = map wake ws → omap decoding ws ≡ₚ omap being_decoded (rt_pending rt') →
  rt_in_flight rt' = Z.of_nat (length (omap decoding ws)) →
  (Exited ∈ ws → rt_stop_requested rt' = true) →
  length ws = Z.to_nat (worker_threads runtime) → worker_inv rt'.
Proof.
  intros Hws H1 H2 H3 H4. split; rewrite Hws, ?omap_wake, ?length_map; try done.
  - by intros ?%wake_waiting.
  - by intros ?%wake_exited%H3.
Qed.

Lemma workers_front stop payloads d docs rt :
  queue_inv payloads (d :: docs) rt → pd_decoded d = true → worker_inv rt →
  worker_inv (apply_front stop d rt).
Proof.
  intros Hq Hd H. destruct H. unfold Runtime.apply_front.
  destruct (apply_decoded _ _ _ _ _ _) as [store failures].
  apply (workers_notified _ (rt_workers rt)); try done.
  cbn. rewrite w_flight0, (q_pending _ _ _ Hq), numbered_erase_front. cbn.
  destruct (do_decoded _ (queue_forall _ _ _ 0 d Hq eq_refl) Hd) as [Hf _].
  unfold being_decoded at 1. cbn. by rewrite Hf.
Qed.

Lemma flight_length rt :
  worker_inv rt → (length (omap decoding (rt_workers rt)) <= length (rt_pending rt))%nat.
Proof.
  intros H. rewrite (w_flight _ H). generalize (rt_pending rt) as es. intros es.
  induction es as [|e es IH]; cbn; [done|]. unfold being_decoded at 1.
  destruct (pd_in_flight e.2); cbn; lia.
Qed.

Lemma workers_take payloads docs rt i k d :
  Z.of_nat (length payloads) < u64_max →
  queue_inv payloads docs rt → rt_workers rt !! i = Some Ready →
  is_some (decode_candidate rt) = true → docs !! k = Some d → pd_in_flight d = false →
  worker_inv rt → worker_inv (take_document i (rt_next_apply_ticket rt + Z.of_nat k) rt).
Proof.
  intros Hlen Hq Hi Hc Hk Hf H. pose proof (flight_length rt H) as Hcount.
  rewrite (q_pending _ _ _ Hq), numbered_length in Hcount.
  pose proof (queue_length _ _ _ Hq). destruct H.
  pose proof (omap_insert_more decoding _ _ _
    (Decoding (rt_next_apply_ticket rt + Z.of_nat k)) _ Hi eq_refl eq_refl) as Hws.
  split; cbn; rewrite ?length_insert; try done.
  - rewrite Hws, w_flight0, (q_pending _ _ _ Hq), (numbered_update_at _ _ _ _ _ Hk).
    rewrite numbered_insert. symmetry.
    eapply (omap_insert_more being_decoded); [by apply numbered_lookup| |done].
    unfold being_decoded. cbn. by rewrite Hf.
  - rewrite Hws. cbn [length]. rewrite w_count0, wrap_u64_id by word_lia. lia.
  - intros [?|Hin]%elem_of_insert; [done|].
    destruct (w_waiting0 Hin) as (_ & Hnone & _). by rewrite Hnone in Hc.
  - intros [?|?]%elem_of_insert; [done|auto].
Qed.

(** A worker's ticket names a document that is in flight. *)
Lemma workers_ticket payloads docs rt i t :
  queue_inv payloads docs rt → worker_inv rt → rt_workers rt !! i = Some (Decoding t) →
  ∃ k d, docs !! k = Some d ∧ t = rt_next_apply_ticket rt + Z.of_nat k ∧ pd_in_flight d = true.
Proof.
  intros Hq H Hi. assert (t ∈ omap decoding (rt_workers rt)) as Hin.
  { apply list_elem_of_omap. exists (Decoding t). split; [|done]. by eapply list_elem_of_lookup_2. }
  rewrite (w_flight _ H), (q_pending _ _ _ Hq) in Hin.
  apply list_elem_of_omap in Hin as ([t' d] & Hin & Hd).
  apply numbered_elem in Hin as (k & Hk & ->). unfold being_decoded in Hd. cbn in Hd.
  destruct (pd_in_flight d) eqn:Hf; [|done]. injection Hd as <-. by exists k, d.
Qed.

Lemma workers_decoded payloads docs rt i k d :
  Z.of_nat (length payloads) < u64_max →
  queue_inv payloads docs rt → docs !! k = Some d → pd_in_flight d = true →
  rt_workers rt !! i = Some (Decoding (rt_next_apply_ticket rt + Z.of_nat k)) →
  worker_inv rt → worker_inv (worker_decoded i (rt_next_apply_ticket rt + Z.of_nat k) rt).
Proof.
  intros Hlen Hq Hk Hf Hi H. pose proof (flight_length rt H) as Hcount.
  rewrite (q_pending _ _ _ Hq), numbered_length in Hcount.
  pose proof (queue_length _ _ _ Hq). destruct H.
  pose proof (omap_insert_less decoding _ _ _ Ready _ Hi eq_refl eq_refl) as Hws.
  pose proof (Permutation_length Hws) as Hws'. cbn [length] in Hws'.
  eapply workers_notified; try done; cbn; rewrite ?length_insert; try done.
  - apply (Permutation_cons_inv (a := rt_next_apply_ticket rt + Z.of_nat k)).
    rewrite Hws, w_flight0, (q_pending _ _ _ Hq), (numbered_update_at _ _ _ _ _ Hk).
    rewrite numbered_insert. symmetry.
    eapply (omap_insert_less being_decoded); [by apply numbered_lookup| |].
    + unfold being_decoded. cbn. by rewrite Hf.
    + unfold being_decoded. by rewrite publish_eq.
  - rewrite w_count0, <- Hws', wrap_u64_id by word_lia. lia.
  - intros [?|?]%elem_of_insert; [done|auto].
Qed.

(** ** The store and the waiters through each operation *)

Lemma apply_payload_no_stop payload s :
  (ingest_document cfg clock record_bytes double_in_range limits payload s).1.1 =
  apply_payload no_stop payload s.
Proof.
  unfold ingest_document, apply_payload. destruct (decode_document _ _ _) as [o|e]; [|done].
  by destruct (apply_outcome _ _ _ _ _ _) as [[s' a] status].
Qed.

Lemma sequential_snoc payloads j p :
  payloads !! j = Some p →
  sequential (take (S j) payloads) = apply_payload no_stop p (sequential (take j payloads)).
Proof.
  intros H. rewrite (take_S_r _ _ _ H). unfold sequential.
  by rewrite fold_left_app, <- apply_payload_no_stop.
Qed.

Lemma decode_document_failure payload e :
  decode_document double_in_range limits payload = Failure e → ok e = false.
Proof.
  unfold decode_document. destruct (ok (validate_ingest limits)) eqn:Hl; cbn.
  - destruct (_ <? _); [|done]. by intros [= <-].
  - intros [= <-]. done.
Qed.

Lemma front_store stop payloads d docs rt :
  queue_inv payloads (d :: docs) rt → pd_decoded d = true →
  rt_store (apply_front stop d rt) = apply_payload stop (pd_payload d) (rt_store rt).
Proof.
  intros Hq Hd. destruct (do_decoded _ (queue_forall _ _ _ 0 d Hq eq_refl) Hd) as [_ Hdec].
  unfold Runtime.apply_front, apply_decoded, apply_payload. unfold Runtime.decode_only in Hdec.
  destruct (decode_document _ _ _) as [o|e] eqn:He; injection Hdec as -> ->; [done|].
  by rewrite (decode_document_failure _ _ He).
Qed.

Lemma front_payload payloads d docs rt :
  queue_inv payloads (d :: docs) rt →
  payloads !! Z.to_nat (rt_next_apply_ticket rt - 1) = Some (pd_payload d).
Proof.
  intros H. pose proof (f_equal (lookup 0%nat) (q_payloads _ _ _ H)) as Hh.
  by rewrite lookup_drop, Nat.add_0_r in Hh.
Qed.

Lemma front_next stop payloads d docs rt :
  1 + Z.of_nat (length payloads) <= u64_max → queue_inv payloads (d :: docs) rt →
  Z.to_nat (rt_next_apply_ticket (apply_front stop d rt) - 1) =
  S (Z.to_nat (rt_next_apply_ticket rt - 1)).
Proof.
  intros Hlen H. destruct H. unfold Runtime.apply_front. cbn [length] in *.
  destruct (apply_decoded _ _ _ _ _ _) as [store failures]. cbn.
  rewrite wrap_u64_id by word_lia. lia.
Qed.

Lemma store_front payloads d docs rt :
  1 + Z.of_nat (length payloads) <= u64_max → queue_inv payloads (d :: docs) rt →
  pd_decoded d = true → rt_stop_requested rt = false → store_inv payloads rt →
  store_inv payloads (apply_front no_stop d rt).
Proof.
  intros Hlen Hq Hd Hs [Hst|[? _]]; [|congruence]. left.
  rewrite (front_store _ _ _ _ _ Hq Hd), (front_next _ _ _ _ _ Hlen Hq), Hst.
  symmetry. apply sequential_snoc. by eapply front_payload.
Qed.

Lemma store_front_cut payloads d docs rt n :
  1 + Z.of_nat (length payloads) <= u64_max → queue_inv payloads (d :: docs) rt →
  pd_decoded d = true → rt_stop_requested rt = false → store_inv payloads rt →
  store_inv payloads (stop_request (apply_front (token (Some n)) d rt)).
Proof.
  intros Hlen Hq Hd Hs [Hst|[? _]]; [|congruence]. right. split; [done|].
  exists n, (Z.to_nat (rt_next_apply_ticket rt - 1)), (pd_payload d).
  split_and!; [by eapply front_next|by eapply front_payload|].
  rewrite <- Hst. by eapply front_store.
Qed.

Lemma store_same payloads rt rt' :
  rt_next_apply_ticket rt' = rt_next_apply_ticket rt → rt_store rt' = rt_store rt →
  (rt_stop_requested rt = true → rt_stop_requested rt' = true) →
  store_inv payloads rt → store_inv payloads rt'.
Proof.
  intros H1 H2 H3 [H|[Hs H]]; [left; by rewrite H1, H2|right]. rewrite H1, H2. auto.
Qed.

Lemma drain_notified ds rt : rt_drainers rt = map wake_drainer ds → drain_inv rt.
Proof. intros H. unfold drain_inv. rewrite H. by intros ?%wake_drainer_waiting. Qed.

Lemma drain_pending payloads docs rt k d :
  queue_inv payloads docs rt → docs !! k = Some d → drain_inv rt.
Proof.
  intros Hq Hk _. unfold drained. rewrite bool_decide_eq_false_2; [done|].
  rewrite (q_pending _ _ _ Hq), numbered_nil. by intros ->.
Qed.

Lemma apply_front_frame stop d rt :
  ∃ ds, rt_drainers (apply_front stop d rt) = map wake_drainer ds ∧
        rt_phase (apply_front stop d rt) = rt_phase rt ∧
        rt_state (apply_front stop d rt) = rt_state rt ∧
        rt_stop_requested (apply_front stop d rt) = rt_stop_requested rt.
Proof.
  unfold Runtime.apply_front. destruct (apply_decoded _ _ _ _ _ _). by exists (rt_drainers rt).
Qed.

Lemma phase_same rt rt' :
  rt_phase rt' = rt_phase rt → rt_state rt' = rt_state rt →
  rt_stop_requested rt' = rt_stop_requested rt → phase_inv rt → phase_inv rt'.
Proof. unfold phase_inv. by intros -> -> ->. Qed.

(** ** The invariant through each step *)

Lemma live_set_worker payloads docs rt i w :
  live payloads docs rt → worker_inv (set_worker i w rt) → live payloads docs (set_worker i w rt).
Proof.
  intros [Hq Hw Hd Hp Hs] Hw'. split; try done. by eapply queue_same; [|apply Hq].
Qed.

Lemma live_turn payloads docs rt i :
  Z.of_nat (length payloads) < u64_max → live payloads docs rt →
  rt_workers rt !! i = Some Ready → ∃ docs', live payloads docs' (worker_turn no_stop i rt).
Proof.
  intros Hlen Hlive Hi. pose proof Hlive as [Hq Hw Hd Hp Hs].
  destruct (worker_turn_turn no_stop i _ _ _ Hq) as [Hwake|Hstop|d docs' Hstop -> Hdec|
    k d Hstop Hc Hk Hdec Hf].
  - exists docs. apply live_set_worker; [done|]. by apply workers_wait.
  - exists docs. apply live_set_worker; [done|]. by apply workers_exit.
  - exists docs'. destruct (apply_front_frame no_stop d rt) as (ds & Hds & H1 & H2 & H3).
    split; [apply queue_front; [word_lia|done]|by eapply workers_front|by eapply drain_notified
      |by apply (phase_same rt)|eapply store_front; [word_lia|done..]].
  - exists (<[k := mark_in_flight d]> docs).
    assert (queue_inv payloads (<[k := mark_in_flight d]> docs)
      (take_document i (rt_next_apply_ticket rt + Z.of_nat k) rt)) as Hq' by by apply queue_take.
    split; [done|by eapply workers_take| |done|done].
    eapply drain_pending; [done|]. apply list_lookup_insert_eq. by eapply lookup_lt_Some.
Qed.

Lemma live_decoded payloads docs rt i t :
  Z.of_nat (length payloads) < u64_max → live payloads docs rt →
  rt_workers rt !! i = Some (Decoding t) →
  ∃ docs', live payloads docs' (worker_decoded i t rt).
Proof.
  intros Hlen [Hq Hw Hd Hp Hs] Hi.
  destruct (workers_ticket _ _ _ _ _ Hq Hw Hi) as (k & d & Hk & -> & Hf).
  exists (<[k := publish d]> docs).
  split; [by apply queue_decoded|by eapply workers_decoded|by eapply drain_notified|done|done].
Qed.

Lemma live_drain payloads docs rt ds :
  live payloads docs rt → (DrainWaiting ∈ ds → drained rt = false) →
  live payloads docs (set_drainers ds rt).
Proof.
  intros [Hq Hw Hd Hp Hs] Hds. split; try done; [by eapply queue_same; [|apply Hq]|].
  by destruct Hw.
Qed.

Lemma live_drain_turn payloads docs rt j :
  live payloads docs rt → live payloads docs (drain_turn j rt).
Proof.
  intros H. apply live_drain; [done|]. destruct (drained rt) eqn:Hdr; [|done].
  intros [?|Hin]%elem_of_insert; [done|]. by rewrite (l_drain _ _ _ H Hin) in Hdr.
Qed.

Lemma live_progress payloads docs rt rt' :
  Z.of_nat (length payloads) < u64_max → live payloads docs rt →
  progress cfg clock record_bytes double_in_range limits rt rt' →
  ∃ docs', live payloads docs' rt'.
Proof.
  intros Hlen H Hp. revert H. destruct Hp as [i rt Hi|i t rt Hi|j rt Hj]; intros H.
  - by eapply live_turn.
  - by eapply live_decoded.
  - exists docs. by apply live_drain_turn.
Qed.

(** The parts of the invariant that the phases of [stop] move. *)
Lemma live_phase payloads docs rt state phase requested :
  live payloads docs rt →
  (rt_stop_requested rt = true → requested = true) →
  (Waiting ∈ rt_workers rt → requested = false ∨ phase = StopRequested) →
  (Exited ∈ rt_workers rt → requested = true) →
  phase_inv (set_phase state phase requested rt) →
  live payloads docs (set_phase state phase requested rt).
Proof.
  intros [Hq Hw Hd Hp Hs] Hmono Hwait Hexit Hphase.
  split; try done; [by eapply queue_same; [|apply Hq]| |by apply (store_same _ rt)].
  destruct Hw. split; try done. cbn. intros Hin.
  destruct (w_waiting0 Hin) as (H1 & H2 & _). auto.
Qed.

Lemma live_wake payloads docs rt :
  live payloads docs rt → live payloads docs (notify_queue rt).
Proof.
  intros [Hq Hw Hd Hp Hs]. split; try done; [by eapply queue_same; [|apply Hq]|].
  destruct Hw. by apply (workers_notified _ (rt_workers rt)).
Qed.

Lemma store_prefix_app payloads payload k requested s :
  (k <= length payloads)%nat → store_prefix payloads k requested s →
  store_prefix (payloads ++ [payload]) k requested s.
Proof.
  intros Hk [H|(Hr & n & j & p & -> & Hj & H)]; [left|right].
  - by rewrite take_app_le.
  - split; [done|]. exists n, j, p. split_and!; [done|by apply lookup_app_l_Some|].
    by rewrite take_app_le by lia.
Qed.

Lemma store_prefix_requested payloads k requested s :
  store_prefix payloads k requested s → store_prefix payloads k true s.
Proof. intros [H|[_ H]]; [by left|by right]. Qed.

Lemma numbered_app a docs d :
  numbered a (docs ++ [d]) = numbered a docs ++ [(a + Z.of_nat (length docs), d)].
Proof.
  revert a. induction docs as [|d' docs IH]; intros a; cbn; [by rewrite Z.add_0_r|].
  rewrite IH. do 4 f_equal. lia.
Qed.

Lemma submit_accepted payload docs payloads rt rt' ticket :
  1 <= worker_threads runtime → queue_inv payloads docs rt →
  Z.of_nat (S (length payloads)) < u64_max →
  submit_document no_stop payload rt = (rt', ticket, success) →
  Z.of_nat (length docs) < max_pending_batches runtime ∧
  rt_state rt = RuntimeState.Running ∧ ticket = rt_next_ticket rt ∧
  rt' = notify_queue (mkRuntime (rt_state rt) (rt_phase rt) (rt_stop_requested rt) (rt_store rt)
          (rt_pending rt ++ [(rt_next_ticket rt, new_document payload)]) (rt_next_ticket rt + 1)
          (rt_next_apply_ticket rt) (rt_queued_samples rt) (rt_queued_batches rt +u 1)
          (rt_applied rt) (rt_dropped rt) (rt_decode_failures rt) (rt_in_flight rt)
          (rt_workers rt) (rt_drainers rt)).
Proof.
  intros Hth Hq Hlen. unfold Runtime.submit_document, refuse_submission.
  destruct (_ <? _); [done|]. case_bool_decide as Hrun; [|done]. cbn.
  is_false (worker_threads runtime =? 0).
  destruct (Z.leb_spec (max_pending_batches runtime) (Z.of_nat (length (rt_pending rt)))); [done|].
  destruct Hq. intros [= <- <-]. rewrite q_pending0, numbered_length in *.
  split_and!; try done. rewrite <- q_range0, numbered_emplace, numbered_app.
  by rewrite (wrap_u64_id (_ + 1)) by word_lia.
Qed.

Lemma live_submit payload docs payloads rt rt' ticket :
  1 <= worker_threads runtime → Z.of_nat (S (length payloads)) < u64_max →
  live payloads docs rt → submit_document no_stop payload rt = (rt', ticket, success) →
  live (payloads ++ [payload]) (docs ++ [new_document payload]) rt'.
Proof.
  intros Hth Hlen [Hq Hw Hd Hp Hs] Hsub.
  destruct (submit_accepted _ _ _ _ _ _ Hth Hq Hlen Hsub) as (Hroom & Hrun & -> & ->).
  pose proof (queue_length _ _ _ Hq) as Hle.
  match goal with |- live _ _ ?r => assert (queue_inv (payloads ++ [payload])
    (docs ++ [new_document payload]) r) as Hq' end.
  { destruct Hq. split; cbn; rewrite ?length_app; cbn [length]; try done; try lia.
    - by rewrite numbered_app, <- q_pending0, q_range0.
    - rewrite map_app, q_payloads0, drop_app_le by lia. done.
    - apply Forall_app. split; [done|]. by constructor. }
  split; [done| | |done|].
  - destruct Hw. apply (workers_notified _ (rt_workers rt)); try done.
    cbn. rewrite omap_app. cbn. by rewrite app_nil_r.
  - eapply (drain_pending _ _ _ (length docs)); [done|].
    by rewrite lookup_app_r, Nat.sub_diag by done.
  - apply store_prefix_app; [|exact Hs]. cbn. destruct Hq. lia.
Qed.

(** ** Sessions *)

(** A session: the runtime is started once, on the store [s0]. *)
Definition session : Runtime := (start runtime (created s0)).1.

Lemma session_eq :
  session = mkRuntime RuntimeState.Running NotStopping false s0 [] 1 1 0 0 0 0 0 0
              (replicate (Z.to_nat (worker_threads runtime)) Ready) [].
Proof. reflexivity. Qed.

Lemma live_session : live [] [] session.
Proof.
  rewrite session_eq.
  assert (∀ n, omap decoding (replicate n Ready) = []) as Hidle by (induction n; done).
  assert (∀ n w, w ∈ replicate n Ready → w = Ready) as Hready.
  { by intros n w [-> _]%elem_of_replicate. }
  split; [| |by intros ?%elem_of_nil|done|by left].
  - split; cbn; try done; lia.
  - split; cbn; rewrite ?Hidle, ?length_replicate; try done; by intros ?%Hready.
Qed.

Lemma live_bounds payloads docs rt :
  live payloads docs rt → (Z.to_nat (rt_applied rt) + length docs = length payloads)%nat.
Proof. intros [Hq _ _ _ _]. destruct Hq. lia. Qed.

Lemma not_applied_docs payloads docs rt :
  queue_inv payloads docs rt → not_applied (rt_pending rt) = Z.of_nat (length docs).
Proof.
  intros H. unfold not_applied. destruct H. rewrite q_pending0. clear -q_docs0. f_equal.
  generalize (rt_next_apply_ticket rt) as a. induction q_docs0 as [|d docs [Hd _] _ IH]; intros a;
    cbn; [done|]. rewrite Hd. cbn. by rewrite IH.
Qed.

Lemma live_discard payloads docs rt :
  Z.of_nat (length payloads) < u64_max → live payloads docs rt → rt_phase rt = WorkersNotified →
  stopped payloads (stop_discard rt).
Proof.
  intros Hlen [Hq Hw Hd Hp Hs] Hph. unfold phase_inv in Hp. rewrite Hph in Hp.
  destruct Hp as [_ Hreq]. pose proof (queue_length _ _ _ Hq) as Hle.
  unfold stop_discard. rewrite (not_applied_docs _ _ _ Hq). destruct Hq. unfold store_inv in Hs.
  rewrite <- q_applied0, Hreq in Hs.
  split; cbn; try done; [apply wake_drainer_waiting|].
  rewrite q_dropped0, wrap_u64_id by word_lia. lia.
Qed.

Definition session_inv (payloads : list string) (rt : Runtime) : Prop :=
  (∃ docs, live payloads docs rt) ∨ stopped payloads rt.

Lemma live_stop_state payloads docs rt :
  rt_state rt = RuntimeState.Running → live payloads docs rt →
  live payloads docs (stop_store_state rt).
Proof.
  intros Hrun H. pose proof (l_phase _ _ _ H) as Hp. unfold phase_inv in Hp. rewrite Hrun in Hp.
  assert (rt_stop_requested rt = false) as Hs by (by destruct (rt_phase rt); destruct Hp).
  apply live_phase; rewrite ?Hs; try done; [by left|].
  intros He. by rewrite (w_exited _ (l_workers _ _ _ H) He) in Hs.
Qed.

Lemma live_stop_request payloads docs rt :
  rt_phase rt = StateStored → live payloads docs rt → live payloads docs (stop_request rt).
Proof.
  intros Hph H. pose proof (l_phase _ _ _ H) as Hp. unfold phase_inv in Hp. rewrite Hph in Hp.
  apply live_phase; try done; [by right|]. by destruct Hp.
Qed.

Lemma live_stop_notify payloads docs rt :
  rt_phase rt = StopRequested → live payloads docs rt → live payloads docs (stop_notify rt).
Proof.
  intros Hph [Hq Hw Hd Hp Hs]. unfold phase_inv in Hp. rewrite Hph in Hp.
  split; try done; [by eapply queue_same; [|apply Hq]|].
  destruct Hw. by apply (workers_notified _ (rt_workers rt)).
Qed.

Lemma live_request_during payloads docs rt i n d :
  Z.of_nat (length payloads) < u64_max → live payloads docs rt →
  rt_phase rt = StateStored → rt_stop_requested rt = false → applicable rt = Some d →
  ∃ docs', live payloads docs' (stop_request (worker_turn (token (Some n)) i rt)).
Proof.
  intros Hlen [Hq Hw Hd Hp Hs] Hph Hstop Ha.
  assert (worker_turn (token (Some n)) i rt = apply_front (token (Some n)) d rt) as ->.
  { unfold Runtime.worker_turn, worker_wakes. by rewrite Hstop, Ha. }
  rewrite (queue_applicable _ _ _ Hq) in Ha. destruct docs as [|d' docs']; [done|].
  destruct (pd_decoded d') eqn:Hdec; [|done]. injection Ha as ->. exists docs'.
  destruct (apply_front_frame (token (Some n)) d rt) as (ds & Hds & H1 & H2 & H3).
  assert (1 + Z.of_nat (length payloads) <= u64_max) as Hlen' by word_lia.
  pose proof (queue_front _ _ _ _ (token (Some n)) Hlen' Hq) as Hq'.
  pose proof (workers_front (token (Some n)) _ _ _ _ Hq Hdec Hw) as Hw'.
  split; [by eapply queue_same; [|apply Hq']| |by eapply drain_notified| |].
  - destruct Hw'. split; try done. cbn. intros Hin.
    destruct (w_waiting0 Hin) as (Ha' & Hc' & _). auto.
  - unfold phase_inv in Hp. rewrite Hph in Hp. split; [|done]. by etransitivity; [apply H2|apply Hp].
  - apply (store_front_cut _ _ _ _ n Hlen' Hq Hdec Hstop Hs).
Qed.

Lemma live_step payloads docs rt rt' :
  Z.of_nat (length payloads) < u64_max → live payloads docs rt →
  step cfg clock record_bytes double_in_range limits rt rt' → session_inv payloads rt'.
Proof.
  intros Hlen H Hp. revert H.
  destruct Hp as [rt rt' Hp|rt|i rt Hi|j rt Hj|rt Hr|rt Hr|i n rt d Hph Hi Hs Ha|rt Hr|rt Hr Hall];
    intros H; [left..|right].
  - by eapply live_progress.
  - exists docs. apply live_drain; [done|]. intros [Hin|Hin]%elem_of_app.
    + by apply (l_drain _ _ _ H).
    + by apply list_elem_of_singleton in Hin.
  - exists docs. apply live_set_worker; [done|]. by apply workers_ready, (l_workers _ _ _ H).
  - exists docs. apply live_drain; [done|]. intros [Hin|Hin]%elem_of_insert; [done|].
    by apply (l_drain _ _ _ H).
  - exists docs. by apply live_stop_state.
  - exists docs. by apply live_stop_request.
  - by eapply live_request_during.
  - exists docs. by apply live_stop_notify.
  - by eapply live_discard.
Qed.

Lemma stopped_step payloads rt rt' :
  stopped payloads rt → step cfg clock record_bytes double_in_range limits rt rt' →
  stopped payloads rt'.
Proof.
  intros H Hp. revert H.
  destruct Hp as [rt rt' Hp|rt|i rt Hi|j rt Hj|rt Hr|rt Hr|i n rt d Hph Hi Hs Ha|rt Hr|rt Hr Hall];
    intros H; pose proof (s_workers _ _ H) as Hws; pose proof (s_phase _ _ H) as Hst;
    try congruence.
  - revert H Hws. destruct Hp as [i rt Hi|i t rt Hi|j rt Hj]; intros H Hws;
      [by rewrite Hws in Hi..|].
    destruct H. split; try done. cbn. unfold drained. rewrite s_pending0, s_flight0.
    by intros [?|?]%elem_of_insert.
  - destruct H. split; try done. cbn. by intros [?|?%list_elem_of_singleton]%elem_of_app.
  - by rewrite Hws in Hi.
  - destruct H. split; try done. cbn. by intros [?|?]%elem_of_insert.
  - by rewrite (s_state _ _ H) in Hr.
Qed.

Lemma run_inv payloads rt :
  1 <= worker_threads runtime → Z.of_nat (length payloads) < u64_max →
  run cfg clock record_bytes double_in_range limits runtime session payloads rt →
  session_inv payloads rt.
Proof.
  intros Hth Hlen Hrun. induction Hrun as [|payloads rt p rt' t _ IH Hsub|payloads rt rt' _ IH Hst].
  - left. exists []. apply live_session.
  - rewrite length_app in Hlen. cbn in Hlen. destruct (IH ltac:(lia)) as [[docs H]|H].
    + left. exists (docs ++ [new_document p]). eapply live_submit; try done. lia.
    + revert Hsub. unfold Runtime.submit_document. rewrite (s_state _ _ H). by destruct (_ <? _).
  - destruct (IH Hlen) as [[docs H]|H]; [by eapply live_step|right; by eapply stopped_step].
Qed.
End session.
