(* ===== verification/RuntimeTheorems.v ===== *)
(** * The runtime: order, progress and shutdown

    Documents are applied in submission order whatever the workers do, accepted work
    always finishes, and [stop] ends with every document applied or counted as
    dropped. *)

From stdpp Require Import relations.
From S2P Require Import Prelude Result Checked Text Identity Time Evidence Sample Counter Metadata.
From S2P Require Import Event Limits Decode Policy Rules Explanation Classification Ring History.
From S2P Require Import Window OrderedMap Admission Store StoreOps StoreExample Ingest Runtime.
From S2P Require Import RuntimeInvariant.
Open Scope Z_scope.
Open Scope word_scope.

#[local] Set Warnings "-register-all".

(** ** Work

    A document costs three decisions: to decode it, to publish it, to apply it.  Each may
    wake every waiting thread, and each wake-up costs one more look at the queue. *)

Definition document_work (e : Z * PendingDocument) : nat :=
  if pd_decoded e.2 then 1 else if pd_in_flight e.2 then 2 else 3.
Definition worker_work (w : Worker) : nat := match w with Ready => 1 | _ => 0 end.
Definition drainer_work (d : Drainer) : nat := match d with DrainReady => 1 | _ => 0 end.
Definition work (rt : Runtime) : nat :=
  (sum_list_with document_work (rt_pending rt) *
     (length (rt_workers rt) + length (rt_drainers rt) + 1) +
   sum_list_with worker_work (rt_workers rt) +
   sum_list_with drainer_work (rt_drainers rt))%nat.

Section sum_insert.
Context {A : Type} (f : A → nat).

Lemma sum_list_insert (l : list A) (i : nat) (x y : A) :
  l !! i = Some x →
  (sum_list_with f (<[i := y]> l) + f x = sum_list_with f l + f y)%nat.
Proof.
  revert i. induction l as [|z l IH]; intros [|i] H; try done.
  - injection H as ->. cbn. lia.
  - specialize (IH i H). change (<[S i:=y]> (z :: l)) with (z :: <[i:=y]> l).
    cbn [sum_list_with]. lia.
Qed.
Lemma sum_list_le (l : list A) : (∀ x, (f x <= 1)%nat) → (sum_list_with f l <= length l)%nat.
Proof. intros H. induction l as [|z l IH]; cbn; [done|]. specialize (H z). lia. Qed.
End sum_insert.

Lemma worker_work_le w : (worker_work w <= 1)%nat.
Proof. destruct w; cbn; lia. Qed.
Lemma drainer_work_le d : (drainer_work d <= 1)%nat.
Proof. destruct d; cbn; lia. Qed.

Section session.
Context (cfg : StoreConfig) (clock : nat → ReceiveTime) (record_bytes : Z).
Context (double_in_range : string → bool) (limits : IngestLimits) (runtime : RuntimeLimits).
Context (s0 : Store).

#[local] Abbreviation progress := (Runtime.progress cfg clock record_bytes double_in_range limits).
#[local] Abbreviation live :=
  (RuntimeInvariant.live cfg clock record_bytes double_in_range limits runtime s0).
#[local] Abbreviation session_inv :=
  (RuntimeInvariant.session_inv cfg clock record_bytes double_in_range limits runtime s0).

(** Fewer document decisions pay for any number of wake-ups. *)
Lemma work_less rt rt' :
  (sum_list_with document_work (rt_pending rt') < sum_list_with document_work (rt_pending rt))%nat →
  length (rt_workers rt') = length (rt_workers rt) →
  length (rt_drainers rt') = length (rt_drainers rt) →
  (work rt' < work rt)%nat.
Proof.
  intros H1 H2 H3. unfold work. rewrite <- H2, <- H3.
  pose proof (sum_list_le worker_work (rt_workers rt') worker_work_le).
  pose proof (sum_list_le drainer_work (rt_drainers rt') drainer_work_le). nia.
Qed.

Lemma work_worker rt i w :
  rt_workers rt !! i = Some Ready → worker_work w = 0%nat → (work (set_worker i w rt) < work rt)%nat.
Proof.
  intros Hi Hw. pose proof (sum_list_insert worker_work _ _ _ w Hi) as H. unfold work. cbn in *.
  rewrite length_insert, Hw in *. lia.
Qed.

Lemma work_drainer rt j d :
  rt_drainers rt !! j = Some DrainReady → drainer_work d = 0%nat →
  (work (set_drainer j d rt) < work rt)%nat.
Proof.
  intros Hj Hd. pose proof (sum_list_insert drainer_work _ _ _ d Hj) as H. unfold work. cbn in *.
  rewrite length_insert, Hd in *. lia.
Qed.

Lemma work_document payloads docs rt rt' k d f :
  queue_inv double_in_range limits runtime payloads docs rt → docs !! k = Some d →
  rt_pending rt' = om_update (rt_next_apply_ticket rt + Z.of_nat k) f (rt_pending rt) →
  (∀ t, document_work (t, f d) < document_work (t, d))%nat →
  (sum_list_with document_work (rt_pending rt') < sum_list_with document_work (rt_pending rt))%nat.
Proof.
  intros Hq Hk Hp Hf. rewrite Hp, (q_pending _ _ _ _ _ _ Hq), (numbered_update_at _ _ _ _ _ Hk).
  rewrite numbered_insert.
  eapply Nat.add_lt_mono_r, Nat.le_lt_trans; [apply Nat.eq_le_incl, (sum_list_insert document_work)|].
  - by apply numbered_lookup.
  - apply Nat.add_lt_mono_l, Hf.
Qed.

Lemma progress_work payloads rt rt' :
  session_inv payloads rt → progress rt rt' → (work rt' < work rt)%nat.
Proof.
  intros Hinv Hp. revert Hinv. destruct Hp as [i rt Hi|i t rt Hi|j rt Hj];
    [intros [[docs Hl]|Hst]; [|by rewrite (s_workers _ _ _ _ _ _ _ _ Hst) in Hi]..|intros _].
  - pose proof (l_queue _ _ _ _ _ _ _ _ _ _ Hl) as Hq.
    destruct (worker_turn_turn cfg clock record_bytes _ _ _ no_stop i _ _ _ Hq)
      as [?|?|d docs' Hs -> Hd|k d Hs Hc Hk Hd Hf].
    + by apply work_worker.
    + by apply work_worker.
    + unfold apply_front. destruct (apply_decoded _ _ _ _ _ _) as [s' n].
      apply work_less; cbn; rewrite ?length_map; try done.
      rewrite (q_pending _ _ _ _ _ _ Hq), numbered_erase_front. cbn.
      unfold document_work at 2. cbn. rewrite Hd. lia.
    + apply work_less; cbn; rewrite ?length_insert; try done.
      eapply (work_document _ _ _ (take_document i _ rt)); [done..|]. intros t.
      unfold document_work. cbn. rewrite Hd, Hf. lia.
  - destruct (workers_ticket _ _ _ _ _ _ _ _ (l_queue _ _ _ _ _ _ _ _ _ _ Hl)
      (l_workers _ _ _ _ _ _ _ _ _ _ Hl) Hi) as (k & d & Hk & -> & Hf).
    apply work_less; cbn; rewrite ?length_map, ?length_insert; try done.
    eapply (work_document _ _ _ (worker_decoded double_in_range limits i _ rt));
      [apply (l_queue _ _ _ _ _ _ _ _ _ _ Hl)|done|done|]. intros t.
    unfold document_work. rewrite publish_eq. cbn.
    destruct (pd_decoded d) eqn:Hd; [|rewrite Hf; lia].
    destruct (do_decoded _ _ _ (queue_forall _ _ _ _ _ _ _ _ (l_queue _ _ _ _ _ _ _ _ _ _ Hl) Hk) Hd).
    congruence.
  - apply work_drainer; [done|]. by destruct (drained rt).
Qed.

Lemma progress_frame rt rt' :
  progress rt rt' →
  rt_state rt' = rt_state rt ∧ rt_phase rt' = rt_phase rt ∧
  rt_stop_requested rt' = rt_stop_requested rt.
Proof.
  intros [i rt1 Hi|i t rt1 Hi|j rt1 Hj]; [|done..]. unfold worker_turn.
  destruct (worker_wakes rt1); [|done]. destruct (rt_stop_requested rt1) eqn:Hs; [done|]. cbn.
  destruct (applicable rt1) as [d|].
  - destruct (apply_front_frame cfg clock record_bytes no_stop d rt1) as (? & _ & H1 & H2 & H3).
    by rewrite Hs in H3.
  - destruct (decode_candidate rt1) as [[t d]|]; [|done]. by destruct (t =? 0).
Qed.

Lemma progress_inv payloads n rt rt' :
  Z.of_nat (length payloads) < u64_max → session_inv payloads rt → nsteps progress n rt rt' →
  session_inv payloads rt' ∧ (n + work rt' <= work rt)%nat ∧
  rt_state rt' = rt_state rt ∧ rt_phase rt' = rt_phase rt ∧
  rt_stop_requested rt' = rt_stop_requested rt.
Proof.
  intros Hlen Hinv Hn. revert Hinv. induction Hn as [rt|n rt rt1 rt' Hp Hn IH]; intros Hinv; [done|].
  assert (session_inv payloads rt1) as Hinv1.
  { destruct Hinv as [[docs Hl]|Hs]; [left; by eapply live_progress|right].
    eapply stopped_step; [done|]. by apply step_progress. }
  pose proof (progress_work _ _ _ Hinv Hp). destruct (progress_frame _ _ Hp) as (H1 & H2 & H3).
  destruct (IH Hinv1) as (Hi & Hw & H4 & H5 & H6). split_and!; [done|lia|congruence..].
Qed.

(** When nothing can move, every worker waits or has returned. *)
Lemma stuck_workers rt w :
  (∀ rt', ¬ progress rt rt') → w ∈ rt_workers rt → w = Waiting ∨ w = Exited.
Proof.
  intros Hstuck (i & Hi)%list_elem_of_lookup. destruct w as [| |t|]; [exfalso|by left|exfalso|by right].
  - by eapply Hstuck, progress_turn.
  - by eapply Hstuck, progress_decoded.
Qed.
Lemma stuck_drainers rt d :
  (∀ rt', ¬ progress rt rt') → d ∈ rt_drainers rt → d = DrainWaiting ∨ d = DrainDone.
Proof.
  intros Hstuck (j & Hj)%list_elem_of_lookup. destruct d; [exfalso|by left|by right].
  by eapply Hstuck, progress_drain.
Qed.
Lemma stuck_flight rt : (∀ rt', ¬ progress rt rt') → omap decoding (rt_workers rt) = [].
Proof.
  intros Hstuck. pose proof (λ w, stuck_workers rt w Hstuck) as H. clear Hstuck.
  induction (rt_workers rt) as [|w ws IH]; [done|]. cbn.
  destruct (H w) as [-> | ->]; [by left|..]; cbn; apply IH; intros w' Hw'; apply H; by right.
Qed.

Lemma stuck_drained payloads docs rt :
  1 <= worker_threads runtime → live payloads docs rt → rt_stop_requested rt = false →
  (∀ rt', ¬ progress rt rt') →
  docs = [] ∧ rt_in_flight rt = 0 ∧ Forall (λ d, d = DrainDone) (rt_drainers rt).
Proof.
  intros Hth [Hq Hw Hd Hp Hs] Hstop Hstuck. pose proof (stuck_flight _ Hstuck) as Hnone.
  assert (Waiting ∈ rt_workers rt) as Hwait.
  { pose proof (w_workers _ _ Hw) as Hlen. pose proof (λ w, stuck_workers rt w Hstuck) as H.
    destruct (rt_workers rt) as [|w ws] eqn:Hws; [cbn in Hlen; lia|].
    destruct (H w) as [-> | ->]; [by left|by left|].
    rewrite (w_exited _ _ Hw) in Hstop; [done|]. rewrite Hws. by left. }
  destruct (w_waiting _ _ Hw Hwait) as (Happ & Hcand & _).
  assert (rt_in_flight rt = 0) as Hfl by by rewrite (w_count _ _ Hw), Hnone.
  assert (docs = []) as ->.
  { destruct docs as [|d docs]; [done|]. rewrite (queue_applicable _ _ _ _ _ _ Hq) in Happ.
    destruct (pd_decoded d) eqn:Hdec; [done|].
    destruct (queue_no_candidate clock _ _ _ _ _ _ 0%nat d Hq Hcand eq_refl) as [?|Hf]; [congruence|].
    pose proof (w_flight _ _ Hw) as Hperm. rewrite Hnone, (q_pending _ _ _ _ _ _ Hq) in Hperm.
    cbn in Hperm. unfold being_decoded at 1 in Hperm. cbn in Hperm. rewrite Hf in Hperm.
    by apply Permutation_nil_cons in Hperm. }
  split_and!; [done|done|]. apply Forall_forall. intros d Hin.
  destruct (stuck_drainers _ _ Hstuck Hin) as [-> | ->]; [|done].
  specialize (Hd Hin). unfold drained in Hd. by rewrite (q_pending _ _ _ _ _ _ Hq), Hfl in Hd.
Qed.

Lemma stuck_exited payloads docs rt :
  live payloads docs rt → rt_phase rt = WorkersNotified → (∀ rt', ¬ progress rt rt') →
  Forall (λ w, w = Exited) (rt_workers rt).
Proof.
  intros [Hq Hw Hd Hp Hs] Hph Hstuck. apply Forall_forall. intros w Hin.
  destruct (stuck_workers _ _ Hstuck Hin) as [-> | ->]; [|done].
  destruct (w_waiting _ _ Hw Hin) as (_ & _ & [Hstop|?]); [|congruence].
  unfold phase_inv in Hp. rewrite Hph in Hp. destruct Hp. congruence.
Qed.

#[local] Abbreviation session := (RuntimeInvariant.session runtime s0).
#[local] Abbreviation run :=
  (Runtime.run cfg clock record_bytes double_in_range limits runtime).
#[local] Abbreviation step := (Runtime.step cfg clock record_bytes double_in_range limits).
#[local] Abbreviation sequential :=
  (RuntimeInvariant.sequential cfg clock record_bytes double_in_range limits s0).
#[local] Abbreviation store_prefix :=
  (RuntimeInvariant.store_prefix cfg clock record_bytes double_in_range limits s0).

(** C32: whatever the workers, the callers and [stop] do, and in whichever order their
    critical sections run, the store is the one that synchronous ingestion of the
    applied documents in submission order would have left; only the last of them can
    have been cut, at one of its samples, and only by [stop].  What is not applied is
    pending, in submission order and never more than [max_pending_batches], until [stop]
    discards it, and every accepted document is applied, pending or counted as
    dropped. *)
Theorem documents_applied_in_order payloads rt :
  1 <= worker_threads runtime → Z.of_nat (length payloads) < u64_max →
  run (RuntimeInvariant.session runtime s0) payloads rt →
  RuntimeInvariant.store_prefix cfg clock record_bytes double_in_range limits s0 payloads
    (Z.to_nat (rt_applied rt)) (rt_stop_requested rt) (rt_store rt) ∧
  rt_applied rt + rt_dropped rt + Z.of_nat (length (rt_pending rt)) =
    Z.of_nat (length payloads) ∧
  (rt_state rt ≠ RuntimeState.Stopped →
    map (λ e, pd_payload e.2) (rt_pending rt) = drop (Z.to_nat (rt_applied rt)) payloads ∧
    Z.of_nat (length (rt_pending rt)) <= Z.max 0 (max_pending_batches runtime)).
Proof.
  intros Hth Hlen Hrun.
  destruct (run_inv _ _ _ _ _ _ _ _ _ Hth Hlen Hrun) as [[docs [Hq _ _ _ Hs]]|H].
  - unfold store_inv in Hs. destruct Hq. rewrite <- q_applied in Hs. split; [done|].
    rewrite q_pending, numbered_length. split; [lia|]. intros _. split; [|done].
    rewrite q_applied, <- q_payloads. clear. generalize (rt_next_apply_ticket rt) as a.
    induction docs as [|d docs IH]; intros a; cbn; [done|]. by rewrite IH.
  - destruct H. rewrite s_requested, s_pending. split_and!; [done|cbn; lia|done].
Qed.

(** C33: accepted work always finishes.  From any state of a session the workers and the
    callers of [drain] can take only boundedly many steps, and while no stop is requested
    they can be stuck only when every accepted document has been applied, the store is
    the one of synchronous ingestion, and every caller of [drain] has returned: no
    wake-up is lost and nothing waits forever.  (A wake-up without a notification adds
    one step each.) *)
Theorem accepted_work_finishes payloads rt n rt' :
  1 <= worker_threads runtime → Z.of_nat (length payloads) < u64_max →
  run session payloads rt → nsteps progress n rt rt' →
  (n <= work rt)%nat ∧
  (rt_stop_requested rt = false → (∀ rt'', ¬ progress rt' rt'') →
    rt_store rt' = sequential payloads ∧
    rt_applied rt' = Z.of_nat (length payloads) ∧
    rt_pending rt' = [] ∧ rt_in_flight rt' = 0 ∧
    Forall (λ d, d = DrainDone) (rt_drainers rt')).
Proof.
  intros Hth Hlen Hrun Hn.
  destruct (progress_inv _ _ _ _ Hlen (run_inv _ _ _ _ _ _ _ _ _ Hth Hlen Hrun) Hn)
    as (Hinv & Hwork & _ & _ & Hreq).
  split; [lia|]. intros Hstop Hstuck. rewrite <- Hreq in Hstop.
  destruct Hinv as [[docs Hl]|Hs]; [|by rewrite (s_requested _ _ _ _ _ _ _ _ Hs) in Hstop].
  destruct (stuck_drained _ _ _ Hth Hl Hstop Hstuck) as (-> & Hfl & Hdr).
  pose proof (live_bounds _ _ _ _ _ _ _ _ _ _ Hl) as Hb. destruct Hl as [Hq _ _ _ Hs].
  destruct Hs as [Hs|[? _]]; [|congruence]. destruct Hq. cbn in *.
  split_and!; [|lia|done..]. rewrite Hs. f_equal. apply take_ge. lia.
Qed.

(** C34: [stop] returns and loses no document silently.  Once the workers are notified,
    boundedly many steps later nothing can move, and then every worker has returned, so
    the joins return and the queue is discarded; the runtime is then stopped, nothing is
    pending, every accepted document was applied or is counted as dropped, the store
    is that of the applied ones, and no caller of [drain] waits. *)
Theorem stop_accounts_for_documents payloads rt n rt' :
  1 <= worker_threads runtime → Z.of_nat (length payloads) < u64_max →
  run session payloads rt → rt_phase rt = WorkersNotified → nsteps progress n rt rt' →
  (n <= work rt)%nat ∧
  ((∀ rt'', ¬ progress rt' rt'') →
    let final := stop_discard rt' in
    step rt' final ∧ rt_state final = RuntimeState.Stopped ∧ rt_pending final = [] ∧
    rt_applied final + rt_dropped final = Z.of_nat (length payloads) ∧
    store_prefix payloads (Z.to_nat (rt_applied final)) true (rt_store final) ∧
    DrainWaiting ∉ rt_drainers final).
Proof.
  intros Hth Hlen Hrun Hph Hn.
  destruct (progress_inv _ _ _ _ Hlen (run_inv _ _ _ _ _ _ _ _ _ Hth Hlen Hrun) Hn)
    as (Hinv & Hwork & _ & Hph' & Hreq).
  split; [lia|]. intros Hstuck. rewrite Hph in Hph'.
  destruct Hinv as [[docs Hl]|Hs]; [|by rewrite (s_phase _ _ _ _ _ _ _ _ Hs) in Hph'].
  pose proof (live_discard _ _ _ _ _ _ _ _ _ _ Hlen Hl Hph') as Hs. destruct Hs.
  split_and!; try done; [|lia]. apply step_discard; [done|]. by eapply stuck_exited.
Qed.
End session.

(** ** The runtime: an example session

    A scheduler that follows a list of choices, and a session of two workers, at which
    the theorems of the runtime are instantiated. *)

(** Which thread takes the lock next. *)
Inductive Choice : Set := ChooseWorker (i : nat) | ChooseDrainer (j : nat).

Section scheduler.
Context (cfg : StoreConfig) (clock : nat → ReceiveTime) (record_bytes : Z).
Context (double_in_range : string → bool) (limits : IngestLimits).

Definition choose (choice : Choice) (rt : Runtime) : option Runtime :=
  match choice with
  | ChooseWorker i =>
      match rt_workers rt !! i with
      | Some Ready => Some (worker_turn cfg clock record_bytes no_stop i rt)
      | Some (Decoding ticket) => Some (worker_decoded double_in_range limits i ticket rt)
      | _ => None
      end
  | ChooseDrainer j =>
      match rt_drainers rt !! j with
      | Some DrainReady => Some (drain_turn j rt)
      | _ => None
      end
  end.
Fixpoint follow (choices : list Choice) (rt : Runtime) : option Runtime :=
  match choices with
  | [] => Some rt
  | choice :: choices =>
      match choose choice rt with Some rt' => follow choices rt' | None => None end
  end.
Definition followed (choices : list Choice) (rt : Runtime) : Runtime :=
  match follow choices rt with Some rt' => rt' | None => rt end.

(** Nobody can take the lock. *)
Definition stuck (rt : Runtime) : bool :=
  forallb (λ w, match w with Waiting | Exited => true | _ => false end) (rt_workers rt) &&
  forallb (λ d, match d with DrainReady => false | _ => true end) (rt_drainers rt).

#[local] Abbreviation progress := (Runtime.progress cfg clock record_bytes double_in_range limits).

Lemma choose_progress choice rt rt' : choose choice rt = Some rt' → progress rt rt'.
Proof.
  destruct choice as [i|j]; cbn.
  - destruct (rt_workers rt !! i) as [[| |t|]|] eqn:Hi; try done; intros [= <-]; by constructor.
  - destruct (rt_drainers rt !! j) as [[| |]|] eqn:Hj; try done. intros [= <-]. by constructor.
Qed.

Lemma follow_progress choices rt rt' :
  follow choices rt = Some rt' → nsteps progress (length choices) rt rt'.
Proof.
  revert rt. induction choices as [|choice choices IH]; intros rt; cbn.
  - intros [= ->]. constructor.
  - destruct (choose choice rt) as [rt1|] eqn:H; [|done]. intros Hf.
    econstructor; [by eapply choose_progress|by apply IH].
Qed.

Lemma followed_progress choices rt :
  is_some (follow choices rt) = true → nsteps progress (length choices) rt (followed choices rt).
Proof.
  unfold followed. destruct (follow choices rt) as [rt'|] eqn:H; [|done]. intros _.
  by apply follow_progress.
Qed.

Lemma stuck_progress rt : stuck rt = true → ∀ rt', ¬ progress rt rt'.
Proof.
  unfold stuck. intros [Hw Hd]%andb_true_iff rt' Hp.
  rewrite forallb_forall in Hw, Hd. destruct Hp as [i rt Hi|i t rt Hi|j rt Hj].
  - specialize (Hw Ready). discriminate Hw. by apply list_elem_of_In, (list_elem_of_lookup_2 _ i).
  - specialize (Hw (Decoding t)). discriminate Hw.
    by apply list_elem_of_In, (list_elem_of_lookup_2 _ i).
  - specialize (Hd DrainReady). discriminate Hd.
    by apply list_elem_of_In, (list_elem_of_lookup_2 _ j).
Qed.

Lemma nsteps_run (runtime : RuntimeLimits) first payloads n rt rt' :
  run cfg clock record_bytes double_in_range limits runtime first payloads rt →
  nsteps progress n rt rt' →
  run cfg clock record_bytes double_in_range limits runtime first payloads rt'.
Proof.
  intros Hrun Hn. revert Hrun. induction Hn as [|n rt rt1 rt' Hp _ IH]; [done|].
  intros Hrun. apply IH. eapply run_step; [done|]. by apply step_progress.
Qed.
End scheduler.

(** ** Two documents, two workers, one caller of [drain] *)

Definition example_text : string :=
  match encode_sample example_sample with Value text => text | Failure _ => EmptyString end.
Definition example_documents : list string := [example_text; "oops"].

Definition example_submit (payload : string) (rt : Runtime) : Runtime :=
  (submit_document example_config example_clock example_record_bytes (λ _, true)
     default_ingest_limits default_runtime_limits no_stop payload rt).1.1.
Definition example_session : Runtime :=
  RuntimeInvariant.session default_runtime_limits (init_store example_config).
Definition example_accepted : Runtime :=
  call_drain (example_submit "oops" (example_submit example_text example_session)).

(** The second document is decoded first; the other worker then applies both. *)
Definition example_choices : list Choice :=
  [ChooseWorker 0; ChooseWorker 1; ChooseDrainer 0; ChooseWorker 1; ChooseWorker 1; ChooseDrainer 0;
   ChooseWorker 0; ChooseWorker 1; ChooseWorker 1; ChooseWorker 0; ChooseWorker 1; ChooseDrainer 0].
Definition example_follow : list Choice → Runtime → Runtime :=
  followed example_config example_clock example_record_bytes (λ _, true) default_ingest_limits.
Definition example_drained : Runtime := example_follow example_choices example_accepted.

(** [stop] between the two applications; worker 0 sees it after one more turn. *)
Definition example_stopping : Runtime :=
  stop_notify (stop_request (stop_store_state
    (example_follow (take 8 example_choices) example_accepted))).
Definition example_joined : Runtime :=
  example_follow [ChooseWorker 0; ChooseWorker 1; ChooseDrainer 0] example_stopping.

#[local] Abbreviation example_run_of :=
  (run example_config example_clock example_record_bytes (λ _, true) default_ingest_limits
     default_runtime_limits example_session).
#[local] Abbreviation example_progress :=
  (progress example_config example_clock example_record_bytes (λ _, true) default_ingest_limits).

Lemma submitted_run payloads payload rt :
  (submit_document example_config example_clock example_record_bytes (λ _, true)
     default_ingest_limits default_runtime_limits no_stop payload rt).2 = success →
  example_run_of payloads rt → example_run_of (payloads ++ [payload]) (example_submit payload rt).
Proof.
  intros H Hrun. unfold example_submit. destruct (submit_document _ _ _ _ _ _ _ _ _)
    as [[rt' ticket] status] eqn:He. cbn in *. subst. by eapply run_submit.
Qed.

Lemma example_accepted_run : example_run_of example_documents example_accepted.
Proof.
  eapply run_step; [|apply step_call_drain].
  apply (submitted_run [example_text]); [vm_compute; reflexivity|].
  apply (submitted_run []); [vm_compute; reflexivity|]. apply run_start.
Qed.

Lemma example_steps choices rt :
  is_some (follow example_config example_clock example_record_bytes (λ _, true)
             default_ingest_limits choices rt) = true →
  nsteps example_progress (length choices) rt (example_follow choices rt).
Proof. apply followed_progress. Qed.

Lemma example_stopping_run : example_run_of example_documents example_stopping.
Proof.
  eapply run_step; [|apply step_notify; vm_compute; reflexivity].
  eapply run_step; [|apply step_request; vm_compute; reflexivity].
  eapply run_step; [|apply step_stop; vm_compute; reflexivity].
  eapply nsteps_run; [apply example_accepted_run|]. apply example_steps. vm_compute. reflexivity.
Qed.

(** What these sessions come to. *)
Example example_sessions :
  rt_applied example_drained = 2 ∧ rt_decode_failures example_drained = 0 ∧
  length (st_queues (rt_store example_drained)) = 1%nat ∧
  rt_drainers example_drained = [DrainDone] ∧
  rt_applied example_joined = 1 ∧ rt_dropped (stop_discard example_joined) = 1.
Proof. vm_compute. done. Qed.

Lemma documents_applied_in_order_witness :
  rt_applied example_stopping = 1 ∧
  map (λ e, pd_payload e.2) (rt_pending example_stopping) = ["oops"].
Proof.
  assert (rt_applied example_stopping = 1) as Ha by (vm_compute; reflexivity).
  destruct (documents_applied_in_order example_config example_clock example_record_bytes
    (λ _, true) default_ingest_limits default_runtime_limits (init_store example_config)
    example_documents example_stopping) as (_ & _ & Hp).
  - vm_compute; discriminate.
  - vm_compute; reflexivity.
  - apply example_stopping_run.
  - split; [exact Ha|]. rewrite Ha in Hp. apply Hp. vm_compute. discriminate.
Defined.

Lemma accepted_work_finishes_witness :
  rt_store example_drained =
    sequential example_config example_clock example_record_bytes (λ _, true)
      default_ingest_limits (init_store example_config) example_documents ∧
  rt_pending example_drained = [].
Proof.
  destruct (accepted_work_finishes example_config example_clock example_record_bytes
    (λ _, true) default_ingest_limits default_runtime_limits (init_store example_config)
    example_documents example_accepted (length example_choices) example_drained) as [_ H].
  - vm_compute; discriminate.
  - vm_compute; reflexivity.
  - apply example_accepted_run.
  - apply example_steps. vm_compute. reflexivity.
  - destruct H as (Hs & _ & Hp & _); [vm_compute; reflexivity| |by split].
    apply stuck_progress. vm_compute. reflexivity.
Defined.

Lemma stop_accounts_for_documents_witness :
  rt_state (stop_discard example_joined) = RuntimeState.Stopped ∧
  rt_applied (stop_discard example_joined) + rt_dropped (stop_discard example_joined) = 2.
Proof.
  destruct (stop_accounts_for_documents example_config example_clock example_record_bytes
    (λ _, true) default_ingest_limits default_runtime_limits (init_store example_config)
    example_documents example_stopping 3 example_joined) as [_ H].
  - vm_compute; discriminate.
  - vm_compute; reflexivity.
  - apply example_stopping_run.
  - vm_compute; reflexivity.
  - apply (example_steps [ChooseWorker 0; ChooseWorker 1; ChooseDrainer 0]). vm_compute. reflexivity.
  - destruct H as (_ & Hst & _ & Hsum & _); [|by split].
    apply stuck_progress. vm_compute. reflexivity.
Defined.
