(* ===== verification/Codec.v ===== *)
(** * Reading and writing bytes

    The classes [ByteWriter] and [ByteReader] of [persist/Format.cpp]: bounded output
    with a sticky failure, bounded input that refuses what it does not have.

    A [ByteReader] is the bytes it has not read yet.  After a failed read every caller
    gives up, so the sticky [fail_] flag is the absence of a result.  The lemmas relate
    both directions through the bytes of a value: [emits p bs] for a writing, [reads r x bs]
    for a reading. *)

From S2P Require Import Prelude Result Checked Text Bytes Crc32c Identity Evidence Sample Event.
From S2P Require Import Policy.
Open Scope Z_scope.

#[local] Set Warnings "-register-all".

Definition size_of {A} (xs : list A) : Z := Z.of_nat (length xs).
Arguments size_of {A} xs : simpl never.
#[global] Arguments store_le n value : simpl never.

(** [value.assign(reinterpret_cast<const char*>(data), length)] *)
Definition bytes_text (bs : list Z) : string := String.string_of_list_ascii (map byte_char bs).

Declare Scope codec_scope.
Delimit Scope codec_scope with codec.

(** ** The writer *)

Module ByteWriter.
Record ByteWriter := mkWriter { out : list Z; max_bytes : Z; ok : bool }.

(** A call that writes. *)
Definition Put : Type := ByteWriter → ByteWriter.

Definition create (out : list Z) (max_bytes : Z) : ByteWriter := mkWriter out max_bytes true.
Definition fail : Put := λ w, mkWriter (out w) (max_bytes w) false.

Definition raw (data : list Z) : Put := λ w,
  if negb (ok w) then w
  else
    match add_u64 (size_of (out w)) (size_of data) with
    | Some next =>
        if max_bytes w <? next then fail w else mkWriter (out w ++ data) (max_bytes w) true
    | None => fail w
    end.

Definition u8 (value : Z) : Put := raw [value].
Definition u16 (value : Z) : Put := raw (store_le 2 value).
Definition u32 (value : Z) : Put := raw (store_le 4 value).
Definition u64 (value : Z) : Put := raw (store_le 8 value).
Definition i64 (value : Z) : Put := u64 (wrap_u64 value).

Definition nothing : Put := λ w, w.
Definition then_put (p q : Put) : Put := λ w, q (p w).

(** [u32] fails on a writer that failed, so does [raw]. *)
Definition string (value : String.string) (max_length : Z) : Put := λ w,
  if max_length <? Z.of_nat (String.length value) then fail w
  else raw (text_bytes value) (u32 (Z.of_nat (String.length value)) w).
Definition name_id (value : String.string) : Put := string value 128.

(** The loops of the encoders. *)
Fixpoint each {A} (f : A → Put) (xs : list A) : Put :=
  match xs with [] => nothing | x :: xs => then_put (f x) (each f xs) end.
Definition put_option {A} (f : A → Put) (o : option A) : Put :=
  match o with Some x => f x | None => nothing end.

(** A flag byte and the value, when there is one. *)
Definition flagged {A} (f : A → Put) (o : option A) : Put :=
  then_put (u8 (if o is Some _ then 1 else 0)) (put_option f o).

(** The fields a mask reports, in order. *)
Definition reported_fields (reported : FieldMask) : list SampleField :=
  List.filter (has_field reported) all_fields.
Definition sample_bitmap (reported : FieldMask) : Put :=
  then_put (u8 (size_of (reported_fields reported)))
    (each (λ field, u8 (Z.of_nat (SampleField.index field))) (reported_fields reported)).
End ByteWriter.
Abbreviation ByteWriter := ByteWriter.ByteWriter.
Abbreviation Put := ByteWriter.Put.
Notation "p ;> q" := (ByteWriter.then_put p q) (at level 90, right associativity) : codec_scope.

(** ** The reader *)

Definition Reader (A : Type) : Type := list Z → option (A * list Z).
#[export] Instance Reader_ret : MRet Reader := λ _ x bs, Some (x, bs).
#[export] Instance Reader_bind : MBind Reader := λ _ _ f r bs,
  match r bs with Some (x, bs) => f x bs | None => None end.

Module ByteReader.
Definition fail {A} : Reader A := λ _, None.
Definition remaining : Reader Z := λ bs, Some (size_of bs, bs).

(** [ensure] and the bytes. *)
Definition take_bytes (count : Z) : Reader (list Z) := λ bs,
  if size_of bs <? count then None
  else Some (take (Z.to_nat count) bs, drop (Z.to_nat count) bs).

Definition u8 : Reader Z := bs ← take_bytes 1; mret (load_le bs).
Definition u16 : Reader Z := bs ← take_bytes 2; mret (load_le bs).
Definition u32 : Reader Z := bs ← take_bytes 4; mret (load_le bs).
Definition u64 : Reader Z := bs ← take_bytes 8; mret (load_le bs).
Definition i64 : Reader Z := raw ← u64; mret (wrap_i64 raw).

Section fields.
Context (max_field_bytes : Z).

Definition string (max_length : Z) : Reader String.string :=
  length ← u32;
  if (max_length <? length) || (max_field_bytes <? length) then fail
  else bs ← take_bytes length; mret (bytes_text bs).
Definition name_id : Reader String.string := string 128.
End fields.

(** [for (index = 0; index < count; ++index)], whose body may [return false]. *)
Fixpoint repeat_read {A} (count : nat) (r : Reader A) : Reader (list A) :=
  match count with
  | O => mret []
  | S count => x ← r; xs ← repeat_read count r; mret (x :: xs)
  end.

(** The same loop when what it has pushed outlives a failure. *)
Fixpoint read_many {A} (count : nat) (r : Reader A) (bs : list Z) : list A * option (list Z) :=
  match count with
  | O => ([], Some bs)
  | S count =>
      match r bs with
      | Some (x, bs) => let '(xs, rest) := read_many count r bs in (x :: xs, rest)
      | None => ([], None)
      end
  end.

Definition optional {A} (r : Reader A) : Reader (option A) :=
  present ← u8; if present =? 0 then mret None else x ← r; mret (Some x).

(** [reported |= field_bit(field)] for a field number below the count. *)
Definition bitmap_field : Reader FieldMask :=
  field ← u8;
  match nth_error all_fields (Z.to_nat field) with
  | Some field => mret (field_bit field)
  | None => fail
  end.
Definition sample_bitmap : Reader FieldMask :=
  count ← u8;
  bits ← repeat_read (Z.to_nat count) bitmap_field;
  mret (fold_left Z.lor bits 0).
End ByteReader.

(** [read_count] *)
Definition read_count : Reader Z :=
  count ← ByteReader.u32; remaining ← ByteReader.remaining;
  if remaining <? count then ByteReader.fail else mret count.

(** ** The bytes of a writing *)

Definition append_bytes (bs : list Z) (w : ByteWriter) : ByteWriter :=
  ByteWriter.mkWriter (ByteWriter.out w ++ bs) (ByteWriter.max_bytes w) true.

(** [p] appends [bs] when there is room for it. *)
Definition emits (p : Put) (bs : list Z) : Prop := ∀ w,
  ByteWriter.ok w = true → ByteWriter.max_bytes w <= u64_max →
  size_of (ByteWriter.out w) + size_of bs <= ByteWriter.max_bytes w → p w = append_bytes bs w.

Lemma size_of_app {A} (xs ys : list A) : size_of (xs ++ ys) = size_of xs + size_of ys.
Proof. unfold size_of. rewrite length_app. lia. Qed.
Lemma size_of_nonneg {A} (xs : list A) : 0 <= size_of xs.
Proof. unfold size_of. lia. Qed.
Lemma size_of_nil {A} : size_of (@nil A) = 0.
Proof. done. Qed.
Lemma size_of_cons {A} (x : A) xs : size_of (x :: xs) = 1 + size_of xs.
Proof. unfold size_of. cbn [length]. lia. Qed.
Lemma size_of_map {A B} (f : A → B) xs : size_of (map f xs) = size_of xs.
Proof. unfold size_of. by rewrite length_map. Qed.
Lemma size_of_store n v : size_of (store_le n v) = Z.of_nat n.
Proof. unfold size_of, store_le. by rewrite store_le_at_length. Qed.
Lemma size_of_text s : size_of (text_bytes s) = Z.of_nat (String.length s).
Proof.
  unfold size_of, text_bytes. rewrite length_map. f_equal. induction s; cbn; [done|]. by f_equal.
Qed.

Lemma emits_raw data : emits (ByteWriter.raw data) data.
Proof.
  intros w Hok Hmax Hfits. unfold ByteWriter.raw. rewrite Hok. cbn.
  pose proof (size_of_nonneg (ByteWriter.out w)). pose proof (size_of_nonneg data).
  rewrite add_u64_spec by word_lia. is_true (size_of (ByteWriter.out w) + size_of data <=? u64_max).
  by is_false (ByteWriter.max_bytes w <? size_of (ByteWriter.out w) + size_of data).
Qed.

Lemma emits_nothing : emits ByteWriter.nothing [].
Proof. intros [out max ok] Hok _ _. cbn in *. subst. unfold append_bytes. by rewrite app_nil_r. Qed.

Lemma emits_then p q bs bs' : emits p bs → emits q bs' → emits (p ;> q)%codec (bs ++ bs').
Proof.
  intros Hp Hq w Hok Hmax Hfits. rewrite size_of_app in Hfits. unfold ByteWriter.then_put.
  pose proof (size_of_nonneg bs'). rewrite Hp by (done || lia).
  rewrite Hq; cbn; rewrite ?size_of_app; [|done|done|lia].
  unfold append_bytes. cbn. by rewrite app_assoc.
Qed.

Lemma emits_u8 v : emits (ByteWriter.u8 v) [v].
Proof. apply emits_raw. Qed.
Lemma emits_u16 v : emits (ByteWriter.u16 v) (store_le 2 v).
Proof. apply emits_raw. Qed.
Lemma emits_u32 v : emits (ByteWriter.u32 v) (store_le 4 v).
Proof. apply emits_raw. Qed.
Lemma emits_u64 v : emits (ByteWriter.u64 v) (store_le 8 v).
Proof. apply emits_raw. Qed.
Lemma emits_i64 v : emits (ByteWriter.i64 v) (store_le 8 (wrap_u64 v)).
Proof. apply emits_raw. Qed.

(** A text in the format: its length and its bytes. *)
Definition string_bytes (s : string) : list Z :=
  store_le 4 (Z.of_nat (String.length s)) ++ text_bytes s.

Lemma emits_string s max_length :
  Z.of_nat (String.length s) <= max_length → emits (ByteWriter.string s max_length) (string_bytes s).
Proof.
  intros Hlen w. unfold ByteWriter.string. is_false (max_length <? Z.of_nat (String.length s)).
  apply (emits_then _ _ _ _ (emits_u32 _) (emits_raw _)).
Qed.

Lemma emits_each {A} (f : A → Put) (g : A → list Z) (xs : list A) :
  Forall (λ x, emits (f x) (g x)) xs → emits (ByteWriter.each f xs) (concat (map g xs)).
Proof.
  induction 1 as [|x xs Hx _ IH]; cbn; [apply emits_nothing|]. by apply emits_then.
Qed.

(** A flag byte and the bytes of the value. *)
Definition flagged_bytes {A} (g : A → list Z) (o : option A) : list Z :=
  (if o is Some _ then 1 else 0) :: match o with Some x => g x | None => [] end.

Lemma emits_flagged {A} (f : A → Put) (g : A → list Z) (o : option A) :
  (∀ x, o = Some x → emits (f x) (g x)) → emits (ByteWriter.flagged f o) (flagged_bytes g o).
Proof.
  intros H. unfold ByteWriter.flagged, flagged_bytes. apply (emits_then _ _ [_] _ (emits_u8 _)).
  destruct o as [x|]; [by apply H|apply emits_nothing].
Qed.

Definition bitmap_bytes (reported : FieldMask) : list Z :=
  let fields := ByteWriter.reported_fields reported in
  size_of fields :: map (λ field, Z.of_nat (SampleField.index field)) fields.

Lemma emits_bitmap reported : emits (ByteWriter.sample_bitmap reported) (bitmap_bytes reported).
Proof.
  unfold ByteWriter.sample_bitmap, bitmap_bytes. apply (emits_then _ _ [_] _ (emits_u8 _)).
  generalize (ByteWriter.reported_fields reported) as fields. intros fields.
  induction fields as [|field fields IH]; cbn; [apply emits_nothing|].
  by apply (emits_then _ _ [_] _ (emits_u8 _)).
Qed.

(** ** The value of a reading *)

(** [r] reads [x] off [bs], whatever follows. *)
Definition reads {A} (r : Reader A) (x : A) (bs : list Z) : Prop :=
  ∀ rest, r (bs ++ rest) = Some (x, rest).

Lemma reads_ret {A} (x : A) : reads (mret x) x [].
Proof. done. Qed.

Lemma reads_bind {A B} (r : Reader A) (k : A → Reader B) x y bs bs' :
  reads r x bs → reads (k x) y bs' → reads (r ≫= k) y (bs ++ bs').
Proof. intros Hr Hk rest. unfold mbind, Reader_bind. by rewrite <- app_assoc, Hr, Hk. Qed.

(** The last bind reads nothing after it. *)
Lemma reads_map {A B} (r : Reader A) (f : A → B) x bs :
  reads r x bs → reads (y ← r; mret (f y)) (f x) bs.
Proof. intros Hr rest. unfold mbind, Reader_bind. by rewrite Hr. Qed.

Lemma reads_bytes bs : reads (ByteReader.take_bytes (size_of bs)) bs bs.
Proof.
  intros rest. unfold ByteReader.take_bytes. rewrite size_of_app.
  pose proof (size_of_nonneg rest). is_false (size_of bs + size_of rest <? size_of bs).
  unfold size_of. by rewrite Nat2Z.id, take_app_length, drop_app_length.
Qed.

Lemma reads_store n v :
  0 <= v < 2 ^ (8 * Z.of_nat n) →
  reads (bs ← ByteReader.take_bytes (Z.of_nat n); mret (load_le bs)) v (store_le n v).
Proof.
  intros Hv. rewrite <- (load_store_le n v Hv) at 1. apply reads_map.
  rewrite <- (size_of_store n v). apply reads_bytes.
Qed.

Lemma reads_u8 v : is_byte v → reads ByteReader.u8 v [v].
Proof.
  intros Hv. pose proof (load_store_le 1 v Hv) as H.
  pose proof (reads_store 1 v Hv) as Hr. unfold store_le in Hr. cbn in Hr.
  rewrite Z.shiftr_0_r in Hr. change 255 with (Z.ones 8) in Hr.
  rewrite Z.land_ones, Z.mod_small in Hr by (unfold is_byte in Hv; lia). exact Hr.
Qed.
Lemma reads_u16 v : 0 <= v <= u16_max → reads ByteReader.u16 v (store_le 2 v).
Proof. intros H. apply (reads_store 2). word_lia. Qed.
Lemma reads_u32 v : 0 <= v <= u32_max → reads ByteReader.u32 v (store_le 4 v).
Proof. intros H. apply (reads_store 4). word_lia. Qed.
Lemma reads_u64 v : is_u64 v → reads ByteReader.u64 v (store_le 8 v).
Proof. intros H. apply (reads_store 8). word_lia. Qed.

Lemma wrap_i64_u64 v : is_i64 v → wrap_i64 (wrap_u64 v) = v.
Proof.
  intros H. unfold wrap_i64, wrap_u64. rewrite Zplus_mod_idemp_l. by apply wrap_i64_id.
Qed.
Lemma reads_i64 v : is_i64 v → reads ByteReader.i64 v (store_le 8 (wrap_u64 v)).
Proof.
  intros H. rewrite <- (wrap_i64_u64 v H) at 1. apply reads_map, reads_u64, wrap_u64_range.
Qed.

Lemma text_bytes_ok s : bytes_ok (text_bytes s).
Proof.
  unfold bytes_ok, text_bytes. induction s as [|c s IH]; cbn; constructor; [|done].
  pose proof (byte_value_range c). unfold is_byte. lia.
Qed.

Lemma bytes_text_bytes s : bytes_text (text_bytes s) = s.
Proof.
  unfold bytes_text, text_bytes. induction s as [|c s IH]; cbn; [done|].
  by rewrite byte_char_value, IH.
Qed.

Lemma reads_string max_field s max_length :
  Z.of_nat (String.length s) <= max_length → Z.of_nat (String.length s) <= max_field →
  Z.of_nat (String.length s) <= u32_max →
  reads (ByteReader.string max_field max_length) s (string_bytes s).
Proof.
  intros H1 H2 H3. unfold ByteReader.string, string_bytes.
  eapply reads_bind; [apply reads_u32; lia|]. cbn beta.
  is_false (max_length <? Z.of_nat (String.length s)).
  is_false (max_field <? Z.of_nat (String.length s)). cbn [orb].
  rewrite <- (bytes_text_bytes s) at 2. apply reads_map.
  rewrite <- size_of_text. apply reads_bytes.
Qed.

Lemma reads_repeat {A} (r : Reader A) (g : A → list Z) (xs : list A) :
  Forall (λ x, reads r x (g x)) xs →
  reads (ByteReader.repeat_read (length xs) r) xs (concat (map g xs)).
Proof.
  induction 1 as [|x xs Hx _ IH]; cbn; [apply reads_ret|].
  eapply reads_bind; [done|]. by apply reads_map.
Qed.

Lemma read_many_all {A} (r : Reader A) (g : A → list Z) (xs : list A) rest :
  Forall (λ x, reads r x (g x)) xs →
  ByteReader.read_many (length xs) r (concat (map g xs) ++ rest) = (xs, Some rest).
Proof.
  induction 1 as [|x xs Hx _ IH]; cbn; [done|]. by rewrite <- app_assoc, Hx, IH.
Qed.

Lemma reads_optional {A} (r : Reader A) (g : A → list Z) (o : option A) :
  (∀ x, o = Some x → reads r x (g x)) → reads (ByteReader.optional r) o (flagged_bytes g o).
Proof.
  intros H. unfold ByteReader.optional, flagged_bytes.
  destruct o as [x|]; eapply (reads_bind _ _ _ _ [_]); try (apply reads_u8; unfold is_byte; lia); cbn.
  - by apply reads_map, H.
  - apply reads_ret.
Qed.

(** A count that the bytes after it can hold. *)
Lemma reads_count n bs rest :
  0 <= n <= u32_max → n <= size_of bs → read_count (store_le 4 n ++ bs ++ rest) = Some (n, bs ++ rest).
Proof.
  intros Hn Hbs. unfold read_count, mbind, Reader_bind. rewrite reads_u32 by done. cbn.
  rewrite size_of_app. pose proof (size_of_nonneg rest).
  by is_false (size_of bs + size_of rest <? n).
Qed.

Lemma concat_size {A} (g : A → list Z) (xs : list A) :
  Forall (λ x, 1 <= size_of (g x)) xs → size_of xs <= size_of (concat (map g xs)).
Proof.
  induction 1 as [|x xs Hx _ IH]; cbn; [done|]. rewrite size_of_app, size_of_cons. lia.
Qed.

(** A counted list: its elements may leave the loop with [return false]. *)
Definition counted_bytes {A} (g : A → list Z) (xs : list A) : list Z :=
  store_le 4 (size_of xs) ++ concat (map g xs).

Lemma reads_counted {A} (r : Reader A) (g : A → list Z) (xs : list A) :
  size_of xs <= u32_max → Forall (λ x, 1 <= size_of (g x)) xs →
  Forall (λ x, reads r x (g x)) xs →
  reads (count ← read_count; ByteReader.repeat_read (Z.to_nat count) r) xs (counted_bytes g xs).
Proof.
  intros Hlen Hpos Hr rest. pose proof (size_of_nonneg xs). unfold counted_bytes.
  rewrite <- app_assoc. unfold mbind at 1, Reader_bind at 1.
  rewrite reads_count by (done || by apply concat_size). unfold size_of. rewrite Nat2Z.id.
  by apply reads_repeat.
Qed.

(** ** The bitmap of reported fields *)

Lemma mask_above mask n :
  0 <= mask < 2 ^ Z.of_nat kSampleFieldCount → Z.of_nat kSampleFieldCount <= n →
  Z.testbit mask n = false.
Proof.
  intros Hm Hn. destruct (decide (mask = 0)) as [->|]; [apply Z.bits_0|].
  apply Z.bits_above_log2; [lia|]. apply Z.log2_lt_pow2; [lia|].
  eapply Z.lt_le_trans; [apply Hm|]. apply Z.pow_le_mono_r; lia.
Qed.

Lemma lor_fold_testbit bits m n :
  Z.testbit (fold_left Z.lor bits m) n = Z.testbit m n || existsb (λ b, Z.testbit b n) bits.
Proof.
  revert m. induction bits as [|b bits IH]; intros m; cbn; [by rewrite orb_false_r|].
  by rewrite IH, Z.lor_spec, orb_assoc.
Qed.

Lemma fields_mask mask :
  0 <= mask < 2 ^ Z.of_nat kSampleFieldCount →
  fold_left Z.lor (map field_bit (ByteWriter.reported_fields mask)) 0 = mask.
Proof.
  intros Hm. apply Z.bits_inj'. intros n Hn. rewrite lor_fold_testbit, Z.bits_0. cbn [orb].
  apply Bool.eq_iff_eq_true. rewrite existsb_exists. unfold ByteWriter.reported_fields. split.
  - intros (b & (field & <- & [_ Hf]%filter_In)%in_map_iff & Hb).
    unfold field_bit in Hb. rewrite Z.shiftl_1_l, Z.pow2_bits_eqb in Hb by lia.
    apply Z.eqb_eq in Hb. by rewrite has_field_testbit, Hb in Hf.
  - intros Hb. assert (n < Z.of_nat kSampleFieldCount) as Hlt.
    { apply Z.nle_gt. intros Hge. by rewrite mask_above in Hb. }
    destruct (nth_error all_fields (Z.to_nat n)) as [field|] eqn:Hf.
    + pose proof (all_fields_index _ _ Hf) as Hi. exists (field_bit field). split.
      * apply in_map, filter_In. split; [by eapply nth_error_In|].
        by rewrite has_field_testbit, Hi, Z2Nat.id.
      * unfold field_bit. rewrite Z.shiftl_1_l, Hi, Z2Nat.id by done. by apply Z.pow2_bits_true.
    + apply nth_error_None in Hf. change (length all_fields) with kSampleFieldCount in Hf. lia.
Qed.

Lemma all_fields_nth f :
  f ∈ all_fields →
  (SampleField.index f < 17)%nat ∧ nth_error all_fields (SampleField.index f) = Some f.
Proof.
  intros Hf. assert (forallb (λ f, (SampleField.index f <? 17)%nat &&
    bool_decide (nth_error all_fields (SampleField.index f) = Some f)) all_fields = true) as H
    by reflexivity.
  rewrite forallb_forall in H. specialize (H f ltac:(by apply list_elem_of_In)).
  apply andb_true_iff in H as [Hlt%Nat.ltb_lt Hnth%bool_decide_eq_true_1]. done.
Qed.

Lemma reads_bitmap mask :
  0 <= mask < 2 ^ Z.of_nat kSampleFieldCount →
  reads ByteReader.sample_bitmap mask (bitmap_bytes mask).
Proof.
  intros Hm. pose proof (fields_mask mask Hm) as Hmask. unfold ByteReader.sample_bitmap, bitmap_bytes.
  assert (Forall (λ f, f ∈ all_fields) (ByteWriter.reported_fields mask)) as Hin.
  { apply Forall_forall. intros f Hf. apply list_elem_of_In, filter_In in Hf as [Hf _].
    by apply list_elem_of_In. }
  assert (length (ByteWriter.reported_fields mask) <= 17)%nat as Hlen
    by apply (filter_length_le _ all_fields).
  revert Hmask Hin Hlen. generalize (ByteWriter.reported_fields mask) as fields.
  intros fields <- Hin Hlen.
  eapply (reads_bind _ _ _ _ [_]).
  { apply reads_u8. unfold is_byte, size_of. lia. }
  unfold size_of. rewrite Nat2Z.id. apply (reads_map _ (λ bits, fold_left Z.lor bits 0)).
  clear Hlen Hm. intros rest. induction Hin as [|f fields Hf _ IH]; [done|].
  cbn [length map ByteReader.repeat_read].
  assert (reads ByteReader.bitmap_field (field_bit f) [Z.of_nat (SampleField.index f)]) as Hr.
  { intros rest'. unfold ByteReader.bitmap_field, mbind, Reader_bind.
    destruct (all_fields_nth f Hf) as [Hlt Hnth].
    rewrite reads_u8 by (unfold is_byte; lia). by rewrite Nat2Z.id, Hnth. }
  unfold mbind at 1, Reader_bind at 1.
  change (Z.of_nat (SampleField.index f) :: map (λ f, Z.of_nat (SampleField.index f)) fields)
    with ([Z.of_nat (SampleField.index f)] ++ map (λ f, Z.of_nat (SampleField.index f)) fields).
  rewrite <- app_assoc, Hr. unfold mbind, Reader_bind. by rewrite IH.
Qed.

(** ** Enumerations and their bytes

    The scoped enumerations that cross a byte format have the underlying type
    [std::uint8_t] and count from zero; an instance lists the enumerators of one in
    their order. *)

Class Enumeration (E : Type) `{EqDecision E} := {
  enumerators : list E;
  enumerators_all : ∀ e, e ∈ enumerators;
  enumerators_fit : (length enumerators <= 256)%nat
}.

Section enumeration.
Context {E : Type} `{Enumeration E}.

Fixpoint position (e : E) (es : list E) : nat :=
  match es with
  | [] => 0
  | e' :: es => if decide (e = e') then 0 else S (position e es)
  end.
(** [static_cast<std::uint8_t>(e)] *)
Definition number (e : E) : Z := Z.of_nat (position e enumerators).
(** [static_cast<E>(raw)], for the value of an enumerator. *)
Definition enumerator (raw : Z) : option E := nth_error enumerators (Z.to_nat raw).

Lemma position_nth e es : e ∈ es → nth_error es (position e es) = Some e.
Proof.
  induction es as [|e' es IH]; cbn; [by intros ?%elem_of_nil|]. intros Hin.
  destruct (decide (e = e')) as [->|Hne]; [done|]. apply IH.
  by apply elem_of_cons in Hin as [?|?].
Qed.
Lemma enumerator_number e : enumerator (number e) = Some e.
Proof. unfold enumerator, number. rewrite Nat2Z.id. apply position_nth, enumerators_all. Qed.
Lemma number_byte e : is_byte (number e).
Proof.
  unfold number, is_byte. pose proof (position_nth e _ (enumerators_all e)) as Hn.
  assert (position e enumerators < length enumerators)%nat by (apply nth_error_Some; congruence).
  pose proof enumerators_fit. lia.
Qed.
End enumeration.

Ltac solve_enumerators :=
  let e := fresh "e" in intros e; apply list_elem_of_In; destruct e; cbn; tauto.

#[export] Program Instance PressureState_enumeration : Enumeration PressureState :=
  {| enumerators := PressureState.all |}.
Next Obligation. solve_enumerators. Qed.
Next Obligation. cbn. lia. Qed.
#[export] Program Instance Severity_enumeration : Enumeration Severity :=
  {| enumerators := [Severity.Debug; Severity.Info; Severity.Notice; Severity.Warning;
                     Severity.Error] |}.
Next Obligation. solve_enumerators. Qed.
Next Obligation. cbn. lia. Qed.
#[export] Program Instance SourceAuthority_enumeration : Enumeration SourceAuthority :=
  {| enumerators := [SourceAuthority.Unknown; SourceAuthority.Secondary; SourceAuthority.Primary;
                     SourceAuthority.Authoritative] |}.
Next Obligation. solve_enumerators. Qed.
Next Obligation. cbn. lia. Qed.
#[export] Program Instance Freshness_enumeration : Enumeration Freshness :=
  {| enumerators := [Freshness.Unknown; Freshness.Fresh; Freshness.Aging; Freshness.Stale;
                     Freshness.Expired] |}.
Next Obligation. solve_enumerators. Qed.
Next Obligation. cbn. lia. Qed.
#[export] Program Instance EvidenceQuality_enumeration : Enumeration EvidenceQuality :=
  {| enumerators := [EvidenceQuality.Unknown; EvidenceQuality.Complete; EvidenceQuality.Incomplete;
                     EvidenceQuality.Conflicting; EvidenceQuality.Unsupported] |}.
Next Obligation. solve_enumerators. Qed.
Next Obligation. cbn. lia. Qed.
#[export] Program Instance AttributeOrigin_enumeration : Enumeration AttributeOrigin :=
  {| enumerators := [AttributeOrigin.Unspecified; AttributeOrigin.ObservedInSample;
                     AttributeOrigin.ResolvedFromMetadata] |}.
Next Obligation. solve_enumerators. Qed.
Next Obligation. cbn. lia. Qed.
#[export] Program Instance EventKind_enumeration : Enumeration EventKind :=
  {| enumerators :=
       [EventKind.SampleAccepted; EventKind.SampleRejected; EventKind.SampleFenced;
        EventKind.DuplicateReplay; EventKind.ConflictDetected; EventKind.ConflictCleared;
        EventKind.CounterWrap; EventKind.CounterReset; EventKind.CounterAmbiguous;
        EventKind.CounterDiscontinuous; EventKind.SourceRegistered;
        EventKind.SourceIncarnationChanged; EventKind.SourceAuthorityChanged;
        EventKind.SourceSequenceRegression; EventKind.MetadataUpdated;
        EventKind.MetadataRevisionFenced; EventKind.StateTransition; EventKind.MicroburstDetected;
        EventKind.MicroburstInsufficientCoverage; EventKind.ContentionDetected;
        EventKind.PersistenceWritten; EventKind.PersistenceRecovered; EventKind.PersistenceFailed;
        EventKind.HistoryEvicted; EventKind.QueueLimitReached; EventKind.RuntimeStarted;
        EventKind.RuntimeStopped] |}.
Next Obligation. solve_enumerators. Qed.
Next Obligation. cbn. lia. Qed.
