(* ===== verification/Format.v ===== *)
(** * The segment format

    [persist/Format.hpp] and [persist/Format.cpp]: the durable form of the retained
    evidence, the encoder of a segment and the decoder that stops at the first damage.

    The decoder casts most enumerations from a byte without a range check, and an
    object of such a type holds any byte: those fields of the durable data are the
    byte ([du_authority], [dc_origin], ...), and [number] is the byte of an enumerator. *)

From S2P Require Import Prelude Result Checked Text Bytes Crc32c Identity Time Evidence Sample.
From S2P Require Import Metadata Event Limits Policy Admission Codec.
Open Scope Z_scope.
Open Scope codec_scope.

#[local] Set Warnings "-register-all".


(** ** Durable data *)

(** [QueueClassAttributes], as read back. *)
Record DurableClasses := mkDurableClasses {
  dc_traffic_class : option TrafficClassId;
  dc_scheduling_class : option SchedulingClassId;
  dc_origin : Z; (* AttributeOrigin *)
  dc_metadata_revision : Revision
}.

Record DurableSample := mkDurableSample {
  du_observed : ObservationTime;
  du_received_wall : Nanos;
  du_received_steady : Nanos;
  du_source : SourceId;
  du_incarnation : IncarnationId;
  du_generation : GenerationId;
  du_sequence : SourceSequence;
  du_authority : Z; (* SourceAuthority *)
  du_reported : FieldMask;
  du_values : list Z; (* values[kSampleFieldCount] *)
  du_state : PressureState;
  du_freshness : Z; (* Freshness *)
  du_quality : Z; (* EvidenceQuality *)
  du_age_ns : Nanos
}.

Record DurableQueueState := mkDurableQueue {
  dq_queue : QueuePath;
  dq_classes : DurableClasses;
  dq_classes_known : bool;
  dq_samples : list DurableSample
}.

(** [SourceRecord], as read back. *)
Record DurableSource := mkDurableSource {
  so_id : SourceId;
  so_authority : Z; (* SourceAuthority *)
  so_declared_authority : Z; (* SourceAuthority *)
  so_incarnation : IncarnationId;
  so_incarnation_ordinal : IncarnationOrdinal;
  so_last_sequence : SourceSequence;
  so_generation : GenerationId;
  so_clock_domain : ClockDomainId;
  so_first_seen : ReceiveTime;
  so_last_seen : ReceiveTime;
  so_accepted : Z;
  so_fenced : Z;
  so_duplicates : Z;
  so_rejected : Z;
  so_last_observed_ns : Z; (* std::uint64_t *)
  so_recent_incarnations : list (IncarnationId * IncarnationOrdinal)
}.

(** [EventRecord], as read back. *)
Record DurableEvent := mkDurableEvent {
  de_kind : EventKind;
  de_severity : Z; (* Severity *)
  de_received : ReceiveTime;
  de_observed : ObservationTime;
  de_queue : QueuePath;
  de_source : SourceId;
  de_incarnation : IncarnationId;
  de_sequence : SourceSequence;
  de_revision : Revision;
  de_detail : string
}.

(** [ClassMetadataTable], as read back. *)
Record DurableMetadata := mkDurableMetadata {
  dm_revision : Revision;
  dm_generation : GenerationId;
  dm_source : SourceId;
  dm_authority : Z; (* SourceAuthority *)
  dm_received : ReceiveTime;
  dm_traffic_classes : list TrafficClassDescriptor;
  dm_scheduling_classes : list SchedulingClassDescriptor;
  dm_bindings : list QueueClassBinding
}.
Definition no_durable_metadata : DurableMetadata :=
  mkDurableMetadata 0 0 EmptyString 0 no_receive [] [] [].

Record DurableSnapshot := mkSnapshot {
  sn_runtime_id : string;
  sn_created : ReceiveTime;
  sn_policy_version : Z;
  sn_policy_name : string;
  sn_queues : list DurableQueueState;
  sn_events : list DurableEvent;
  sn_sources : list DurableSource;
  sn_metadata : DurableMetadata;
  sn_has_metadata : bool
}.
Definition no_snapshot : DurableSnapshot :=
  mkSnapshot EmptyString no_receive 0 EmptyString [] [] [] no_durable_metadata false.

Record DecodeReport := mkReport {
  re_magic_valid : bool;
  re_header_crc_valid : bool;
  re_payload_crc_valid : bool;
  re_version_supported : bool;
  re_truncated : bool;
  re_integrity_failed : bool;
  re_records_declared : Z;
  re_records_parsed : Z;
  re_records_rejected : Z;
  re_bytes_consumed : Z;
  re_bytes_declared : Z;
  re_format_version : Z;
  re_created_wall : Nanos;
  re_diagnostic : string
}.
Definition no_decode_report : DecodeReport :=
  mkReport false false false false false false 0 0 0 0 0 0 0 EmptyString.
Definition clean (r : DecodeReport) : bool :=
  re_magic_valid r && re_header_crc_valid r && re_payload_crc_valid r && re_version_supported r &&
  negb (re_truncated r) && negb (re_integrity_failed r).

(** ** Constants *)

Definition kSegmentMagic : list Z := text_bytes "QOBSSEG1".
Definition kSegmentHeaderSize : Z := 8 + 4 * 6 + 8 * 4 + 4 * 4.
Definition kRecordHeaderSize : Z := 12.
Definition kMaxRuntimeIdBytes : Z := 64.
Definition kFormatVersion : Z := 1.

Module RecordType.
Inductive RecordType : Set := SessionHeader | QueueSnapshot | EventBatch | SourceRegistry | MetadataTable.
Definition number (type : RecordType) : Z :=
  match type with
  | SessionHeader => 1 | QueueSnapshot => 2 | EventBatch => 3 | SourceRegistry => 4
  | MetadataTable => 5
  end.
(** The cases of the decoder's switch. *)
Definition of_number (raw : Z) : option RecordType :=
  if raw =? 1 then Some SessionHeader else if raw =? 2 then Some QueueSnapshot
  else if raw =? 3 then Some EventBatch else if raw =? 4 then Some SourceRegistry
  else if raw =? 5 then Some MetadataTable else None.
End RecordType.
Abbreviation RecordType := RecordType.RecordType.

(** ** Records *)

(** The header of a segment, its own checksum patched in at offset 16. *)
Definition write_header (policy_version runtime_id_len created_wall_ns created_steady_ns record_count
    payload_bytes payload_crc : Z) : option (list Z) :=
  let writer :=
    (ByteWriter.raw kSegmentMagic ;> ByteWriter.u32 kFormatVersion ;>
     ByteWriter.u32 kSegmentHeaderSize ;> ByteWriter.u32 0 ;> ByteWriter.u32 policy_version ;>
     ByteWriter.u32 runtime_id_len ;> ByteWriter.u32 0 ;> ByteWriter.i64 created_wall_ns ;>
     ByteWriter.i64 created_steady_ns ;> ByteWriter.u64 record_count ;>
     ByteWriter.u64 payload_bytes ;> ByteWriter.u32 payload_crc ;> ByteWriter.u32 1 ;>
     ByteWriter.u32 0 ;> ByteWriter.u32 0) (ByteWriter.create [] kSegmentHeaderSize) in
  let header := ByteWriter.out writer in
  if negb (ByteWriter.ok writer) || negb (size_of header =? kSegmentHeaderSize) then None
  else Some (take 16 header ++ store_le 4 (crc32c header) ++ drop 20 header).

Definition record_prefix (type flags len : Z) : list Z := [type; flags; 0; 0] ++ store_le 4 len.

(** The checksum of a record covers its prefix and its value. *)
Definition record_crc (prefix value : list Z) : Z := crc_value (crc_feed (crc_feed crc_init prefix) value).

Definition append_record (payload : list Z) (type : RecordType) (value : list Z) (max_bytes : Z) :
    option (list Z) :=
  if (max_bytes <? size_of value) || (u32_max <? size_of value) then None
  else
    let prefix := record_prefix (RecordType.number type) 0 (size_of value) in
    let writer :=
      (ByteWriter.u32 (record_crc prefix value) ;> ByteWriter.raw prefix ;> ByteWriter.raw value)
        (ByteWriter.create payload max_bytes) in
    if ByteWriter.ok writer then Some (ByteWriter.out writer) else None.

(** What a writer wrote into an empty vector, when it is still [ok]. *)
Definition written (p : Put) (max_bytes : Z) : option (list Z) :=
  let writer := p (ByteWriter.create [] max_bytes) in
  if ByteWriter.ok writer then Some (ByteWriter.out writer) else None.

(** ** Encoding *)

(** The reported values, in the order of the fields. *)
Definition put_values (sample : DurableSample) : Put :=
  ByteWriter.each (λ field, ByteWriter.u64 (nth (SampleField.index field) (du_values sample) 0))
    (ByteWriter.reported_fields (du_reported sample)).

Definition put_sample (sample : DurableSample) : Put :=
  ByteWriter.i64 (obs_ns (du_observed sample)) ;>
  ByteWriter.name_id (obs_domain (du_observed sample)) ;>
  ByteWriter.i64 (du_received_wall sample) ;>
  ByteWriter.i64 (du_received_steady sample) ;>
  ByteWriter.name_id (du_source sample) ;>
  ByteWriter.name_id (du_incarnation sample) ;>
  ByteWriter.u64 (du_generation sample) ;>
  ByteWriter.u64 (du_sequence sample) ;>
  ByteWriter.u8 (du_authority sample) ;>
  ByteWriter.u64 (du_reported sample) ;>
  ByteWriter.sample_bitmap (du_reported sample) ;>
  put_values sample ;>
  ByteWriter.u8 (number (du_state sample)) ;>
  ByteWriter.u8 (du_freshness sample) ;>
  ByteWriter.u8 (du_quality sample) ;>
  ByteWriter.i64 (du_age_ns sample).

Definition put_queue (queue : DurableQueueState) : Put :=
  ByteWriter.name_id (qp_device (dq_queue queue)) ;>
  ByteWriter.name_id (qp_port (dq_queue queue)) ;>
  ByteWriter.u32 (qp_queue (dq_queue queue)) ;>
  ByteWriter.u8 (if dq_classes_known queue then 1 else 0) ;>
  ByteWriter.flagged ByteWriter.u16 (dc_traffic_class (dq_classes queue)) ;>
  ByteWriter.flagged ByteWriter.name_id (dc_scheduling_class (dq_classes queue)) ;>
  ByteWriter.u8 (dc_origin (dq_classes queue)) ;>
  ByteWriter.u64 (dc_metadata_revision (dq_classes queue)) ;>
  ByteWriter.u32 (size_of (dq_samples queue)) ;>
  ByteWriter.each put_sample (dq_samples queue).

Definition encode_queue_record (queue : DurableQueueState) (limits : PersistenceLimits) :
    option (list Z) :=
  if u32_max <? size_of (dq_samples queue) then None
  else written (put_queue queue) (max_record_bytes limits).

Definition put_session (snapshot : DurableSnapshot) : Put :=
  ByteWriter.string (sn_runtime_id snapshot) kMaxRuntimeIdBytes ;>
  ByteWriter.u32 (sn_policy_version snapshot) ;>
  ByteWriter.string (sn_policy_name snapshot) 128 ;>
  ByteWriter.i64 (wall (sn_created snapshot)) ;>
  ByteWriter.i64 (steady (sn_created snapshot)) ;>
  ByteWriter.u32 (Z.min u32_max (size_of (sn_queues snapshot))).

Definition put_receive (t : ReceiveTime) : Put :=
  ByteWriter.i64 (wall t) ;> ByteWriter.i64 (steady t).

Definition put_incarnation (entry : IncarnationId * IncarnationOrdinal) : Put :=
  ByteWriter.name_id entry.1 ;> ByteWriter.u64 entry.2.

Definition put_source (source : DurableSource) : Put :=
  ByteWriter.name_id (so_id source) ;>
  ByteWriter.u8 (so_authority source) ;>
  ByteWriter.u8 (so_declared_authority source) ;>
  ByteWriter.name_id (so_incarnation source) ;>
  ByteWriter.u64 (so_incarnation_ordinal source) ;>
  ByteWriter.u64 (so_last_sequence source) ;>
  ByteWriter.u64 (so_generation source) ;>
  ByteWriter.name_id (so_clock_domain source) ;>
  put_receive (so_first_seen source) ;>
  put_receive (so_last_seen source) ;>
  ByteWriter.u64 (so_accepted source) ;>
  ByteWriter.u64 (so_fenced source) ;>
  ByteWriter.u64 (so_duplicates source) ;>
  ByteWriter.u64 (so_rejected source) ;>
  ByteWriter.i64 (wrap_i64 (so_last_observed_ns source)) ;>
  ByteWriter.u32 (wrap_u32 (size_of (so_recent_incarnations source))) ;>
  ByteWriter.each put_incarnation (so_recent_incarnations source).

Definition put_sources (sources : list DurableSource) : Put :=
  ByteWriter.u32 (wrap_u32 (size_of sources)) ;> ByteWriter.each put_source sources.

Definition put_event (event : DurableEvent) : Put :=
  ByteWriter.u8 (number (de_kind event)) ;>
  ByteWriter.u8 (de_severity event) ;>
  put_receive (de_received event) ;>
  ByteWriter.i64 (obs_ns (de_observed event)) ;>
  ByteWriter.name_id (obs_domain (de_observed event)) ;>
  ByteWriter.name_id (qp_device (de_queue event)) ;>
  ByteWriter.name_id (qp_port (de_queue event)) ;>
  ByteWriter.u32 (qp_queue (de_queue event)) ;>
  ByteWriter.name_id (de_source event) ;>
  ByteWriter.name_id (de_incarnation event) ;>
  ByteWriter.u64 (de_sequence event) ;>
  ByteWriter.u64 (de_revision event) ;>
  ByteWriter.string (de_detail event) 512.

Definition put_events (events : list DurableEvent) : Put :=
  ByteWriter.u32 (wrap_u32 (size_of events)) ;> ByteWriter.each put_event events.

Definition put_traffic_class (descriptor : TrafficClassDescriptor) : Put :=
  ByteWriter.u16 (tc_id descriptor) ;>
  ByteWriter.string (tc_name descriptor) 128 ;>
  ByteWriter.flagged ByteWriter.u16 (tc_dscp descriptor) ;>
  ByteWriter.flagged ByteWriter.u16 (tc_priority_code_point descriptor) ;>
  ByteWriter.flagged ByteWriter.name_id (tc_scheduling_class descriptor).

Definition put_scheduling_class (descriptor : SchedulingClassDescriptor) : Put :=
  ByteWriter.name_id (sc_id descriptor) ;>
  ByteWriter.string (sc_mode descriptor) 64 ;>
  ByteWriter.flagged ByteWriter.u64 (sc_weight descriptor).

Definition put_binding (binding : QueueClassBinding) : Put :=
  ByteWriter.name_id (qp_device (qb_queue binding)) ;>
  ByteWriter.name_id (qp_port (qb_queue binding)) ;>
  ByteWriter.u32 (qp_queue (qb_queue binding)) ;>
  ByteWriter.flagged ByteWriter.u16 (qb_traffic_class binding) ;>
  ByteWriter.flagged ByteWriter.name_id (qb_scheduling_class binding).

Definition put_metadata (table : DurableMetadata) : Put :=
  ByteWriter.u64 (dm_revision table) ;>
  ByteWriter.u64 (dm_generation table) ;>
  ByteWriter.name_id (dm_source table) ;>
  ByteWriter.u8 (dm_authority table) ;>
  put_receive (dm_received table) ;>
  ByteWriter.u32 (wrap_u32 (size_of (dm_traffic_classes table))) ;>
  ByteWriter.each put_traffic_class (dm_traffic_classes table) ;>
  ByteWriter.u32 (wrap_u32 (size_of (dm_scheduling_classes table))) ;>
  ByteWriter.each put_scheduling_class (dm_scheduling_classes table) ;>
  ByteWriter.u32 (wrap_u32 (size_of (dm_bindings table))) ;>
  ByteWriter.each put_binding (dm_bindings table).

Section encoder.
Context (limits : PersistenceLimits).

(** The payload and the number of records so far. *)
Definition Segment : Type := list Z * Z.

(** The local [append]. *)
Definition append (type : RecordType) (value : list Z) (segment : Segment) : Result Segment :=
  let '(payload, record_count) := segment in
  if max_record_bytes limits <? size_of value then
    fail ErrorCode.LimitExceeded "a persistence record exceeds the configured record size"
  else if max_segment_records limits <=? record_count then
    fail ErrorCode.LimitExceeded "the segment would exceed the configured record count"
  else
    match append_record payload type value (max_segment_bytes limits) with
    | None => fail ErrorCode.LimitExceeded "the segment would exceed the configured byte size"
    | Some payload => Value (payload, record_count +u 1)%word
    end.

(** One record: its value, or the status when the value cannot be written. *)
Definition append_value (type : RecordType) (value : option (list Z)) (code : ErrorCode)
    (message : string) (segment : Segment) : Result Segment :=
  match value with
  | None => fail code message
  | Some value => append type value segment
  end.

Fixpoint append_queues (queues : list DurableQueueState) (segment : Segment) : Result Segment :=
  match queues with
  | [] => Value segment
  | queue :: queues =>
      segment ← append_value RecordType.QueueSnapshot (encode_queue_record queue limits)
                  ErrorCode.LimitExceeded "a queue snapshot exceeds the configured record size"
                  segment;
      append_queues queues segment
  end.

Definition encode_payload (snapshot : DurableSnapshot) : Result Segment :=
  segment ← append_value RecordType.SessionHeader
              (written (put_session snapshot) (max_record_bytes limits))
              ErrorCode.Internal "failed to encode the session header record" ([], 0);
  segment ← append_queues (sn_queues snapshot) segment;
  segment ← (match sn_sources snapshot with
             | [] => Value segment
             | sources =>
                 append_value RecordType.SourceRegistry
                   (written (put_sources sources) (max_record_bytes limits))
                   ErrorCode.LimitExceeded "the source registry exceeds the configured record size"
                   segment
             end);
  segment ← (match sn_events snapshot with
             | [] => Value segment
             | events =>
                 append_value RecordType.EventBatch
                   (written (put_events events) (max_record_bytes limits))
                   ErrorCode.LimitExceeded "the event batch exceeds the configured record size"
                   segment
             end);
  if sn_has_metadata snapshot then
    append_value RecordType.MetadataTable
      (written (put_metadata (sn_metadata snapshot)) (max_metadata_bytes limits))
      ErrorCode.LimitExceeded "the metadata table exceeds the configured record size" segment
  else Value segment.

Definition encode_snapshot (snapshot : DurableSnapshot) : Result (list Z) :=
  let limits_status := validate_persistence limits in
  if negb (ok limits_status) then Failure limits_status
  else if kMaxRuntimeIdBytes <? Z.of_nat (String.length (sn_runtime_id snapshot)) then
    fail ErrorCode.LimitExceeded "runtime identifier exceeds the maximum persisted size"
  else
    '(payload, record_count) ← encode_payload snapshot;
    match write_header (sn_policy_version snapshot)
            (Z.of_nat (String.length (sn_runtime_id snapshot)))
            (wall (sn_created snapshot)) (steady (sn_created snapshot)) record_count
            (size_of payload) (crc32c payload) with
    | None => fail ErrorCode.Internal "the persistence segment header could not be encoded"
    | Some header => Value (header ++ text_bytes (sn_runtime_id snapshot) ++ payload)
    end.
End encoder.

(** ** Decoding *)

(** [StrongNameId::create] on what was read; the second form lets an empty name pass. *)
Definition parse_name (tag : NameTag) (text : string) : Reader string :=
  match create tag text with Value name => mret name | Failure _ => ByteReader.fail end.
Definition parse_optional_name (tag : NameTag) (text : string) : Reader string :=
  if bool_decide (text = EmptyString) then mret EmptyString else parse_name tag text.

Section decoder.
Context (limits : PersistenceLimits).

Definition read_string : Z → Reader string := ByteReader.string (max_record_bytes limits).
Definition read_name_id : Reader string := ByteReader.name_id (max_record_bytes limits).

(** A name read and parsed at once. *)
Definition read_name (tag : NameTag) : Reader string := text ← read_name_id; parse_name tag text.
Definition read_optional_name (tag : NameTag) : Reader string :=
  text ← read_name_id; parse_optional_name tag text.

Definition read_receive : Reader ReceiveTime :=
  wall ← ByteReader.i64; steady ← ByteReader.i64; mret (mkReceive steady wall).

(** The values of the reported fields; the others stay zero. *)
Fixpoint read_values (reported : FieldMask) (fields : list SampleField) : Reader (list Z) :=
  match fields with
  | [] => mret []
  | field :: fields =>
      value ← (if has_field reported field then ByteReader.u64 else mret 0);
      values ← read_values reported fields;
      mret (value :: values)
  end.

(** The second reading of [sample.reported] replaces the first. *)
Definition decode_sample : Reader DurableSample :=
  observed_ns ← ByteReader.i64; domain ← read_optional_name ClockDomainTag;
  received_wall ← ByteReader.i64; received_steady ← ByteReader.i64;
  source ← read_optional_name SourceTag; incarnation ← read_optional_name IncarnationTag;
  generation ← ByteReader.u64; sequence ← ByteReader.u64; authority ← ByteReader.u8;
  _ ← ByteReader.u64; reported ← ByteReader.sample_bitmap;
  values ← read_values reported all_fields;
  state ← ByteReader.u8; freshness ← ByteReader.u8; quality ← ByteReader.u8;
  age_ns ← ByteReader.i64;
  match enumerator state with
  | None => ByteReader.fail
  | Some state =>
      mret (mkDurableSample (mkObservation observed_ns domain) received_wall received_steady source
              incarnation generation sequence authority reported values state freshness quality
              age_ns)
  end.

Definition decode_queue_record : Reader DurableQueueState :=
  device ← read_name_id; port ← read_name_id; queue_id ← ByteReader.u32;
  device ← parse_name DeviceTag device; port ← parse_name PortTag port;
  classes_known ← ByteReader.u8;
  traffic_class ← ByteReader.optional ByteReader.u16;
  scheduling_class ← ByteReader.optional read_name_id;
  origin ← ByteReader.u8; metadata_revision ← ByteReader.u64;
  scheduling_class ← (match scheduling_class with
                      | Some text => name ← parse_name SchedulingClassTag text; mret (Some name)
                      | None => mret None
                      end);
  sample_count ← read_count;
  samples ← (if max_segment_records limits <? sample_count then ByteReader.fail
             else ByteReader.repeat_read (Z.to_nat sample_count) decode_sample);
  mret (mkDurableQueue (mkQueuePath device port queue_id)
          (mkDurableClasses traffic_class scheduling_class origin metadata_revision)
          (negb (classes_known =? 0)) samples).

Definition decode_incarnation : Reader (IncarnationId * IncarnationOrdinal) :=
  token ← read_name_id; ordinal ← ByteReader.u64;
  token ← parse_name IncarnationTag token; mret (token, ordinal).

Definition decode_source : Reader DurableSource :=
  id ← read_name SourceTag;
  authority ← ByteReader.u8; declared ← ByteReader.u8;
  incarnation ← read_optional_name IncarnationTag;
  ordinal ← ByteReader.u64; sequence ← ByteReader.u64; generation ← ByteReader.u64;
  domain ← read_optional_name ClockDomainTag;
  first_seen ← read_receive; last_seen ← read_receive;
  accepted ← ByteReader.u64; fenced ← ByteReader.u64;
  duplicates ← ByteReader.u64; rejected ← ByteReader.u64;
  last_observed ← ByteReader.i64;
  incarnation_count ← read_count;
  recent ← ByteReader.repeat_read (Z.to_nat incarnation_count) decode_incarnation;
  mret (mkDurableSource id authority declared incarnation ordinal sequence generation domain
          first_seen last_seen accepted fenced duplicates rejected (wrap_u64 last_observed) recent).

Definition decode_event : Reader DurableEvent :=
  kind ← ByteReader.u8; severity ← ByteReader.u8;
  kind ← (match enumerator kind with Some kind => mret kind | None => ByteReader.fail end);
  received ← read_receive; observed_ns ← ByteReader.i64;
  domain ← read_name_id; device ← read_name_id; port ← read_name_id;
  queue_id ← ByteReader.u32;
  source ← read_name_id; incarnation ← read_name_id;
  sequence ← ByteReader.u64; revision ← ByteReader.u64; detail ← read_string 512;
  domain ← parse_optional_name ClockDomainTag domain;
  device ← parse_optional_name DeviceTag device; port ← parse_optional_name PortTag port;
  source ← parse_optional_name SourceTag source;
  incarnation ← parse_optional_name IncarnationTag incarnation;
  mret (mkDurableEvent kind severity received (mkObservation observed_ns domain)
          (mkQueuePath device port queue_id) source incarnation sequence revision detail).

Definition decode_traffic_class : Reader TrafficClassDescriptor :=
  id ← ByteReader.u16; name ← read_string 128;
  dscp ← ByteReader.optional ByteReader.u16; pcp ← ByteReader.optional ByteReader.u16;
  scheduling_class ← ByteReader.optional (read_name SchedulingClassTag);
  mret (mkTrafficClass id name dscp pcp scheduling_class).

Definition decode_scheduling_class : Reader SchedulingClassDescriptor :=
  id ← read_name_id; mode ← read_string 64; id ← parse_name SchedulingClassTag id;
  weight ← ByteReader.optional ByteReader.u64;
  mret (mkSchedulingClass id mode weight).

Definition decode_binding : Reader QueueClassBinding :=
  device ← read_name_id; port ← read_name_id; queue_id ← ByteReader.u32;
  device ← parse_name DeviceTag device; port ← parse_name PortTag port;
  traffic_class ← ByteReader.optional ByteReader.u16;
  scheduling_class ← ByteReader.optional (read_name SchedulingClassTag);
  mret (mkBinding (mkQueuePath device port queue_id) traffic_class scheduling_class).

(** A counted section: what was read before the loop returned, and the bytes after it
    when it ended. *)
Definition read_section {A} (r : Reader A) (bs : list Z) : list A * option (list Z) :=
  match read_count bs with
  | Some (count, bs) => ByteReader.read_many (Z.to_nat count) r bs
  | None => ([], None)
  end.
End decoder.

(** ** What a record adds to the snapshot *)

Definition add_session (runtime_id : string) (policy_version : Z) (policy_name : string)
    (out : DurableSnapshot) : DurableSnapshot :=
  mkSnapshot (if bool_decide (runtime_id = EmptyString) then sn_runtime_id out else runtime_id)
    (sn_created out) policy_version policy_name (sn_queues out) (sn_events out) (sn_sources out)
    (sn_metadata out) (sn_has_metadata out).
Definition add_queue (queue : DurableQueueState) (out : DurableSnapshot) : DurableSnapshot :=
  mkSnapshot (sn_runtime_id out) (sn_created out) (sn_policy_version out) (sn_policy_name out)
    (sn_queues out ++ [queue]) (sn_events out) (sn_sources out) (sn_metadata out)
    (sn_has_metadata out).
Definition add_events (events : list DurableEvent) (out : DurableSnapshot) : DurableSnapshot :=
  mkSnapshot (sn_runtime_id out) (sn_created out) (sn_policy_version out) (sn_policy_name out)
    (sn_queues out) (sn_events out ++ events) (sn_sources out) (sn_metadata out)
    (sn_has_metadata out).
Definition add_sources (sources : list DurableSource) (out : DurableSnapshot) : DurableSnapshot :=
  mkSnapshot (sn_runtime_id out) (sn_created out) (sn_policy_version out) (sn_policy_name out)
    (sn_queues out) (sn_events out) (sn_sources out ++ sources) (sn_metadata out)
    (sn_has_metadata out).
Definition put_table (table : DurableMetadata) (has_metadata : bool) (out : DurableSnapshot) :
    DurableSnapshot :=
  mkSnapshot (sn_runtime_id out) (sn_created out) (sn_policy_version out) (sn_policy_name out)
    (sn_queues out) (sn_events out) (sn_sources out) table has_metadata.

Section records.
Context (limits : PersistenceLimits).

Definition session_record : Reader (string * Z * string) :=
  runtime_id ← read_string limits kMaxRuntimeIdBytes;
  policy_version ← ByteReader.u32; policy_name ← read_string limits 128;
  _ ← ByteReader.i64; _ ← ByteReader.i64; _ ← ByteReader.u32;
  mret (runtime_id, policy_version, policy_name).

(** The fields of [out.metadata] are assigned as they are read, so what was read
    before a failure stays in them; [has_metadata] is set at the end. *)
Definition metadata_sections (table : DurableMetadata) (bs : list Z) : DurableMetadata * bool :=
  let '(traffic, rest) := read_section (decode_traffic_class limits) bs in
  let table1 :=
    mkDurableMetadata (dm_revision table) (dm_generation table) (dm_source table)
      (dm_authority table) (dm_received table) (dm_traffic_classes table ++ traffic)
      (dm_scheduling_classes table) (dm_bindings table) in
  match rest with
  | None => (table1, false)
  | Some bs =>
      let '(scheduling, rest) := read_section (decode_scheduling_class limits) bs in
      let table2 :=
        mkDurableMetadata (dm_revision table) (dm_generation table) (dm_source table)
          (dm_authority table) (dm_received table) (dm_traffic_classes table1)
          (dm_scheduling_classes table ++ scheduling) (dm_bindings table) in
      match rest with
      | None => (table2, false)
      | Some bs =>
          let '(bindings, rest) := read_section (decode_binding limits) bs in
          (mkDurableMetadata (dm_revision table) (dm_generation table) (dm_source table)
             (dm_authority table) (dm_received table) (dm_traffic_classes table1)
             (dm_scheduling_classes table2) (dm_bindings table ++ bindings),
           match rest with Some _ => true | None => false end)
      end
  end.

Definition metadata_head : Reader (Z * Z * string * Z) :=
  revision ← ByteReader.u64; generation ← ByteReader.u64; source ← read_name_id limits;
  authority ← ByteReader.u8; mret (revision, generation, source, authority).

Definition set_head (revision generation : Z) (source : string) (authority : Z)
    (received : ReceiveTime) (table : DurableMetadata) : DurableMetadata :=
  mkDurableMetadata revision generation source authority received (dm_traffic_classes table)
    (dm_scheduling_classes table) (dm_bindings table).

Definition decode_metadata_table (bs : list Z) (table : DurableMetadata) : DurableMetadata * bool :=
  match metadata_head bs with
  | None => (table, false)
  | Some (revision, generation, source, authority, bs) =>
      match create SourceTag source with
      | Failure _ =>
          (set_head revision generation (dm_source table) (dm_authority table) (dm_received table)
             table, false)
      | Value source =>
          match ByteReader.i64 bs with
          | None =>
              (set_head revision generation source authority (dm_received table) table, false)
          | Some (wall, bs) =>
              match ByteReader.i64 bs with
              | None =>
                  (set_head revision generation source authority
                     (mkReceive (steady (dm_received table)) wall) table, false)
              | Some (steady, bs) =>
                  metadata_sections
                    (set_head revision generation source authority (mkReceive steady wall) table) bs
              end
          end
      end
  end.

(** The decoder's switch: the snapshot and [parsed]. *)
Definition decode_record (type : Z) (value : list Z) (out : DurableSnapshot) :
    DurableSnapshot * bool :=
  match RecordType.of_number type with
  | Some RecordType.SessionHeader =>
      match session_record value with
      | Some (runtime_id, policy_version, policy_name, _) =>
          (add_session runtime_id policy_version policy_name out, true)
      | None => (out, false)
      end
  | Some RecordType.QueueSnapshot =>
      match decode_queue_record limits value with
      | Some (queue, _) => (add_queue queue out, true)
      | None => (out, false)
      end
  | Some RecordType.EventBatch =>
      let '(events, rest) := read_section (decode_event limits) value in
      (add_events events out, match rest with Some _ => true | None => false end)
  | Some RecordType.SourceRegistry =>
      let '(sources, rest) := read_section (decode_source limits) value in
      (add_sources sources out, match rest with Some _ => true | None => false end)
  | Some RecordType.MetadataTable =>
      let '(table, parsed) := decode_metadata_table value (sn_metadata out) in
      (put_table table (sn_has_metadata out || parsed) out, parsed)
  | None => (out, false)
  end.

(** ** The report *)

Definition set_damage (truncated : bool) (diagnostic : string) (r : DecodeReport) : DecodeReport :=
  mkReport (re_magic_valid r) (re_header_crc_valid r) (re_payload_crc_valid r)
    (re_version_supported r) (re_truncated r || truncated) true (re_records_declared r)
    (re_records_parsed r) (re_records_rejected r) (re_bytes_consumed r) (re_bytes_declared r)
    (re_format_version r) (re_created_wall r) diagnostic.
Definition first_diagnostic (diagnostic : string) (r : DecodeReport) : string :=
  if bool_decide (re_diagnostic r = EmptyString) then diagnostic else re_diagnostic r.
Definition reject_record (diagnostic : string) (r : DecodeReport) : DecodeReport :=
  mkReport (re_magic_valid r) (re_header_crc_valid r) (re_payload_crc_valid r)
    (re_version_supported r) (re_truncated r) true (re_records_declared r)
    (re_records_parsed r) (re_records_rejected r + 1) (re_bytes_consumed r) (re_bytes_declared r)
    (re_format_version r) (re_created_wall r) diagnostic.
Definition count_parsed (r : DecodeReport) : DecodeReport :=
  mkReport (re_magic_valid r) (re_header_crc_valid r) (re_payload_crc_valid r)
    (re_version_supported r) (re_truncated r) (re_integrity_failed r) (re_records_declared r)
    (re_records_parsed r + 1) (re_records_rejected r) (re_bytes_consumed r) (re_bytes_declared r)
    (re_format_version r) (re_created_wall r) (re_diagnostic r).
Definition set_consumed (offset : Z) (r : DecodeReport) : DecodeReport :=
  mkReport (re_magic_valid r) (re_header_crc_valid r) (re_payload_crc_valid r)
    (re_version_supported r) (re_truncated r) (re_integrity_failed r) (re_records_declared r)
    (re_records_parsed r) (re_records_rejected r) offset (re_bytes_declared r)
    (re_format_version r) (re_created_wall r) (re_diagnostic r).

(** ** The record loop *)

(** The checksum, the type, the flags and the length of a record. *)
Definition record_header : Reader (Z * Z * Z * Z) :=
  stored_crc ← ByteReader.u32; type ← ByteReader.u8; flags ← ByteReader.u8; _ ← ByteReader.u16;
  value_len ← ByteReader.u32; mret (stored_crc, type, flags, value_len).

Definition checksum_mismatch (r : DecodeReport) (stored computed type value_len : Z) : string :=
  "record " +:+ u64_to_string (re_records_parsed r) +:+ " checksum mismatch: stored=" +:+
  to_hex stored 8 +:+ " computed=" +:+ to_hex computed 8 +:+ " type=" +:+ u64_to_string type +:+
  " value_bytes=" +:+ u64_to_string value_len.

(** [rest] is the payload from [offset] on; a turn consumes twelve bytes or more. *)
Fixpoint decode_records (fuel : nat) (rest : list Z) (offset : Z) (out : DurableSnapshot)
    (r : DecodeReport) : Z * DurableSnapshot * DecodeReport :=
  match fuel with
  | O => (offset, out, r)
  | S fuel =>
      if size_of rest <? kRecordHeaderSize then (offset, out, r)
      else
        match record_header rest with
        | None => (offset, out, set_damage true "a record header is truncated" r)
        | Some (stored_crc, type, flags, value_len, after) =>
            if max_record_bytes limits <? value_len then
              (offset, out,
               set_damage false "a record declares a value larger than the configured limit" r)
            else if size_of after <? value_len then
              (offset, out,
               set_damage true "the final record is cut short by the end of the segment" r)
            else
              let value := take (Z.to_nat value_len) after in
              let computed := record_crc (record_prefix type flags value_len) value in
              if negb (computed =? stored_crc) then
                (offset, out,
                 reject_record (checksum_mismatch r stored_crc computed type value_len) r)
              else
                let '(out, parsed) := decode_record type value out in
                if negb parsed then
                  (offset, out,
                   reject_record (first_diagnostic "a record could not be decoded" r) r)
                else
                  decode_records fuel (drop (Z.to_nat value_len) after)
                    (offset + kRecordHeaderSize + value_len) out (count_parsed r)
        end
  end.

(** ** The segment *)

Record SegmentHeader := mkHeader {
  sh_format_version : Z;
  sh_header_size : Z;
  sh_header_crc : Z;
  sh_policy_version : Z;
  sh_runtime_id_len : Z;
  sh_created_wall : Nanos;
  sh_created_steady : Nanos;
  sh_record_count : Z;
  sh_payload_bytes : Z;
  sh_payload_crc : Z
}.
Definition segment_header : Reader SegmentHeader :=
  format_version ← ByteReader.u32; header_size ← ByteReader.u32; header_crc ← ByteReader.u32;
  policy_version ← ByteReader.u32; runtime_id_len ← ByteReader.u32; _ ← ByteReader.u32;
  created_wall ← ByteReader.i64; created_steady ← ByteReader.i64;
  record_count ← ByteReader.u64; payload_bytes ← ByteReader.u64; payload_crc ← ByteReader.u32;
  _ ← ByteReader.u32; _ ← ByteReader.u32; _ ← ByteReader.u32;
  mret (mkHeader format_version header_size header_crc policy_version runtime_id_len created_wall
          created_steady record_count payload_bytes payload_crc).

(** The header with its checksum zeroed. *)
Definition blank_crc (header : list Z) : list Z := take 16 header ++ [0; 0; 0; 0] ++ drop 20 header.

(** The report once the header's fields are read, and once it is trusted. *)
Definition header_report (h : SegmentHeader) (header_crc_valid version_supported : bool)
    (diagnostic : string) : DecodeReport :=
  mkReport true header_crc_valid false version_supported false false (sh_record_count h) 0 0 0
    (sh_payload_bytes h) (sh_format_version h) (sh_created_wall h) diagnostic.

Definition refuse_segment (code : ErrorCode) (r : DecodeReport) :
    Status * DurableSnapshot * DecodeReport := (failure code (re_diagnostic r), no_snapshot, r).

Definition payload_mismatch (stored computed usable segment_bytes body_start : Z) : string :=
  "the payload checksum does not match the stored value: stored=" +:+ to_hex stored 8 +:+
  " computed=" +:+ to_hex computed 8 +:+ " payload_bytes=" +:+ u64_to_string usable +:+
  " segment_bytes=" +:+ u64_to_string segment_bytes +:+ " body_offset=" +:+ u64_to_string body_start.

(** After the loop. *)
Definition finish_report (offset usable : Z) (r : DecodeReport) : DecodeReport :=
  let r := set_consumed offset r in
  let r :=
    if offset =? usable then r
    else set_damage false
           (first_diagnostic
              "the segment contains trailing bytes that are not part of a record" r) r in
  if re_records_parsed r <? re_records_declared r then
    set_damage false
      (first_diagnostic "fewer records were readable than the header declares" r) r
  else r.

(** The body of a segment whose header is trusted. *)
Definition decode_body (h : SegmentHeader) (bytes : list Z) :
    Status * DurableSnapshot * DecodeReport :=
  let r := header_report h true true EmptyString in
  let body_start := kSegmentHeaderSize + sh_runtime_id_len h in
  if size_of bytes <? body_start then
    (success, no_snapshot,
     set_damage true "the segment ends before its runtime identifier is complete" r)
  else
    let body := drop (Z.to_nat kSegmentHeaderSize) bytes in
    let id_len := Z.to_nat (sh_runtime_id_len h) in
    let out :=
      mkSnapshot (bytes_text (take id_len body))
        (mkReceive (sh_created_steady h) (sh_created_wall h)) (sh_policy_version h) EmptyString
        [] [] [] no_durable_metadata false in
    let available := size_of bytes - body_start in
    let cut := available <? sh_payload_bytes h in
    let usable := if cut then available else sh_payload_bytes h in
    let r := if cut then set_damage true EmptyString r else r in
    let payload := take (Z.to_nat usable) (drop id_len body) in
    let computed := crc32c payload in
    let r :=
      if computed =? sh_payload_crc h then
        mkReport true true true true (re_truncated r) (re_integrity_failed r)
          (re_records_declared r) 0 0 0 (re_bytes_declared r) (re_format_version r)
          (re_created_wall r) (re_diagnostic r)
      else
        set_damage false
          (first_diagnostic
             (payload_mismatch (sh_payload_crc h) computed usable (size_of bytes) body_start) r) r in
    let '(offset, out, r) := decode_records (S (length payload)) payload 0 out r in
    (success, out, finish_report offset usable r).

Definition decode_snapshot (bytes : list Z) : Status * DurableSnapshot * DecodeReport :=
  let limits_status := validate_persistence limits in
  let small m :=
    mkReport false false false false false false 0 0 0 0 0 0 0 m in
  if negb (ok limits_status) then (limits_status, no_snapshot, no_decode_report)
  else if size_of bytes <? kSegmentHeaderSize then
    refuse_segment ErrorCode.IntegrityFailure
      (small "the segment is smaller than its fixed header")
  else if negb (bool_decide (take 8 bytes = kSegmentMagic)) then
    refuse_segment ErrorCode.IntegrityFailure (small "the segment magic does not match")
  else
    match segment_header (drop 8 bytes) with
    | None =>
        refuse_segment ErrorCode.IntegrityFailure
          (mkReport true false false false false false 0 0 0 0 0 0 0
             "the segment header is truncated")
    | Some (h, _) =>
        if negb (sh_header_size h =? kSegmentHeaderSize) then
          refuse_segment ErrorCode.VersionMismatch
            (header_report h false false "the segment header declares an unexpected size")
        else if negb (crc32c (blank_crc (take (Z.to_nat kSegmentHeaderSize) bytes)) =?
                      sh_header_crc h) then
          refuse_segment ErrorCode.IntegrityFailure
            (header_report h false false
               "the segment header checksum does not match its contents")
        else if negb (sh_format_version h =? kFormatVersion) then
          refuse_segment ErrorCode.VersionMismatch
            (header_report h true false
               "the segment was written in an unsupported format version")
        else if kMaxRuntimeIdBytes <? sh_runtime_id_len h then
          refuse_segment ErrorCode.IntegrityFailure
            (header_report h true true
               "the segment declares an oversized runtime identifier")
        else decode_body h bytes
    end.
End records.
