(* ===== verification/FormatBytes.v ===== *)
(** * The bytes of durable data

    Every encoder of [Format] writes, and the decoder of the same data reads, one byte
    string: [sample_bytes], [queue_bytes], ... .  The [_ok] records say what durable data
    can be: values of their types, names the constructors accept, texts within their
    bounds. *)

From S2P Require Import Prelude Result Checked Text Bytes Crc32c Identity Time Evidence Sample.
From S2P Require Import Metadata Event Limits Policy Admission Codec Format.
Open Scope Z_scope.
Open Scope codec_scope.

#[local] Set Warnings "-register-all".

Create HintDb codec.
#[export] Hint Opaque emits reads : codec.
#[export] Hint Resolve emits_u8 emits_u16 emits_u32 emits_u64 emits_i64 emits_bitmap : codec.
#[export] Hint Resolve reads_u8 reads_u16 reads_u32 reads_u64 reads_i64 reads_bitmap
  number_byte wrap_u64_range : codec.

Lemma reads_eq {A} (r : Reader A) x bs bs' : reads r x bs → bs = bs' → reads r x bs'.
Proof. by intros H <-. Qed.

Lemma reads_bind_nil {A B} (r : Reader A) (k : A → Reader B) x y bs :
  reads r x [] → reads (k x) y bs → reads (r ≫= k) y bs.
Proof. intros Hr Hk. apply (reads_bind _ _ _ _ [] bs Hr Hk). Qed.

(** [emitting]: each call of an encoder in turn; [reading]: each step of a decoder. *)
Ltac emitting := repeat (eapply emits_then; [solve [eauto with codec]|]); eauto with codec.
Ltac reading_step :=
  first [eapply reads_bind_nil; [solve [eauto with codec]|]
        |eapply reads_bind; [solve [eauto with codec]|]]; cbn beta iota.
Ltac reading :=
  eapply reads_eq; [|apply app_nil_r]; rewrite <- ?app_assoc; repeat reading_step.

(** ** Names *)

Definition named (tag : NameTag) (n : string) : Prop := create tag n = Value n.
Definition opt_named (tag : NameTag) (n : string) : Prop := n = EmptyString ∨ named tag n.

Lemma named_length tag n : named tag n → Z.of_nat (String.length n) <= 128.
Proof. intros H%create_length. unfold kMaxIdentityLength in H. lia. Qed.
Lemma opt_named_length tag n : opt_named tag n → Z.of_nat (String.length n) <= 128.
Proof. intros [->|H]; [cbn; lia|by eapply named_length]. Qed.
Lemma named_opt tag n : named tag n → opt_named tag n.
Proof. by right. Qed.

Lemma emits_opt_named tag n : opt_named tag n → emits (ByteWriter.name_id n) (string_bytes n).
Proof. intros H. apply emits_string. by eapply opt_named_length. Qed.
Lemma emits_named tag n : named tag n → emits (ByteWriter.name_id n) (string_bytes n).
Proof. intros H. by eapply emits_opt_named, named_opt. Qed.
#[export] Hint Resolve emits_named emits_opt_named emits_string : codec.

Lemma parse_named tag n : named tag n → reads (parse_name tag n) n [].
Proof. intros H. unfold parse_name. rewrite H. apply reads_ret. Qed.
Lemma parse_opt_named tag n : opt_named tag n → reads (parse_optional_name tag n) n [].
Proof.
  intros [->|H]; unfold parse_optional_name; [apply reads_ret|].
  case_bool_decide as He; [by rewrite He in H|by apply parse_named].
Qed.
#[export] Hint Resolve parse_named parse_opt_named : codec.

Section limits.
Context (limits : PersistenceLimits).
Context (room : 512 <= max_record_bytes limits).

Lemma reads_text n max :
  Z.of_nat (String.length n) <= max → max <= 512 → reads (read_string limits max) n (string_bytes n).
Proof using room. intros H1 H2. apply reads_string; word_lia. Qed.
Lemma reads_name_text n : Z.of_nat (String.length n) <= 128 → reads (read_name_id limits) n (string_bytes n).
Proof using room. intros H. apply reads_text; lia. Qed.
Lemma reads_opt_named_text tag n : opt_named tag n → reads (read_name_id limits) n (string_bytes n).
Proof using room. intros H. apply reads_name_text. by eapply opt_named_length. Qed.
Lemma reads_named_text tag n : named tag n → reads (read_name_id limits) n (string_bytes n).
Proof using room. intros H. by eapply reads_opt_named_text, named_opt. Qed.
Lemma reads_named tag n : named tag n → reads (read_name limits tag) n (string_bytes n).
Proof using room.
  intros H. eapply reads_eq; [eapply reads_bind; [by eapply reads_named_text|by apply parse_named]|].
  by rewrite app_nil_r.
Qed.
Lemma reads_opt_named tag n : opt_named tag n → reads (read_optional_name limits tag) n (string_bytes n).
Proof using room.
  intros H.
  eapply reads_eq; [eapply reads_bind; [by eapply reads_opt_named_text|by apply parse_opt_named]|].
  by rewrite app_nil_r.
Qed.
#[local] Hint Resolve reads_text reads_opt_named_text reads_named_text reads_named reads_opt_named : codec.

Lemma reads_opt {A} (r : Reader A) (g : A → list Z) (P : A → Prop) (o : option A) :
  (∀ x, P x → reads r x (g x)) → (∀ x, o = Some x → P x) →
  reads (ByteReader.optional r) o (flagged_bytes g o).
Proof using. intros H Ho. apply reads_optional. eauto. Qed.

(** ** Samples *)

Record sample_ok (s : DurableSample) : Prop := {
  sk_observed : is_i64 (obs_ns (du_observed s));
  sk_domain : opt_named ClockDomainTag (obs_domain (du_observed s));
  sk_wall : is_i64 (du_received_wall s);
  sk_steady : is_i64 (du_received_steady s);
  sk_source : opt_named SourceTag (du_source s);
  sk_incarnation : opt_named IncarnationTag (du_incarnation s);
  sk_generation : is_u64 (du_generation s);
  sk_sequence : is_u64 (du_sequence s);
  sk_authority : is_byte (du_authority s);
  sk_reported : 0 <= du_reported s < 2 ^ Z.of_nat kSampleFieldCount;
  sk_length : length (du_values s) = kSampleFieldCount;
  sk_values : Forall is_u64 (du_values s);
  sk_unreported : ∀ field, field ∈ all_fields → has_field (du_reported s) field = false →
    nth (SampleField.index field) (du_values s) 0 = 0;
  sk_freshness : is_byte (du_freshness s);
  sk_quality : is_byte (du_quality s);
  sk_age : is_i64 (du_age_ns s)
}.

Definition value_bytes (values : list Z) (field : SampleField) : list Z :=
  store_le 8 (nth (SampleField.index field) values 0).

Definition sample_bytes (s : DurableSample) : list Z :=
  store_le 8 (wrap_u64 (obs_ns (du_observed s))) ++ string_bytes (obs_domain (du_observed s)) ++
  store_le 8 (wrap_u64 (du_received_wall s)) ++ store_le 8 (wrap_u64 (du_received_steady s)) ++
  string_bytes (du_source s) ++ string_bytes (du_incarnation s) ++
  store_le 8 (du_generation s) ++ store_le 8 (du_sequence s) ++ [du_authority s] ++
  store_le 8 (du_reported s) ++ bitmap_bytes (du_reported s) ++
  concat (map (value_bytes (du_values s)) (ByteWriter.reported_fields (du_reported s))) ++
  [number (du_state s)] ++ [du_freshness s] ++ [du_quality s] ++
  store_le 8 (wrap_u64 (du_age_ns s)).

Lemma emits_values s :
  emits (put_values s)
    (concat (map (value_bytes (du_values s)) (ByteWriter.reported_fields (du_reported s)))).
Proof using. apply emits_each, Forall_true. intros f. apply emits_u64. Qed.
#[local] Hint Resolve emits_values : codec.

Lemma emits_sample s : sample_ok s → emits (put_sample s) (sample_bytes s).
Proof using. intros []. unfold put_sample, sample_bytes. emitting. Qed.

Lemma reads_values reported values fields :
  (∀ f, f ∈ fields → is_u64 (nth (SampleField.index f) values 0)) →
  (∀ f, f ∈ fields → has_field reported f = false → nth (SampleField.index f) values 0 = 0) →
  reads (read_values reported fields) (map (λ f, nth (SampleField.index f) values 0) fields)
    (concat (map (value_bytes values) (List.filter (has_field reported) fields))).
Proof using.
  intros Hu Hz. induction fields as [|f fields IH]; cbn [read_values map List.filter]; [apply reads_ret|].
  assert (reads (read_values reported fields) (map (λ f, nth (SampleField.index f) values 0) fields)
    (concat (map (value_bytes values) (List.filter (has_field reported) fields)))) as IH'.
  { apply IH; intros g Hg; [apply Hu|apply Hz]; by right. }
  destruct (has_field reported f) eqn:Hf; cbn [map concat].
  - eapply reads_bind; [apply reads_u64, Hu; by left|]. by apply reads_map.
  - rewrite (Hz f) by (done || by left).
    eapply (reads_bind _ _ _ _ []); [apply reads_ret|]. by apply reads_map.
Qed.

Lemma all_fields_nth_values values :
  length values = kSampleFieldCount →
  map (λ f, nth (SampleField.index f) values 0) all_fields = values.
Proof using.
  intros H. do 17 (destruct values as [|? values]; [done|]). by destruct values.
Qed.

Lemma reads_sample s : sample_ok s → reads (decode_sample limits) s (sample_bytes s).
Proof using room.
  intros []. unfold decode_sample, sample_bytes.
  assert (∀ f, is_u64 (nth (SampleField.index f) (du_values s) 0)) as Hvalues.
  { intros f. destruct (nth_in_or_default (SampleField.index f) (du_values s) 0) as [Hin| ->];
      [|word_lia]. rewrite Forall_forall in sk_values0. by apply sk_values0, list_elem_of_In. }
  assert (is_u64 (du_reported s)) by (cbn in *; word_lia).
  assert (reads (read_values (du_reported s) all_fields) (du_values s)
    (concat (map (value_bytes (du_values s)) (ByteWriter.reported_fields (du_reported s))))) as Hr.
  { rewrite <- (all_fields_nth_values (du_values s)) at 1 by done. by apply reads_values. }
  reading. rewrite enumerator_number. destruct s as [[]]. apply reads_ret.
Qed.

(** ** Counted loops *)

(** A count of [std::uint32_t] and the loop after it. *)
Lemma reads_loop {A B} (r : Reader A) (g : A → list Z) (xs : list A) (k : list A → Reader B) y bs :
  size_of xs <= u32_max → Forall (λ x, 1 <= size_of (g x)) xs → Forall (λ x, reads r x (g x)) xs →
  reads (k xs) y bs →
  reads (count ← read_count; xs ← ByteReader.repeat_read (Z.to_nat count) r; k xs) y
    (counted_bytes g xs ++ bs).
Proof using.
  intros Hlen Hpos Hr Hk rest. pose proof (size_of_nonneg xs). unfold counted_bytes.
  rewrite <- !app_assoc. unfold mbind at 1, Reader_bind at 1.
  rewrite (reads_count _ _ (bs ++ rest)) by (done || by apply concat_size).
  replace (Z.to_nat (size_of xs)) with (length xs) by (unfold size_of; lia).
  unfold mbind, Reader_bind. rewrite (reads_repeat r g xs) by done. apply Hk.
Qed.

Lemma section_all {A} (r : Reader A) (g : A → list Z) (xs : list A) rest :
  size_of xs <= u32_max → Forall (λ x, 1 <= size_of (g x)) xs → Forall (λ x, reads r x (g x)) xs →
  read_section r (counted_bytes g xs ++ rest) = (xs, Some rest).
Proof using.
  intros Hlen Hpos Hr. pose proof (size_of_nonneg xs). unfold read_section, counted_bytes.
  rewrite <- !app_assoc, (reads_count _ _ rest) by (done || by apply concat_size).
  replace (Z.to_nat (size_of xs)) with (length xs) by (unfold size_of; lia).
  by apply read_many_all.
Qed.

Lemma emits_counted {A} (f : A → Put) (g : A → list Z) (xs : list A) :
  Forall (λ x, emits (f x) (g x)) xs → size_of xs <= u32_max →
  emits (ByteWriter.u32 (wrap_u32 (size_of xs)) ;> ByteWriter.each f xs) (counted_bytes g xs).
Proof using.
  intros Hf Hlen. unfold counted_bytes, wrap_u32. pose proof (size_of_nonneg xs).
  rewrite Z.mod_small by word_lia. apply emits_then; [apply emits_u32|by apply emits_each].
Qed.

Lemma store_positive n v bs : 1 <= size_of (store_le (S n) v ++ bs).
Proof using. rewrite size_of_app, size_of_store. pose proof (size_of_nonneg bs). lia. Qed.
Lemma string_positive s bs : 1 <= size_of (string_bytes s ++ bs).
Proof using. unfold string_bytes. rewrite <- app_assoc. apply store_positive. Qed.

(** ** Queues *)

Definition option_ok {A} (P : A → Prop) (o : option A) : Prop := ∀ x, o = Some x → P x.
Definition is_u16 (v : Z) : Prop := 0 <= v <= u16_max.

Lemma emits_opt_u16 o : emits (ByteWriter.flagged ByteWriter.u16 o) (flagged_bytes (store_le 2) o).
Proof using. apply emits_flagged. intros x _. apply emits_u16. Qed.
Lemma emits_opt_u64 o : emits (ByteWriter.flagged ByteWriter.u64 o) (flagged_bytes (store_le 8) o).
Proof using. apply emits_flagged. intros x _. apply emits_u64. Qed.
Lemma emits_opt_name tag o :
  option_ok (named tag) o →
  emits (ByteWriter.flagged ByteWriter.name_id o) (flagged_bytes string_bytes o).
Proof using. intros H. apply emits_flagged. intros x Hx. by eapply emits_named, H. Qed.
Lemma reads_opt_u16 o :
  option_ok is_u16 o → reads (ByteReader.optional ByteReader.u16) o (flagged_bytes (store_le 2) o).
Proof using. intros H. apply reads_optional. intros x Hx. by apply reads_u16, H. Qed.
Lemma reads_opt_u64 o :
  option_ok is_u64 o → reads (ByteReader.optional ByteReader.u64) o (flagged_bytes (store_le 8) o).
Proof using. intros H. apply reads_optional. intros x Hx. by apply reads_u64, H. Qed.
Lemma reads_opt_text tag o :
  option_ok (named tag) o →
  reads (ByteReader.optional (read_name_id limits)) o (flagged_bytes string_bytes o).
Proof using room. intros H. apply reads_optional. intros x Hx. by eapply reads_named_text, H. Qed.
Lemma reads_opt_name tag o :
  option_ok (named tag) o →
  reads (ByteReader.optional (read_name limits tag)) o (flagged_bytes string_bytes o).
Proof using room. intros H. apply reads_optional. intros x Hx. by eapply reads_named, H. Qed.
Lemma emits_all {A} (P : A → Prop) (f : A → Put) (g : A → list Z) (xs : list A) :
  (∀ x, P x → emits (f x) (g x)) → Forall P xs → emits (ByteWriter.each f xs) (concat (map g xs)).
Proof using. intros H Hxs. apply emits_each. by eapply Forall_impl; [exact Hxs|]. Qed.
Lemma reads_all {A} (P : A → Prop) (r : Reader A) (g : A → list Z) (xs : list A) :
  (∀ x, P x → reads r x (g x)) → Forall P xs → Forall (λ x, reads r x (g x)) xs.
Proof using. intros H Hxs. by eapply Forall_impl; [exact Hxs|]. Qed.
#[local] Hint Resolve emits_opt_u16 emits_opt_u64 emits_opt_name reads_opt_u16 reads_opt_u64
  reads_opt_text reads_opt_name : codec.

Record queue_ok (q : DurableQueueState) : Prop := {
  uk_device : named DeviceTag (qp_device (dq_queue q));
  uk_port : named PortTag (qp_port (dq_queue q));
  uk_queue : 0 <= qp_queue (dq_queue q) <= u32_max;
  uk_traffic : option_ok is_u16 (dc_traffic_class (dq_classes q));
  uk_scheduling : option_ok (named SchedulingClassTag) (dc_scheduling_class (dq_classes q));
  uk_origin : is_byte (dc_origin (dq_classes q));
  uk_revision : is_u64 (dc_metadata_revision (dq_classes q));
  uk_count : size_of (dq_samples q) <= u32_max;
  uk_records : size_of (dq_samples q) <= max_segment_records limits;
  uk_samples : Forall sample_ok (dq_samples q)
}.

Definition queue_bytes (q : DurableQueueState) : list Z :=
  string_bytes (qp_device (dq_queue q)) ++ string_bytes (qp_port (dq_queue q)) ++
  store_le 4 (qp_queue (dq_queue q)) ++ [if dq_classes_known q then 1 else 0] ++
  flagged_bytes (store_le 2) (dc_traffic_class (dq_classes q)) ++
  flagged_bytes string_bytes (dc_scheduling_class (dq_classes q)) ++
  [dc_origin (dq_classes q)] ++ store_le 8 (dc_metadata_revision (dq_classes q)) ++
  counted_bytes sample_bytes (dq_samples q).

Lemma emits_samples samples :
  Forall sample_ok samples →
  emits (ByteWriter.each put_sample samples) (concat (map sample_bytes samples)).
Proof using. apply emits_all, emits_sample. Qed.
#[local] Hint Resolve emits_samples : codec.

Lemma emits_queue q : queue_ok q → emits (put_queue q) (queue_bytes q).
Proof using. intros []. unfold put_queue, queue_bytes, counted_bytes. emitting. Qed.

Lemma sample_positive s : 1 <= size_of (sample_bytes s).
Proof using. apply store_positive. Qed.

Lemma reads_samples {B} samples (k : list DurableSample → Reader B) y bs :
  size_of samples <= u32_max → size_of samples <= max_segment_records limits →
  Forall sample_ok samples → reads (k samples) y bs →
  reads (count ← read_count;
         samples ← (if max_segment_records limits <? count then ByteReader.fail
                    else ByteReader.repeat_read (Z.to_nat count) (decode_sample limits));
         k samples) y (counted_bytes sample_bytes samples ++ bs).
Proof using room.
  intros Hlen Hmax Hok Hk rest. pose proof (size_of_nonneg samples). unfold counted_bytes.
  rewrite <- !app_assoc. unfold mbind at 1, Reader_bind at 1.
  rewrite (reads_count _ _ (bs ++ rest)).
  - is_false (max_segment_records limits <? size_of samples). unfold size_of. rewrite Nat2Z.id.
    unfold mbind, Reader_bind. rewrite (reads_repeat _ sample_bytes); [apply Hk|].
    eapply reads_all; [apply reads_sample|done].
  - done.
  - apply concat_size, Forall_true, sample_positive.
Qed.

Lemma reads_parsed_option tag o :
  option_ok (named tag) o →
  reads (match o with Some text => name ← parse_name tag text; mret (Some name)
         | None => mret None end) o [].
Proof using.
  intros H. destruct o as [n|]; [|apply reads_ret]. by apply reads_map, parse_named, H.
Qed.
#[local] Hint Resolve reads_parsed_option : codec.

Lemma reads_queue q : queue_ok q → reads (decode_queue_record limits) q (queue_bytes q).
Proof using room.
  intros []. unfold decode_queue_record, queue_bytes.
  assert (is_byte (if dq_classes_known q then 1 else 0)) by (destruct (dq_classes_known q); done).
  reading. apply reads_samples; [done..|].
  destruct q as [[] [] [] ?]; apply reads_ret.
Qed.

(** ** Sources and events *)

Definition receive_ok (t : ReceiveTime) : Prop := is_i64 (wall t) ∧ is_i64 (steady t).
Definition receive_bytes (t : ReceiveTime) : list Z :=
  store_le 8 (wrap_u64 (wall t)) ++ store_le 8 (wrap_u64 (steady t)).
Lemma emits_receive t : emits (put_receive t) (receive_bytes t).
Proof using. unfold put_receive, receive_bytes. emitting. Qed.
Lemma reads_receive t : receive_ok t → reads read_receive t (receive_bytes t).
Proof using.
  intros [Hw Hs]. unfold read_receive, receive_bytes. reading. destruct t. apply reads_ret.
Qed.
#[local] Hint Resolve emits_receive reads_receive : codec.

Definition incarnation_ok (e : IncarnationId * IncarnationOrdinal) : Prop :=
  named IncarnationTag e.1 ∧ is_u64 e.2.
Definition incarnation_bytes (e : IncarnationId * IncarnationOrdinal) : list Z :=
  string_bytes e.1 ++ store_le 8 e.2.
Lemma emits_incarnation e : incarnation_ok e → emits (put_incarnation e) (incarnation_bytes e).
Proof using. intros [Hn Ho]. unfold put_incarnation, incarnation_bytes. emitting. Qed.
Lemma reads_incarnation e :
  incarnation_ok e → reads (decode_incarnation limits) e (incarnation_bytes e).
Proof using room.
  intros [Hn Ho]. unfold decode_incarnation, incarnation_bytes. reading. destruct e. apply reads_ret.
Qed.

Record source_ok (s : DurableSource) : Prop := {
  ok_id : named SourceTag (so_id s);
  ok_authority : is_byte (so_authority s);
  ok_declared : is_byte (so_declared_authority s);
  ok_incarnation : opt_named IncarnationTag (so_incarnation s);
  ok_ordinal : is_u64 (so_incarnation_ordinal s);
  ok_sequence : is_u64 (so_last_sequence s);
  ok_generation : is_u64 (so_generation s);
  ok_domain : opt_named ClockDomainTag (so_clock_domain s);
  ok_first : receive_ok (so_first_seen s);
  ok_last : receive_ok (so_last_seen s);
  ok_accepted : is_u64 (so_accepted s);
  ok_fenced : is_u64 (so_fenced s);
  ok_duplicates : is_u64 (so_duplicates s);
  ok_rejected : is_u64 (so_rejected s);
  ok_observed : is_u64 (so_last_observed_ns s);
  ok_recent : Forall incarnation_ok (so_recent_incarnations s);
  ok_recent_size : size_of (so_recent_incarnations s) <= u32_max
}.

Definition source_bytes (s : DurableSource) : list Z :=
  string_bytes (so_id s) ++ [so_authority s] ++ [so_declared_authority s] ++
  string_bytes (so_incarnation s) ++ store_le 8 (so_incarnation_ordinal s) ++
  store_le 8 (so_last_sequence s) ++ store_le 8 (so_generation s) ++
  string_bytes (so_clock_domain s) ++ receive_bytes (so_first_seen s) ++
  receive_bytes (so_last_seen s) ++ store_le 8 (so_accepted s) ++ store_le 8 (so_fenced s) ++
  store_le 8 (so_duplicates s) ++ store_le 8 (so_rejected s) ++
  store_le 8 (wrap_u64 (wrap_i64 (so_last_observed_ns s))) ++
  counted_bytes incarnation_bytes (so_recent_incarnations s).

Lemma emits_recent recent :
  Forall incarnation_ok recent → size_of recent <= u32_max →
  emits (ByteWriter.u32 (wrap_u32 (size_of recent)) ;> ByteWriter.each put_incarnation recent)
    (counted_bytes incarnation_bytes recent).
Proof using.
  intros H. apply emits_counted. by eapply Forall_impl; [exact H|apply emits_incarnation].
Qed.
#[local] Hint Resolve emits_recent : codec.

Lemma emits_source s : source_ok s → emits (put_source s) (source_bytes s).
Proof using. intros []. unfold put_source, source_bytes. emitting. Qed.

Lemma wrap_u64_i64 v : is_u64 v → wrap_u64 (wrap_i64 v) = v.
Proof using.
  intros H. unfold wrap_u64, wrap_i64. rewrite Zminus_mod_idemp_l.
  replace (v + 9223372036854775808 - 9223372036854775808) with v by lia.
  apply Z.mod_small. word_lia.
Qed.

Lemma reads_source s : source_ok s → reads (decode_source limits) s (source_bytes s).
Proof using room.
  intros []. unfold decode_source, source_bytes.
  assert (is_i64 (wrap_i64 (so_last_observed_ns s))) by apply wrap_i64_range.
  reading. apply reads_loop; [done| |by eapply reads_all; [apply reads_incarnation|]|].
  - apply Forall_true. intros e. apply string_positive.
  - rewrite wrap_u64_i64 by done. destruct s. apply reads_ret.
Qed.

Record event_ok (e : DurableEvent) : Prop := {
  vk_severity : is_byte (de_severity e);
  vk_received : receive_ok (de_received e);
  vk_observed : is_i64 (obs_ns (de_observed e));
  vk_domain : opt_named ClockDomainTag (obs_domain (de_observed e));
  vk_device : opt_named DeviceTag (qp_device (de_queue e));
  vk_port : opt_named PortTag (qp_port (de_queue e));
  vk_queue : 0 <= qp_queue (de_queue e) <= u32_max;
  vk_source : opt_named SourceTag (de_source e);
  vk_incarnation : opt_named IncarnationTag (de_incarnation e);
  vk_sequence : is_u64 (de_sequence e);
  vk_revision : is_u64 (de_revision e);
  vk_detail : Z.of_nat (String.length (de_detail e)) <= 512
}.

Definition event_bytes (e : DurableEvent) : list Z :=
  [number (de_kind e)] ++ [de_severity e] ++ receive_bytes (de_received e) ++
  store_le 8 (wrap_u64 (obs_ns (de_observed e))) ++ string_bytes (obs_domain (de_observed e)) ++
  string_bytes (qp_device (de_queue e)) ++ string_bytes (qp_port (de_queue e)) ++
  store_le 4 (qp_queue (de_queue e)) ++ string_bytes (de_source e) ++
  string_bytes (de_incarnation e) ++ store_le 8 (de_sequence e) ++ store_le 8 (de_revision e) ++
  string_bytes (de_detail e).

Lemma emits_event e : event_ok e → emits (put_event e) (event_bytes e).
Proof using. intros []. unfold put_event, event_bytes. emitting. Qed.

Lemma reads_enumerator {E} `{Enumeration E} (e : E) :
  reads (match enumerator (number e) with Some e => mret e | None => ByteReader.fail end) e [].
Proof using. rewrite enumerator_number. apply reads_ret. Qed.
#[local] Hint Resolve reads_enumerator : codec.

Lemma reads_event e : event_ok e → reads (decode_event limits) e (event_bytes e).
Proof using room.
  intros []. unfold decode_event, event_bytes. assert (512 <= 512) by lia.
  reading. destruct e as [? ? ? [] [] ? ? ? ? ?]. apply reads_ret.
Qed.

(** ** Class metadata *)

Record traffic_ok (d : TrafficClassDescriptor) : Prop := {
  tk_id : is_u16 (tc_id d);
  tk_name : Z.of_nat (String.length (tc_name d)) <= 128;
  tk_dscp : option_ok is_u16 (tc_dscp d);
  tk_pcp : option_ok is_u16 (tc_priority_code_point d);
  tk_scheduling : option_ok (named SchedulingClassTag) (tc_scheduling_class d)
}.
Definition traffic_bytes (d : TrafficClassDescriptor) : list Z :=
  store_le 2 (tc_id d) ++ string_bytes (tc_name d) ++ flagged_bytes (store_le 2) (tc_dscp d) ++
  flagged_bytes (store_le 2) (tc_priority_code_point d) ++
  flagged_bytes string_bytes (tc_scheduling_class d).
Lemma emits_traffic d : traffic_ok d → emits (put_traffic_class d) (traffic_bytes d).
Proof using. intros []. unfold put_traffic_class, traffic_bytes. emitting. Qed.
Lemma reads_traffic d : traffic_ok d → reads (decode_traffic_class limits) d (traffic_bytes d).
Proof using room.
  intros []. unfold decode_traffic_class, traffic_bytes. assert (128 <= 512) by lia.
  reading. destruct d. apply reads_ret.
Qed.

Record scheduling_ok (d : SchedulingClassDescriptor) : Prop := {
  ck_id : named SchedulingClassTag (sc_id d);
  ck_mode : Z.of_nat (String.length (sc_mode d)) <= 64;
  ck_weight : option_ok is_u64 (sc_weight d)
}.
Definition scheduling_bytes (d : SchedulingClassDescriptor) : list Z :=
  string_bytes (sc_id d) ++ string_bytes (sc_mode d) ++ flagged_bytes (store_le 8) (sc_weight d).
Lemma emits_scheduling d : scheduling_ok d → emits (put_scheduling_class d) (scheduling_bytes d).
Proof using. intros []. unfold put_scheduling_class, scheduling_bytes. emitting. Qed.
Lemma reads_scheduling d :
  scheduling_ok d → reads (decode_scheduling_class limits) d (scheduling_bytes d).
Proof using room.
  intros []. unfold decode_scheduling_class, scheduling_bytes. assert (64 <= 512) by lia.
  reading. destruct d. apply reads_ret.
Qed.

Record binding_ok (b : QueueClassBinding) : Prop := {
  bk_device : named DeviceTag (qp_device (qb_queue b));
  bk_port : named PortTag (qp_port (qb_queue b));
  bk_queue : 0 <= qp_queue (qb_queue b) <= u32_max;
  bk_traffic : option_ok is_u16 (qb_traffic_class b);
  bk_scheduling : option_ok (named SchedulingClassTag) (qb_scheduling_class b)
}.
Definition binding_bytes (b : QueueClassBinding) : list Z :=
  string_bytes (qp_device (qb_queue b)) ++ string_bytes (qp_port (qb_queue b)) ++
  store_le 4 (qp_queue (qb_queue b)) ++ flagged_bytes (store_le 2) (qb_traffic_class b) ++
  flagged_bytes string_bytes (qb_scheduling_class b).
Lemma emits_binding b : binding_ok b → emits (put_binding b) (binding_bytes b).
Proof using. intros []. unfold put_binding, binding_bytes. emitting. Qed.
Lemma reads_binding b : binding_ok b → reads (decode_binding limits) b (binding_bytes b).
Proof using room.
  intros []. unfold decode_binding, binding_bytes. reading. destruct b as [[] ? ?]. apply reads_ret.
Qed.

Record table_ok (t : DurableMetadata) : Prop := {
  mk_revision : is_u64 (dm_revision t);
  mk_generation : is_u64 (dm_generation t);
  mk_source : named SourceTag (dm_source t);
  mk_authority : is_byte (dm_authority t);
  mk_received : receive_ok (dm_received t);
  mk_traffic : Forall traffic_ok (dm_traffic_classes t);
  mk_scheduling : Forall scheduling_ok (dm_scheduling_classes t);
  mk_bindings : Forall binding_ok (dm_bindings t);
  mk_traffic_size : size_of (dm_traffic_classes t) <= u32_max;
  mk_scheduling_size : size_of (dm_scheduling_classes t) <= u32_max;
  mk_bindings_size : size_of (dm_bindings t) <= u32_max
}.
Definition table_bytes (t : DurableMetadata) : list Z :=
  store_le 8 (dm_revision t) ++ store_le 8 (dm_generation t) ++ string_bytes (dm_source t) ++
  [dm_authority t] ++ receive_bytes (dm_received t) ++
  counted_bytes traffic_bytes (dm_traffic_classes t) ++
  counted_bytes scheduling_bytes (dm_scheduling_classes t) ++
  counted_bytes binding_bytes (dm_bindings t).

Lemma emits_wrapped_count {A} (xs : list A) :
  size_of xs <= u32_max →
  emits (ByteWriter.u32 (wrap_u32 (size_of xs))) (store_le 4 (size_of xs)).
Proof using.
  intros H. pose proof (size_of_nonneg xs). unfold wrap_u32. rewrite Z.mod_small by word_lia.
  apply emits_u32.
Qed.

#[local] Hint Resolve emits_wrapped_count : codec.
Lemma emits_table t : table_ok t → emits (put_metadata t) (table_bytes t).
Proof using.
  intros []. unfold put_metadata, table_bytes, counted_bytes. rewrite <- !app_assoc.
  assert (emits (ByteWriter.each put_traffic_class (dm_traffic_classes t))
    (concat (map traffic_bytes (dm_traffic_classes t)))) by (eapply emits_all, mk_traffic0;
      apply emits_traffic).
  assert (emits (ByteWriter.each put_scheduling_class (dm_scheduling_classes t))
    (concat (map scheduling_bytes (dm_scheduling_classes t)))) by (eapply emits_all, mk_scheduling0;
      apply emits_scheduling).
  assert (emits (ByteWriter.each put_binding (dm_bindings t))
    (concat (map binding_bytes (dm_bindings t)))) by (eapply emits_all, mk_bindings0;
      apply emits_binding).
  emitting.
Qed.

Lemma reads_head t :
  table_ok t →
  reads (metadata_head limits) (dm_revision t, dm_generation t, dm_source t, dm_authority t)
    (store_le 8 (dm_revision t) ++ store_le 8 (dm_generation t) ++ string_bytes (dm_source t) ++
     [dm_authority t]).
Proof using room. intros []. unfold metadata_head. reading. apply reads_ret. Qed.

Lemma sections_read t rest :
  table_ok t →
  metadata_sections limits
    (set_head (dm_revision t) (dm_generation t) (dm_source t) (dm_authority t) (dm_received t)
       no_durable_metadata)
    (counted_bytes traffic_bytes (dm_traffic_classes t) ++
     counted_bytes scheduling_bytes (dm_scheduling_classes t) ++
     counted_bytes binding_bytes (dm_bindings t) ++ rest) = (t, true).
Proof using room.
  intros []. unfold metadata_sections.
  rewrite (section_all (decode_traffic_class limits) traffic_bytes);
    [|done|apply Forall_true; intros x; apply store_positive
     |by eapply reads_all; [apply reads_traffic|]].
  rewrite (section_all (decode_scheduling_class limits) scheduling_bytes);
    [|done|apply Forall_true; intros x; apply string_positive
     |by eapply reads_all; [apply reads_scheduling|]].
  rewrite (section_all (decode_binding limits) binding_bytes);
    [|done|apply Forall_true; intros x; apply string_positive
     |by eapply reads_all; [apply reads_binding|]].
  by destruct t.
Qed.

Lemma table_read t rest :
  table_ok t → decode_metadata_table limits (table_bytes t ++ rest) no_durable_metadata = (t, true).
Proof using room.
  intros Ht. pose proof (reads_head t Ht) as Hhead. pose proof (mk_source t Ht) as Hs.
  destruct (mk_received t Ht) as [Hwall Hsteady]. unfold decode_metadata_table, table_bytes.
  rewrite <- !app_assoc.
  specialize (Hhead (receive_bytes (dm_received t) ++
    counted_bytes traffic_bytes (dm_traffic_classes t) ++
    counted_bytes scheduling_bytes (dm_scheduling_classes t) ++
    counted_bytes binding_bytes (dm_bindings t) ++ rest)).
  rewrite <- !app_assoc in Hhead. rewrite Hhead, Hs. unfold receive_bytes.
  rewrite <- !app_assoc, (reads_i64 _ Hwall), (reads_i64 _ Hsteady).
  rewrite <- (sections_read t rest Ht). by destruct (dm_received t).
Qed.

(** ** The session record *)

Definition session_bytes (sn : DurableSnapshot) : list Z :=
  string_bytes (sn_runtime_id sn) ++ store_le 4 (sn_policy_version sn) ++
  string_bytes (sn_policy_name sn) ++ store_le 8 (wrap_u64 (wall (sn_created sn))) ++
  store_le 8 (wrap_u64 (steady (sn_created sn))) ++
  store_le 4 (Z.min u32_max (size_of (sn_queues sn))).

Record session_ok (sn : DurableSnapshot) : Prop := {
  ek_id : Z.of_nat (String.length (sn_runtime_id sn)) <= kMaxRuntimeIdBytes;
  ek_policy : 0 <= sn_policy_version sn <= u32_max;
  ek_name : Z.of_nat (String.length (sn_policy_name sn)) <= 128;
  ek_created : receive_ok (sn_created sn)
}.

Lemma emits_session sn : session_ok sn → emits (put_session sn) (session_bytes sn).
Proof using. intros []. unfold put_session, session_bytes. emitting. Qed.

Lemma reads_session sn :
  session_ok sn →
  reads (session_record limits) (sn_runtime_id sn, sn_policy_version sn, sn_policy_name sn)
    (session_bytes sn).
Proof using room.
  intros [? ? ? []]. unfold session_record, session_bytes.
  assert (kMaxRuntimeIdBytes <= 512) by (unfold kMaxRuntimeIdBytes; lia).
  assert (128 <= 512) by lia.
  assert (0 <= Z.min u32_max (size_of (sn_queues sn)) <= u32_max).
  { pose proof (size_of_nonneg (sn_queues sn)). word_lia. }
  reading. apply reads_ret.
Qed.
End limits.
