(* ===== verification/SegmentBytes.v ===== *)
(** * The bytes of a segment

    The segment of a snapshot is its header, the runtime identifier and its records one
    after the other ([segment_of]).  The encoder writes exactly that, when the snapshot is
    durable data within the limits ([encode_segment]). *)

From S2P Require Import Prelude Result Checked Text Bytes Crc32c Identity Time Evidence Sample.
From S2P Require Import Metadata Event Limits Policy Admission Codec Format FormatBytes.
Open Scope Z_scope.
Open Scope codec_scope.

#[local] Set Warnings "-register-all".

(** ** The bytes of a format are bytes *)

Lemma ok_app a b : bytes_ok a → bytes_ok b → bytes_ok (a ++ b).
Proof. apply Forall_app_2. Qed.
Lemma ok_one v : is_byte v → bytes_ok [v].
Proof. intros H. by constructor. Qed.
Lemma ok_store n v : bytes_ok (store_le n v).
Proof. apply store_le_at_ok. Qed.
Lemma ok_concat {A} (g : A → list Z) xs : Forall (λ x, bytes_ok (g x)) xs → bytes_ok (concat (map g xs)).
Proof. induction 1; cbn; [constructor|by apply ok_app]. Qed.
Lemma ok_string s : bytes_ok (string_bytes s).
Proof. apply ok_app; [apply ok_store|apply text_bytes_ok]. Qed.
Lemma ok_flagged {A} (g : A → list Z) o : (∀ x, bytes_ok (g x)) → bytes_ok (flagged_bytes g o).
Proof. intros H. destruct o; (constructor; [done|]); [apply H|constructor]. Qed.
Lemma ok_counted {A} (P : A → Prop) (g : A → list Z) xs :
  (∀ x, P x → bytes_ok (g x)) → Forall P xs → bytes_ok (counted_bytes g xs).
Proof.
  intros H Hxs. apply ok_app; [apply ok_store|]. apply ok_concat. by eapply Forall_impl.
Qed.
Lemma ok_bitmap m : bytes_ok (bitmap_bytes m).
Proof.
  unfold bitmap_bytes. assert (length (ByteWriter.reported_fields m) <= 17)%nat
    by apply (filter_length_le _ all_fields).
  constructor; [unfold is_byte, size_of; lia|]. apply Forall_map, Forall_true.
  intros f. unfold is_byte. destruct f; cbn; lia.
Qed.
#[local] Hint Resolve ok_one ok_store ok_string ok_flagged ok_bitmap ok_concat number_byte : codec.
#[local] Hint Opaque bytes_ok : codec.
Ltac bytes := repeat first [solve [eauto with codec] | apply ok_app; [solve [eauto with codec]|]].

Lemma ok_receive t : bytes_ok (receive_bytes t).
Proof. unfold receive_bytes. bytes. Qed.
#[local] Hint Resolve ok_receive : codec.

Lemma ok_sample s : sample_ok s → bytes_ok (sample_bytes s).
Proof.
  intros []. assert (bytes_ok (concat (map (value_bytes (du_values s))
    (ByteWriter.reported_fields (du_reported s))))) as Hvalues.
  { apply ok_concat, Forall_true. intros f. apply ok_store. }
  unfold sample_bytes. bytes.
Qed.
Lemma ok_queue limits q : queue_ok limits q → bytes_ok (queue_bytes q).
Proof.
  intros []. assert (bytes_ok (counted_bytes sample_bytes (dq_samples q)))
    by (by eapply ok_counted; [apply ok_sample|]).
  assert (is_byte (if dq_classes_known q then 1 else 0)) by (by destruct (dq_classes_known q)).
  unfold queue_bytes. bytes.
Qed.
Lemma ok_source s : source_ok s → bytes_ok (source_bytes s).
Proof.
  intros []. assert (bytes_ok (counted_bytes incarnation_bytes (so_recent_incarnations s))).
  { eapply ok_counted; [|done]. intros e _. unfold incarnation_bytes. bytes. }
  unfold source_bytes. bytes.
Qed.
Lemma ok_event e : event_ok e → bytes_ok (event_bytes e).
Proof. intros []. unfold event_bytes. bytes. Qed.
Lemma ok_table t : table_ok t → bytes_ok (table_bytes t).
Proof.
  intros []. unfold table_bytes, counted_bytes. rewrite <- !app_assoc.
  assert (bytes_ok (concat (map traffic_bytes (dm_traffic_classes t)))).
  { apply ok_concat, Forall_true. intros d. unfold traffic_bytes. bytes. }
  assert (bytes_ok (concat (map scheduling_bytes (dm_scheduling_classes t)))).
  { apply ok_concat, Forall_true. intros d. unfold scheduling_bytes. bytes. }
  assert (bytes_ok (concat (map binding_bytes (dm_bindings t)))).
  { apply ok_concat, Forall_true. intros d. unfold binding_bytes. bytes. }
  bytes.
Qed.
Lemma ok_session sn : bytes_ok (session_bytes sn).
Proof. unfold session_bytes. bytes. Qed.

(** ** The records of a snapshot *)

Abbreviation Rec := (RecordType * list Z)%type.

(** The checksum, the prefix and the value of a record. *)
Definition record_of (r : Rec) : list Z :=
  let prefix := record_prefix (RecordType.number r.1) 0 (size_of r.2) in
  store_le 4 (record_crc prefix r.2) ++ prefix ++ r.2.
#[global] Arguments record_of : simpl never.
Definition payload_of (rs : list Rec) : list Z := concat (map record_of rs).

Definition source_records (sources : list DurableSource) : list Rec :=
  match sources with
  | [] => []
  | _ => [(RecordType.SourceRegistry, counted_bytes source_bytes sources)]
  end.
Definition event_records (events : list DurableEvent) : list Rec :=
  match events with
  | [] => []
  | _ => [(RecordType.EventBatch, counted_bytes event_bytes events)]
  end.
Definition metadata_records (sn : DurableSnapshot) : list Rec :=
  if sn_has_metadata sn then [(RecordType.MetadataTable, table_bytes (sn_metadata sn))] else [].
Definition queue_records (queues : list DurableQueueState) : list Rec :=
  map (λ q, (RecordType.QueueSnapshot, queue_bytes q)) queues.
Definition records_of (sn : DurableSnapshot) : list Rec :=
  (RecordType.SessionHeader, session_bytes sn) ::
  queue_records (sn_queues sn) ++ source_records (sn_sources sn) ++ event_records (sn_events sn) ++
  metadata_records sn.

(** The first sixteen bytes of the header, and those after its checksum. *)
Definition header_start : list Z := kSegmentMagic ++ store_le 4 kFormatVersion ++ store_le 4 kSegmentHeaderSize.
Definition header_end (sn : DurableSnapshot) (rs : list Rec) : list Z :=
  store_le 4 (sn_policy_version sn) ++ store_le 4 (Z.of_nat (String.length (sn_runtime_id sn))) ++
  store_le 4 0 ++ store_le 8 (wrap_u64 (wall (sn_created sn))) ++
  store_le 8 (wrap_u64 (steady (sn_created sn))) ++ store_le 8 (size_of rs) ++
  store_le 8 (size_of (payload_of rs)) ++ store_le 4 (crc32c (payload_of rs)) ++
  store_le 4 1 ++ store_le 4 0 ++ store_le 4 0.
Definition header_crc (sn : DurableSnapshot) (rs : list Rec) : Z :=
  crc32c (header_start ++ store_le 4 0 ++ header_end sn rs).
Definition header_of (sn : DurableSnapshot) (rs : list Rec) : list Z :=
  header_start ++ store_le 4 (header_crc sn rs) ++ header_end sn rs.

Definition segment_of (sn : DurableSnapshot) : list Z :=
  header_of sn (records_of sn) ++ text_bytes (sn_runtime_id sn) ++ payload_of (records_of sn).

Section limits.
Context (limits : PersistenceLimits).
Context (room : 512 <= max_record_bytes limits).

Record snapshot_ok (sn : DurableSnapshot) : Prop := {
  nk_session : session_ok sn;
  nk_queues : Forall (queue_ok limits) (sn_queues sn);
  nk_sources : Forall source_ok (sn_sources sn);
  nk_sources_size : size_of (sn_sources sn) <= u32_max;
  nk_events : Forall event_ok (sn_events sn);
  nk_events_size : size_of (sn_events sn) <= u32_max;
  nk_metadata : if sn_has_metadata sn then table_ok (sn_metadata sn)
                else sn_metadata sn = no_durable_metadata
}.

(** The records are within the limits. *)
Record fits (rs : list Rec) : Prop := {
  ft_value : Forall (λ r, size_of r.2 <= max_record_bytes limits ∧ size_of r.2 <= u32_max) rs;
  ft_count : size_of rs <= max_segment_records limits;
  ft_payload : size_of (payload_of rs) <= max_segment_bytes limits
}.
Record limits_ok : Prop := {
  lk_valid : ok (validate_persistence limits) = true;
  lk_segment : max_segment_bytes limits <= u64_max;
  lk_records : max_segment_records limits <= u64_max;
  lk_record : max_record_bytes limits <= max_segment_bytes limits;
  lk_metadata : max_metadata_bytes limits <= max_segment_bytes limits
}.

Lemma payload_app rs rs' : payload_of (rs ++ rs') = payload_of rs ++ payload_of rs'.
Proof using. unfold payload_of. by rewrite map_app, concat_app. Qed.

Lemma payload_cons r rs : payload_of (r :: rs) = record_of r ++ payload_of rs.
Proof using. done. Qed.
Lemma payload_snoc rs r : payload_of (rs ++ [r]) = payload_of rs ++ record_of r.
Proof using. by rewrite payload_app, payload_cons, app_nil_r. Qed.

Lemma record_of_size r : size_of (record_of r) = 12 + size_of r.2.
Proof using.
  unfold record_of, record_prefix. cbv zeta. rewrite !size_of_app, !size_of_store, !size_of_cons, size_of_nil. lia.
Qed.

(** ** What the encoder writes *)

Lemma written_bytes p bs max :
  emits p bs → max <= u64_max → size_of bs <= max → written p max = Some bs.
Proof using.
  intros Hp Hmax Hfits. unfold written, ByteWriter.create. cbv zeta.
  assert (p (ByteWriter.mkWriter [] max true) = append_bytes bs (ByteWriter.mkWriter [] max true))
    as Hw by (apply Hp; [done|done|cbn; rewrite size_of_nil; lia]).
  by rewrite Hw.
Qed.

(** The segment after the records [done]. *)
Definition after (done : list Rec) : Segment := (payload_of done, size_of done).

Lemma append_next before type value rest :
  limits_ok → fits (before ++ (type, value) :: rest) →
  append limits type value (after before) = Value (after (before ++ [(type, value)])).
Proof using.
  intros [_ Hseg Hrec _ _] [Hv Hc Hp]. unfold append, after.
  apply Forall_app in Hv as [_ [[Hvalue Hu32] _]%Forall_cons]. cbn in Hvalue, Hu32.
  rewrite size_of_app, size_of_cons in Hc. pose proof (size_of_nonneg rest).
  pose proof (size_of_nonneg before).
  is_false (max_record_bytes limits <? size_of value).
  is_false (max_segment_records limits <=? size_of before).
  rewrite payload_app, payload_cons, !size_of_app, record_of_size in Hp. cbn [snd] in Hp.
  pose proof (size_of_nonneg (payload_of rest)).
  pose proof (size_of_nonneg (payload_of before)).
  unfold append_record. cbv zeta. is_false (max_segment_bytes limits <? size_of value).
  is_false (u32_max <? size_of value). cbn [orb].
  assert (emits (ByteWriter.u32 (record_crc (record_prefix (RecordType.number type) 0 (size_of value)) value) ;>
    ByteWriter.raw (record_prefix (RecordType.number type) 0 (size_of value)) ;> ByteWriter.raw value)
    (record_of (type, value))) as Hemit.
  { apply emits_then; [apply emits_u32|]. apply emits_then; apply emits_raw. }
  pose proof (Hemit (ByteWriter.create (payload_of before) (max_segment_bytes limits))) as Hw.
  rewrite Hw; [|done|done|rewrite record_of_size; cbn [ByteWriter.create ByteWriter.out
    ByteWriter.max_bytes snd]; lia]. clear Hw Hemit.
  rewrite payload_snoc, size_of_app, size_of_cons, size_of_nil.
  by rewrite wrap_u64_id by word_lia.
Qed.

Lemma append_value_next before type p bs max code message rest :
  limits_ok → fits (before ++ (type, bs) :: rest) → emits p bs → max <= u64_max →
  size_of bs <= max →
  append_value limits type (written p max) code message (after before) =
  Value (after (before ++ [(type, bs)])).
Proof using.
  intros Hl Hf Hp Hmax Hsize. rewrite (written_bytes _ _ _ Hp Hmax Hsize). cbn.
  by eapply append_next.
Qed.

Lemma fits_record before r rest :
  fits (before ++ r :: rest) → size_of r.2 <= max_record_bytes limits.
Proof using. intros [Hv _ _]. by apply Forall_app in Hv as [_ [[? _] _]%Forall_cons]. Qed.

Lemma append_queues_all before queues rest :
  limits_ok → Forall (queue_ok limits) queues →
  fits (before ++ queue_records queues ++ rest) →
  append_queues limits queues (after before) = Value (after (before ++ queue_records queues)).
Proof using.
  intros Hl Hq. revert before. induction Hq as [|q queues Hq Hqs IH]; intros before Hf; cbn.
  { by rewrite app_nil_r. }
  cbn in Hf. pose proof (fits_record _ _ _ Hf) as Hsize. cbn in Hsize.
  unfold encode_queue_record. pose proof (uk_count _ _ Hq).
  is_false (u32_max <? size_of (dq_samples q)).
  rewrite (append_value_next _ _ _ (queue_bytes q) _ _ _ (queue_records queues ++ rest));
    [|done|done|by eapply emits_queue|destruct Hl; lia|done]. cbn.
  rewrite IH; rewrite <- app_assoc; done.
Qed.

Lemma append_list {A} before type (xs : list A) (put : list A → Put) (bytes : list A → list Z)
    (rs : list Rec) code message rest :
  limits_ok → rs = match xs with [] => [] | _ => [(type, bytes xs)] end →
  fits (before ++ rs ++ rest) → emits (put xs) (bytes xs) →
  match xs with
  | [] => Value (after before)
  | x :: l => append_value limits type (written (put (x :: l)) (max_record_bytes limits)) code
                message (after before)
  end = Value (after (before ++ rs)).
Proof using.
  intros Hl -> Hf Hp. destruct xs as [|x xs]; [by rewrite app_nil_r|].
  pose proof (fits_record _ _ _ Hf) as Hsize. cbn in Hsize.
  eapply append_value_next; [done|done|done|destruct Hl; lia|done].
Qed.

Lemma bind_value {A B} (m : Result A) (k : A → Result B) x y :
  m = Value x → k x = y → (m ≫= k) = y.
Proof using. by intros -> <-. Qed.

Lemma encode_payload_all sn :
  limits_ok → snapshot_ok sn → fits (records_of sn) →
  (sn_has_metadata sn = true → size_of (table_bytes (sn_metadata sn)) <= max_metadata_bytes limits) →
  encode_payload limits sn = Value (after (records_of sn)).
Proof using.
  intros Hl [] Hf Hmeta. unfold encode_payload, records_of in *.
  assert (max_record_bytes limits <= u64_max) by (destruct Hl; lia).
  pose proof (fits_record [] _ _ Hf) as Hfirst.
  set (first := (RecordType.SessionHeader, session_bytes sn)) in *.
  eapply bind_value.
  { change ([], 0) with (after []). unfold first in Hf.
    by eapply (append_value_next []); [..|by apply emits_session| |]. }
  fold first. eapply bind_value.
  { eapply (append_queues_all [first]); [done|done|exact Hf]. }
  rewrite app_comm_cons in Hf. eapply bind_value.
  { eapply (append_list _ _ _ _ (counted_bytes source_bytes) (source_records (sn_sources sn)));
      [done|done|exact Hf|].
    unfold put_sources. apply emits_counted; [|done].
    eapply Forall_impl; [done|apply emits_source]. }
  rewrite app_assoc in Hf. eapply bind_value.
  { eapply (append_list _ _ _ _ (counted_bytes event_bytes) (event_records (sn_events sn)));
      [done|done|exact Hf|].
    unfold put_events. apply emits_counted; [|done].
    eapply Forall_impl; [done|apply emits_event]. }
  rewrite app_assoc in Hf.
  unfold metadata_records in *. destruct (sn_has_metadata sn).
  - erewrite append_value_next; [|done|exact Hf|by apply emits_table|destruct Hl; lia|by apply Hmeta].
    do 2 f_equal. cbn. by rewrite <- !app_assoc.
  - do 2 f_equal. cbn. by rewrite app_nil_r, <- !app_assoc.
Qed.

Lemma header_sizes sn rs : size_of header_start = 16 ∧ size_of (header_end sn rs) = 60.
Proof using. unfold header_end. rewrite !size_of_app, !size_of_store. done. Qed.

Lemma take_size {A} (a b : list A) n : size_of a = Z.of_nat n → take n (a ++ b) = a.
Proof using. intros H. unfold size_of in H. apply Nat2Z.inj in H. subst. apply take_app_length. Qed.
Lemma drop_size {A} (a b : list A) n : size_of a = Z.of_nat n → drop n (a ++ b) = b.
Proof using. intros H. unfold size_of in H. apply Nat2Z.inj in H. subst. apply drop_app_length. Qed.

Lemma header_rest crc sn rs :
  drop 20 (header_start ++ store_le 4 crc ++ header_end sn rs) = header_end sn rs.
Proof using.
  destruct (header_sizes sn rs) as [H _]. rewrite app_assoc. apply drop_size.
  by rewrite size_of_app, size_of_store, H.
Qed.

Lemma write_header_bytes sn rs :
  session_ok sn →
  write_header (sn_policy_version sn) (Z.of_nat (String.length (sn_runtime_id sn)))
    (wall (sn_created sn)) (steady (sn_created sn)) (size_of rs) (size_of (payload_of rs))
    (crc32c (payload_of rs)) = Some (header_of sn rs).
Proof using.
  intros Hs. destruct (header_sizes sn rs) as [Hstart Hend]. unfold write_header. cbv zeta.
  match goal with |- context [?p (ByteWriter.create [] kSegmentHeaderSize)] => set (w := p) end.
  assert (emits w (header_start ++ store_le 4 0 ++ header_end sn rs)) as Hw.
  { unfold w, header_start, header_end. rewrite <- !app_assoc.
    apply emits_then; [apply emits_raw|]. emitting. }
  specialize (Hw (ByteWriter.create [] kSegmentHeaderSize) eq_refl).
  rewrite Hw; clear Hw; [|done|rewrite !size_of_app, size_of_store, Hstart, Hend; done].
  unfold append_bytes. cbn [ByteWriter.ok ByteWriter.out ByteWriter.create app].
  rewrite !size_of_app, size_of_store, Hstart, Hend. cbn [negb orb].
  change (negb (16 + (Z.of_nat 4 + 60) =? kSegmentHeaderSize)) with false. cbn [orb].
  rewrite (take_size header_start) by done. unfold header_of, header_crc.
  by rewrite header_rest.
Qed.

Lemma encode_segment sn :
  limits_ok → snapshot_ok sn → fits (records_of sn) →
  (sn_has_metadata sn = true → size_of (table_bytes (sn_metadata sn)) <= max_metadata_bytes limits) →
  encode_snapshot limits sn = Value (segment_of sn).
Proof using.
  intros Hl Hok Hf Hmeta. unfold encode_snapshot. rewrite (lk_valid Hl). cbn [negb].
  pose proof (ek_id _ (nk_session _ Hok)).
  is_false (kMaxRuntimeIdBytes <? Z.of_nat (String.length (sn_runtime_id sn))).
  rewrite (encode_payload_all _ Hl Hok Hf Hmeta). cbn [mbind Result_bind after].
  by rewrite (write_header_bytes sn _ (nk_session _ Hok)).
Qed.
End limits.
