(* ===== verification/SegmentTheorems.v ===== *)
(** * Segments: round trip, truncation and damage

    The decoder reads back what the encoder wrote; of a segment that was cut short or
    damaged it keeps the records before the damage, and its report is not clean. *)

From S2P Require Import Prelude Result Checked Text Bytes Crc32c Identity Time Evidence Sample.
From S2P Require Import Metadata Event Limits Policy Admission Codec Format FormatBytes.
From S2P Require Import SegmentBytes.
Open Scope Z_scope.
Open Scope codec_scope.

#[local] Set Warnings "-register-all".

(** ** The parts of a snapshot, a record each *)

Inductive Part :=
  | PartSession (sn : DurableSnapshot)
  | PartQueue (q : DurableQueueState)
  | PartSources (sources : list DurableSource)
  | PartEvents (events : list DurableEvent)
  | PartMetadata (table : DurableMetadata).

Definition part_record (p : Part) : Rec :=
  match p with
  | PartSession sn => (RecordType.SessionHeader, session_bytes sn)
  | PartQueue q => (RecordType.QueueSnapshot, queue_bytes q)
  | PartSources sources => (RecordType.SourceRegistry, counted_bytes source_bytes sources)
  | PartEvents events => (RecordType.EventBatch, counted_bytes event_bytes events)
  | PartMetadata table => (RecordType.MetadataTable, table_bytes table)
  end.

Definition parts (sn : DurableSnapshot) : list Part :=
  PartSession sn :: map PartQueue (sn_queues sn) ++
  (match sn_sources sn with [] => [] | sources => [PartSources sources] end) ++
  (match sn_events sn with [] => [] | events => [PartEvents events] end) ++
  (if sn_has_metadata sn then [PartMetadata (sn_metadata sn)] else []).

Lemma parts_records sn : map part_record (parts sn) = records_of sn.
Proof.
  unfold parts, records_of, queue_records, source_records, event_records, metadata_records.
  cbn [map part_record]. f_equal. rewrite !map_app, map_map.
  by destruct (sn_sources sn), (sn_events sn), (sn_has_metadata sn).
Qed.

(** What the decoder holds before the first record, and after a part. *)
Definition before_records (sn : DurableSnapshot) : DurableSnapshot :=
  mkSnapshot (sn_runtime_id sn) (sn_created sn) (sn_policy_version sn) EmptyString [] [] []
    no_durable_metadata false.
Definition add_part (out : DurableSnapshot) (p : Part) : DurableSnapshot :=
  match p with
  | PartSession sn => add_session (sn_runtime_id sn) (sn_policy_version sn) (sn_policy_name sn) out
  | PartQueue q => add_queue q out
  | PartSources sources => add_sources sources out
  | PartEvents events => add_events events out
  | PartMetadata table => put_table table true out
  end.

(** What is left of a snapshot of which only the first [k] records were read. *)
Definition kept (k : nat) (sn : DurableSnapshot) : DurableSnapshot :=
  fold_left add_part (take k (parts sn)) (before_records sn).

Lemma kept_snoc k sn p :
  parts sn !! k = Some p → kept (S k) sn = add_part (kept k sn) p.
Proof.
  intros H. unfold kept. by rewrite (take_S_r _ _ _ H), fold_left_app.
Qed.

Lemma add_queues queues out :
  fold_left add_part (map PartQueue queues) out =
  mkSnapshot (sn_runtime_id out) (sn_created out) (sn_policy_version out) (sn_policy_name out)
    (sn_queues out ++ queues) (sn_events out) (sn_sources out) (sn_metadata out)
    (sn_has_metadata out).
Proof.
  revert out. induction queues as [|q queues IH]; intros out; cbn [map fold_left].
  - rewrite app_nil_r. by destruct out.
  - rewrite IH. cbn. by rewrite <- app_assoc.
Qed.

(** All the records give the snapshot back. *)
Lemma kept_all sn k :
  (sn_has_metadata sn = false → sn_metadata sn = no_durable_metadata) →
  (length (parts sn) <= k)%nat → kept k sn = sn.
Proof.
  intros Hm Hk. unfold kept. rewrite take_ge by done. unfold parts. cbn [fold_left].
  rewrite !fold_left_app, add_queues. cbn.
  destruct sn as [id created version name queues events sources table [|]]; cbn in *;
    [|rewrite Hm by done]; destruct sources, events; cbn; by case_bool_decide; subst.
Qed.

Section limits.
Context (limits : PersistenceLimits).
Context (room : 512 <= max_record_bytes limits).
Abbreviation snapshot_ok := (snapshot_ok limits).
Abbreviation fits := (fits limits).
Abbreviation limits_ok := (limits_ok limits).

(** ** Reading one record *)

Definition part_ok (p : Part) : Prop :=
  match p with
  | PartSession sn => session_ok sn
  | PartQueue q => queue_ok limits q
  | PartSources sources => Forall source_ok sources ∧ size_of sources <= u32_max
  | PartEvents events => Forall event_ok events ∧ size_of events <= u32_max
  | PartMetadata table => table_ok table
  end.

(** The table replaces the fields it read before, so it is read into an absent one. *)
Definition part_ready (p : Part) (out : DurableSnapshot) : Prop :=
  match p with PartMetadata _ => sn_metadata out = no_durable_metadata | _ => True end.

Lemma reads_alone {A} (r : Reader A) x bs : reads r x bs → r bs = Some (x, []).
Proof using. intros H. specialize (H []). by rewrite app_nil_r in H. Qed.

Lemma section_alone {A} (r : Reader A) (g : A → list Z) (xs : list A) :
  size_of xs <= u32_max → Forall (λ x, 1 <= size_of (g x)) xs → Forall (λ x, reads r x (g x)) xs →
  read_section r (counted_bytes g xs) = (xs, Some []).
Proof using. intros H1 H2 H3. rewrite <- (section_all r g xs []) by done. by rewrite app_nil_r. Qed.

Lemma part_decoded p out :
  part_ok p → part_ready p out →
  decode_record limits (RecordType.number (part_record p).1) (part_record p).2 out =
  (add_part out p, true).
Proof using room.
  destruct p as [sn|q|sources|events|table]; intros Hok Hready; cbn; unfold decode_record; cbn.
  - by rewrite (reads_alone _ _ _ (reads_session _ room _ Hok)).
  - by rewrite (reads_alone _ _ _ (reads_queue _ room _ Hok)).
  - destruct Hok as [Hok Hsize].
    rewrite (section_alone (decode_source limits) source_bytes); [done|done| |].
    + apply Forall_true. intros s. apply string_positive.
    + eapply Forall_impl; [done|]. intros s. by apply reads_source.
  - destruct Hok as [Hok Hsize].
    rewrite (section_alone (decode_event limits) event_bytes); [done|done| |].
    + apply Forall_true. intros e. unfold event_bytes. rewrite size_of_app, size_of_cons.
      rewrite size_of_nil. match goal with |- context [size_of ?b] => pose proof (size_of_nonneg b) end.
      lia.
    + eapply Forall_impl; [done|]. intros e. by apply reads_event.
  - pose proof (table_read _ room table [] Hok) as Ht. rewrite app_nil_r in Ht.
    cbn in Hready. rewrite Hready, Ht. by rewrite orb_true_r.
Qed.

Lemma part_bytes_ok p : part_ok p → bytes_ok (part_record p).2.
Proof using.
  destruct p as [sn|q|sources|events|table]; cbn; intros H.
  - apply ok_session.
  - by eapply ok_queue.
  - destruct H. by eapply ok_counted; [apply ok_source|].
  - destruct H. by eapply ok_counted; [apply ok_event|].
  - by apply ok_table.
Qed.

Lemma type_byte type : is_byte (RecordType.number type).
Proof using. by destruct type. Qed.

Lemma prefix_ok type len : bytes_ok (record_prefix (RecordType.number type) 0 len).
Proof using.
  apply ok_app; [|apply ok_store]. constructor; [apply type_byte|]. by repeat constructor.
Qed.

Lemma crc32c_u32 bs : bytes_ok bs → 0 <= crc32c bs <= u32_max.
Proof using.
  intros H. assert (is_u32 (crc32c bs)) as Hu.
  { apply complement32_u32, crc_update_u32; [apply u32_max_u32|done]. }
  unfold is_u32 in Hu. word_lia.
Qed.

Lemma record_crc_eq prefix value : record_crc prefix value = crc32c (prefix ++ value).
Proof using. apply crc_feed_two. Qed.

(** The checksum and the prefix of a record. *)
Definition record_start (type : RecordType) (crc len : Z) : list Z :=
  store_le 4 crc ++ record_prefix (RecordType.number type) 0 len.

Lemma record_start_size type crc len : size_of (record_start type crc len) = kRecordHeaderSize.
Proof using. unfold record_start, record_prefix. by rewrite !size_of_app, !size_of_store. Qed.

Lemma record_start_read type crc len :
  0 <= crc <= u32_max → 0 <= len <= u32_max →
  reads record_header (crc, RecordType.number type, 0, len) (record_start type crc len).
Proof using.
  intros Hc Hl. unfold record_header, record_start, record_prefix.
  pose proof (type_byte type). assert (is_byte 0) by done.
  assert (reads ByteReader.u16 0 [0; 0]) by (apply (reads_u16 0); word_lia).
  change ([RecordType.number type; 0; 0; 0] ++ store_le 4 len)
    with ([RecordType.number type] ++ [0] ++ [0; 0] ++ store_le 4 len).
  reading. apply reads_ret.
Qed.

Lemma record_of_eq r :
  record_of r =
  record_start r.1 (record_crc (record_prefix (RecordType.number r.1) 0 (size_of r.2)) r.2)
    (size_of r.2) ++ r.2.
Proof using. unfold record_of, record_start. by rewrite <- app_assoc. Qed.

(** ** The record loop *)

Definition small (r : Rec) : Prop := size_of r.2 <= max_record_bytes limits ∧ size_of r.2 <= u32_max.

Lemma read_record p rest fuel offset out r :
  part_ok p → part_ready p out → small (part_record p) →
  decode_records limits (S fuel) (record_of (part_record p) ++ rest) offset out r =
  decode_records limits fuel rest (offset + size_of (record_of (part_record p))) (add_part out p)
    (count_parsed r).
Proof using room.
  intros Hok Hready [Hmax Hu32]. rewrite record_of_size.
  pose proof (part_bytes_ok _ Hok) as Hb. pose proof (part_decoded _ _ Hok Hready) as Hd.
  rewrite record_of_eq. destruct (part_record p) as [type value]. cbn [fst snd] in *.
  set (crc := record_crc _ value). assert (0 <= crc <= u32_max) as Hcrc.
  { unfold crc. rewrite record_crc_eq. apply crc32c_u32, ok_app; [apply prefix_ok|done]. }
  pose proof (size_of_nonneg value). pose proof (size_of_nonneg rest).
  cbn [decode_records]. rewrite <- app_assoc, size_of_app, record_start_size, size_of_app.
  is_false (kRecordHeaderSize + (size_of value + size_of rest) <? kRecordHeaderSize).
  rewrite (record_start_read type crc _ Hcrc) by lia.
  is_false (max_record_bytes limits <? size_of value). rewrite size_of_app.
  is_false (size_of value + size_of rest <? size_of value).
  assert (Z.to_nat (size_of value) = length value) as -> by (unfold size_of; lia).
  rewrite take_app_length, drop_app_length. fold crc. rewrite Z.eqb_refl. cbn [negb].
  rewrite Hd. cbn [negb]. by rewrite <- Z.add_assoc.
Qed.

Fixpoint ready (ps : list Part) (out : DurableSnapshot) : Prop :=
  match ps with [] => True | p :: ps => part_ready p out ∧ ready ps (add_part out p) end.

Definition count_records (n : Z) (r : DecodeReport) : DecodeReport :=
  mkReport (re_magic_valid r) (re_header_crc_valid r) (re_payload_crc_valid r)
    (re_version_supported r) (re_truncated r) (re_integrity_failed r) (re_records_declared r)
    (re_records_parsed r + n) (re_records_rejected r) (re_bytes_consumed r) (re_bytes_declared r)
    (re_format_version r) (re_created_wall r) (re_diagnostic r).

Lemma read_records ps stub fuel offset out r :
  Forall part_ok ps → Forall small (map part_record ps) → ready ps out →
  decode_records limits (length ps + fuel) (payload_of (map part_record ps) ++ stub) offset out r =
  decode_records limits fuel stub (offset + size_of (payload_of (map part_record ps)))
    (fold_left add_part ps out) (count_records (size_of ps) r).
Proof using room.
  intros Hok. revert offset out r. induction Hok as [|p ps Hp Hps IH]; intros offset out r Hs Hr.
  - cbn. rewrite Z.add_0_r. unfold count_records. rewrite size_of_nil, Z.add_0_r. by destruct r.
  - cbn [map] in Hs. apply Forall_cons in Hs as [Hsp Hs]. destruct Hr as [Hrp Hr].
    cbn [length map Nat.add fold_left]. rewrite payload_cons, <- app_assoc.
    rewrite read_record by done. rewrite IH by done. rewrite size_of_app, Z.add_assoc. f_equal.
    unfold count_records, count_parsed. rewrite size_of_cons. cbn. f_equal. lia.
Qed.

(** ** Damage

    [r'] is [r] with more damage noted, and the same records. *)
Record worse (r r' : DecodeReport) : Prop := {
  ws_parsed : re_records_parsed r' = re_records_parsed r;
  ws_declared : re_records_declared r' = re_records_declared r;
  ws_truncated : re_truncated r = true → re_truncated r' = true;
  ws_integrity : re_integrity_failed r = true → re_integrity_failed r' = true
}.
#[export] Instance worse_preorder : PreOrder worse.
Proof using.
  split; [by constructor|]. intros r1 r2 r3 [H1 H2 H3 H4] [? ? ? ?]. constructor; [congruence..|auto|auto].
Qed.

Lemma set_damage_worse truncated diagnostic r : worse r (set_damage truncated diagnostic r).
Proof using. constructor; cbn; [done|done|by intros ->|done]. Qed.

Lemma finish_worse offset usable r : worse r (finish_report offset usable r).
Proof using.
  unfold finish_report. cbv zeta.
  assert (worse r (set_consumed offset r)) as H by by constructor.
  destruct (offset =? usable), (_ <? _); cbn; repeat (etransitivity; [|apply set_damage_worse]); done.
Qed.

Lemma finish_damaged offset usable r :
  offset ≠ usable ∨ re_records_parsed r < re_records_declared r →
  re_integrity_failed (finish_report offset usable r) = true.
Proof using.
  intros H. unfold finish_report. cbv zeta. destruct (Z.eqb_spec offset usable); cbn [negb].
  - destruct H as [?|H]; [done|]. cbn.
    by is_true (re_records_parsed r <? re_records_declared r).
  - by destruct (_ <? _).
Qed.

(** Less than a record stops the loop. *)
Lemma stub_stops p m fuel offset out r :
  part_ok p → small (part_record p) → (m < length (record_of (part_record p)))%nat →
  ∃ r', decode_records limits (S fuel) (take m (record_of (part_record p))) offset out r =
        (offset, out, r') ∧ worse r r'.
Proof using room.
  intros Hok [Hmax Hu32] Hm. pose proof (part_bytes_ok _ Hok) as Hb.
  assert (size_of (take m (record_of (part_record p))) = Z.of_nat m) as Hsize.
  { unfold size_of. rewrite length_take. lia. }
  cbn [decode_records]. rewrite Hsize. destruct (Z.ltb_spec (Z.of_nat m) kRecordHeaderSize) as [|Hge].
  { by exists r. }
  clear Hsize. revert Hm. rewrite record_of_eq. destruct (part_record p) as [type value].
  cbn [fst snd] in *. set (crc := record_crc _ value). assert (0 <= crc <= u32_max) as Hcrc.
  { unfold crc. rewrite record_crc_eq. apply crc32c_u32, ok_app; [apply prefix_ok|done]. }
  pose proof (record_start_size type crc (size_of value)) as Hstart.
  rewrite length_app. intros Hm. unfold size_of in Hstart at 1. rewrite take_app_ge by lia.
  pose proof (size_of_nonneg value).
  rewrite (record_start_read type crc _ Hcrc) by lia.
  is_false (max_record_bytes limits <? size_of value).
  assert (size_of (take (m - length (record_start type crc (size_of value))) value) < size_of value).
  { unfold size_of at 1. rewrite length_take. unfold size_of in *. lia. }
  is_true (size_of (take (m - length (record_start type crc (size_of value))) value) <? size_of value).
  eexists. split; [done|]. apply set_damage_worse.
Qed.

(** A record of which up to four consecutive bytes of the value changed: [stored] is the
    checksum of the value as it was written. *)
Definition damaged_record (type : RecordType) (a burst burst' b : list Z) : list Z :=
  let value := a ++ burst ++ b in
  record_start type (record_crc (record_prefix (RecordType.number type) 0 (size_of value)) value)
    (size_of value) ++ a ++ burst' ++ b.

Lemma damaged_stops type a burst burst' b rest fuel offset out r :
  bytes_ok (a ++ burst ++ b) → bytes_ok burst' → length burst' = length burst →
  (length burst <= 4)%nat → burst ≠ burst' → small (type, a ++ burst ++ b) →
  ∃ diagnostic,
    decode_records limits (S fuel) (damaged_record type a burst burst' b ++ rest) offset out r =
    (offset, out, reject_record diagnostic r).
Proof using.
  intros Hb Hb' Hlen H4 Hne [Hmax Hu32]. cbn [snd] in *. unfold damaged_record. cbv zeta.
  set (value := a ++ burst ++ b) in *. set (prefix := record_prefix _ 0 _).
  assert (size_of (a ++ burst' ++ b) = size_of value) as Hsize.
  { unfold value. rewrite !size_of_app. unfold size_of. lia. }
  assert (bytes_ok (prefix ++ value)) as Hpv by (apply ok_app; [apply prefix_ok|done]).
  assert (record_crc prefix (a ++ burst' ++ b) ≠ record_crc prefix value) as Hcrc.
  { rewrite !record_crc_eq. unfold value in *. rewrite !(app_assoc prefix a) in *. intros Heq.
    by apply (crc_burst_changes (prefix ++ a) burst burst' b). }
  pose proof (crc32c_u32 _ Hpv) as Hrange. rewrite <- record_crc_eq in Hrange.
  pose proof (size_of_nonneg value). pose proof (size_of_nonneg rest).
  cbn [decode_records]. rewrite <- app_assoc, size_of_app, record_start_size, size_of_app, Hsize.
  is_false (kRecordHeaderSize + (size_of value + size_of rest) <? kRecordHeaderSize).
  rewrite (record_start_read type _ _ Hrange) by lia.
  is_false (max_record_bytes limits <? size_of value). rewrite size_of_app, Hsize.
  is_false (size_of value + size_of rest <? size_of value).
  rewrite (take_size (a ++ burst' ++ b)) by (rewrite Hsize; unfold size_of; lia). fold prefix.
  destruct (Z.eqb_spec (record_crc prefix (a ++ burst' ++ b)) (record_crc prefix value)); [done|].
  by eexists.
Qed.

(** ** The header *)

Definition trusted (sn : DurableSnapshot) (rs : list Rec) : SegmentHeader :=
  mkHeader kFormatVersion kSegmentHeaderSize (header_crc sn rs) (sn_policy_version sn)
    (Z.of_nat (String.length (sn_runtime_id sn))) (wall (sn_created sn)) (steady (sn_created sn))
    (size_of rs) (size_of (payload_of rs)) (crc32c (payload_of rs)).

Lemma header_crc_range sn rs : 0 <= header_crc sn rs <= u32_max.
Proof using.
  apply crc32c_u32. unfold header_start, header_end.
  repeat first [apply ok_app|apply ok_store|apply text_bytes_ok].
Qed.

Lemma header_read sn rs :
  session_ok sn → bytes_ok (payload_of rs) → size_of rs <= u64_max → size_of (payload_of rs) <= u64_max →
  reads segment_header (trusted sn rs)
    (store_le 4 kFormatVersion ++ store_le 4 kSegmentHeaderSize ++ store_le 4 (header_crc sn rs) ++
     header_end sn rs).
Proof using.
  intros [Hid Hpolicy Hname [Hw Hs]] Hp Hrs Hps. unfold segment_header, header_end, trusted.
  pose proof (header_crc_range sn rs). pose proof (crc32c_u32 _ Hp).
  pose proof (size_of_nonneg rs). pose proof (size_of_nonneg (payload_of rs)).
  assert (0 <= kFormatVersion <= u32_max) by done.
  assert (0 <= kSegmentHeaderSize <= u32_max) by done.
  assert (0 <= Z.of_nat (String.length (sn_runtime_id sn)) <= u32_max)
    by (unfold kMaxRuntimeIdBytes in Hid; word_lia).
  assert (0 <= 0 <= u32_max) by word_lia. assert (0 <= 1 <= u32_max) by word_lia.
  assert (is_u64 (size_of rs)) by word_lia. assert (is_u64 (size_of (payload_of rs))) by word_lia.
  reading. apply reads_ret.
Qed.

Lemma header_size sn rs : size_of (header_of sn rs) = kSegmentHeaderSize.
Proof using.
  destruct (header_sizes sn rs) as [H1 H2]. unfold header_of.
  by rewrite !size_of_app, H1, H2, size_of_store.
Qed.

Lemma header_blank sn rs : blank_crc (header_of sn rs) = header_start ++ store_le 4 0 ++ header_end sn rs.
Proof using.
  destruct (header_sizes sn rs) as [H1 H2]. unfold blank_crc, header_of.
  rewrite (take_size header_start) by done. by rewrite header_rest.
Qed.

Lemma header_checked sn rs : crc32c (blank_crc (header_of sn rs)) = header_crc sn rs.
Proof using. unfold header_crc. rewrite header_blank. reflexivity. Qed.

Lemma decode_trusted sn rs tail :
  limits_ok → session_ok sn → bytes_ok (payload_of rs) → fits rs →
  decode_snapshot limits (header_of sn rs ++ tail) =
  decode_body limits (trusted sn rs) (header_of sn rs ++ tail).
Proof using.
  intros Hl Hs Hb Hf. unfold decode_snapshot. cbv zeta. rewrite (lk_valid _ Hl). cbn [negb].
  pose proof (size_of_nonneg tail). pose proof (header_size sn rs) as Hsize.
  rewrite size_of_app, Hsize. is_false (kSegmentHeaderSize + size_of tail <? kSegmentHeaderSize).
  assert (header_of sn rs ++ tail = kSegmentMagic ++
    (store_le 4 kFormatVersion ++ store_le 4 kSegmentHeaderSize ++ store_le 4 (header_crc sn rs) ++
     header_end sn rs) ++ tail) as Heq.
  { unfold header_of, header_start. by rewrite <- !app_assoc. }
  rewrite Heq, (take_size kSegmentMagic _ 8), (drop_size kSegmentMagic _ 8) by done.
  rewrite bool_decide_true by done. cbn [negb].
  rewrite header_read; [|done|done|destruct Hl, Hf; lia|destruct Hl, Hf; lia].
  rewrite <- Heq. cbn [trusted sh_header_size sh_header_crc sh_format_version sh_runtime_id_len].
  rewrite Z.eqb_refl. cbn [negb]. rewrite (take_size (header_of sn rs)) by by rewrite Hsize.
  rewrite header_checked, Z.eqb_refl. cbn [negb].
  pose proof (ek_id _ Hs). rewrite Z.eqb_refl. cbn [negb].
  by is_false (kMaxRuntimeIdBytes <? Z.of_nat (String.length (sn_runtime_id sn))).
Qed.

(** ** The body *)

(** The report of an undamaged segment of [n] records, [parsed] of them read. *)
Definition sound_report (sn : DurableSnapshot) (rs : list Rec) (parsed consumed : Z) : DecodeReport :=
  mkReport true true true true false false (size_of rs) parsed 0 consumed (size_of (payload_of rs))
    kFormatVersion (wall (sn_created sn)) EmptyString.

Lemma body_read sn rs tail :
  size_of tail <= size_of (payload_of rs) →
  ∃ r, re_records_parsed r = 0 ∧ re_records_declared r = size_of rs ∧
    (size_of tail < size_of (payload_of rs) → re_truncated r = true ∧ re_integrity_failed r = true) ∧
    (tail = payload_of rs → r = sound_report sn rs 0 0) ∧
    decode_body limits (trusted sn rs) (header_of sn rs ++ text_bytes (sn_runtime_id sn) ++ tail) =
    let '(offset, out, r) := decode_records limits (S (length tail)) tail 0 (before_records sn) r in
    (success, out, finish_report offset (size_of tail) r).
Proof using.
  intros Htail. unfold decode_body. cbv zeta.
  cbn [trusted sh_runtime_id_len sh_payload_bytes sh_payload_crc sh_policy_version
       sh_created_wall sh_created_steady].
  set (id := sn_runtime_id sn). pose proof (size_of_text id) as Hid.
  pose proof (header_size sn rs) as Hh. pose proof (size_of_nonneg tail).
  rewrite !size_of_app, Hh, Hid.
  is_false (kSegmentHeaderSize + (Z.of_nat (String.length id) + size_of tail) <?
            kSegmentHeaderSize + Z.of_nat (String.length id)).
  rewrite (drop_size (header_of sn rs)) by by rewrite Hh.
  rewrite Nat2Z.id, (take_size (text_bytes id)), (drop_size (text_bytes id)) by done.
  rewrite bytes_text_bytes.
  assert (mkReceive (steady (sn_created sn)) (wall (sn_created sn)) = sn_created sn) as ->
    by by destruct (sn_created sn).
  replace (kSegmentHeaderSize + (Z.of_nat (String.length id) + size_of tail) -
    (kSegmentHeaderSize + Z.of_nat (String.length id))) with (size_of tail) by lia.
  destruct (Z.ltb_spec (size_of tail) (size_of (payload_of rs))) as [Hlt|Hge].
  - assert (Z.to_nat (size_of tail) = length tail) as -> by (unfold size_of; lia).
    rewrite take_ge by done.
    match goal with |- context [decode_records _ _ _ _ _ ?r] => exists r end.
    split_and!; [..|intros ->; lia|done]; [| |intros _];
      by destruct (crc32c tail =? crc32c (payload_of rs)).
  - assert (Z.to_nat (size_of (payload_of rs)) = length tail) as -> by (unfold size_of in *; lia).
    assert (size_of tail = size_of (payload_of rs)) as Heq by lia. rewrite take_ge by done.
    match goal with |- context [decode_records _ _ _ _ _ ?r] => exists r end.
    split_and!; [| |lia|intros ->; by rewrite Z.eqb_refl|by rewrite Heq];
      by destruct (crc32c tail =? crc32c (payload_of rs)).
Qed.

(** ** The parts of a snapshot can be read *)

Lemma ready_app ps ps' out :
  ready (ps ++ ps') out ↔ ready ps out ∧ ready ps' (fold_left add_part ps out).
Proof using.
  revert out. induction ps as [|p ps IH]; intros out; cbn; [tauto|]. rewrite IH. tauto.
Qed.

Definition before_table (p : Part) : Prop := match p with PartMetadata _ => False | _ => True end.

Lemma ready_before ps out :
  Forall before_table ps → ready ps out ∧ sn_metadata (fold_left add_part ps out) = sn_metadata out.
Proof using.
  intros H. revert out. induction H as [|p ps Hp _ IH]; intros out; [done|]. cbn.
  destruct (IH (add_part out p)) as [Hr Hm]. rewrite Hm. by destruct p.
Qed.

Lemma parts_split sn :
  parts sn = (PartSession sn :: map PartQueue (sn_queues sn) ++
    (match sn_sources sn with [] => [] | sources => [PartSources sources] end) ++
    (match sn_events sn with [] => [] | events => [PartEvents events] end)) ++
  (if sn_has_metadata sn then [PartMetadata (sn_metadata sn)] else []).
Proof using. unfold parts. cbn [app]. by rewrite <- !app_assoc. Qed.

Lemma parts_ready sn : ready (parts sn) (before_records sn).
Proof using.
  rewrite parts_split, ready_app.
  match goal with |- ready ?ps _ ∧ _ => assert (Forall before_table ps) as H end.
  { constructor; [done|]. apply Forall_app_2.
    - apply Forall_map, Forall_true. done.
    - destruct (sn_sources sn), (sn_events sn); by repeat constructor. }
  destruct (ready_before _ (before_records sn) H) as [Hr Hm]. split; [done|].
  destruct (sn_has_metadata sn); [|done]. split; [|done]. exact Hm.
Qed.

Lemma parts_ok sn : snapshot_ok sn → Forall part_ok (parts sn).
Proof using.
  intros []. constructor; [done|]. repeat apply Forall_app_2.
  - by apply Forall_map.
  - destruct (sn_sources sn); [done|]. by constructor.
  - destruct (sn_events sn); [done|]. by constructor.
  - destruct (sn_has_metadata sn); [|done]. by constructor.
Qed.

Lemma parts_small sn : fits (records_of sn) → Forall small (map part_record (parts sn)).
Proof using. rewrite parts_records. by intros [H _ _]. Qed.

Lemma records_bytes_ok sn : snapshot_ok sn → bytes_ok (payload_of (records_of sn)).
Proof using.
  intros H%parts_ok. rewrite <- parts_records. apply ok_concat, Forall_map.
  eapply Forall_impl; [exact H|]. intros p Hp. cbn. unfold record_of. cbv zeta.
  apply ok_app; [apply ok_store|]. apply ok_app; [apply prefix_ok|by apply part_bytes_ok].
Qed.

Lemma parts_length sn : size_of (parts sn) = size_of (records_of sn).
Proof using. by rewrite <- parts_records, size_of_map. Qed.

Lemma records_shorter ps : (length ps <= length (payload_of (map part_record ps)))%nat.
Proof using.
  induction ps as [|p ps IH]; cbn [map length]; [lia|]. rewrite payload_cons, length_app.
  pose proof (record_of_size (part_record p)). pose proof (size_of_nonneg (part_record p).2).
  unfold size_of in *. lia.
Qed.

Lemma metadata_absent sn :
  snapshot_ok sn → sn_has_metadata sn = false → sn_metadata sn = no_durable_metadata.
Proof using. intros H Hm. pose proof (nk_metadata _ _ H) as Ht. by rewrite Hm in Ht. Qed.

(** The first [k] records and what follows them. *)
Lemma read_kept k sn stub offset r fuel :
  snapshot_ok sn → fits (records_of sn) → (k <= length (parts sn))%nat →
  (length (payload_of (take k (records_of sn)) ++ stub) <= fuel)%nat →
  decode_records limits (S fuel) (payload_of (take k (records_of sn)) ++ stub) offset
    (before_records sn) r =
  decode_records limits (S (fuel - k)) stub (offset + size_of (payload_of (take k (records_of sn))))
    (kept k sn) (count_records (Z.of_nat k) r).
Proof using room.
  intros Hok Hf%parts_small Hk Hfuel. rewrite <- parts_records, firstn_map in Hfuel |- *.
  assert (length (take k (parts sn)) = k) as Hlen by (rewrite length_take; lia).
  pose proof (records_shorter (take k (parts sn))) as Hshort.
  rewrite length_app in Hfuel.
  replace (S fuel) with (length (take k (parts sn)) + S (fuel - k))%nat by lia.
  rewrite read_records.
  - unfold size_of at 2. by rewrite Hlen.
  - by apply Forall_take, parts_ok.
  - rewrite <- firstn_map. by apply Forall_take.
  - pose proof (parts_ready sn) as Hr. rewrite <- (take_drop k (parts sn)), ready_app in Hr.
    apply Hr.
Qed.
End limits.

Lemma not_clean r : re_integrity_failed r = true → clean r = false.
Proof. intros H. unfold clean. by rewrite H, andb_false_r. Qed.

(** Where a payload is cut. *)
Lemma payload_cut rs m :
  (m < length (payload_of rs))%nat →
  ∃ k r j, rs !! k = Some r ∧ (j < length (record_of r))%nat ∧
    m = (length (payload_of (take k rs)) + j)%nat ∧
    take m (payload_of rs) = payload_of (take k rs) ++ take j (record_of r).
Proof.
  revert m. induction rs as [|r rs IH]; intros m Hm; [cbn in Hm; lia|].
  rewrite payload_cons, length_app in Hm. rewrite payload_cons.
  destruct (Nat.lt_ge_cases m (length (record_of r))) as [Hlt|Hge].
  - exists 0%nat, r, m. split_and!; [done|done|done|]. by rewrite take_app_le by lia.
  - destruct (IH (m - length (record_of r))%nat) as (k & r' & j & Hk & Hj & Heq & Ht); [lia|].
    exists (S k), r', j. cbn [take]. rewrite payload_cons, length_app. split_and!; [done|done|lia|].
    rewrite take_app_ge by lia. by rewrite Ht, app_assoc.
Qed.

(** What an encoded snapshot decodes to. *)
Lemma segment_decodes (limits : PersistenceLimits) (sn : DurableSnapshot) :
  512 <= max_record_bytes limits → limits_ok limits → snapshot_ok limits sn →
  fits limits (records_of sn) →
  decode_snapshot limits (segment_of sn) =
    (success, sn,
     sound_report sn (records_of sn) (size_of (records_of sn)) (size_of (payload_of (records_of sn)))).
Proof.
  intros room Hl Hok Hf.
  unfold segment_of. pose proof (nk_session _ _ Hok) as Hs.
  rewrite decode_trusted by (done || by apply (records_bytes_ok limits)).
  destruct (body_read limits sn (records_of sn) (payload_of (records_of sn)) (Z.le_refl _))
    as (r & _ & _ & _ & Hr & ->). rewrite (Hr eq_refl). clear r Hr.
  pose proof (read_kept limits room (length (parts sn)) sn [] 0
    (sound_report sn (records_of sn) 0 0) (length (payload_of (records_of sn))) Hok Hf) as Hread.
  rewrite <- parts_records, take_ge in Hread by (rewrite length_map; lia).
  rewrite app_nil_r, parts_records in Hread. rewrite Hread by lia. cbn [decode_records].
  rewrite size_of_nil. change (0 <? kRecordHeaderSize) with true. cbv iota.
  rewrite kept_all; [|by apply (metadata_absent limits)|lia].
  unfold finish_report. cbv zeta. rewrite !Z.eqb_refl.
  pose proof (parts_length sn) as Hlen. unfold size_of at 1 in Hlen.
  cbn [count_records sound_report re_records_parsed re_records_declared set_consumed].
  rewrite Hlen, !Z.add_0_l. is_false (size_of (records_of sn) <? size_of (records_of sn)). done.
Qed.

(** C22: a snapshot survives its segment.  A snapshot of durable data within the limits
    is encoded, and decoding the bytes gives the same snapshot, with the report of a
    segment all of whose records were read. *)
Theorem segment_round_trip (limits : PersistenceLimits) (sn : DurableSnapshot) :
  512 <= max_record_bytes limits → limits_ok limits → snapshot_ok limits sn →
  fits limits (records_of sn) →
  (sn_has_metadata sn = true → size_of (table_bytes (sn_metadata sn)) <= max_metadata_bytes limits) →
  ∃ bytes,
    encode_snapshot limits sn = Value bytes ∧
    decode_snapshot limits bytes =
      (success, sn,
       sound_report sn (records_of sn) (size_of (records_of sn))
         (size_of (payload_of (records_of sn)))).
Proof.
  intros room Hl Hok Hf Hmeta. exists (segment_of sn). split; [by apply encode_segment|].
  by apply segment_decodes.
Qed.

(** The offset of the first record. *)
Definition records_start (sn : DurableSnapshot) : Z :=
  kSegmentHeaderSize + Z.of_nat (String.length (sn_runtime_id sn)).

(** C23: a segment that was cut short keeps its whole records.  Cut anywhere after the
    runtime identifier, it decodes to what its first [k] records say, where [k] is the
    number of records that end before the cut; the report counts them, says that the
    segment is truncated and is not clean. *)
Theorem truncated_segment_keeps_whole_records (limits : PersistenceLimits) (sn : DurableSnapshot)
    (n : nat) :
  512 <= max_record_bytes limits → limits_ok limits → snapshot_ok limits sn →
  fits limits (records_of sn) →
  records_start sn <= Z.of_nat n < size_of (segment_of sn) →
  ∃ k r,
    decode_snapshot limits (take n (segment_of sn)) = (success, kept k sn, r) ∧
    re_records_parsed r = Z.of_nat k ∧ re_truncated r = true ∧ clean r = false ∧
    records_start sn + size_of (payload_of (take k (records_of sn))) <= Z.of_nat n <
    records_start sn + size_of (payload_of (take (S k) (records_of sn))).
Proof.
  intros room Hl Hok Hf Hn. pose proof (nk_session _ _ Hok) as Hs.
  set (m := (n - Z.to_nat (records_start sn))%nat).
  pose proof (header_size sn (records_of sn)) as Hh. pose proof (size_of_text (sn_runtime_id sn)) as Hid.
  unfold records_start in *.
  assert (take n (segment_of sn) = header_of sn (records_of sn) ++ text_bytes (sn_runtime_id sn) ++
    take m (payload_of (records_of sn))) as ->.
  { unfold segment_of. rewrite take_app_ge by (unfold size_of in *; lia). f_equal.
    rewrite take_app_ge by (unfold size_of in *; lia). do 2 f_equal. unfold m, size_of in *. lia. }
  unfold segment_of in Hn. rewrite !size_of_app, Hh, Hid in Hn.
  destruct (payload_cut (records_of sn) m) as (k & rec & j & Hk & Hj & Hm & Ht).
  { unfold m, size_of in *. lia. }
  assert (size_of (take m (payload_of (records_of sn))) < size_of (payload_of (records_of sn))) as Hlt.
  { unfold size_of in *. rewrite length_take. unfold m in *. lia. }
  rewrite decode_trusted by (done || by apply (records_bytes_ok limits)).
  destruct (body_read limits sn (records_of sn) (take m (payload_of (records_of sn))) ltac:(lia))
    as (r & Hparsed & Hdeclared & Hcut & _ & ->).
  destruct (Hcut Hlt) as [Htruncated Hintegrity]. clear Hcut. rewrite Ht.
  rewrite <- parts_records, list_lookup_fmap in Hk.
  destruct (parts sn !! k) as [part|] eqn:Hpart; [|done]. injection Hk as <-.
  pose proof (lookup_lt_Some _ _ _ Hpart).
  rewrite (read_kept limits room) by (done || lia).
  pose proof (parts_ok limits sn Hok) as Hpok. pose proof (parts_small limits sn Hf) as Hsmall.
  rewrite Forall_map in Hsmall.
  rewrite Forall_lookup in Hpok, Hsmall. specialize (Hpok _ _ Hpart). specialize (Hsmall _ _ Hpart).
  match goal with |- context [decode_records limits (S ?f) _ ?o ?s ?rep] =>
    destruct (stub_stops limits room part j f o s rep Hpok Hsmall Hj) as (r' & -> & Hworse) end.
  match goal with |- context [finish_report ?o ?u r'] =>
    pose proof (finish_worse o u r') as Hfinish; set (final := finish_report o u r') in * end.
  assert (worse (count_records (Z.of_nat k) r) final) as [Hp _ Hti Hii] by by etransitivity.
  exists k, final. split_and!; [done|by rewrite Hp; cbn; rewrite Hparsed|by apply Hti|..].
  - apply not_clean. by apply Hii.
  - unfold m, size_of in *. lia.
  - rewrite <- parts_records, firstn_map, (take_S_r _ _ _ Hpart), map_app, payload_app, size_of_app,
      <- firstn_map, parts_records. cbn [map]. rewrite payload_cons. cbn.
    rewrite app_nil_r. unfold m, size_of in *. lia.
Qed.

(** C24: a damaged record stops the reading.  When up to four consecutive bytes of the
    value of a record were altered, exactly the records before it are read, and the
    report is not clean. *)
Theorem damaged_record_stops_reading (limits : PersistenceLimits) (sn : DurableSnapshot)
    (before : list Rec) (type : RecordType) (a burst burst' b : list Z) (rest : list Rec) :
  512 <= max_record_bytes limits → limits_ok limits → snapshot_ok limits sn →
  fits limits (records_of sn) →
  records_of sn = before ++ (type, a ++ burst ++ b) :: rest →
  bytes_ok burst' → length burst' = length burst → (length burst <= 4)%nat → burst ≠ burst' →
  ∃ r,
    decode_snapshot limits
      (header_of sn (records_of sn) ++ text_bytes (sn_runtime_id sn) ++ payload_of before ++
       damaged_record type a burst burst' b ++ payload_of rest) =
    (success, kept (length before) sn, r) ∧
    re_records_parsed r = size_of before ∧ clean r = false.
Proof.
  intros room Hl Hok Hf Hrs Hb' Hlen H4 Hne. pose proof (nk_session _ _ Hok) as Hs.
  pose proof (records_bytes_ok limits sn Hok) as Hbytes.
  rewrite decode_trusted by done.
  assert (take (length before) (records_of sn) = before) as Hbefore
    by by rewrite Hrs, take_app_length.
  assert (length before < length (records_of sn))%nat as Hlt by (rewrite Hrs, length_app; cbn; lia).
  set (tail := payload_of before ++ damaged_record type a burst burst' b ++ payload_of rest).
  assert (size_of tail = size_of (payload_of (records_of sn))) as Htail.
  { unfold tail, damaged_record. rewrite Hrs, payload_app, payload_cons, record_of_eq. cbn [fst snd].
    rewrite !size_of_app, !record_start_size. unfold size_of in *. lia. }
  destruct (body_read limits sn (records_of sn) tail ltac:(lia)) as (r & Hparsed & _ & _ & _ & ->).
  pose proof (parts_length sn) as Hparts.
  pose proof (read_kept limits room (length before) sn
    (damaged_record type a burst burst' b ++ payload_of rest) 0 r (length tail) Hok Hf) as Hread.
  rewrite Hbefore in Hread. fold tail in Hread. rewrite Hread by (unfold size_of in *; lia).
  pose proof (ft_value _ _ Hf) as Hsmall. rewrite Hrs in Hsmall, Hbytes.
  apply Forall_app in Hsmall as [_ [Hsmall _]%Forall_cons].
  rewrite payload_app, payload_cons, record_of_eq in Hbytes. cbn [fst snd] in Hbytes.
  unfold bytes_ok in Hbytes. rewrite !Forall_app in Hbytes.
  destruct (damaged_stops limits type a burst burst' b (payload_of rest)
    (length tail - length before) (0 + size_of (payload_of before)) (kept (length before) sn)
    (count_records (Z.of_nat (length before)) r)) as (diagnostic & ->); [|done..|].
  { unfold bytes_ok. rewrite !Forall_app. tauto. }
  match goal with |- context [finish_report ?o ?u ?rep] =>
    destruct (finish_worse o u rep) as [Hp _ _ Hi]; exists (finish_report o u rep) end.
  split_and!; [done|by rewrite Hp; cbn; rewrite Hparsed|by apply not_clean, Hi].
Qed.
