(* ===== verification/SegmentSound.v ===== *)
(** * What the decoder can return

    Whatever the bytes of a segment are, the snapshot read from them is made of durable
    data: names the constructors accept, values of their types, texts within their
    bounds.  [yields r P]: what [r] reads off bytes satisfies [P]. *)

From S2P Require Import Prelude Result Checked Text Bytes Crc32c Identity Time Evidence Sample.
From S2P Require Import Metadata Event Limits Policy Admission Codec Format FormatBytes.
Open Scope Z_scope.
Open Scope codec_scope.

#[local] Set Warnings "-register-all".

Definition yields {A} (r : Reader A) (P : A → Prop) : Prop := ∀ bs x rest,
  bytes_ok bs → r bs = Some (x, rest) → P x ∧ bytes_ok rest.

Create HintDb sound.
#[export] Hint Opaque yields : sound.

Lemma yields_ret {A} (x : A) (P : A → Prop) : P x → yields (mret x) P.
Proof. intros H bs y rest Hb [= <- <-]. done. Qed.
Lemma yields_fail {A} (P : A → Prop) : yields ByteReader.fail P.
Proof. by intros bs x rest _ H. Qed.
Lemma yields_bind {A B} (r : Reader A) (k : A → Reader B) (P : A → Prop) (Q : B → Prop) :
  yields r P → (∀ x, P x → yields (k x) Q) → yields (r ≫= k) Q.
Proof.
  intros Hr Hk bs y rest Hb. unfold mbind, Reader_bind. destruct (r bs) as [[x bs']|] eqn:E; [|done].
  destruct (Hr _ _ _ Hb E) as [Hx Hb']. by apply Hk.
Qed.
Lemma yields_weaken {A} (r : Reader A) (P Q : A → Prop) :
  yields r P → (∀ x, P x → Q x) → yields r Q.
Proof. intros Hr H bs x rest Hb E. destruct (Hr _ _ _ Hb E). auto. Qed.

(** [yielding]: each step of a reader in turn, with what it yields in the context. *)
Ltac yielding_step :=
  eapply yields_bind; [solve [eauto with sound]|];
  let x := fresh "x" in let H := fresh "H" in intros x H; cbn beta in H |- *.
Ltac yielding := repeat yielding_step; first [apply yields_ret|idtac].

(** ** Bytes, integers, texts *)

Lemma yields_bytes n :
  0 <= n → yields (ByteReader.take_bytes n) (λ bs, bytes_ok bs ∧ size_of bs = n).
Proof.
  intros Hn bs x rest Hb. unfold ByteReader.take_bytes. destruct (Z.ltb_spec (size_of bs) n) as [|Hge];
    [done|]. intros [= <- <-]. split_and!; [by apply Forall_take| |by apply Forall_drop].
  unfold size_of in *. rewrite length_take. lia.
Qed.

Lemma yields_load n :
  yields (bs ← ByteReader.take_bytes (Z.of_nat n); mret (load_le bs))
    (λ v, 0 <= v < 2 ^ (8 * Z.of_nat n)).
Proof.
  eapply yields_bind; [apply yields_bytes; lia|]. intros bs [Hb Hn]. apply yields_ret.
  rewrite <- Hn. by apply load_le_bound.
Qed.
Lemma yields_u8 : yields ByteReader.u8 is_byte.
Proof. exact (yields_load 1). Qed.
Lemma yields_u16 : yields ByteReader.u16 is_u16.
Proof. eapply yields_weaken; [apply (yields_load 2)|]. cbn. unfold is_u16. intros x Hx. word_lia. Qed.
Lemma yields_u32 : yields ByteReader.u32 (λ v, 0 <= v <= u32_max).
Proof. eapply yields_weaken; [apply (yields_load 4)|]. cbn. unfold is_u16. intros x Hx. word_lia. Qed.
Lemma yields_u64 : yields ByteReader.u64 is_u64.
Proof. eapply yields_weaken; [apply (yields_load 8)|]. cbn. unfold is_u16. intros x Hx. word_lia. Qed.
#[export] Hint Resolve yields_u8 yields_u16 yields_u32 yields_u64 : sound.
Lemma yields_i64 : yields ByteReader.i64 is_i64.
Proof. unfold ByteReader.i64. yielding. apply wrap_i64_range. Qed.
#[export] Hint Resolve yields_i64 : sound.

Lemma bytes_text_length bs : String.length (bytes_text bs) = length bs.
Proof.
  unfold bytes_text. induction bs as [|b bs IH]; cbn; [done|]. by rewrite IH.
Qed.

Lemma yields_string max_field max :
  yields (ByteReader.string max_field max) (λ s, Z.of_nat (String.length s) <= max).
Proof.
  unfold ByteReader.string. yielding_step.
  destruct (Z.ltb_spec max x), (Z.ltb_spec max_field x); cbn [orb]; try apply yields_fail.
  eapply yields_bind; [apply yields_bytes; lia|]. intros bs [_ Hn]. apply yields_ret.
  rewrite bytes_text_length. unfold size_of in Hn. lia.
Qed.

Lemma yields_optional {A} (r : Reader A) (P : A → Prop) :
  yields r P → yields (ByteReader.optional r) (option_ok P).
Proof.
  intros Hr. unfold ByteReader.optional. yielding_step. destruct (x =? 0).
  - by apply yields_ret.
  - eapply yields_bind; [exact Hr|]. intros y Hy. apply yields_ret. by intros z [= <-].
Qed.
#[export] Hint Resolve yields_optional : sound.

Lemma yields_repeat {A} (r : Reader A) (P : A → Prop) n :
  yields r P → yields (ByteReader.repeat_read n r) (λ xs, Forall P xs ∧ length xs = n).
Proof.
  intros Hr. induction n as [|n IH]; cbn [ByteReader.repeat_read]; [by apply yields_ret|].
  eapply yields_bind; [exact Hr|]. intros x Hx. eapply yields_bind; [exact IH|].
  intros xs [Hxs Hn]. apply yields_ret. split; [by constructor|]. cbn. lia.
Qed.

Lemma read_many_yields {A} (r : Reader A) (P : A → Prop) n bs :
  yields r P → bytes_ok bs →
  Forall P (ByteReader.read_many n r bs).1 ∧
  (∀ rest, (ByteReader.read_many n r bs).2 = Some rest → bytes_ok rest).
Proof.
  intros Hr. revert bs. induction n as [|n IH]; intros bs Hb; cbn [ByteReader.read_many].
  { split; [constructor|]. by intros rest [= <-]. }
  destruct (r bs) as [[x bs']|] eqn:E; [|by split; [constructor|]].
  destruct (Hr _ _ _ Hb E) as [Hx Hb']. specialize (IH bs' Hb').
  destruct (ByteReader.read_many n r bs') as [xs rest]. destruct IH. split; [by constructor|done].
Qed.

Lemma yields_count : yields read_count (λ n, 0 <= n <= u32_max).
Proof.
  unfold read_count. yielding_step. eapply (yields_bind _ _ (λ _, True)).
  { intros bs y rest Hb [= _ <-]. done. }
  intros y _. destruct (y <? x); [apply yields_fail|by apply yields_ret].
Qed.
#[export] Hint Resolve yields_count : sound.

Lemma field_bit_range field :
  (SampleField.index field < kSampleFieldCount)%nat → 0 <= field_bit field < 2 ^ 17.
Proof. intros H. destruct field; first [split; by vm_compute|cbn in H; lia]. Qed.

Lemma lor_range a b n : 0 <= n → 0 <= a < 2 ^ n → 0 <= b < 2 ^ n → 0 <= Z.lor a b < 2 ^ n.
Proof.
  intros Hn Ha Hb. split; [apply Z.lor_nonneg; lia|].
  destruct (decide (Z.lor a b = 0)) as [->|Hne]; [lia|].
  assert (0 <= Z.lor a b) by (apply Z.lor_nonneg; lia).
  apply Z.log2_lt_pow2; [lia|]. rewrite Z.log2_lor by lia.
  destruct (decide (a = 0)) as [->|]; [|destruct (decide (b = 0)) as [->|]].
  - rewrite Z.max_r by (pose proof (Z.log2_nonneg b); cbn; lia). apply Z.log2_lt_pow2; [|lia].
    rewrite Z.lor_0_l in *. lia.
  - rewrite Z.max_l by (pose proof (Z.log2_nonneg a); cbn; lia). apply Z.log2_lt_pow2; lia.
  - apply Z.max_lub_lt; apply Z.log2_lt_pow2; lia.
Qed.

Lemma lor_fold_range bits m n :
  0 <= n → Forall (λ b, 0 <= b < 2 ^ n) bits → 0 <= m < 2 ^ n →
  0 <= fold_left Z.lor bits m < 2 ^ n.
Proof.
  intros Hn H. revert m. induction H as [|b bits Hb _ IH]; intros m Hm; cbn [fold_left]; [done|].
  apply IH. by apply lor_range.
Qed.

Lemma yields_bitmap : yields ByteReader.sample_bitmap (λ m, 0 <= m < 2 ^ Z.of_nat kSampleFieldCount).
Proof.
  unfold ByteReader.sample_bitmap. yielding_step.
  assert (yields ByteReader.bitmap_field (λ b, 0 <= b < 2 ^ 17)) as Hfield.
  { unfold ByteReader.bitmap_field. yielding_step.
    destruct (nth_error all_fields (Z.to_nat x0)) as [f|] eqn:E; [|apply yields_fail].
    apply yields_ret, field_bit_range. rewrite (all_fields_index _ _ E).
    change kSampleFieldCount with (length all_fields). apply nth_error_Some. congruence. }
  eapply yields_bind; [by apply yields_repeat|]. intros bits [Hbits _]. apply yields_ret.
  by apply (lor_fold_range _ _ 17).
Qed.
#[export] Hint Resolve yields_bitmap : sound.

(** ** Names *)

Lemma create_same tag text name : create tag text = Value name → name = text.
Proof.
  unfold create. case_bool_decide; [done|]. destruct (_ <? _)%nat; [done|].
  unfold try_result. destruct (ok _); [|done]. by intros [= ->].
Qed.
Lemma create_named tag text name : create tag text = Value name → named tag name.
Proof. intros H. unfold named. by rewrite (create_same _ _ _ H) in H |- *. Qed.

Lemma yields_parse tag text : yields (parse_name tag text) (named tag).
Proof.
  unfold parse_name. destruct (create tag text) as [name|] eqn:E; [|apply yields_fail].
  apply yields_ret. by eapply create_named.
Qed.
Lemma yields_parse_optional tag text : yields (parse_optional_name tag text) (opt_named tag).
Proof.
  unfold parse_optional_name. case_bool_decide; [by apply yields_ret; left|].
  eapply yields_weaken; [apply yields_parse|]. intros x Hx. by right.
Qed.
#[export] Hint Resolve yields_parse yields_parse_optional : sound.

Section limits.
Context (limits : PersistenceLimits).

Lemma yields_read_string max :
  yields (read_string limits max) (λ s, Z.of_nat (String.length s) <= max).
Proof using. apply yields_string. Qed.
Lemma yields_name_text : yields (read_name_id limits) (λ s, Z.of_nat (String.length s) <= 128).
Proof using. apply yields_string. Qed.
#[local] Hint Resolve yields_read_string yields_name_text : sound.
Lemma yields_name tag : yields (read_name limits tag) (named tag).
Proof using. unfold read_name. yielding_step. apply yields_parse. Qed.
Lemma yields_optional_name tag : yields (read_optional_name limits tag) (opt_named tag).
Proof using. unfold read_optional_name. yielding_step. apply yields_parse_optional. Qed.
Lemma yields_receive : yields read_receive receive_ok.
Proof using. unfold read_receive. yielding. by split. Qed.
#[local] Hint Resolve yields_name yields_optional_name yields_receive : sound.

(** ** Samples and queues *)

Lemma yields_values reported fields :
  yields (read_values reported fields)
    (λ values, length values = length fields ∧ Forall is_u64 values ∧
       ∀ i field, nth_error fields i = Some field → has_field reported field = false →
         nth i values 0 = 0).
Proof using.
  induction fields as [|field fields IH]; cbn [read_values].
  { apply yields_ret. split_and!; [done|constructor|]. by intros [] ? [=]. }
  eapply (yields_bind _ _ (λ v, is_u64 v ∧ (has_field reported field = false → v = 0))).
  { destruct (has_field reported field).
    - eapply yields_weaken; [apply yields_u64|]. done.
    - apply yields_ret. split; [word_lia|done]. }
  intros v [Hv Hz]. eapply yields_bind; [exact IH|]. intros values (Hlen & Hu & Hvalues).
  apply yields_ret. split_and!; [cbn; lia|by constructor|].
  intros [|i] f; cbn; [by intros [= <-]|]. apply Hvalues.
Qed.
#[local] Hint Resolve yields_values : sound.

Lemma yields_sample : yields (decode_sample limits) sample_ok.
Proof using.
  unfold decode_sample. yielding. destruct (enumerator _) as [state|]; [|apply yields_fail].
  apply yields_ret. destruct_and!. constructor; cbn; try done.
  intros field Hf Hz. destruct (all_fields_nth field Hf) as [_ Hn]. eauto.
Qed.
#[local] Hint Resolve yields_sample : sound.

Lemma yields_parsed_option tag o :
  yields (match o with Some text => name ← parse_name tag text; mret (Some name)
          | None => mret None end) (option_ok (named tag)).
Proof using.
  destruct o as [text|]; [|by apply yields_ret]. yielding_step. apply yields_ret. by intros y [= <-].
Qed.
#[local] Hint Resolve yields_parsed_option : sound.

Lemma yields_queue : yields (decode_queue_record limits) (queue_ok limits).
Proof using.
  unfold decode_queue_record. do 12 yielding_step.
  destruct (Z.ltb_spec (max_segment_records limits) x10) as [|Hmax]; [by intros ????|].
  eapply yields_bind; [apply yields_repeat; eauto with sound|]. intros samples [Hs Hn].
  apply yields_ret. constructor; cbn; try done; unfold size_of; lia.
Qed.

(** ** Sources and events *)

Lemma yields_incarnation : yields (decode_incarnation limits) incarnation_ok.
Proof using. unfold decode_incarnation. yielding. by split. Qed.
#[local] Hint Resolve yields_incarnation : sound.

Lemma yields_source : yields (decode_source limits) source_ok.
Proof using.
  unfold decode_source. do 16 yielding_step.
  eapply yields_bind; [apply yields_repeat; eauto with sound|]. intros recent [Hr Hn].
  apply yields_ret. constructor; cbn; try done; [apply wrap_u64_range|]. unfold size_of. lia.
Qed.

Lemma yields_enumerator {E} `{Enumeration E} raw :
  yields (match enumerator raw with Some e => mret e | None => ByteReader.fail end) (λ _ : E, True).
Proof using. destruct (enumerator raw); [by apply yields_ret|apply yields_fail]. Qed.
#[local] Hint Resolve yields_enumerator : sound.

Lemma yields_event : yields (decode_event limits) event_ok.
Proof using. unfold decode_event. yielding. constructor; cbn; done. Qed.

(** ** Class metadata *)

Lemma yields_traffic : yields (decode_traffic_class limits) traffic_ok.
Proof using. unfold decode_traffic_class. yielding. constructor; cbn; done. Qed.
Lemma yields_scheduling : yields (decode_scheduling_class limits) scheduling_ok.
Proof using. unfold decode_scheduling_class. yielding. constructor; cbn; done. Qed.
Lemma yields_binding : yields (decode_binding limits) binding_ok.
Proof using. unfold decode_binding. yielding. constructor; cbn; done. Qed.

Lemma section_yields {A} (r : Reader A) (P : A → Prop) bs :
  yields r P → bytes_ok bs →
  Forall P (read_section r bs).1 ∧ (∀ rest, (read_section r bs).2 = Some rest → bytes_ok rest).
Proof using.
  intros Hr Hb. unfold read_section. destruct (read_count bs) as [[count bs']|] eqn:E; [|by split].
  apply read_many_yields; [done|]. by eapply yields_count.
Qed.

(** The table at every point of its reading: the source is a name once it is read. *)
Record part_table_ok (t : DurableMetadata) : Prop := {
  pt_revision : is_u64 (dm_revision t);
  pt_generation : is_u64 (dm_generation t);
  pt_source : opt_named SourceTag (dm_source t);
  pt_authority : is_byte (dm_authority t);
  pt_received : receive_ok (dm_received t);
  pt_traffic : Forall traffic_ok (dm_traffic_classes t);
  pt_scheduling : Forall scheduling_ok (dm_scheduling_classes t);
  pt_bindings : Forall binding_ok (dm_bindings t)
}.

Lemma sections_sound t bs :
  part_table_ok t → bytes_ok bs →
  part_table_ok (metadata_sections limits t bs).1 ∧
  dm_source (metadata_sections limits t bs).1 = dm_source t.
Proof using.
  intros [] Hb. unfold metadata_sections.
  pose proof (section_yields _ _ bs yields_traffic Hb) as [Ht Hrest].
  destruct (read_section (decode_traffic_class limits) bs) as [traffic [bs1|]]; cbn in *;
    [|split; [constructor; cbn; auto using Forall_app_2|done]].
  specialize (Hrest _ eq_refl).
  pose proof (section_yields _ _ bs1 yields_scheduling Hrest) as [Hs Hrest1].
  destruct (read_section (decode_scheduling_class limits) bs1) as [scheduling [bs2|]]; cbn in *;
    [|split; [constructor; cbn; auto using Forall_app_2|done]].
  specialize (Hrest1 _ eq_refl).
  pose proof (section_yields _ _ bs2 yields_binding Hrest1) as [Hbd _].
  destruct (read_section (decode_binding limits) bs2) as [bindings rest]; cbn in *.
  split; [constructor; cbn; auto using Forall_app_2|done].
Qed.

Lemma yields_head :
  yields (metadata_head limits)
    (λ '(revision, generation, _, authority), is_u64 revision ∧ is_u64 generation ∧ is_byte authority).
Proof using. unfold metadata_head. yielding. done. Qed.

Lemma metadata_sound t bs :
  part_table_ok t → bytes_ok bs →
  part_table_ok (decode_metadata_table limits bs t).1 ∧
  (named SourceTag (dm_source t) ∨ (decode_metadata_table limits bs t).2 = true →
   named SourceTag (dm_source (decode_metadata_table limits bs t).1)).
Proof using.
  intros Ht Hb. unfold decode_metadata_table.
  destruct (metadata_head limits bs) as [[[[[revision generation] source] authority] bs1]|] eqn:E;
    [|by split; [|intros [?|?]]].
  destruct (yields_head _ _ _ Hb E) as [(Hr & Hg & Ha) Hb1].
  destruct (create SourceTag source) as [name|] eqn:Hname.
  2:{ destruct Ht. split; [by constructor|]. by intros [?|?]. }
  apply create_named in Hname. assert (opt_named SourceTag name) by by right.
  assert (∀ received, receive_ok received →
    part_table_ok (set_head revision generation name authority received t)) as Hset.
  { intros received Hreceived. destruct Ht. by constructor. }
  destruct (pt_received _ Ht) as [Hwall Hsteady].
  destruct (ByteReader.i64 bs1) as [[w bs2]|] eqn:E1; [|split; [by apply Hset|done]].
  destruct (yields_i64 _ _ _ Hb1 E1) as [Hw Hb2].
  destruct (ByteReader.i64 bs2) as [[st bs3]|] eqn:E2; [|split; [by apply Hset|done]].
  destruct (yields_i64 _ _ _ Hb2 E2) as [Hst Hb3].
  destruct (sections_sound (set_head revision generation name authority (mkReceive st w) t) bs3)
    as [Hsound Hsource]; [by apply Hset|done|]. split; [done|]. by rewrite Hsource.
Qed.

(** ** The snapshot *)

(** What can be said of a snapshot read from any bytes. *)
Record readable_ok (sn : DurableSnapshot) : Prop := {
  rk_session : session_ok sn;
  rk_queues : Forall (queue_ok limits) (sn_queues sn);
  rk_sources : Forall source_ok (sn_sources sn);
  rk_events : Forall event_ok (sn_events sn);
  rk_table : part_table_ok (sn_metadata sn);
  rk_named : sn_has_metadata sn = true → named SourceTag (dm_source (sn_metadata sn))
}.

Lemma yields_session :
  yields (session_record limits) (λ '(runtime_id, version, name),
    Z.of_nat (String.length runtime_id) <= kMaxRuntimeIdBytes ∧ 0 <= version <= u32_max ∧
    Z.of_nat (String.length name) <= 128).
Proof using. unfold session_record. yielding. done. Qed.

Lemma record_sound type value out :
  readable_ok out → bytes_ok value → readable_ok (decode_record limits type value out).1.
Proof using.
  intros Hout Hv. pose proof Hout as [[] ? ? ? ? ?]. unfold decode_record.
  destruct (RecordType.of_number type) as [[]|]; [..|done].
  - destruct (session_record limits value) as [[[[id version] name] rest]|] eqn:E; [|done].
    destruct (yields_session _ _ _ Hv E) as [(H1 & H2 & H3) _]. constructor; try done.
    constructor; cbn; try done. by case_bool_decide.
  - destruct (decode_queue_record limits value) as [[queue rest]|] eqn:E; [|done].
    destruct (yields_queue _ _ _ Hv E) as [Hq _]. constructor; try done. cbn.
    apply Forall_app_2; [done|by constructor].
  - pose proof (section_yields _ _ _ yields_event Hv) as [He _].
    destruct (read_section _ _) as [events rest]. constructor; try done. by apply Forall_app_2.
  - pose proof (section_yields _ _ _ yields_source Hv) as [Hs _].
    destruct (read_section _ _) as [sources rest]. constructor; try done. by apply Forall_app_2.
  - pose proof (metadata_sound _ _ rk_table0 Hv) as [Ht Hn].
    destruct (decode_metadata_table _ _ _) as [table parsed]. cbn in *. constructor; try done. cbn.
    intros H%orb_true_iff. apply Hn. destruct H; auto.
Qed.

Lemma yields_header : yields record_header (λ '(_, _, _, len), 0 <= len).
Proof using. unfold record_header. yielding. lia. Qed.

Lemma records_sound fuel rest offset out r :
  readable_ok out → bytes_ok rest → readable_ok (decode_records limits fuel rest offset out r).1.2.
Proof using.
  revert rest offset out r. induction fuel as [|fuel IH]; intros rest offset out r Hout Hb;
    cbn [decode_records]; [done|].
  destruct (_ <? _); [done|]. destruct (record_header rest) as [[[[[crc type] flags] len] bs]|] eqn:E;
    [|done].
  destruct (yields_header _ _ _ Hb E) as [Hlen Hbs].
  destruct (_ <? _); [done|]. destruct (_ <? _); [done|]. destruct (negb _); [done|].
  pose proof (record_sound type (take (Z.to_nat len) bs) out Hout) as Hrec.
  destruct (decode_record _ _ _ _) as [out' parsed]. cbn in Hrec.
  assert (readable_ok out') by by apply Hrec, Forall_take.
  destruct parsed; cbn [negb]; [|done]. apply IH; [done|by apply Forall_drop].
Qed.

Lemma start_sound id created version :
  Z.of_nat (String.length id) <= kMaxRuntimeIdBytes → receive_ok created → 0 <= version <= u32_max →
  readable_ok (mkSnapshot id created version EmptyString [] [] [] no_durable_metadata false).
Proof using.
  intros Hid Hc Hv. constructor; [by constructor|done|done|done| |done].
  constructor; cbn; [word_lia|word_lia|by left|done|split; cbn; word_lia|done|done|done].
Qed.

Lemma yields_segment_header :
  yields segment_header (λ h, 0 <= sh_policy_version h <= u32_max ∧ 0 <= sh_runtime_id_len h ∧
    is_i64 (sh_created_wall h) ∧ is_i64 (sh_created_steady h)).
Proof using. unfold segment_header. yielding. cbn. split_and!; done || lia. Qed.

Lemma body_sound h bytes :
  bytes_ok bytes → 0 <= sh_policy_version h <= u32_max → 0 <= sh_runtime_id_len h <= kMaxRuntimeIdBytes →
  is_i64 (sh_created_wall h) → is_i64 (sh_created_steady h) →
  readable_ok (decode_body limits h bytes).1.2.
Proof using.
  intros Hb Hpolicy Hid Hw Hs. unfold decode_body. cbv zeta. destruct (_ <? _).
  { apply start_sound; cbn; [unfold kMaxRuntimeIdBytes; lia|split; cbn; word_lia|word_lia]. }
  match goal with |- context [decode_records limits ?f ?p ?o ?out ?r] =>
    pose proof (records_sound f p o out r) as H; destruct (decode_records limits f p o out r)
      as [[offset out'] r'] end.
  cbn in *. apply H; [|by apply Forall_take, Forall_drop, Forall_drop].
  apply start_sound; [|by split|done]. rewrite bytes_text_length, length_take. lia.
Qed.

Lemma snapshot_sound bytes :
  bytes_ok bytes → readable_ok (decode_snapshot limits bytes).1.2.
Proof using.
  intros Hb. assert (readable_ok no_snapshot) as Hnone.
  { apply start_sound; cbn; [unfold kMaxRuntimeIdBytes; lia|split; cbn; word_lia|word_lia]. }
  unfold decode_snapshot. cbv zeta. destruct (negb (ok _)); [done|]. destruct (_ <? _); [done|].
  destruct (negb (bool_decide _)); [done|].
  destruct (segment_header _) as [[h rest]|] eqn:E; [|done].
  apply yields_segment_header in E as [(Hv & Hid & Hw & Hs) _]; [|by apply Forall_drop].
  destruct (negb _); [done|]. destruct (negb _); [done|]. destruct (negb _); [done|].
  destruct (Z.ltb_spec kMaxRuntimeIdBytes (sh_runtime_id_len h)); [done|]. by apply body_sound.
Qed.
End limits.

(** C25: whatever bytes a segment holds, the snapshot read from it is durable data:
    every name is one its constructor accepts, every value fits its type, every text its
    bound, and a queue has no more samples than the configured number of records. *)
Theorem decoded_snapshot_well_formed (limits : PersistenceLimits) (bytes : list Z) (st : Status)
    (sn : DurableSnapshot) (r : DecodeReport) :
  bytes_ok bytes → decode_snapshot limits bytes = (st, sn, r) → readable_ok limits sn.
Proof. intros Hb E. pose proof (snapshot_sound limits bytes Hb) as H. by rewrite E in H. Qed.
