(* ===== verification/SegmentExample.v ===== *)
(** * A snapshot on disk

    A snapshot with every kind of record, and what the theorems on segments say of it. *)

From S2P Require Import Prelude Result Checked Text Bytes Crc32c Identity Time Evidence Sample.
From S2P Require Import Metadata Event Limits Policy Admission Codec Format FormatBytes.
From S2P Require Import SegmentBytes SegmentTheorems SegmentSound.
Open Scope Z_scope.

Definition example_sample : DurableSample :=
  mkDurableSample (mkObservation 5 "ptp") 7 (-8) "agent" "boot" 1 2 2 6
    ([0; 11; 12] ++ replicate 14 0) PressureState.Normal 1 1 (-3).
Definition example_queue : DurableQueueState :=
  mkDurableQueue (mkQueuePath "leaf" "eth0" 3) (mkDurableClasses (Some 7) (Some "gold") 1 9) true
    [example_sample; example_sample].
Definition example_source : DurableSource :=
  mkDurableSource "agent" 2 2 "boot" 1 2 3 "ptp" (mkReceive 1 2) (mkReceive 3 4) 1 2 3 4 5
    [("old", 1)].
Definition example_event : DurableEvent :=
  mkDurableEvent EventKind.CounterReset 3 (mkReceive 1 2) (mkObservation 1 "")
    (mkQueuePath "leaf" "" 3) "agent" "" 5 6 "detail".
Definition example_table : DurableMetadata :=
  mkDurableMetadata 3 4 "ctl" 3 (mkReceive 1 2)
    [mkTrafficClass 3 "be" (Some 4) None (Some "gold")] [mkSchedulingClass "gold" "wrr" (Some 8)]
    [mkBinding (mkQueuePath "leaf" "eth0" 3) (Some 3) None].
Definition example_snapshot : DurableSnapshot :=
  mkSnapshot "run" (mkReceive 10 20) 4 "default" [example_queue; example_queue] [example_event]
    [example_source] example_table true.

(** What the encoder writes, and what the decoder makes of it. *)
Definition encoded : list Z :=
  match encode_snapshot default_persistence_limits example_snapshot with
  | Value bytes => bytes | Failure _ => []
  end.
Example encoded_size : size_of encoded = 1056.
Proof. vm_compute. done. Qed.
Example decoded :
  decode_snapshot default_persistence_limits encoded =
  (success, example_snapshot, sound_report example_snapshot (records_of example_snapshot) 6 973).
Proof. vm_compute. done. Qed.

(** [decided]: a closed goal that evaluates. *)
Ltac decided :=
  lazymatch goal with
  | |- Forall _ _ => fail
  | |- option_ok _ _ =>
      let H := fresh in intros ? H; vm_compute in H;
      first [discriminate H | injection H as <-; decided]
  | |- opt_named _ _ => first [left; reflexivity | right; vm_compute; reflexivity]
  | |- receive_ok _ => split; decided
  | |- incarnation_ok _ => split; decided
  | |- _ <= _ => vm_compute; discriminate
  | |- _ => first [vm_compute; reflexivity | split; vm_compute; (reflexivity || discriminate)]
  end.

Lemma example_sample_ok : sample_ok example_sample.
Proof.
  constructor; try decided.
  - repeat (constructor; [by vm_compute|]). constructor.
  - intros field _. by destruct field.
Qed.
Lemma example_queue_ok : queue_ok default_persistence_limits example_queue.
Proof. constructor; try decided. do 2 (constructor; [apply example_sample_ok|]). constructor. Qed.
Lemma example_source_ok : source_ok example_source.
Proof. constructor; try decided. constructor; [|constructor]. split; decided. Qed.
Lemma example_event_ok : event_ok example_event.
Proof. constructor; decided. Qed.
Lemma example_table_ok : table_ok example_table.
Proof.
  constructor; try decided; (constructor; [|constructor]); constructor; decided.
Qed.
Lemma example_ok : snapshot_ok default_persistence_limits example_snapshot.
Proof.
  constructor.
  - constructor; decided.
  - do 2 (constructor; [apply example_queue_ok|]). constructor.
  - constructor; [apply example_source_ok|constructor].
  - decided.
  - constructor; [apply example_event_ok|constructor].
  - decided.
  - apply example_table_ok.
Qed.

Lemma default_limits_ok : limits_ok default_persistence_limits.
Proof. constructor; by vm_compute. Qed.
Lemma example_fits : fits default_persistence_limits (records_of example_snapshot).
Proof.
  constructor; [|by vm_compute..]. repeat (constructor; [split; by vm_compute|]). constructor.
Qed.

Lemma result_triple {A B C} (x : A * B * C) : x = (x.1.1, x.1.2, x.2).
Proof. by destruct x as [[]]. Qed.

Lemma segment_round_trip_witness :
  ∃ bytes,
    encode_snapshot default_persistence_limits example_snapshot = Value bytes ∧
    decode_snapshot default_persistence_limits bytes =
      (success, example_snapshot,
       sound_report example_snapshot (records_of example_snapshot)
         (size_of (records_of example_snapshot)) (size_of (payload_of (records_of example_snapshot)))).
Proof.
  apply segment_round_trip.
  - by vm_compute.
  - apply default_limits_ok.
  - apply example_ok.
  - apply example_fits.
  - by vm_compute.
Defined.

(** Cut in the second queue: the session and the first queue are left. *)
Lemma truncated_segment_keeps_whole_records_witness :
  records_start example_snapshot <= Z.of_nat 500 < size_of (segment_of example_snapshot) ∧
  ∃ k r,
    decode_snapshot default_persistence_limits (take 500 (segment_of example_snapshot)) =
      (success, kept k example_snapshot, r) ∧
    re_records_parsed r = Z.of_nat k ∧ re_truncated r = true ∧ clean r = false ∧
    records_start example_snapshot + size_of (payload_of (take k (records_of example_snapshot))) <=
      Z.of_nat 500 <
    records_start example_snapshot + size_of (payload_of (take (S k) (records_of example_snapshot))).
Proof.
  assert (records_start example_snapshot <= Z.of_nat 500 < size_of (segment_of example_snapshot)) as Hn
    by (split; by vm_compute).
  split; [exact Hn|]. apply truncated_segment_keeps_whole_records.
  - by vm_compute.
  - apply default_limits_ok.
  - apply example_ok.
  - apply example_fits.
  - exact Hn.
Defined.

(** Four bytes of the first queue, overwritten. *)
Definition example_damage : list Z :=
  header_of example_snapshot (records_of example_snapshot) ++ text_bytes "run" ++
  payload_of (take 1 (records_of example_snapshot)) ++
  damaged_record RecordType.QueueSnapshot (take 10 (queue_bytes example_queue))
    (take 4 (drop 10 (queue_bytes example_queue))) [255; 255; 255; 255]
    (drop 14 (queue_bytes example_queue)) ++
  payload_of (drop 2 (records_of example_snapshot)).

Lemma damaged_record_stops_reading_witness :
  ∃ r,
    decode_snapshot default_persistence_limits example_damage = (success, kept 1 example_snapshot, r) ∧
    re_records_parsed r = 1 ∧ clean r = false.
Proof.
  apply (damaged_record_stops_reading default_persistence_limits example_snapshot
    (take 1 (records_of example_snapshot)) RecordType.QueueSnapshot
    (take 10 (queue_bytes example_queue)) (take 4 (drop 10 (queue_bytes example_queue)))
    [255; 255; 255; 255] (drop 14 (queue_bytes example_queue))
    (drop 2 (records_of example_snapshot))).
  - by vm_compute.
  - apply default_limits_ok.
  - apply example_ok.
  - apply example_fits.
  - by vm_compute.
  - by repeat constructor.
  - by vm_compute.
  - by vm_compute; repeat constructor.
  - by vm_compute.
Defined.

(** The damaged segment is decoded to durable data. *)
Lemma decoded_snapshot_well_formed_witness :
  bytes_ok example_damage ∧
  readable_ok default_persistence_limits
    (decode_snapshot default_persistence_limits example_damage).1.2.
Proof.
  assert (bytes_ok example_damage) as Hb by (apply (bool_decide_unpack _); vm_compute; reflexivity).
  split; [exact Hb|].
  eapply (decoded_snapshot_well_formed default_persistence_limits example_damage);
    [exact Hb|apply result_triple].
Defined.

(** ** Where the two directions differ

    The encoder counts records, the decoder also holds the samples of one record to the
    number of records of a segment. *)
Definition two_record_limits : PersistenceLimits :=
  mkPersistenceLimits (64 * 1024 * 1024) 2 (1024 * 1024) 8 (1024 * 1024).
Definition three_samples : DurableSnapshot :=
  mkSnapshot "run" (mkReceive 10 20) 4 "default"
    [mkDurableQueue (mkQueuePath "leaf" "eth0" 3) (mkDurableClasses None None 0 0) false
       [example_sample; example_sample; example_sample]] [] [] no_durable_metadata false.
Lemma sample_count_held_to_record_limit :
  match encode_snapshot two_record_limits three_samples with
  | Value bytes =>
      let '(st, sn, r) := decode_snapshot two_record_limits bytes in
      ok st = true ∧ sn_queues sn = [] ∧ re_diagnostic r = "a record could not be decoded"
  | Failure _ => False
  end.
Proof. vm_compute. done. Qed.

(** An enumeration is read as whatever byte was written. *)
Definition unknown_authority : DurableSnapshot :=
  mkSnapshot "run" (mkReceive 10 20) 4 "default" [] []
    [mkDurableSource "agent" 200 2 "boot" 1 2 3 "ptp" (mkReceive 1 2) (mkReceive 3 4) 1 2 3 4 5 []]
    no_durable_metadata false.
Lemma unknown_enumerator_decodes :
  match encode_snapshot default_persistence_limits unknown_authority with
  | Value bytes =>
      let '(_, sn, r) := decode_snapshot default_persistence_limits bytes in
      map so_authority (sn_sources sn) = [200] ∧ clean r = true ∧
      enumerator (E := SourceAuthority) 200 = None
  | Failure _ => False
  end.
Proof. vm_compute. done. Qed.

(** The reserved bytes of a record are not part of what its checksum is computed over:
    the decoder computes the prefix again, with zeros. *)
Lemma reserved_bytes_unchecked :
  let '(_, sn, r) := decode_snapshot default_persistence_limits (<[89%nat := 7]> encoded) in
  sn = example_snapshot ∧ re_records_parsed r = 6 ∧ re_records_rejected r = 0 ∧
  re_payload_crc_valid r = false.
Proof. vm_compute. done. Qed.
