(* ===== verification/Recovery.v ===== *)
(** * Snapshots of the store and their re-admission

    [build_snapshot] ([persist/Format.cpp]): the durable form of what a store retains.
    [apply_recovered_snapshot] ([runtime/Engine.cpp]): a snapshot read back, admitted to
    a store as recovered evidence.

    Where the decoder casts a byte to an enumeration without a range check, a snapshot
    holds the byte.  A store holds enumerators: [recovered_sample], [recovered_table],
    [recovered_event] have a result when the byte is the number of one. *)

From stdpp Require Import gmap strings.
From S2P Require Import Prelude Result Checked Text Bytes Identity Time Evidence Sample Counter.
From S2P Require Import Metadata Event Limits Policy Rules Explanation Classification.
From S2P Require Import Ring History Window OrderedMap Admission Store StoreOps Queries.
From S2P Require Import Codec Format.
Open Scope Z_scope.

#[local] Set Warnings "-register-all".

(** ** The durable form of retained data *)

Definition durable_source (r : SourceRecord) : DurableSource :=
  mkDurableSource (sr_id r) (number (sr_authority r)) (number (sr_declared_authority r))
    (sr_incarnation r) (sr_incarnation_ordinal r) (sr_last_sequence r) (sr_generation r)
    (sr_clock_domain r) (sr_first_seen r) (sr_last_seen r) (sr_accepted r) (sr_fenced r)
    (sr_duplicates r) (sr_rejected r) (sr_last_observed_ns r) (sr_recent_incarnations r).

Definition durable_event (e : EventRecord) : DurableEvent :=
  mkDurableEvent (ev_kind e) (number (ev_severity e)) (ev_received e) (ev_observed e) (ev_queue e)
    (ev_source e) (ev_incarnation e) (ev_sequence e) (ev_revision e) (ev_detail e).

Definition durable_table (t : ClassMetadataTable) : DurableMetadata :=
  mkDurableMetadata (md_revision t) (md_generation t) (md_source t) (number (md_authority t))
    (md_received t) (md_traffic_classes t) (md_scheduling_classes t) (md_bindings t).

Definition durable_classes (c : QueueClassAttributes) : DurableClasses :=
  mkDurableClasses (qc_traffic_class c) (qc_scheduling_class c) (number (qc_origin c))
    (qc_metadata_revision c).

(** ** Incarnation tokens *)

(** [incarnation_tokens]: what a source and an ordinal stand for. *)
Abbreviation Tokens := (gmap (SourceId * IncarnationOrdinal) IncarnationId).
Definition add_tokens (tokens : Tokens) (source : SourceRecord) : Tokens :=
  let tokens :=
    if name_valid (sr_incarnation source)
    then <[(sr_id source, sr_incarnation_ordinal source) := sr_incarnation source]> tokens
    else tokens in
  fold_left (λ tokens entry, <[(sr_id source, entry.2) := entry.1]> tokens)
    (sr_recent_incarnations source) tokens.
Definition incarnation_tokens (sources : list SourceRecord) : Tokens := fold_left add_tokens sources ∅.

Definition durable_sample (tokens : Tokens) (record : HistoryRecord) : DurableSample :=
  mkDurableSample (hr_observed record) (wall (hr_received record)) (steady (hr_received record))
    (hr_source record)
    (default EmptyString (tokens !! (hr_source record, hr_incarnation_ordinal record)))
    (hr_generation record) (hr_sequence record) (number (hr_authority record)) (hr_reported record)
    (hr_values record) (hr_state record) (number (hr_freshness record)) (number (hr_quality record))
    (hr_age_ns record).

(** ** [build_snapshot] *)

(** The visitor: the newest [max_samples] records of a queue. *)
Definition durable_queue (tokens : Tokens) (max_samples : Z)
    (entry : QueuePath * list HistoryRecord) : DurableQueueState :=
  let records := entry.2 in
  let taken := if max_samples <? size_of records then max_samples else size_of records in
  let start := Z.to_nat (size_of records - taken) in
  mkDurableQueue entry.1 (durable_classes no_classes) false
    (map (durable_sample tokens) (drop start records)).

(** The first queue of the row's path gets its classes. *)
Fixpoint set_row_classes (row : InspectRow) (queues : list DurableQueueState) :
    list DurableQueueState :=
  match queues with
  | [] => []
  | queue :: queues =>
      if bool_decide (dq_queue queue = ir_queue row) then
        mkDurableQueue (dq_queue queue) (durable_classes (ir_classes row))
          (bool_decide (qc_origin (ir_classes row) ≠ AttributeOrigin.Unspecified))
          (dq_samples queue) :: queues
      else queue :: set_row_classes row queues
  end.

(** A query whose failure leaves [build_snapshot]. *)
Definition checked {A} (result : A * Status) : Result A :=
  if ok result.2 then Value result.1 else Failure result.2.

Section build.
Context (cfg : StoreConfig).

Definition build_snapshot (max_samples max_events : Z) (s : Store) : Result DurableSnapshot :=
  let session := cfg_session cfg in
  inspected ← checked (inspect cfg no_filter (mkPagination 0 0) s);
  sources ← checked (sources cfg s);
  let tokens := incarnation_tokens sources in
  walked ← checked (for_each_queue cfg 1048576 s);
  let queues :=
    fold_left (λ queues row, set_row_classes row queues) (page_rows inspected)
      (map (durable_queue tokens max_samples) walked) in
  events ← checked (events cfg (mkEventQuery None None None (mkPagination 0 max_events)) s);
  metadata ← checked (metadata_snapshot cfg s);
  let '(table, has_metadata) := default (no_metadata, false) metadata in
  Value (mkSnapshot (ss_runtime_id session) (ss_started session) (ss_policy_version session)
           (ss_policy_name session) queues (map durable_event (page_rows events))
           (map durable_source sources) (durable_table table) has_metadata).
End build.

(** ** [apply_recovered_snapshot] *)

(** The loop over the reported fields: [set_value] on each. *)
Definition restore_values (durable : DurableSample) (sample : QueueSample) : QueueSample :=
  fold_left
    (λ sample field,
       if has_field (du_reported durable) field
       then set_value field (nth (SampleField.index field) (du_values durable) 0) sample else sample)
    all_fields sample.

Definition recovered_classes (c : DurableClasses) : option QueueClassAttributes :=
  origin ← enumerator (dc_origin c);
  Some (mkClasses (dc_traffic_class c) (dc_scheduling_class c) origin (dc_metadata_revision c)).

(** The steady time of the previous process means nothing here: zero stands for it. *)
Definition recovered_sample (queue : DurableQueueState) (durable : DurableSample) :
    option QueueSample :=
  classes ← recovered_classes (dq_classes queue);
  authority ← enumerator (du_authority durable);
  Some (restore_values durable
          (mkSample (dq_queue queue) classes (du_source durable) (du_incarnation durable)
             (du_sequence durable) authority (du_generation durable) 0 (du_observed durable)
             (mkReceive 0 (du_received_wall durable)) (du_reported durable) (du_reported durable)
             (replicate kSampleFieldCount 0))).

Definition recovered_queue (queue : DurableQueueState) : option (list QueueSample) :=
  mapM (recovered_sample queue) (dq_samples queue).

(** The samples in the order they were persisted. *)
Definition recovered_samples (snapshot : DurableSnapshot) : option (list QueueSample) :=
  samples ← mapM recovered_queue (sn_queues snapshot); Some (concat samples).

Definition recovered_table (t : DurableMetadata) : option ClassMetadataTable :=
  authority ← enumerator (dm_authority t);
  Some (mkMetadata (dm_revision t) (dm_generation t) (dm_source t) authority (dm_received t)
          (dm_traffic_classes t) (dm_scheduling_classes t) (dm_bindings t)).

Definition recovered_event (e : DurableEvent) : option EventRecord :=
  severity ← enumerator (de_severity e);
  Some (mkEvent (de_kind e) severity (de_received e) (de_observed e) (de_queue e) (de_source e)
          (de_incarnation e) (de_sequence e) (de_revision e) (de_detail e)).

Record RecoverySummary := mkSummary {
  rs_attempted : bool;
  rs_recovered : bool;
  rs_queues : Z;
  rs_samples_presented : Z;
  rs_samples : Z;
  rs_samples_rejected : Z;
  rs_samples_fenced : Z;
  rs_events : Z;
  rs_sources : Z;
  rs_metadata_present : bool;
  rs_report : DecodeReport;
  rs_diagnostic : string;
  rs_evidence_marked_stale : bool
}.
Definition no_summary : RecoverySummary :=
  mkSummary false false 0 0 0 0 0 0 0 false no_decode_report EmptyString true.

Section recovery.
Context (cfg : StoreConfig) (clock : nat → ReceiveTime) (record_bytes : Z).

(** The counts of the snapshot. *)
Definition summary_of (snapshot : DurableSnapshot) (report : DecodeReport)
    (summary : RecoverySummary) : RecoverySummary :=
  mkSummary (rs_attempted summary) true (size_of (sn_queues snapshot))
    (rs_samples_presented summary) (rs_samples summary) (rs_samples_rejected summary)
    (rs_samples_fenced summary) (size_of (sn_events snapshot)) (size_of (sn_sources snapshot))
    (rs_metadata_present summary) report (rs_diagnostic summary) true.

Definition summary_with_metadata (summary : RecoverySummary) : RecoverySummary :=
  mkSummary (rs_attempted summary) (rs_recovered summary) (rs_queues summary)
    (rs_samples_presented summary) (rs_samples summary) (rs_samples_rejected summary)
    (rs_samples_fenced summary) (rs_events summary) (rs_sources summary) true
    (rs_report summary) (rs_diagnostic summary) (rs_evidence_marked_stale summary).
Definition summary_presented (presented : Z) (summary : RecoverySummary) : RecoverySummary :=
  mkSummary (rs_attempted summary) (rs_recovered summary) (rs_queues summary) presented
    (rs_samples summary) (rs_samples_rejected summary) (rs_samples_fenced summary)
    (rs_events summary) (rs_sources summary) (rs_metadata_present summary) (rs_report summary)
    (rs_diagnostic summary) (rs_evidence_marked_stale summary).
Definition summary_admitted (b : BatchAdmission) (summary : RecoverySummary) : RecoverySummary :=
  mkSummary (rs_attempted summary) (rs_recovered summary) (rs_queues summary)
    (rs_samples_presented summary) (bt_accepted b) (bt_rejected b) (bt_fenced b)
    (rs_events summary) (rs_sources summary) (rs_metadata_present summary) (rs_report summary)
    (rs_diagnostic summary) (rs_evidence_marked_stale summary).
Definition summary_finished (imported : nat) (diagnostic : string) (summary : RecoverySummary) :
    RecoverySummary :=
  mkSummary (rs_attempted summary) (rs_recovered summary) (rs_queues summary)
    (rs_samples_presented summary) (rs_samples summary) (rs_samples_rejected summary)
    (rs_samples_fenced summary) (Z.of_nat imported) (rs_sources summary)
    (rs_metadata_present summary) (rs_report summary) diagnostic
    (rs_evidence_marked_stale summary).

Definition recovery_diagnostic (report : DecodeReport) : string :=
  if clean report then "recovered a clean segment"
  else "recovered a damaged segment: " +:+ re_diagnostic report.

(** What follows the metadata table. *)
Definition apply_recovered_evidence (samples : list QueueSample) (events : list EventRecord)
    (report : DecodeReport) (summary : RecoverySummary) (s : Store) :
    Store * RecoverySummary * Status :=
  let summary := summary_presented (size_of samples) summary in
  let '(s, admission, status) := admit_recovered cfg clock record_bytes samples s in
  if negb (ok status) then (s, summary, status)
  else
    let summary := summary_admitted admission summary in
    let '(s, imported, status) := import_events cfg clock events s in
    if negb (ok status) then (s, summary, status)
    else (s, summary_finished imported (recovery_diagnostic report) summary, success).

(** The store, the summary and the status; nothing when a byte is no enumerator. *)
Definition apply_recovered_snapshot (snapshot : DurableSnapshot) (report : DecodeReport)
    (summary : RecoverySummary) (s : Store) : option (Store * RecoverySummary * Status) :=
  table ← (if sn_has_metadata snapshot then recovered_table (sn_metadata snapshot)
           else Some no_metadata);
  samples ← recovered_samples snapshot;
  events ← mapM recovered_event (sn_events snapshot);
  let summary := summary_of snapshot report summary in
  Some (if sn_has_metadata snapshot then
          let '(s, _, status) := apply_metadata cfg clock table s in
          if negb (ok status) then (s, summary, status)
          else apply_recovered_evidence samples events report (summary_with_metadata summary) s
        else apply_recovered_evidence samples events report summary s).
End recovery.
