(* ===== verification/RecoveryTheorems.v ===== *)
(** * Snapshots and recovery: theorems

    A snapshot holds the newest records of every queue, and presents them again as they
    were; no segment, whatever its bytes, establishes the present of a queue. *)

From stdpp Require Import gmap strings.
From S2P Require Import Prelude Result Checked Text Bytes Identity Time Evidence Sample Counter.
From S2P Require Import Metadata Event Limits Policy Rules Explanation Classification.
From S2P Require Import Ring History Window OrderedMap Admission Store StoreOps Queries.
From S2P Require Import StoreInvariant StoreTheorems StoreBatches StoreExample.
From S2P Require Import Codec Format FormatBytes SegmentSound Recovery.
Open Scope Z_scope.

#[local] Set Warnings "-register-all".

(** ** What a snapshot holds, and what it presents *)

(** The newest [max_samples] records. *)
Definition newest (max_samples : Z) (records : list HistoryRecord) : list HistoryRecord :=
  drop (Z.to_nat (size_of records - Z.min max_samples (size_of records))) records.

(** [sample] presents [record] of the queue [path]. *)
Record presents (tokens : Tokens) (path : QueuePath) (record : HistoryRecord) (sample : QueueSample) :
    Prop := {
  pr_queue : qs_queue sample = path;
  pr_source : qs_source sample = hr_source record;
  pr_incarnation :
    qs_incarnation sample =
    default EmptyString (tokens !! (hr_source record, hr_incarnation_ordinal record));
  pr_generation : qs_generation sample = hr_generation record;
  pr_sequence : qs_sequence sample = hr_sequence record;
  pr_authority : qs_authority sample = hr_authority record;
  pr_observed : qs_observed sample = hr_observed record;
  pr_received : qs_received sample = mkReceive 0 (wall (hr_received record));
  pr_reported : qs_reported sample = hr_reported record ∧ qs_declared sample = hr_reported record;
  pr_values : ∀ field, field ≠ SampleField.Count →
    value sample field =
    if has_field (hr_reported record) field
    then Some (nth (SampleField.index field) (hr_values record) 0) else None
}.

(** ** Restoring the values *)

Record same_but_values (s s' : QueueSample) : Prop := {
  sv_queue : qs_queue s' = qs_queue s;
  sv_classes : qs_classes s' = qs_classes s;
  sv_source : qs_source s' = qs_source s;
  sv_incarnation : qs_incarnation s' = qs_incarnation s;
  sv_sequence : qs_sequence s' = qs_sequence s;
  sv_authority : qs_authority s' = qs_authority s;
  sv_generation : qs_generation s' = qs_generation s;
  sv_observed : qs_observed s' = qs_observed s;
  sv_received : qs_received s' = qs_received s;
  sv_declared : qs_declared s' = qs_declared s;
  sv_length : length (qs_values s') = length (qs_values s)
}.
#[export] Instance same_but_values_preorder : PreOrder same_but_values.
Proof.
  split; [by constructor|]. intros s1 s2 s3 [] []. constructor; congruence.
Qed.

Lemma set_value_same field v s : same_but_values s (set_value field v s).
Proof.
  unfold set_value. destruct (_ <=? _)%nat; [done|]. constructor; cbn; try done. apply length_insert.
Qed.

Lemma set_value_reported field v s :
  has_field (qs_reported s) field = true → qs_reported (set_value field v s) = qs_reported s.
Proof.
  intros H. unfold set_value. destruct (_ <=? _)%nat; [done|]. cbn.
  apply Z.bits_inj'. intros n Hn. rewrite Z.lor_spec. destruct (Z.testbit (field_bit field) n) eqn:E;
    [|by rewrite orb_false_r]. rewrite orb_true_r. symmetry.
  rewrite has_field_testbit in H. unfold field_bit in E.
  rewrite Z.shiftl_1_l, Z.pow2_bits_eqb in E by lia. apply Z.eqb_eq in E. by rewrite <- E.
Qed.

Definition restore_loop (durable : DurableSample) (fields : list SampleField) (sample : QueueSample) :
    QueueSample :=
  fold_left
    (λ sample field,
       if has_field (du_reported durable) field
       then set_value field (nth (SampleField.index field) (du_values durable) 0) sample else sample)
    fields sample.

Lemma restore_loop_spec durable fields sample :
  NoDup fields → Forall (λ f, f ≠ SampleField.Count) fields →
  length (qs_values sample) = kSampleFieldCount → qs_reported sample = du_reported durable →
  same_but_values sample (restore_loop durable fields sample) ∧
  qs_reported (restore_loop durable fields sample) = du_reported durable ∧
  ∀ field, field ≠ SampleField.Count →
    value (restore_loop durable fields sample) field =
    if decide (field ∈ fields)
    then if has_field (du_reported durable) field
         then Some (nth (SampleField.index field) (du_values durable) 0) else value sample field
    else value sample field.
Proof.
  intros Hnd Hf. revert sample. induction fields as [|f fields IH]; intros sample Hlen Hr;
    cbn [restore_loop fold_left].
  { split_and!; [done|done|]. intros field _. by rewrite decide_False by apply not_elem_of_nil. }
  apply NoDup_cons in Hnd as [Hnotin Hnd]. apply Forall_cons in Hf as [Hfc Hf].
  set (next := if has_field _ f then _ else sample).
  assert (same_but_values sample next) as Hsame.
  { unfold next. destruct (has_field _ f); [apply set_value_same|done]. }
  assert (qs_reported next = du_reported durable) as Hnr.
  { unfold next. destruct (has_field _ f) eqn:E; [|done]. rewrite set_value_reported; by rewrite Hr. }
  destruct (IH Hnd Hf next) as (Hs & Hrep & Hv); [by rewrite (sv_length _ _ Hsame)|done|].
  split_and!; [by etransitivity|done|]. intros field Hfield. rewrite Hv by done.
  assert (value next field = if decide (f = field) then
    (if has_field (du_reported durable) f
     then Some (nth (SampleField.index f) (du_values durable) 0) else value sample field)
    else value sample field) as Hnext.
  { unfold next. destruct (has_field (du_reported durable) f) eqn:E; [|by destruct (decide _)].
    by rewrite value_set_value. }
  rewrite Hnext. destruct (decide (f = field)) as [->|Hne].
  - rewrite (decide_False (P := field ∈ fields)) by done. rewrite decide_True by by left. done.
  - destruct (decide (field ∈ fields)).
    + by rewrite decide_True by by right.
    + rewrite decide_False; [done|]. intros [->|?]%elem_of_cons; done.
Qed.

Lemma all_fields_nodup : NoDup all_fields.
Proof. apply (bool_decide_unpack _). reflexivity. Qed.
Lemma all_fields_counted : Forall (λ f, f ≠ SampleField.Count) all_fields.
Proof. apply (bool_decide_unpack _). reflexivity. Qed.

Lemma restore_values_loop durable sample :
  restore_values durable sample = restore_loop durable all_fields sample.
Proof. unfold restore_values, restore_loop. reflexivity. Qed.

(** Restoring changes the values and nothing else. *)
Lemma restore_values_same durable sample :
  qs_sequence (restore_values durable sample) = qs_sequence sample.
Proof.
  rewrite restore_values_loop. unfold restore_loop. revert sample.
  induction all_fields as [|field fields IH]; intros sample; cbn [fold_left]; [done|].
  rewrite IH. destruct (has_field _ field); [|done].
  apply (sv_sequence _ _ (set_value_same field _ sample)).
Qed.

Lemma recovered_classes_durable c : recovered_classes (durable_classes c) = Some c.
Proof. unfold recovered_classes. cbn. rewrite enumerator_number. by destruct c. Qed.

Lemma record_presented tokens queue record c :
  dq_classes queue = durable_classes c →
  ∃ sample, recovered_sample queue (durable_sample tokens record) = Some sample ∧
    qs_classes sample = c ∧ presents tokens (dq_queue queue) record sample.
Proof.
  intros Hc. unfold recovered_sample. rewrite Hc, recovered_classes_durable. cbn [mbind option_bind].
  cbn [du_authority durable_sample]. rewrite enumerator_number. cbn [mbind option_bind].
  eexists. split; [done|].
  match goal with |- context [restore_values ?d ?s] =>
    destruct (restore_loop_spec d all_fields s all_fields_nodup all_fields_counted
      (length_replicate _ _) eq_refl) as (Hsame & Hr & Hv);
    rewrite restore_values_loop; set (sample := restore_loop d all_fields s) in *; clearbody sample end.
  destruct Hsame. cbn [qs_queue qs_classes qs_source qs_incarnation qs_sequence qs_authority qs_generation
    qs_observed qs_received qs_declared qs_reported durable_sample du_observed du_received_wall
    du_source du_incarnation du_generation du_sequence du_reported du_values] in *.
  split; [done|]. constructor; [done..|by split|].
  intros field Hf. rewrite Hv by done. rewrite decide_True by by apply all_fields_complete.
  destruct (has_field (hr_reported record) field) eqn:E; [done|].
  unfold value. cbn [qs_reported]. rewrite E.
  by destruct (kSampleFieldCount <=? SampleField.index field)%nat.
Qed.

(** ** The queues of a snapshot *)

(** A durable queue holds the newest records of a queue, and classes of the store. *)
Record stores (tokens : Tokens) (max_samples : Z) (entry : QueuePath * list HistoryRecord)
    (queue : DurableQueueState) : Prop := {
  so_path : dq_queue queue = entry.1;
  so_samples : dq_samples queue = map (durable_sample tokens) (newest max_samples entry.2);
  so_classes : ∃ c, dq_classes queue = durable_classes c
}.

Lemma newest_taken max_samples (records : list HistoryRecord) :
  (if max_samples <? size_of records then max_samples else size_of records) =
  Z.min max_samples (size_of records).
Proof. destruct (Z.ltb_spec max_samples (size_of records)); lia. Qed.

Lemma durable_queues_stored tokens max_samples walked :
  Forall2 (stores tokens max_samples) walked (map (durable_queue tokens max_samples) walked).
Proof.
  induction walked as [|entry walked IH]; constructor; [|done]. constructor; [done| |by eexists].
  unfold durable_queue, newest. cbn. by rewrite newest_taken.
Qed.

Lemma set_row_stored tokens max_samples row walked queues :
  Forall2 (stores tokens max_samples) walked queues →
  Forall2 (stores tokens max_samples) walked (set_row_classes row queues).
Proof.
  induction 1 as [|entry queue walked queues Hq Hqs IH]; cbn [set_row_classes]; [done|].
  case_bool_decide; constructor; [|done|done|done]. destruct Hq. constructor; [done|done|by eexists].
Qed.

Lemma rows_stored tokens max_samples rows walked queues :
  Forall2 (stores tokens max_samples) walked queues →
  Forall2 (stores tokens max_samples) walked
    (fold_left (λ queues row, set_row_classes row queues) rows queues).
Proof.
  revert queues. induction rows as [|row rows IH]; intros queues H; cbn [fold_left]; [done|].
  by apply IH, set_row_stored.
Qed.

(** The records a snapshot holds, with the path of their queue. *)
Definition persisted_records (max_samples : Z) (s : Store) : list (QueuePath * HistoryRecord) :=
  concat (map (λ entry : QueuePath * QueueState,
                 map (pair entry.1) (newest max_samples (history_snapshot (q_history entry.2))))
            (take (Z.to_nat (Z.min 1048576 (size_of (st_queues s)))) (st_queues s))).

Lemma queue_presented tokens max_samples entry queue :
  stores tokens max_samples entry queue →
  ∃ samples, recovered_queue queue = Some samples ∧
    Forall2 (λ record, presents tokens record.1 record.2)
      (map (pair entry.1) (newest max_samples entry.2)) samples.
Proof.
  intros [Hpath Hsamples [c Hc]]. unfold recovered_queue. rewrite Hsamples, <- Hpath. clear Hsamples.
  induction (newest max_samples entry.2) as [|record records (samples & Hs & Hp)].
  { by exists []. }
  destruct (record_presented tokens queue record c Hc) as (sample & Hsample & _ & Hpresents).
  exists (sample :: samples). cbn [map mapM]. unfold mapM in Hs. cbn in Hs |- *.
  rewrite Hsample. cbn. unfold mapM. rewrite Hs. cbn. split; [done|]. by constructor.
Qed.

Lemma queues_presented tokens max_samples walked queues :
  Forall2 (stores tokens max_samples) walked queues →
  ∃ samples, mapM recovered_queue queues = Some samples ∧
    Forall2 (λ record, presents tokens record.1 record.2)
      (concat (map (λ entry, map (pair entry.1) (newest max_samples entry.2)) walked))
      (concat samples).
Proof.
  induction 1 as [|entry queue walked queues Hq _ (samples & Hs & Hp)]; [by exists []|].
  destruct (queue_presented _ _ _ _ Hq) as (first & Hfirst & Hpresents).
  exists (first :: samples). unfold mapM in *. cbn. rewrite Hfirst. cbn. rewrite Hs. cbn.
  split; [done|]. by apply Forall2_app.
Qed.

Lemma checked_value {A} (result : A * Status) (x : A) : checked result = Value x → result = (x, result.2) ∧ ok result.2 = true.
Proof. unfold checked. destruct result as [y st]. cbn. destruct (ok st); [|done]. by intros [= <-]. Qed.

(** A query that succeeded did not meet an invalid configuration. *)
Lemma query_value {A} (cfg : StoreConfig) (nothing x y : A) :
  checked (if negb (ok (cfg_status cfg)) then (nothing, cfg_status cfg) else (x, success)) = Value y →
  y = x.
Proof.
  intros [E Hok]%checked_value. destruct (ok (cfg_status cfg)) eqn:Hcfg; cbn [negb] in *.
  - by injection E.
  - cbn in Hok. congruence.
Qed.

Lemma bind_value_inv {A B} (m : Result A) (k : A → Result B) y :
  (m ≫= k) = Value y → ∃ x, m = Value x ∧ k x = Value y.
Proof. destruct m as [x|e]; [|done]. intros H. by exists x. Qed.

(** A snapshot presents again what the store held.  Of every queue it holds the
    newest [max_samples] records, in order, and recovery makes one sample of each: of
    the same queue and source, with the same generation, sequence, authority,
    observation, wall time and reported values, and with the token of its incarnation in
    the place of the ordinal. *)
Theorem snapshot_presents_history (cfg : StoreConfig) (max_samples max_events : Z) (s : Store)
    (sn : DurableSnapshot) :
  build_snapshot cfg max_samples max_events s = Value sn →
  ∃ samples, recovered_samples sn = Some samples ∧
    Forall2 (λ record, presents (incarnation_tokens (map snd (st_sources s))) record.1 record.2)
      (persisted_records max_samples s) samples.
Proof.
  unfold build_snapshot. cbv zeta. intros (inspected & _ & H)%bind_value_inv.
  apply bind_value_inv in H as (registry & Hregistry & H).
  apply bind_value_inv in H as (walked & Hwalked & H).
  apply bind_value_inv in H as (page & _ & H). apply bind_value_inv in H as (metadata & _ & H).
  destruct (default _ metadata) as [table has_metadata]. injection H as <-.
  apply query_value in Hregistry as ->. apply query_value in Hwalked as ->.
  unfold recovered_samples. cbn [sn_queues]. set (tokens := incarnation_tokens _).
  match goal with |- context [fold_left _ _ (map (durable_queue tokens max_samples) ?walked)] =>
    destruct (queues_presented tokens max_samples walked _
      (rows_stored _ _ (page_rows inspected) _ _ (durable_queues_stored tokens max_samples walked)))
      as (samples & Hs & Hp) end.
  rewrite Hs. exists (concat samples). split; [done|]. rewrite map_map in Hp. exact Hp.
Qed.

(** ** Recovery does not make the past the present *)

Section recovery.
Context (policy : PressurePolicy) (history : HistoryLimits) (query : QueryLimits)
  (started : ReceiveTime) (clock : nat → ReceiveTime) (record_bytes : Z).
Let cfg := make_config policy history query started.
Abbreviation run_state := (reachable cfg clock record_bytes).
Context (Htyped : typed_limits history) (Hbytes : 0 <= record_bytes).

Lemma apply_metadata_queues table s :
  st_queues (apply_metadata cfg clock table s).1.1 = st_queues s ∧
  st_recovered_mode (apply_metadata cfg clock table s).1.1 = st_recovered_mode s.
Proof using.
  unfold apply_metadata. destruct (ok (cfg_status cfg)); [|done]. cbn [negb].
  destruct (ok (validate_metadata _ _)); [|done]. cbn [negb].
  destruct (_ && _); cbn [fst]; match goal with |- context [record_event_global ?c ?k ?v ?d ?s1] =>
    destruct (record_event_global_only_log c k v d s1) as [Hq _ _ _ Hm _ _ _ _ _ _] end;
    by rewrite Hq, Hm.
Qed.

Lemma import_events_queues events s :
  st_queues (import_events cfg clock events s).1.1 = st_queues s ∧
  st_recovered_mode (import_events cfg clock events s).1.1 = st_recovered_mode s.
Proof using.
  unfold import_events. destruct (ok (cfg_status cfg)); [|done]. cbn [negb].
  pose proof (import_only_log policy history query started clock events 0 s) as [Hq _ _ _ Hm _ _ _ _ _ _].
  by destruct (import_loop _ _ _ _ _) as [s1 n].
Qed.

(** The samples of a snapshot read from any bytes have unsigned sequence numbers. *)
Lemma recovered_sample_typed queue durable sample :
  sample_ok durable → recovered_sample queue durable = Some sample → typed_sample sample.
Proof using.
  intros Hd. unfold recovered_sample. destruct (recovered_classes _) as [c|]; [|done].
  cbn [mbind option_bind]. destruct (enumerator _) as [authority|]; [|done].
  cbn [mbind option_bind]. intros [= <-]. unfold typed_sample. rewrite restore_values_same. cbn.
  destruct Hd. word_lia.
Qed.

Lemma recovered_samples_typed limits sn samples :
  readable_ok limits sn → recovered_samples sn = Some samples → Forall typed_sample samples.
Proof using.
  intros [_ Hq _ _ _ _]. unfold recovered_samples. destruct (mapM _ _) as [per_queue|] eqn:E; [|done].
  intros [= <-]. apply mapM_Some_1 in E. apply Forall_concat. revert Hq.
  induction E as [|queue first queues rest Hfirst _ IH]; intros Hq; [constructor|].
  apply Forall_cons in Hq as [Hq Hqs]. constructor; [|by apply IH].
  pose proof (uk_samples _ _ Hq) as Hs. apply mapM_Some_1 in Hfirst. clear Hq IH. revert Hs.
  induction Hfirst as [|durable sample durables samples Hd _ IH]; intros Hs; [constructor|].
  apply Forall_cons in Hs as [? ?]. constructor; [by eapply recovered_sample_typed|by apply IH].
Qed.

Lemma only_not_present_queues s1 s2 s3 s4 :
  st_queues s2 = st_queues s1 → only_not_present s2 s3 → st_queues s4 = st_queues s3 →
  only_not_present s1 s4.
Proof using. intros H12 H H34 path q. rewrite H34, <- H12. apply H. Qed.

(** After the metadata table. *)
Lemma evidence_not_present samples events report summary s :
  run_state s → Forall typed_sample samples →
  only_not_present s
    (apply_recovered_evidence cfg clock record_bytes samples events report summary s).1.1.
Proof using Htyped Hbytes.
  intros Hs Ht. unfold apply_recovered_evidence. cbv zeta.
  destruct (admit_recovered cfg clock record_bytes samples s) as [[s1 b] st] eqn:E.
  apply recovery_establishes_no_present in E as [H _]; try done.
  destruct (negb (ok st)); [done|].
  pose proof (import_events_queues events s1) as [Hq _].
  destruct (import_events cfg clock events s1) as [[s2 n] st2]. cbn in Hq.
  by destruct (negb (ok st2)); eapply only_not_present_queues.
Qed.

(** Every enumerator the snapshot holds is one of its type's.  The decoder tests the kinds and
    the states, but the bytes below are cast unseen: a byte that is no enumerator becomes a
    value that no [switch] of the program names, and the model has none for it. *)
Record known_enumerators (sn : DurableSnapshot) : Prop := {
  ke_table : sn_has_metadata sn = true →
    is_Some (enumerator (E := SourceAuthority) (dm_authority (sn_metadata sn)));
  ke_samples : Forall (λ queue, Forall (λ durable,
      is_Some (enumerator (E := AttributeOrigin) (dc_origin (dq_classes queue))) ∧
      is_Some (enumerator (E := SourceAuthority) (du_authority durable))) (dq_samples queue))
    (sn_queues sn);
  ke_events : Forall (λ event, is_Some (enumerator (E := Severity) (de_severity event))) (sn_events sn)
}.

Lemma known_samples sn : known_enumerators sn → is_Some (recovered_samples sn).
Proof using.
  intros [_ H _]. unfold recovered_samples.
  assert (is_Some (mapM recovered_queue (sn_queues sn))) as [samples ->]; [|by eexists].
  apply mapM_is_Some_2. eapply Forall_impl; [exact H|]. intros queue Hq. apply mapM_is_Some_2.
  eapply Forall_impl; [exact Hq|]. intros durable [[origin Ho] [authority Ha]].
  unfold compose, recovered_sample, recovered_classes. rewrite Ho. cbn [mbind option_bind].
  rewrite Ha. cbn [mbind option_bind]. eexists. reflexivity.
Qed.
Lemma known_events sn : known_enumerators sn → is_Some (mapM recovered_event (sn_events sn)).
Proof using.
  intros [_ _ H]. apply mapM_is_Some_2. eapply Forall_impl; [exact H|]. intros event [severity Hs].
  unfold compose, recovered_event. rewrite Hs. by eexists.
Qed.
Lemma known_table sn :
  known_enumerators sn →
  is_Some (if sn_has_metadata sn then recovered_table (sn_metadata sn) else Some no_metadata).
Proof using.
  intros [H _ _]. destruct (sn_has_metadata sn); [|by eexists]. destruct (H eq_refl) as [authority Ha].
  unfold recovered_table. rewrite Ha. by eexists.
Qed.

(** C27: no segment makes the past the present.  Whatever the bytes of a segment are, if the
    enumerators of the snapshot read from it are known ones, the snapshot is applied to a
    store, and then every queue either is exactly as before or has one of the states
    [Unknown], [Stale] and [Conflicting]. *)
Theorem recovered_segment_establishes_no_present (limits : PersistenceLimits) (bytes : list Z)
    (st : Status) (sn : DurableSnapshot) (report : DecodeReport) (summary : RecoverySummary)
    (s : Store) :
  run_state s → bytes_ok bytes → decode_snapshot limits bytes = (st, sn, report) →
  known_enumerators sn →
  ∃ s' summary' st',
    apply_recovered_snapshot cfg clock record_bytes sn report summary s = Some (s', summary', st') ∧
    only_not_present s s'.
Proof using Htyped Hbytes.
  intros Hs Hb Hdecode Hknown. pose proof (snapshot_sound limits bytes Hb) as Hok. rewrite Hdecode in Hok.
  cbn in Hok. unfold apply_recovered_snapshot.
  destruct (known_table sn Hknown) as [table ->]. destruct (known_samples sn Hknown) as [samples Hsamples].
  destruct (known_events sn Hknown) as [events ->]. rewrite Hsamples. cbn [mbind option_bind].
  pose proof (recovered_samples_typed _ _ _ Hok Hsamples) as Ht.
  assert (run_state (apply_metadata cfg clock table s).1.1) as Hs1.
  { apply (reachable_step cfg clock record_bytes s (ApplyMetadata table)); done. }
  pose proof (apply_metadata_queues table s) as [Hq _].
  destruct (apply_metadata cfg clock table s) as [[s1 admission] st1]. cbn in Hs1, Hq.
  destruct (sn_has_metadata sn); [destruct (negb (ok st1))|].
  - eexists _, _, _. split; [done|]. intros path q. rewrite Hq. by left.
  - pose proof (evidence_not_present samples events report (summary_with_metadata
      (summary_of sn report summary)) s1 Hs1 Ht) as H.
    destruct (apply_recovered_evidence _ _ _ _ _ _ _ _) as [[s2 summary2] st2].
    exists s2, summary2, st2. split; [reflexivity|]. exact (only_not_present_queues _ _ _ _ Hq H eq_refl).
  - pose proof (evidence_not_present samples events report (summary_of sn report summary) s Hs Ht) as H.
    destruct (apply_recovered_evidence _ _ _ _ _ _ _ _) as [[s2 summary2] st2].
    exists s2, summary2, st2. split; [reflexivity|exact H].
Qed.
End recovery.
