(* ===== verification/RecoveryExample.v ===== *)
(** * Snapshots and recovery: an example

    A store is snapshotted and the snapshot applied to a new store; and what recovery
    loses on the way. *)

From S2P Require Import Prelude Result Checked Text Bytes Identity Time Evidence Sample Counter.
From S2P Require Import Metadata Event Limits Policy Rules Explanation Classification.
From S2P Require Import Ring History Window OrderedMap Admission Store StoreOps Queries.
From S2P Require Import StoreInvariant StoreTheorems StoreBatches StoreExample.
From S2P Require Import Codec Format FormatBytes SegmentSound Recovery RecoveryTheorems.
Open Scope Z_scope.

#[local] Set Warnings "-register-all".

Definition persisted (s : Store) : DurableSnapshot :=
  match build_snapshot example_config 3 6 s with Value sn => sn | Failure _ => no_snapshot end.
Definition written_segment (s : Store) : list Z :=
  match encode_snapshot default_persistence_limits (persisted s) with
  | Value bytes => bytes | Failure _ => []
  end.
Definition read_segment (s : Store) : DurableSnapshot * DecodeReport :=
  let '(_, sn, report) := decode_snapshot default_persistence_limits (written_segment s) in
  (sn, report).

(** Applied to a store that has seen nothing. *)
Definition restarted (s : Store) : option (Store * RecoverySummary * Status) :=
  apply_recovered_snapshot example_config example_clock example_record_bytes (read_segment s).1
    (read_segment s).2 no_summary (init_store example_config).

Definition summary_numbers (r : option (Store * RecoverySummary * Status)) : option (Z * Z * Z * Z) :=
  match r with
  | Some (_, summary, _) =>
      Some (rs_samples_presented summary, rs_samples summary, rs_samples_fenced summary,
            rs_sources summary)
  | None => None
  end.

(** The two samples of the example come back, as history of a queue without a present. *)
Example example_restarted :
  summary_numbers (restarted example_store) = Some (2, 2, 0, 1) ∧
  match restarted example_store with
  | Some (s, _, _) =>
      map (λ e : QueuePath * QueueState, (e.1, cr_state (q_latest e.2))) (st_queues s) =
      [(leaf_queue, PressureState.Stale)]
  | None => False
  end.
Proof. vm_compute. done. Qed.

Lemma snapshot_presents_history_witness :
  build_snapshot example_config 3 6 example_store = Value (persisted example_store) ∧
  ∃ samples, recovered_samples (persisted example_store) = Some samples ∧
    Forall2 (λ record, presents (incarnation_tokens (map snd (st_sources example_store)))
                         record.1 record.2)
      (persisted_records 3 example_store) samples.
Proof.
  assert (build_snapshot example_config 3 6 example_store = Value (persisted example_store)) as H
    by (vm_compute; reflexivity).
  split; [exact H|]. exact (snapshot_presents_history example_config 3 6 _ _ H).
Defined.

(** ** What recovery loses

    A source that reports on two queues: its samples are presented queue by queue, so the
    later samples of the first queue fence the earlier ones of the second. *)
Definition two_queues : Store :=
  example_run (map (λ i, Ingest (queue_sample "i1" i 1 (i `mod` 2))) [1; 2; 3; 4]).
Lemma recovery_fences_other_queues :
  map (λ e : QueuePath * QueueState, (qp_queue e.1, history_size (q_history e.2)))
    (st_queues two_queues) = [(0, 2%nat); (1, 2%nat)] ∧
  summary_numbers (restarted two_queues) = Some (4, 2, 2, 1) ∧
  match restarted two_queues with
  | Some (s, _, _) =>
      map (λ e : QueuePath * QueueState, (qp_queue e.1, history_size (q_history e.2)))
        (st_queues s)
  | None => []
  end = [(0, 2%nat)].
Proof. vm_compute. done. Qed.

(** ** A segment on a running store *)

Definition two_queues_segment : list Z := written_segment two_queues.
Definition two_queues_read : Status * DurableSnapshot * DecodeReport :=
  decode_snapshot default_persistence_limits two_queues_segment.
Lemma two_queues_decoded :
  decode_snapshot default_persistence_limits two_queues_segment =
  (two_queues_read.1.1, two_queues_read.1.2, two_queues_read.2).
Proof. unfold two_queues_read. apply result_parts. Qed.
Lemma two_queues_segment_bytes : bytes_ok two_queues_segment.
Proof. apply (bool_decide_unpack _). vm_compute. reflexivity. Qed.

Lemma two_queues_known : known_enumerators two_queues_read.1.2.
Proof.
  constructor; vm_compute; [done|..].
  all: repeat apply Forall_cons_2; try apply Forall_nil_2; repeat split; try by eexists.
  all: repeat apply Forall_cons_2; try apply Forall_nil_2; split; by eexists.
Qed.

Lemma recovered_segment_establishes_no_present_witness :
  bytes_ok two_queues_segment ∧
  ∃ s summary st,
    apply_recovered_snapshot example_config example_clock example_record_bytes two_queues_read.1.2
      two_queues_read.2 no_summary example_store = Some (s, summary, st) ∧
    only_not_present example_store s.
Proof.
  split; [exact two_queues_segment_bytes|].
  exact (on_example recovered_segment_establishes_no_present default_persistence_limits
    two_queues_segment two_queues_read.1.1 two_queues_read.1.2 two_queues_read.2
    no_summary example_store example_store_reachable
    two_queues_segment_bytes two_queues_decoded two_queues_known).
Defined.

(** ** What a snapshot misses

    The classes are those of one page of [inspect] with the default number of rows, and
    the events are the oldest of one page of [events]. *)
Definition one_row_config : StoreConfig :=
  make_config default_pressure_policy small_limits (mkQueryLimits 1 1 8) example_started.
Definition classified_sample (sequence index : Z) : QueueSample :=
  set_value SampleField.OccupancyCells 10
    (mkSample (mkQueuePath "leaf" "eth0" index)
       (mkClasses (Some 3) None AttributeOrigin.ObservedInSample 0) "a" "i1" sequence
       SourceAuthority.Primary 1 1 (mkObservation (sequence * 100) "dom") no_receive 0 0
       (replicate kSampleFieldCount 0)).
Definition classified_store : Store :=
  fold_left
    (λ s sample, (ingest one_row_config example_clock example_record_bytes sample no_admission s).1.1)
    [classified_sample 1 0; classified_sample 2 1] (init_store one_row_config).

Lemma snapshot_misses_later_pages :
  match build_snapshot one_row_config 3 6 classified_store with
  | Value sn =>
      map (λ q, (qp_queue (dq_queue q), dc_traffic_class (dq_classes q))) (sn_queues sn) =
        [(0, Some 3); (1, None)] ∧
      map (λ e : QueuePath * QueueState, qc_traffic_class (q_classes e.2))
        (st_queues classified_store) = [Some 3; Some 3] ∧
      length (sn_events sn) = 1%nat ∧ (1 < size (st_events classified_store))%nat
  | Failure _ => False
  end.
Proof. vm_compute. repeat split; lia. Qed.
