(* ===== verification/Persistence.v ===== *)
(** * The directory of segments

    [persist/Persistence.cpp]: snapshots written as numbered segment files, published by a
    rename, rotated, and read back newest first.

    A directory is a finite map from names to entries; a call of the file system is a
    function of the disk.  Whether a call succeeds, and the order in which a directory is
    listed, are arguments: [ReadIo], [WriteIo] and [order].  A call that fails changes
    nothing.  An operation returns, with its result, the disks that it passes through, one
    after each change: what a crash can leave behind. *)

From stdpp Require Import gmap strings sorting.
From S2P Require Import Prelude Result Checked Text Bytes Metadata Limits Codec Format.
Open Scope Z_scope.

#[local] Set Warnings "-register-all".

(** ** Names *)

Definition kSegmentPrefix : string := "segment-".
Definition kSegmentSuffix : string := ".qobs".
Definition kTempSuffix : string := ".qobs.tmp".

Definition zero_pad (value : Z) (width : nat) : string :=
  pad_left_with "0"%char width (u64_to_string value).
Definition segment_file_name (sequence : Z) : string :=
  kSegmentPrefix +:+ zero_pad sequence 8 +:+ kSegmentSuffix.
Definition segment_temp_name (sequence : Z) : string :=
  kSegmentPrefix +:+ zero_pad sequence 8 +:+ kTempSuffix.
Definition parse_segment_file_name (name : string) : option Z :=
  if negb (starts_with name kSegmentPrefix) || negb (ends_with name kSegmentSuffix) then None
  else
    parse_u64
      (str_take (String.length name - String.length kSegmentPrefix - String.length kSegmentSuffix)
         (str_drop (String.length kSegmentPrefix) name)).

Example names :
  segment_file_name 42 = "segment-00000042.qobs" ∧
  segment_temp_name 123456789 = "segment-123456789.qobs.tmp" ∧
  parse_segment_file_name "segment-00000042.qobs" = Some 42 ∧
  parse_segment_file_name "segment-00000042.qobs.tmp" = None ∧
  parse_segment_file_name "segment-.qobs" = None ∧
  parse_segment_file_name "segment-7.qobs" = Some 7.
Proof. vm_compute. done. Qed.

(** ** The disk *)

(** What [directory_entry::is_regular_file] tells apart; the status of a link that leads
    nowhere is an error. *)
Inductive Entry : Type :=
| RegularFile (bytes : list Z)
| Subdirectory
| Dangling.
Abbreviation Directory := (gmap string Entry).

(** The configured path: nothing, something that is no directory, or a directory. *)
Inductive Disk : Type :=
| Absent
| Obstructed
| Present (entries : Directory).

(** How calls that read turn out: opening the directory, and by name the size, opening, and
    the number of bytes [fread] gets. *)
Record ReadIo := mkReadIo {
  io_listable : bool;
  io_sized : string → bool;
  io_opens : string → bool;
  io_reads : string → nat → nat
}.

(** How the calls of [write_snapshot] turn out, in their order. *)
Record WriteIo := mkWriteIo {
  w_opens : bool;
  w_written : nat;
  w_flushed : bool;
  w_synced : bool;
  w_cleaned : bool;
  w_renamed : bool;
  w_replaced : bool;
  w_renamed_again : bool;
  w_rotated : string → bool
}.

(** ** Operations of the file system *)

(** The result, the disk after the call, and the disks after each change. *)
Definition FileOp (A : Type) : Type := Disk → A * Disk * list Disk.
Definition ret {A} (a : A) : FileOp A := λ d, (a, d, []).
(** An operation that looks at the disk it is called on. *)
Definition on_disk {A} (f : Disk → FileOp A) : FileOp A := λ d, f d d.
#[export] Instance FileOp_bind : MBind FileOp := λ A B f m d,
  let '(a, d, first) := m d in
  let '(b, d, second) := f a d in
  (b, d, first ++ second).

Definition entry_of (name : string) (d : Disk) : option Entry :=
  match d with Present entries => entries !! name | _ => None end.
Definition update_directory (f : Directory → Directory) (d : Disk) : Disk :=
  match d with Present entries => Present (f entries) | _ => d end.
Definition change (f : Directory → Directory) : FileOp bool := λ d,
  (true, update_directory f d, [update_directory f d]).

(** [fopen] for writing: the file is there, and empty. *)
Definition creatable (name : string) (d : Disk) : bool :=
  match d with
  | Present entries =>
      match entries !! name with None | Some (RegularFile _) => true | _ => false end
  | _ => false
  end.
Definition create_file (allowed : bool) (name : string) : FileOp bool := λ d,
  if allowed && creatable name d then change <[name := RegularFile []]> d
  else (false, d, []).

(** [fwrite]: the number of bytes written; any part of them may be what is on disk. *)
Definition write_file (allowed : nat) (name : string) (bytes : list Z) : FileOp nat := λ d,
  let holding n := update_directory <[name := RegularFile (take n bytes)]> d in
  let written := Nat.min allowed (length bytes) in
  (written, holding written, map holding (seq 0 (S written))).

(** [filesystem::remove]: whether there was no error; a name that is not there is none. *)
Definition remove_file (allowed : bool) (name : string) : FileOp bool := λ d,
  match entry_of name d with
  | None => (true, d, [])
  | Some _ => if allowed then change (delete name) d else (false, d, [])
  end.

(** [filesystem::rename] of a file: it replaces a file, not a directory. *)
Definition rename_file (allowed : bool) (from to : string) : FileOp bool := λ d,
  match entry_of from d, entry_of to d with
  | None, _ | _, Some Subdirectory => (false, d, [])
  | Some entry, _ =>
      if allowed then change (λ entries, <[to := entry]> (delete from entries)) d
      else (false, d, [])
  end.

(** ** The store *)

Record SegmentInfo := mkSegment {
  si_path : string;
  si_bytes : Z;
  si_modified_wall : Z;
  si_sequence : Z
}.

Record PersistenceReport := mkReport {
  pr_segments_written : Z;
  pr_segments_rotated : Z;
  pr_bytes_written : Z;
  pr_records_written : Z;
  pr_recovery_attempts : Z;
  pr_recovery_successes : Z;
  pr_recovery_failures : Z;
  pr_damaged_segments_skipped : Z
}.
Definition no_report : PersistenceReport := mkReport 0 0 0 0 0 0 0 0.

Record RecoveryOutcome := mkOutcome {
  ro_recovered : bool;
  ro_report : DecodeReport;
  ro_snapshot : DurableSnapshot;
  ro_source : string;
  ro_diagnostic : string
}.
Definition no_recovery (diagnostic : string) : RecoveryOutcome :=
  mkOutcome false no_decode_report no_snapshot EmptyString diagnostic.

Record PersistenceStore := mkPersistence {
  ps_next_sequence : Z;
  ps_stats : PersistenceReport
}.
Definition new_store : PersistenceStore := mkPersistence 0 no_report.

Definition count_written (bytes : Z) (r : PersistenceReport) : PersistenceReport :=
  mkReport (pr_segments_written r +u 1) (pr_segments_rotated r) (pr_bytes_written r +u bytes)
    (pr_records_written r +u 0) (pr_recovery_attempts r) (pr_recovery_successes r)
    (pr_recovery_failures r) (pr_damaged_segments_skipped r).
Definition count_rotated (r : PersistenceReport) : PersistenceReport :=
  mkReport (pr_segments_written r) (pr_segments_rotated r +u 1) (pr_bytes_written r)
    (pr_records_written r) (pr_recovery_attempts r) (pr_recovery_successes r)
    (pr_recovery_failures r) (pr_damaged_segments_skipped r).
Definition count_attempt (r : PersistenceReport) : PersistenceReport :=
  mkReport (pr_segments_written r) (pr_segments_rotated r) (pr_bytes_written r)
    (pr_records_written r) (pr_recovery_attempts r +u 1) (pr_recovery_successes r)
    (pr_recovery_failures r) (pr_damaged_segments_skipped r).
Definition count_recovered (r : PersistenceReport) : PersistenceReport :=
  mkReport (pr_segments_written r) (pr_segments_rotated r) (pr_bytes_written r)
    (pr_records_written r) (pr_recovery_attempts r) (pr_recovery_successes r +u 1)
    (pr_recovery_failures r) (pr_damaged_segments_skipped r).
Definition count_unrecovered (r : PersistenceReport) : PersistenceReport :=
  mkReport (pr_segments_written r) (pr_segments_rotated r) (pr_bytes_written r)
    (pr_records_written r) (pr_recovery_attempts r) (pr_recovery_successes r)
    (pr_recovery_failures r +u 1) (pr_damaged_segments_skipped r).
Definition count_skipped (r : PersistenceReport) : PersistenceReport :=
  mkReport (pr_segments_written r) (pr_segments_rotated r) (pr_bytes_written r)
    (pr_records_written r) (pr_recovery_attempts r) (pr_recovery_successes r)
    (pr_recovery_failures r) (pr_damaged_segments_skipped r +u 1).
Definition counting (f : PersistenceReport → PersistenceReport) (st : PersistenceStore) :
    PersistenceStore :=
  mkPersistence (ps_next_sequence st) (f (ps_stats st)).

Section persistence.
Context (directory : string) (limits : PersistenceLimits).
Context (order : Directory → list (string * Entry)).

(** ** Listing *)

(** The loop over the entries; [error] is what the previous entry left in the error code. *)
Fixpoint list_loop (io : ReadIo) (error : bool) (entries : list (string * Entry)) :
    Result (list SegmentInfo) :=
  match entries with
  | [] => Value []
  | (name, entry) :: entries =>
      if error then fail ErrorCode.IoError "the persistence directory could not be listed"
      else
        match entry with
        | Dangling => list_loop io true entries
        | Subdirectory => list_loop io false entries
        | RegularFile bytes =>
            match parse_segment_file_name name with
            | None => list_loop io false entries
            | Some sequence =>
                let info := mkSegment name (if io_sized io name then size_of bytes else 0) 0
                              sequence in
                segments ← list_loop io false entries;
                Value (info :: segments)
            end
        end
  end.

Definition sequence_le (left right : SegmentInfo) : Prop := si_sequence left <= si_sequence right.
#[local] Instance sequence_le_dec : RelDecision sequence_le := λ left right, Z_le_dec _ _.

(** A directory that cannot be opened has no entries; [std::sort] puts segments of one
    sequence number, files that were not written by this program, in an order of its own. *)
Definition list_segments (io : ReadIo) (d : Disk) : Result (list SegmentInfo) :=
  match d with
  | Present entries =>
      segments ← list_loop io false (if io_listable io then order entries else []);
      Value (merge_sort sequence_le segments)
  | _ => Value []
  end.

(** ** Opening *)

Definition next_after (next : Z) (segment : SegmentInfo) : Z :=
  if next <=? si_sequence segment then si_sequence segment +u 1 else next.

Definition create_directories (allowed : bool) : FileOp bool := λ d,
  match d with
  | Absent => if allowed then (true, Present ∅, [Present ∅]) else (false, d, [])
  | Obstructed => (allowed, d, [])
  | Present _ => (true, d, [])
  end.
Definition is_directory (d : Disk) : bool := match d with Present _ => true | _ => false end.

Definition open_store (io : ReadIo) (allowed : bool) (st : PersistenceStore) :
    FileOp (PersistenceStore * Status) :=
  if negb (ok (validate_persistence limits)) then ret (st, validate_persistence limits)
  else
    created ← create_directories allowed;
    if negb created then
      ret (st, failure ErrorCode.IoError
             ("the persistence directory could not be created: " +:+ directory))
    else on_disk (λ d,
      if negb (is_directory d) then
        ret (st, failure ErrorCode.IoError
               ("the persistence path is not a directory: " +:+ directory))
      else
        match list_segments io d with
        | Failure e => ret (st, e)
        | Value segments =>
            ret (mkPersistence (fold_left next_after segments 1) (ps_stats st), success)
        end).

(** ** Writing *)

Definition flush_and_sync (io : WriteIo) : Status :=
  if negb (w_flushed io) then
    failure ErrorCode.IoError "flushing the persistence file failed"
  else if negb (w_synced io) then
    failure ErrorCode.IoError "syncing the persistence file failed"
  else success.

Definition publish_segment (io : WriteIo) (temp final : string) : FileOp bool :=
  renamed ← rename_file (w_renamed io) temp final;
  if renamed : bool then ret true
  else
    _ ← remove_file (w_replaced io) final;
    rename_file (w_renamed_again io) temp final.

Fixpoint rotate_loop (io : WriteIo) (segments : list SegmentInfo) (st : PersistenceStore) :
    FileOp PersistenceStore :=
  match segments with
  | [] => ret st
  | oldest :: rest =>
      if size_of segments <=? max_segments limits then ret st
      else
        removed ← remove_file (w_rotated io (si_path oldest)) (si_path oldest);
        if removed : bool then rotate_loop io rest (counting count_rotated st) else ret st
  end.

(** What follows the rename: the counters, and the rotation. *)
Definition segment_published (read : ReadIo) (io : WriteIo) (encoded : list Z)
    (report : PersistenceReport) (st : PersistenceStore) :
    FileOp (PersistenceStore * PersistenceReport * Status) :=
  let st := mkPersistence (ps_next_sequence st +u 1)
              (count_written (size_of encoded) (ps_stats st)) in
  on_disk (λ d,
    match list_segments read d with
    | Failure e => ret (st, report, e)
    | Value segments => st ← rotate_loop io segments st; ret (st, ps_stats st, success)
    end).

(** The writing of the encoded bytes; [report] is the caller's. *)
Definition write_segment (read : ReadIo) (io : WriteIo) (encoded : list Z)
    (report : PersistenceReport) (st : PersistenceStore) :
    FileOp (PersistenceStore * PersistenceReport * Status) :=
  let temp := segment_temp_name (ps_next_sequence st) in
  let final := segment_file_name (ps_next_sequence st) in
  opened ← create_file (w_opens io) temp;
  if negb opened then
    ret (st, report,
         failure ErrorCode.IoError "the temporary segment could not be created")
  else
    written ← write_file (w_written io) temp encoded;
    if negb (written =? length encoded)%nat then
      _ ← remove_file (w_cleaned io) temp;
      ret (st, report,
           failure ErrorCode.IoError "the segment could not be written completely")
    else if negb (ok (flush_and_sync io)) then
      _ ← remove_file (w_cleaned io) temp;
      ret (st, report, flush_and_sync io)
    else
      published ← publish_segment io temp final;
      if negb published then
        ret (st, report,
             failure ErrorCode.IoError "the segment could not be published atomically")
      else segment_published read io encoded report st.

Definition write_snapshot (read : ReadIo) (io : WriteIo) (snapshot : DurableSnapshot)
    (report : PersistenceReport) (st : PersistenceStore) :
    FileOp (PersistenceStore * PersistenceReport * Status) :=
  match encode_snapshot limits snapshot with
  | Failure e => ret (st, report, e)
  | Value encoded =>
      if max_segment_bytes limits <? size_of encoded then
        ret (st, report,
             failure ErrorCode.LimitExceeded
               "the encoded snapshot exceeds the configured segment size")
      else write_segment read io encoded report st
  end.

(** ** Reading back *)

Definition read_file_bounded (io : ReadIo) (name : string) (max_bytes : Z) (d : Disk) :
    Result (list Z) :=
  match entry_of name d with
  | Some (RegularFile bytes) =>
      if negb (io_sized io name) then
        fail ErrorCode.IoError "the segment size could not be read"
      else if max_bytes <? size_of bytes then
        fail ErrorCode.LimitExceeded "the segment is larger than the configured maximum"
      else if negb (io_opens io name) then
        fail ErrorCode.IoError "the segment could not be opened for reading"
      else if negb (Nat.min (io_reads io name (length bytes)) (length bytes) =? length bytes)%nat then
        fail ErrorCode.IoError "the segment could not be read completely"
      else Value bytes
  | _ => fail ErrorCode.IoError "the segment size could not be read"
  end.

Definition keep_first (first_diagnostic diagnostic : string) : string :=
  if bool_decide (first_diagnostic = EmptyString) then diagnostic else first_diagnostic.

Definition outcome_of (path : string) (snapshot : DurableSnapshot) (report : DecodeReport) :
    RecoveryOutcome :=
  mkOutcome true report snapshot path
    (if clean report then "the newest segment decoded cleanly"
     else "the newest readable segment decoded with damage: " +:+ re_diagnostic report).

(** The loop over the segments, newest first. *)
Fixpoint recover_loop (io : ReadIo) (d : Disk) (newest_first : list SegmentInfo)
    (first_diagnostic : string) (st : PersistenceStore) : PersistenceStore * RecoveryOutcome :=
  match newest_first with
  | [] =>
      (counting count_unrecovered st,
       no_recovery (keep_first first_diagnostic "no persistence segment could be decoded"))
  | segment :: older =>
      match read_file_bounded io (si_path segment) (max_segment_bytes limits) d with
      | Failure e =>
          recover_loop io d older (keep_first first_diagnostic (message e))
            (counting count_skipped st)
      | Value bytes =>
          let '(status, snapshot, report) := decode_snapshot limits bytes in
          if negb (ok status) then
            recover_loop io d older
              (keep_first first_diagnostic
                 (if bool_decide (re_diagnostic report = EmptyString) then message status
                  else re_diagnostic report))
              (counting count_skipped st)
          else (counting count_recovered st, outcome_of (si_path segment) snapshot report)
      end
  end.

Definition recover (io : ReadIo) (d : Disk) (st : PersistenceStore) :
    PersistenceStore * RecoveryOutcome * Status :=
  let st := counting count_attempt st in
  match list_segments io d with
  | Failure e => (st, no_recovery EmptyString, e)
  | Value [] =>
      (counting count_unrecovered st, no_recovery "no persistence segment is present", success)
  | Value segments => (recover_loop io d (reverse segments) EmptyString st, success)
  end.

(** ** Clearing *)

Fixpoint doomed_loop (error : bool) (entries : list (string * Entry)) : Result (list string) :=
  match entries with
  | [] => Value []
  | (name, entry) :: entries =>
      if error then fail ErrorCode.IoError "the persistence directory could not be listed"
      else
        match entry with
        | Dangling => doomed_loop true entries
        | Subdirectory => doomed_loop false entries
        | RegularFile _ =>
            doomed ← doomed_loop false entries;
            Value (if is_some (parse_segment_file_name name) || ends_with name kTempSuffix
                   then name :: doomed else doomed)
        end
  end.

Fixpoint remove_all (removes : string → bool) (doomed : list string) : FileOp Status :=
  match doomed with
  | [] => ret success
  | name :: doomed =>
      removed ← remove_file (removes name) name;
      if removed : bool then remove_all removes doomed
      else ret (failure ErrorCode.IoError "a persistence segment could not be removed")
  end.

Definition clear (io : ReadIo) (removes : string → bool) : FileOp Status :=
  on_disk (λ d,
    match
      doomed_loop false
        (match d with Present entries => if io_listable io then order entries else [] | _ => [] end)
    with
    | Failure e => ret e
    | Value doomed => remove_all removes doomed
    end).

End persistence.
