(* ===== verification/PersistenceView.v ===== *)
(** * What a directory holds

    The names of segments, and the abstraction of a directory that this program keeps: its
    [view], the sequence numbers and contents of its segments in order.  Listing the
    directory gives the view, whatever the order the file system lists it in. *)

From stdpp Require Import gmap strings sorting.
From S2P Require Import Prelude Result Checked Text Bytes Metadata Limits Codec Format Persistence.
Open Scope Z_scope.

#[local] Set Warnings "-register-all".

(** ** Names *)

Lemma str_take_app a b : str_take (String.length a) (a +:+ b) = a.
Proof. induction a as [|c a IH]; [by destruct b|]. rewrite string_app_cons. cbn. by rewrite IH. Qed.

Lemma starts_with_app a b : starts_with (a +:+ b) a = true.
Proof.
  unfold starts_with. rewrite str_take_app, string_length_app, bool_decide_eq_true_2 by done.
  rewrite andb_true_r. apply Nat.leb_le. lia.
Qed.

Lemma ends_with_app a b suffix :
  String.length b = String.length suffix → ends_with (a +:+ b) suffix = bool_decide (b = suffix).
Proof.
  intros H. unfold ends_with. rewrite string_length_app, <- H.
  replace (String.length a + String.length b - String.length b)%nat with (String.length a) by lia.
  rewrite str_drop_app. destruct (Nat.leb_spec (String.length b) (String.length a + String.length b));
    [done|lia].
Qed.

Lemma zeros_digits n s : str_forallb is_digit (str_repeat "0"%char n +:+ s) = str_forallb is_digit s.
Proof. induction n as [|n IH]; [done|]. cbn. exact IH. Qed.

Lemma zeros_value n s : dec_value 0 (str_repeat "0"%char n +:+ s) = dec_value 0 s.
Proof. induction n as [|n IH]; [done|]. cbn. exact IH. Qed.

Lemma zero_pad_parses n width : is_u64 n → parse_u64 (zero_pad n width) = Some n.
Proof.
  intros H. unfold zero_pad, pad_left_with.
  rewrite parse_u64_spec, zeros_digits, zeros_value, u64_to_string_digits, u64_to_string_value
    by done.
  rewrite bool_decide_eq_false_2; [cbn; is_true (n <=? u64_max); done|].
  intros E. apply (f_equal (dec_value 0)) in E as E'.
  destruct (u64_to_string_cons n) as (c & s & Hs). rewrite Hs in E. by destruct (str_repeat _ _).
Qed.

(** A segment's name is read back as its sequence number. *)
Lemma file_name_parses n : is_u64 n → parse_segment_file_name (segment_file_name n) = Some n.
Proof.
  intros H. unfold parse_segment_file_name, segment_file_name.
  rewrite starts_with_app, <- string_app_assoc.
  rewrite ends_with_app, bool_decide_eq_true_2 by done. cbn [negb orb].
  rewrite !string_length_app, string_app_assoc, str_drop_app.
  replace (_ - _ - _)%nat with (String.length (zero_pad n 8)) by lia.
  rewrite str_take_app. by apply zero_pad_parses.
Qed.

Lemma name_split n suffix a b :
  suffix = a +:+ b → kSegmentPrefix +:+ zero_pad n 8 +:+ suffix = (kSegmentPrefix +:+ zero_pad n 8 +:+ a) +:+ b.
Proof. intros ->. by rewrite !string_app_assoc. Qed.

(** A temporary file is no segment, and is found by [clear]. *)
Lemma temp_name_parses n : parse_segment_file_name (segment_temp_name n) = None.
Proof.
  unfold parse_segment_file_name, segment_temp_name.
  rewrite (name_split n kTempSuffix ".qob" "s.tmp" eq_refl).
  rewrite (ends_with_app _ "s.tmp" kSegmentSuffix) by done.
  rewrite bool_decide_eq_false_2 by done. by rewrite orb_true_r.
Qed.

Lemma temp_name_ends n : ends_with (segment_temp_name n) kTempSuffix = true.
Proof.
  unfold segment_temp_name. rewrite (name_split n kTempSuffix EmptyString kTempSuffix eq_refl).
  by rewrite ends_with_app, bool_decide_eq_true_2.
Qed.

Lemma parsed_u64 name n : parse_segment_file_name name = Some n → is_u64 n.
Proof.
  unfold parse_segment_file_name. destruct (_ || _); [done|]. rewrite parse_u64_spec.
  match goal with |- context [dec_value 0 ?s] => generalize s end. intros s.
  destruct (_ && _) eqn:E; [|done]. intros [= <-].
  apply andb_prop in E as [[_ Hd]%andb_prop Hle]. pose proof (dec_value_ge 0 s ltac:(lia) Hd).
  word_lia.
Qed.

Lemma file_name_inj a b : is_u64 a → is_u64 b → segment_file_name a = segment_file_name b → a = b.
Proof.
  intros Ha Hb E. apply (f_equal parse_segment_file_name) in E.
  rewrite !file_name_parses in E by done. congruence.
Qed.

(** ** The view *)

Abbreviation Stored := (Z * list Z)%type.
Definition stored_entry (entry : string * Entry) : option Stored :=
  match entry.2 with
  | RegularFile bytes =>
      sequence ← parse_segment_file_name entry.1; Some (sequence, bytes)
  | _ => None
  end.
Definition earlier (a b : Stored) : Prop := a.1 <= b.1.
#[local] Instance earlier_dec : RelDecision earlier := λ a b, Z_le_dec _ _.
Definition view (entries : Directory) : list Stored :=
  merge_sort earlier (omap stored_entry (map_to_list entries)).

(** The directory of a store whose next sequence number is [next]: every segment has the name
    this program gives it, with a smaller number, and every entry can be examined. *)
Record kept (next : Z) (entries : Directory) : Prop := mkKept {
  kp_name name bytes sequence :
    entries !! name = Some (RegularFile bytes) → parse_segment_file_name name = Some sequence →
    name = segment_file_name sequence ∧ sequence < next;
  kp_dangling name : entries !! name ≠ Some Dangling
}.

#[export] Instance earlier_trans : Transitive earlier.
Proof. unfold earlier. intros a b c. lia. Qed.
#[export] Instance earlier_total : Total earlier.
Proof. unfold earlier. intros a b. lia. Qed.

Definition increasing (l : list Stored) : Prop := StronglySorted (λ a b : Stored, a.1 < b.1) l.

Lemma stored_inv entry s bytes :
  stored_entry entry = Some (s, bytes) →
  entry.2 = RegularFile bytes ∧ parse_segment_file_name entry.1 = Some s.
Proof.
  unfold stored_entry. destruct (entry.2); [|done..].
  destruct (parse_segment_file_name entry.1); [|done]. cbn. by intros [= -> ->].
Qed.

Lemma increasing_unique l l' :
  increasing l → increasing l' → (∀ x, x ∈ l ↔ x ∈ l') → l = l'.
Proof.
  intros Hl Hl' Hin. eapply StronglySorted_unique_strong; [|exact Hl|exact Hl'|].
  - intros x y _ _ Hxy Hyx. cbn in Hxy, Hyx. lia.
  - apply NoDup_Permutation; [| |exact Hin]; [clear - Hl|clear - Hl'].
    + induction Hl as [|x l _ IH Hx]; constructor; [|exact IH].
      intros E. rewrite Forall_forall in Hx. specialize (Hx _ E). lia.
    + induction Hl' as [|x l _ IH Hx]; constructor; [|exact IH].
      intros E. rewrite Forall_forall in Hx. specialize (Hx _ E). lia.
Qed.

Section kept.
Context (next : Z) (entries : Directory) (Hkept : kept next entries).

Lemma stored_spec s bytes :
  (s, bytes) ∈ view entries ↔
  is_u64 s ∧ s < next ∧ entries !! segment_file_name s = Some (RegularFile bytes).
Proof using Hkept.
  unfold view. rewrite merge_sort_Permutation, list_elem_of_omap. split.
  - intros ([name entry] & Hin%elem_of_map_to_list & [H Hp]%stored_inv). cbn in H, Hp. subst.
    destruct (kp_name _ _ Hkept _ _ _ Hin Hp) as [-> Hlt]. split_and!; [by eapply parsed_u64|lia|done].
  - intros (Hu & _ & Hin). exists (segment_file_name s, RegularFile bytes).
    split; [by apply elem_of_map_to_list|]. unfold stored_entry. cbn. by rewrite file_name_parses.
Qed.

Lemma stored_nodup l :
  NoDup l.*1 → (∀ name entry, (name, entry) ∈ l → entries !! name = Some entry) →
  NoDup (omap stored_entry l).*1.
Proof using Hkept.
  induction l as [|[name entry] l IH]; intros Hnd Hin; [constructor|].
  cbn in Hnd. apply NoDup_cons in Hnd as [Hni Hnd].
  assert (NoDup (omap stored_entry l).*1) as IH' by (apply IH; [done|]; set_solver).
  cbn. destruct (stored_entry (name, entry)) as [[s bytes]|] eqn:E; [|exact IH'].
  cbn. apply NoDup_cons. split; [|exact IH'].
  rewrite list_elem_of_fmap. intros ([s' bytes'] & Hs & Hother). cbn in Hs. subst s'.
  apply list_elem_of_omap in Hother as ([name' entry'] & Hl & E').
  apply Hni. apply list_elem_of_fmap. exists (name', entry'). split; [|done]. cbn.
  apply stored_inv in E as [E Hp]. apply stored_inv in E' as [E' Hp']. cbn in *. subst.
  destruct (kp_name _ _ Hkept name bytes s) as [-> _]; [apply Hin; set_solver|done|].
  destruct (kp_name _ _ Hkept name' bytes' s) as [-> _]; [apply Hin; set_solver|done|]. done.
Qed.

Lemma view_nodup : NoDup (view entries).*1.
Proof using Hkept.
  unfold view. rewrite merge_sort_Permutation. apply stored_nodup; [apply NoDup_fst_map_to_list|].
  intros name entry. apply elem_of_map_to_list.
Qed.

Lemma view_increasing : increasing (view entries).
Proof using Hkept.
  pose proof view_nodup as Hnd. unfold increasing.
  pose proof (StronglySorted_merge_sort earlier (omap stored_entry (map_to_list entries))) as Hs.
  fold (view entries) in Hs. revert Hnd. induction Hs as [|x l _ IH Hx]; intros Hnd; [constructor|].
  cbn in Hnd. apply NoDup_cons in Hnd as [Hni Hnd]. constructor; [by apply IH|].
  rewrite Forall_forall in *. intros y Hy. specialize (Hx y Hy). unfold earlier in Hx.
  assert (x.1 ≠ y.1); [|lia]. intros E. apply Hni. rewrite E. by apply list_elem_of_fmap_2.
Qed.

End kept.

(** A view is determined by what it holds. *)
Lemma view_unique next entries l :
  kept next entries → increasing l →
  (∀ s bytes, (s, bytes) ∈ l ↔
     is_u64 s ∧ s < next ∧ entries !! segment_file_name s = Some (RegularFile bytes)) →
  view entries = l.
Proof.
  intros Hk Hl Hin. apply increasing_unique; [by eapply view_increasing|done|].
  intros [s bytes]. by rewrite (stored_spec next) by done.
Qed.

(** ** Listing *)

Section listing.
Context (order : Directory → list (string * Entry)).
Context (order_lists : ∀ entries, order entries ≡ₚ map_to_list entries).

(** What the listing says of a segment. *)
Definition listed (io : ReadIo) (segment : Stored) : SegmentInfo :=
  mkSegment (segment_file_name segment.1)
    (if io_sized io (segment_file_name segment.1) then size_of segment.2 else 0) 0 segment.1.

Lemma loop_lists io next entries l :
  kept next entries → (∀ name entry, (name, entry) ∈ l → entries !! name = Some entry) →
  list_loop io false l = Value (map (listed io) (omap stored_entry l)).
Proof.
  intros Hk. induction l as [|[name entry] l IH]; intros Hin; [done|].
  specialize (IH ltac:(set_solver)). assert (entries !! name = Some entry) as He by (apply Hin; set_solver).
  cbn. destruct entry as [bytes| |].
  - unfold stored_entry at 1. cbn. destruct (parse_segment_file_name name) as [s|] eqn:Hp; [|exact IH].
    cbn. rewrite IH. cbn. destruct (kp_name _ _ Hk _ _ _ He Hp) as [-> _]. done.
  - exact IH.
  - by destruct (kp_dangling _ _ Hk name).
Qed.

Lemma order_stored entries : omap stored_entry (order entries) ≡ₚ view entries.
Proof using order_lists. unfold view. by rewrite merge_sort_Permutation, order_lists. Qed.

#[local] Instance sequence_le_trans : Transitive sequence_le.
Proof. unfold sequence_le. intros a b c. lia. Qed.
#[local] Instance sequence_le_total : Total sequence_le.
Proof. unfold sequence_le. intros a b. lia. Qed.

Lemma listed_sorted io l : increasing l → StronglySorted sequence_le (map (listed io) l).
Proof.
  intros H. induction H as [|x l _ IH Hx]; [constructor|]. cbn. constructor; [exact IH|].
  apply Forall_map. eapply Forall_impl; [exact Hx|]. intros y Hy. unfold sequence_le. cbn in *. lia.
Qed.

Lemma view_functional next entries s a b :
  kept next entries → (s, a) ∈ view entries → (s, b) ∈ view entries → a = b.
Proof.
  intros Hk Ha Hb. rewrite (stored_spec next) in Ha, Hb by done.
  destruct Ha as (_ & _ & Ha), Hb as (_ & _ & Hb). congruence.
Qed.

Lemma segments_listed io next entries :
  kept next entries → io_listable io = true →
  list_segments order io (Present entries) = Value (map (listed io) (view entries)).
Proof using order_lists.
  intros Hk Hio. unfold list_segments. rewrite Hio.
  rewrite (loop_lists io next entries) by
    (done || (intros name entry; rewrite order_lists; apply elem_of_map_to_list)).
  cbn. f_equal. eapply (StronglySorted_unique_strong sequence_le).
  - intros x y Hx Hy Hxy Hyx.
    rewrite merge_sort_Permutation, order_stored in Hx.
    apply list_elem_of_fmap in Hx as ([s a] & -> & Hx). apply list_elem_of_fmap in Hy as ([t b] & -> & Hy).
    unfold sequence_le in Hxy, Hyx. cbn in Hxy, Hyx. assert (s = t) as -> by lia.
    by rewrite (view_functional next entries t a b) by done.
  - apply StronglySorted_merge_sort; apply _.
  - apply listed_sorted. by eapply view_increasing.
  - by rewrite merge_sort_Permutation, order_stored.
Qed.

Lemma listing_sorted io d segments :
  list_segments order io d = Value segments → StronglySorted sequence_le segments.
Proof.
  unfold list_segments. destruct d as [| |entries]; [intros [= <-]; constructor..|].
  destruct (list_loop _ _ _) as [l|]; [|done]. cbn. intros [= <-].
  apply StronglySorted_merge_sort; apply _.
Qed.

(** A directory that cannot be opened lists as an empty one. *)
Lemma unlistable_empty io d : io_listable io = false → list_segments order io d = Value [].
Proof. intros H. unfold list_segments. rewrite H. by destruct d. Qed.
End listing.

(** ** How the view changes *)

Section changes.
Context (next : Z) (entries : Directory) (Hkept : kept next entries).

(** A temporary file is not in it. *)
Lemma kept_temp name bytes :
  parse_segment_file_name name = None → kept next (<[name := RegularFile bytes]> entries).
Proof using Hkept.
  intros Hp. constructor.
  - intros n b s. destruct (decide (n = name)) as [->|Hne]; [congruence|].
    rewrite lookup_insert_ne by done. apply Hkept.
  - intros n. destruct (decide (n = name)) as [->|Hne].
    + by rewrite lookup_insert_eq.
    + rewrite lookup_insert_ne by done. apply Hkept.
Qed.

Lemma view_temp name bytes :
  parse_segment_file_name name = None → view (<[name := RegularFile bytes]> entries) = view entries.
Proof using Hkept.
  intros Hp. apply (view_unique next); [by apply kept_temp|by eapply view_increasing|].
  intros s b. rewrite (stored_spec next) by done.
  split; intros (Hu & Hlt & H); split_and!; try done.
  - rewrite lookup_insert_ne; [done|]. intros ->. by rewrite file_name_parses in Hp.
  - rewrite lookup_insert_ne in H; [done|]. intros ->. by rewrite file_name_parses in Hp.
Qed.

Lemma kept_delete name : kept next (delete name entries).
Proof using Hkept.
  constructor.
  - intros n b s [_ H]%lookup_delete_Some. apply (kp_name _ _ Hkept _ _ _ H).
  - intros n [_ H]%lookup_delete_Some. by apply (kp_dangling _ _ Hkept n).
Qed.

(** Removing what is no segment. *)
Lemma view_delete name :
  parse_segment_file_name name = None ∨ (∀ bytes, entries !! name ≠ Some (RegularFile bytes)) →
  view (delete name entries) = view entries.
Proof using Hkept.
  intros Hp. apply (view_unique next); [by apply kept_delete|by eapply view_increasing|].
  intros s b. rewrite (stored_spec next), lookup_delete_Some by done.
  split; [|intros (? & ? & _ & ?); by split_and!].
  intros (Hu & Hlt & H). split_and!; [done..| |done]. intros ->.
  destruct Hp as [Hp|Hp]; [by rewrite file_name_parses in Hp|by apply Hp in H].
Qed.

(** A new segment comes last. *)
Lemma kept_publish bytes :
  is_u64 next → kept (next + 1) (<[segment_file_name next := RegularFile bytes]> entries).
Proof using Hkept.
  intros Hu. constructor.
  - intros n b s. destruct (decide (n = segment_file_name next)) as [->|Hne].
    + rewrite file_name_parses by done. intros _ [= ->]. split; [done|lia].
    + rewrite lookup_insert_ne by done. intros H Hp.
      destruct (kp_name _ _ Hkept _ _ _ H Hp). split; [done|lia].
  - intros n. destruct (decide (n = segment_file_name next)) as [->|Hne].
    + by rewrite lookup_insert_eq.
    + rewrite lookup_insert_ne by done. apply Hkept.
Qed.

Lemma view_publish bytes :
  is_u64 next →
  view (<[segment_file_name next := RegularFile bytes]> entries) = view entries ++ [(next, bytes)].
Proof using Hkept.
  intros Hu. apply (view_unique (next + 1)); [by apply kept_publish| |].
  - unfold increasing. apply StronglySorted_app_2; [|by eapply view_increasing|repeat constructor].
    intros [s b] y Hs ->%list_elem_of_singleton. rewrite (stored_spec next) in Hs by done. cbn. lia.
  - intros s b. rewrite elem_of_app, list_elem_of_singleton, (stored_spec next) by done. split.
    + intros [(Hs & Hlt & H)|[= -> ->]].
      * split_and!; [done|lia|]. rewrite lookup_insert_ne; [done|].
        intros E%file_name_inj; [lia|done..].
      * split_and!; [done|lia|]. by rewrite lookup_insert_eq.
    + intros (Hs & Hlt & H). destruct (decide (s = next)) as [->|Hne].
      * rewrite lookup_insert_eq in H. right. congruence.
      * left. rewrite lookup_insert_ne in H; [by split_and!; [|lia|]|].
        intros E%file_name_inj; [lia|done..].
Qed.

(** Removing the first segment. *)
Lemma view_oldest oldest rest :
  view entries = oldest :: rest → view (delete (segment_file_name oldest.1) entries) = rest.
Proof using Hkept.
  intros E. pose proof (view_increasing _ _ Hkept) as Hi. rewrite E in Hi.
  apply StronglySorted_cons in Hi as [Hall Hrest].
  apply (view_unique next); [by apply kept_delete|done|].
  intros s b. rewrite lookup_delete_Some. rewrite Forall_forall in Hall.
  pose proof (stored_spec next entries Hkept s b) as Hspec. rewrite E, elem_of_cons in Hspec.
  assert (is_u64 oldest.1) as Ho.
  { destruct oldest as [o ob]. apply (stored_spec next entries Hkept o ob). rewrite E. by left. }
  split.
  - intros Hin. destruct (proj1 Hspec (or_intror Hin)) as (Hu & Hlt & H).
    split_and!; [done..| |done]. intros E'%file_name_inj; [|done..].
    specialize (Hall _ Hin). cbn in Hall. lia.
  - intros (Hu & Hlt & Hne & H). destruct (proj2 Hspec) as [<-|Hin]; [done| |done].
    by destruct Hne.
Qed.
End changes.
