(* ===== verification/PersistenceTheorems.v ===== *)
(** * Segments survive crashes

    A Hoare logic with crash conditions for the calls of the file system, and what it gives
    for [write_snapshot]: at every moment the directory holds the segments it held, or those
    and the new one, less some of the oldest.  Recovery therefore finds what it found before,
    or the new snapshot. *)

From stdpp Require Import gmap strings sorting.
From S2P Require Import Prelude Result Checked Text Bytes Metadata Limits Codec Format.
From S2P Require Import FormatBytes SegmentBytes SegmentTheorems Persistence PersistenceView.
Open Scope Z_scope.

#[local] Set Warnings "-register-all".

(** ** Crash conditions *)

(** From a disk of [pre], every disk that [m] passes through is one of [crash], and it ends
    with a result and a disk of [post]. *)
Definition triple {A} (pre : Disk → Prop) (m : FileOp A) (crash : Disk → Prop)
    (post : A → Disk → Prop) : Prop :=
  ∀ d, pre d → Forall crash (m d).2 ∧ post (m d).1.1 (m d).1.2.

Section rules.
Context (pre crash : Disk → Prop).

Lemma triple_ret {A} (a : A) (post : A → Disk → Prop) :
  (∀ d, pre d → post a d) → triple pre (ret a) crash post.
Proof using. intros H d Hd. split; [constructor|by apply H]. Qed.

Lemma triple_bind {A B} (m : FileOp A) (f : A → FileOp B) mid post :
  triple pre m crash mid → (∀ a, triple (mid a) (f a) crash post) →
  triple pre (m ≫= f) crash post.
Proof using.
  intros Hm Hf d Hd. destruct (Hm d Hd) as [Hc Hmid]. unfold mbind, FileOp_bind.
  destruct (m d) as [[a d1] first]. cbn in *. destruct (Hf a d1 Hmid) as [Hc' Hpost].
  destruct (f a d1) as [[b d2] second]. cbn in *. split; [by apply Forall_app|done].
Qed.

Lemma triple_on_disk {A} (f : Disk → FileOp A) post :
  (∀ d, pre d → triple (λ d', d' = d) (f d) crash post) → triple pre (on_disk f) crash post.
Proof using. intros H d Hd. by apply H. Qed.

Lemma triple_weaken {A} (m : FileOp A) (pre' crash' : Disk → Prop) (post post' : A → Disk → Prop) :
  triple pre' m crash' post' → (∀ d, pre d → pre' d) → (∀ d, crash' d → crash d) →
  (∀ a d, post' a d → post a d) → triple pre m crash post.
Proof using.
  intros H Hpre Hcrash Hpost d Hd. destruct (H d (Hpre d Hd)) as [Hc Hp]. split; [|by apply Hpost].
  eapply Forall_impl; [exact Hc|exact Hcrash].
Qed.
End rules.

(** ** Writing a segment *)

Section writing.
Context (limits : PersistenceLimits) (order : Directory → list (string * Entry)).
Context (order_lists : ∀ entries, order entries ≡ₚ map_to_list entries).
Context (read : ReadIo) (io : WriteIo).
Context (v : list Stored) (next : Z) (encoded : list Z) (next_u64 : is_u64 next).
Context (room : 1 <= max_segments limits).

Abbreviation temp := (segment_temp_name next).
Abbreviation final := (segment_file_name next).

(** The segments of before; with the temporary file; with the new segment, after rotation
    has removed the [k] oldest. *)
Definition before (d : Disk) : Prop :=
  ∃ entries, d = Present entries ∧ kept next entries ∧ view entries = v.
Definition staged (bytes : list Z) (d : Disk) : Prop :=
  before d ∧ entry_of temp d = Some (RegularFile bytes).
Definition rotated (k : nat) (d : Disk) : Prop :=
  (k <= length v)%nat ∧
  ∃ entries, d = Present entries ∧ kept (next + 1) entries ∧
    view entries = drop k (v ++ [(next, encoded)]).
Definition during (d : Disk) : Prop := before d ∨ ∃ k, rotated k d.

Lemma staged_update bytes d :
  before d → staged bytes (update_directory <[temp := RegularFile bytes]> d).
Proof using.
  intros (entries & -> & Hk & Hv). split; [|cbn; by rewrite lookup_insert_eq].
  exists (<[temp := RegularFile bytes]> entries). pose proof (temp_name_parses next).
  split_and!; [done|by apply kept_temp|]. by rewrite (view_temp next).
Qed.

Lemma create_staged allowed :
  triple before (create_file allowed temp) during
    (λ created d, before d ∧ (created = false → allowed && creatable temp d = false)).
Proof using.
  intros d Hd. unfold create_file. destruct (allowed && creatable temp d) eqn:E.
  - pose proof (staged_update [] d Hd) as [Hb _]. cbn. split; [|done].
    constructor; [by left|constructor].
  - cbn. split; [constructor|done].
Qed.

Lemma write_staged allowed :
  triple before (write_file allowed temp encoded) during
    (λ written d, written = Nat.min allowed (length encoded) ∧ staged (take written encoded) d).
Proof using.
  intros d Hd. unfold write_file. cbn -[seq]. split; [|split; [done|by apply staged_update]].
  apply Forall_map, Forall_forall. intros n _. left. apply (staged_update _ d Hd).
Qed.

Lemma remove_temp allowed : triple before (remove_file allowed temp) during (λ _, before).
Proof using.
  intros d Hd. unfold remove_file. destruct (entry_of temp d); [|by split].
  destruct allowed; [|by split]. destruct Hd as (entries & -> & Hk & Hv). cbn.
  assert (before (Present (delete temp entries))) as H.
  { eexists. split_and!; [done|by apply kept_delete|].
    rewrite (view_delete next); [done|done|]. left. apply temp_name_parses. }
  split; [|done]. constructor; [by left|constructor].
Qed.

(** The name of the new segment is not that of a file. *)
Lemma final_free d : before d → ∀ bytes, entry_of final d ≠ Some (RegularFile bytes).
Proof using next_u64.
  intros (entries & -> & Hk & _) bytes H.
  destruct (kp_name _ _ Hk final bytes next H) as [_ Hlt]; [by apply file_name_parses|lia].
Qed.

Lemma temp_not_final : temp ≠ final.
Proof using next_u64.
  intros E. pose proof (temp_name_parses next) as H. by rewrite E, file_name_parses in H.
Qed.

Lemma remove_final allowed :
  triple (staged encoded) (remove_file allowed final) during (λ _, staged encoded).
Proof using next_u64.
  intros d [Hd He]. unfold remove_file. destruct (entry_of final d) eqn:Ef; [|by split].
  destruct allowed; [|by split]. pose proof (final_free d Hd) as Hfree.
  destruct Hd as (entries & -> & Hk & Hv). cbn in *.
  assert (staged encoded (Present (delete final entries))) as H.
  { split; [|cbn; rewrite lookup_delete_ne; [done|by apply not_eq_sym, temp_not_final]].
    eexists. split_and!; [done|by apply kept_delete|].
    rewrite (view_delete next); [done|done|by right]. }
  split; [|done]. constructor; [left; apply H|constructor].
Qed.

Lemma rename_publishes allowed :
  triple (staged encoded) (rename_file allowed temp final) during
    (λ renamed d, if renamed : bool then rotated 0 d else staged encoded d).
Proof using next_u64.
  intros d [Hd He]. unfold rename_file. rewrite He.
  destruct allowed; [|by destruct (entry_of final d) as [[]|]].
  pose proof (final_free d Hd) as Hfree. destruct Hd as (entries & -> & Hk & Hv). cbn in *.
  assert (rotated 0 (Present (<[final := RegularFile encoded]> (delete temp entries)))) as H.
  { split; [lia|]. pose proof (kept_delete _ _ Hk temp) as Hk'. eexists. split_and!; [done|by apply kept_publish|].
    rewrite (view_publish next), (view_delete next) by (done || left; apply temp_name_parses).
    by rewrite Hv. }
  destruct (entries !! final) as [[| |]|]; cbn;
    [|by split; [constructor|split; [by eexists|done]]| |];
    (split; [constructor; [by right; exists O|constructor]|done]).
Qed.

Lemma publish_publishes :
  triple (staged encoded) (publish_segment io temp final) during
    (λ published d, if published : bool then rotated 0 d else before d).
Proof using next_u64.
  unfold publish_segment. eapply triple_bind; [apply rename_publishes|]. intros [|].
  { by apply triple_ret. }
  eapply triple_bind; [apply remove_final|]. intros removed.
  eapply triple_weaken; [apply rename_publishes|done..|].
  intros renamed d H. destruct renamed; [done|apply H].
Qed.

(** Rotation stops when enough were removed, or one could not be. *)
Definition excess : nat := (S (length v) - Z.to_nat (max_segments limits))%nat.
Definition trimmed (k : nat) (d : Disk) : Prop :=
  ∃ k', rotated k' d ∧ ((∀ name, w_rotated io name = true) → k' = Nat.max k excess).

Lemma rotated_oldest k d :
  (k < length v)%nat → rotated k d →
  ∃ oldest, drop k (v ++ [(next, encoded)]) = oldest :: drop (S k) (v ++ [(next, encoded)]) ∧
    entry_of (segment_file_name oldest.1) d = Some (RegularFile oldest.2) ∧
    rotated (S k) (update_directory (delete (segment_file_name oldest.1)) d).
Proof using.
  intros Hk (_ & entries & -> & Hkept & Hv).
  destruct (lookup_lt_is_Some_2 (v ++ [(next, encoded)]) k) as [oldest Ho];
    [rewrite length_app; lia|].
  exists oldest. pose proof (drop_S _ _ _ Ho) as E. split; [done|]. rewrite E in Hv.
  assert (oldest ∈ view entries) as Hin by (rewrite Hv; by left).
  destruct oldest as [s b]. rewrite (stored_spec (next + 1)) in Hin by done.
  split; [apply Hin|]. split; [lia|]. cbn. eexists. split_and!; [done|by apply kept_delete|].
  by apply (view_oldest (next + 1) entries Hkept (s, b)).
Qed.

Lemma remove_oldest k oldest name allowed :
  name = segment_file_name oldest.1 →
  triple (λ d, rotated k d ∧ entry_of name d = Some (RegularFile oldest.2) ∧
               rotated (S k) (update_directory (delete name) d))
    (remove_file allowed name) during
    (λ removed d, if removed : bool then rotated (S k) d else rotated k d ∧ allowed = false).
Proof using.
  intros -> d (Hr & He & Hr'). unfold remove_file. rewrite He. destruct allowed; [|by split].
  cbn. split; [|done]. constructor; [right; by eexists|constructor].
Qed.

Lemma rotation segments k st :
  segments = map (listed read) (drop k (v ++ [(next, encoded)])) → (k <= length v)%nat →
  triple (rotated k) (rotate_loop limits io segments st) during
    (λ st' d, ps_next_sequence st' = ps_next_sequence st ∧ trimmed k d).
Proof using room.
  revert k st. induction segments as [|segment segments IH]; intros k st Hs Hk.
  { apply (f_equal length) in Hs. rewrite length_map, length_drop, length_app in Hs. cbn in Hs. lia. }
  pose proof (f_equal length Hs) as Hlen. rewrite length_map, length_drop, length_app in Hlen.
  cbn [rotate_loop]. destruct (Z.leb_spec (size_of (segment :: segments)) (max_segments limits)) as [Hle|Hgt].
  { apply triple_ret. intros d Hd. split; [done|]. exists k. split; [done|]. intros _.
    unfold excess, size_of in *. cbn in *. lia. }
  unfold size_of in Hgt. cbn in Hgt, Hlen. assert (k < length v)%nat as Hk' by lia.
  destruct (lookup_lt_is_Some_2 (v ++ [(next, encoded)]) k) as [oldest Ho];
    [rewrite length_app; lia|].
  rewrite (drop_S _ _ _ Ho) in Hs. cbn in Hs. injection Hs as -> Hs.
  eapply triple_bind.
  - eapply triple_weaken; [apply (remove_oldest k oldest); reflexivity| |done|intros ? ? H; exact H].
    intros d Hd. split; [done|]. destruct (rotated_oldest k d Hk' Hd) as (o & E & Hr).
    rewrite (drop_S _ _ _ Ho) in E. injection E as <-. exact Hr.
  - intros removed. destruct removed.
    + eapply triple_weaken; [apply (IH (S k)); [exact Hs|lia]|done..|].
      intros st' d [Hn (k' & Hr & Hx)]. split; [done|]. exists k'. split; [done|].
      intros Hall. rewrite (Hx Hall). unfold excess. lia.
    + apply triple_ret. intros d [Hd Hno]. split; [done|]. exists k. split; [done|].
      intros Hall. by rewrite Hall in Hno.
Qed.

(** ** A snapshot is written *)

(** What [write_segment] leaves: on success the new segment and the newest of the others, and
    the next number; on failure what was there. *)
Definition concluded (report : PersistenceReport) (st : PersistenceStore)
    (result : PersistenceStore * PersistenceReport * Status) (d : Disk) : Prop :=
  if ok result.2 then
    ps_next_sequence result.1.1 = ps_next_sequence st +u 1 ∧
    ∃ k, rotated k d ∧
      (io_listable read = true → (∀ name, w_rotated io name = true) → k = excess)
  else before d ∧ result.1 = (st, report).

Lemma published_concluded report st :
  ps_next_sequence st = next →
  triple (rotated 0) (segment_published limits order read io encoded report st) during
    (concluded report st).
Proof using order_lists room.
  intros Hn. unfold segment_published. apply triple_on_disk. intros d Hd.
  assert (list_segments order read d =
          Value (if io_listable read then map (listed read) (v ++ [(next, encoded)]) else [])) as ->.
  { destruct (io_listable read) eqn:Hio; [|by apply unlistable_empty].
    destruct Hd as (_ & entries & -> & Hk & Hv).
    rewrite (segments_listed order order_lists read (next + 1)) by done. by rewrite Hv. }
  eapply (triple_bind _ _ _ _ (λ st' d', ps_next_sequence st' = ps_next_sequence st +u 1 ∧
    ∃ k, rotated k d' ∧
      (io_listable read = true → (∀ name, w_rotated io name = true) → k = excess))).
  - destruct (io_listable read).
    + eapply triple_weaken; [apply (rotation _ 0); [done|lia]|by intros ? ->|done|].
      intros st' d' [-> (k & Hr & Hx)]. split; [done|]. exists k. split; [done|].
      intros _ Hall. rewrite (Hx Hall). lia.
    + apply triple_ret. intros ? ->. split; [done|]. by exists O.
  - intros st'. apply triple_ret. intros d' H. exact H.
Qed.

Lemma failed_concluded report st m d :
  before d → concluded report st (st, report, failure ErrorCode.IoError m) d.
Proof using. intros H. unfold concluded. cbn [fst snd]. by rewrite ok_failure. Qed.

Lemma sync_fails : ok (flush_and_sync io) = false → ∃ m, flush_and_sync io = failure ErrorCode.IoError m.
Proof using.
  unfold flush_and_sync. destruct (w_flushed io), (w_synced io); cbn; try done; by eexists.
Qed.

Lemma write_concluded report st :
  ps_next_sequence st = next →
  triple before (write_segment limits order read io encoded report st) during
    (concluded report st).
Proof using order_lists room next_u64.
  intros Hn. unfold write_segment. rewrite Hn.
  eapply triple_bind; [apply create_staged|]. intros created. destruct created; cbn [negb].
  2:{ apply triple_ret. intros d [Hd _]. by apply failed_concluded. }
  eapply triple_bind.
  { eapply triple_weaken; [apply write_staged| |done|]; [by intros d [Hd _]|].
    intros written d H. exact H. }
  intros written. cbn beta. destruct (Nat.eqb_spec written (length encoded)) as [->|Hshort]; cbn [negb].
  2:{ eapply triple_bind; [eapply triple_weaken; [apply remove_temp|by intros d (_ & H & _)|done|]; by intros ? ? H; exact H|].
      intros cleaned. apply triple_ret. intros d Hd. by apply failed_concluded. }
  rewrite firstn_all.
  destruct (ok (flush_and_sync io)) eqn:Hsync; cbn [negb].
  2:{ destruct (sync_fails Hsync) as [m ->].
      eapply triple_bind; [eapply triple_weaken; [apply remove_temp|by intros d (_ & H & _)|done|]; by intros ? ? H; exact H|].
      intros cleaned. apply triple_ret. intros d Hd. by apply failed_concluded. }
  eapply triple_bind.
  { eapply triple_weaken; [apply publish_publishes|by intros d [_ H]|done|]. intros ? ? H; exact H. }
  intros published. cbn beta. destruct published; cbn [negb].
  - by apply published_concluded.
  - apply triple_ret. intros d Hd. by apply failed_concluded.
Qed.
End writing.

(** ** Recovery *)

(** What reading one segment gives. *)
Definition readable_segment (limits : PersistenceLimits) (io : ReadIo) (d : Disk)
    (segment : SegmentInfo) : option (DurableSnapshot * DecodeReport) :=
  match read_file_bounded io (si_path segment) (max_segment_bytes limits) d with
  | Value bytes =>
      let '(status, snapshot, report) := decode_snapshot limits bytes in
      if ok status then Some (snapshot, report) else None
  | Failure _ => None
  end.
Definition unreadable limits io d (segment : SegmentInfo) : Prop :=
  readable_segment limits io d segment = None.

(** Every call that reads does what it is asked for. *)
Record reliable (io : ReadIo) : Prop := mkReliable {
  rl_listable : io_listable io = true;
  rl_sized name : io_sized io name = true;
  rl_opens name : io_opens io name = true;
  rl_reads name size : (size <= io_reads io name size)%nat
}.

Section recovery.
Context (limits : PersistenceLimits) (order : Directory → list (string * Entry)).
Context (order_lists : ∀ entries, order entries ≡ₚ map_to_list entries).
Context (io : ReadIo).

Definition recovered_outcome (d : Disk) : RecoveryOutcome :=
  (recover limits order io d new_store).1.2.

Lemma recover_step d segment older first st :
  (∃ diagnostic, recover_loop limits io d (segment :: older) first st =
     recover_loop limits io d older (keep_first first diagnostic) (counting count_skipped st) ∧
     unreadable limits io d segment) ∨
  (∃ snapshot report, recover_loop limits io d (segment :: older) first st =
     (counting count_recovered st, outcome_of (si_path segment) snapshot report) ∧
     readable_segment limits io d segment = Some (snapshot, report)).
Proof using.
  unfold unreadable, readable_segment. cbn [recover_loop].
  destruct (read_file_bounded _ _ _ _) as [bytes|e]; [|by left; eexists].
  destruct (decode_snapshot limits bytes) as [[status snapshot] report].
  destruct (ok status) eqn:E; cbn [negb]; [right; by eexists _, _|left; by eexists].
Qed.

(** The loop takes the first segment that can be read. *)
Lemma loop_takes_newest d newest_first first st :
  match recover_loop limits io d newest_first first st with
  | (st', outcome) =>
      (∃ newer segment older snapshot report,
         newest_first = newer ++ segment :: older ∧
         Forall (unreadable limits io d) newer ∧
         readable_segment limits io d segment = Some (snapshot, report) ∧
         outcome = outcome_of (si_path segment) snapshot report ∧
         st' = counting count_recovered (Nat.iter (length newer) (counting count_skipped) st)) ∨
      (Forall (unreadable limits io d) newest_first ∧
         (∃ diagnostic, outcome = no_recovery diagnostic) ∧
         st' = counting count_unrecovered
                 (Nat.iter (length newest_first) (counting count_skipped) st))
  end.
Proof using.
  revert first st. induction newest_first as [|segment older IH]; intros first st.
  { right. split_and!; [constructor|by eexists|done]. }
  destruct (recover_step d segment older first st)
    as [(diagnostic & -> & Hno)|(snapshot & report & -> & Hyes)].
  - specialize (IH (keep_first first diagnostic) (counting count_skipped st)).
    destruct (recover_loop _ _ _ _ _ _) as [st' outcome].
    destruct IH as [(newer & segment' & older' & snapshot & report & -> & Hn & H)|[Hn H]].
    + left. exists (segment :: newer), segment', older', snapshot, report.
      split; [done|]. split; [by constructor|]. destruct H as (Hr & Ho & ->).
      split; [done|]. split; [done|]. cbn [length]. by rewrite Nat.iter_succ_r.
    + right. split; [by constructor|]. cbn [length]. by rewrite Nat.iter_succ_r.
  - left. by exists [], segment, older, snapshot, report.
Qed.

(** Two disks on which the segments are read alike. *)
Lemma recover_loop_same d d' segments first st :
  (∀ segment, segment ∈ segments → entry_of (si_path segment) d = entry_of (si_path segment) d') →
  recover_loop limits io d segments first st = recover_loop limits io d' segments first st.
Proof using.
  revert first st. induction segments as [|segment segments IH]; intros first st H; [done|].
  cbn [recover_loop]. unfold read_file_bounded. rewrite (H segment) by left.
  assert (∀ first st, recover_loop limits io d segments first st =
                      recover_loop limits io d' segments first st) as IH'.
  { intros. apply IH. intros info Hin. apply H. by right. }
  destruct (match entry_of (si_path segment) d' with Some (RegularFile bytes) => _ | _ => _ end); [|apply IH'].
  destruct (decode_snapshot _ _) as [[status snapshot] report]. by rewrite IH'.
Qed.

Lemma stored_read next entries s b :
  kept next entries → (s, b) ∈ view entries →
  entry_of (segment_file_name s) (Present entries) = Some (RegularFile b).
Proof using. intros Hk H. by apply (stored_spec next entries Hk) in H as (_ & _ & H). Qed.

(** Recovery depends on the view alone. *)
Lemma recover_same next next' entries entries' st :
  io_listable io = true → kept next entries → kept next' entries' → view entries = view entries' →
  recover limits order io (Present entries) st = recover limits order io (Present entries') st.
Proof using order_lists.
  intros Hio Hk Hk' Hv. unfold recover.
  rewrite (segments_listed order order_lists io next entries),
    (segments_listed order order_lists io next' entries'), Hv by done.
  destruct (map (listed io) (view entries')) as [|segment segments] eqn:E; [done|].
  rewrite <- E. clear E. f_equal. apply recover_loop_same. intros info.
  rewrite elem_of_reverse, list_elem_of_fmap. intros ([s b] & -> & Hin).
  cbn [listed si_path fst]. rewrite (stored_read next' entries' s b) by done.
  by rewrite (stored_read next entries s b) by (done || by rewrite Hv).
Qed.

(** The newest segment, when it decodes. *)
Lemma recover_newest next entries l s b snapshot report st :
  reliable io → kept next entries → view entries = l ++ [(s, b)] →
  size_of b <= max_segment_bytes limits →
  decode_snapshot limits b = (success, snapshot, report) →
  recover limits order io (Present entries) st =
    (counting count_recovered (counting count_attempt st),
     outcome_of (segment_file_name s) snapshot report, success).
Proof using order_lists.
  intros Hio Hk Hv Hsize Hdecode. unfold recover.
  rewrite (segments_listed order order_lists io next entries), Hv, map_app by (done || apply Hio).
  match goal with |- match ?listing with _ => _ end = _ => destruct listing as [|segment segments] eqn:E end.
  { by destruct (map (listed io) l). }
  rewrite <- E, reverse_app. cbn [map]. rewrite reverse_singleton. cbn [app recover_loop listed si_path fst].
  unfold read_file_bounded. rewrite (stored_read next entries s b) by
    (done || (rewrite Hv; set_solver)).
  rewrite (rl_sized _ Hio), (rl_opens _ Hio). cbn [negb]. is_false (max_segment_bytes limits <? size_of b).
  rewrite Nat.min_r, Nat.eqb_refl by apply Hio. cbn [negb]. by rewrite Hdecode.
Qed.
End recovery.

(** Every call of a write does what it is asked for. *)
Record smooth (wio : WriteIo) (size : nat) : Prop := mkSmooth {
  sm_opens : w_opens wio = true;
  sm_written : (size <= w_written wio)%nat;
  sm_flushed : w_flushed wio = true;
  sm_synced : w_synced wio = true;
  sm_renamed : w_renamed wio = true;
  sm_rotated name : w_rotated wio name = true
}.

(** The result of a call whose first part is known. *)
Lemma bind_result {A B} (m : FileOp A) (f : A → FileOp B) d a d' :
  (m d).1 = (a, d') → ((m ≫= f) d).1 = (f a d').1.
Proof.
  unfold mbind, FileOp_bind. destruct (m d) as [[] first]. cbn. intros [= -> ->].
  by destruct (f a d') as [[]].
Qed.

(** With such calls, and no directory in the way, the bytes are published. *)
Lemma smooth_succeeds limits order read wio encoded report st entries :
  (∀ entries, order entries ≡ₚ map_to_list entries) → smooth wio (length encoded) →
  kept (ps_next_sequence st) entries → is_u64 (ps_next_sequence st) →
  entries !! segment_temp_name (ps_next_sequence st) ≠ Some Subdirectory →
  entries !! segment_file_name (ps_next_sequence st) ≠ Some Subdirectory →
  (write_segment limits order read wio encoded report st (Present entries)).1.1.2 = success.
Proof.
  intros Horder [] Hk Hu Htemp Hfinal. set (next := ps_next_sequence st) in *.
  set (staged := <[segment_temp_name next := RegularFile encoded]> entries).
  set (placed := <[segment_file_name next := RegularFile encoded]>
                   (delete (segment_temp_name next) staged)).
  assert (kept (next + 1) placed) as Hk'.
  { apply kept_publish; [|done]. apply kept_delete, kept_temp; [done|]. apply temp_name_parses. }
  assert (∃ segments, list_segments order read (Present placed) = Value segments) as [segments Hlist].
  { destruct (io_listable read) eqn:E; eexists;
      [by eapply segments_listed|by apply unlistable_empty]. }
  assert (∀ d, d = Present placed →
    (segment_published limits order read wio encoded report st d).1.1.2 = success) as Hpublished.
  { intros d ->. unfold segment_published, on_disk. rewrite Hlist. unfold mbind, FileOp_bind.
    match goal with |- context [rotate_loop ?l ?w ?s ?x ?d] =>
      destruct (rotate_loop l w s x d) as [[? ?] ?] end. done. }
  unfold write_segment. fold next. rewrite (bind_result _ _ _ true (Present (<[segment_temp_name next := RegularFile []]> entries))).
  2:{ unfold create_file, creatable. rewrite sm_opens0. pose proof (kp_dangling _ _ Hk (segment_temp_name next)).
      by destruct (entries !! segment_temp_name next) as [[| |]|]. }
  cbn [negb]. rewrite (bind_result _ _ _ (length encoded) (Present staged)).
  2:{ unfold write_file. rewrite Nat.min_r by done. cbn. by rewrite insert_insert_eq, firstn_all. }
  rewrite Nat.eqb_refl. unfold flush_and_sync. rewrite sm_flushed0, sm_synced0. cbn [negb].
  rewrite ok_success. cbn [negb]. rewrite (bind_result _ _ _ true (Present placed)); [by apply Hpublished|].
  unfold publish_segment. rewrite (bind_result _ _ _ true (Present placed)); [done|].
  unfold rename_file. cbn [entry_of]. unfold staged at 1. rewrite lookup_insert_eq, sm_renamed0.
  pose proof (kp_dangling _ _ Hk (segment_file_name next)).
  assert (staged !! segment_file_name next = entries !! segment_file_name next) as ->.
  { apply lookup_insert_ne. by apply temp_not_final. }
  by destruct (entries !! segment_file_name next) as [[| |]|].
Qed.

(** ** What the operations promise *)

(** A snapshot of durable data, small enough to be encoded. *)
Record durable (limits : PersistenceLimits) (sn : DurableSnapshot) : Prop := mkDurable {
  db_room : 512 <= max_record_bytes limits;
  db_limits : limits_ok limits;
  db_segments : 1 <= max_segments limits;
  db_snapshot : snapshot_ok limits sn;
  db_fits : fits limits (records_of sn);
  db_metadata :
    sn_has_metadata sn = true → size_of (table_bytes (sn_metadata sn)) <= max_metadata_bytes limits
}.

(** The outcome that presents a snapshot, read from the segment [sequence]. *)
Definition presented (sequence : Z) (sn : DurableSnapshot) : RecoveryOutcome :=
  outcome_of (segment_file_name sequence) sn
    (sound_report sn (records_of sn) (size_of (records_of sn)) (size_of (payload_of (records_of sn)))).

Section promises.
Context (limits : PersistenceLimits) (directory : string).
Context (order : Directory → list (string * Entry)).
Context (order_lists : ∀ entries, order entries ≡ₚ map_to_list entries).
Context (io : ReadIo) (io_reliable : reliable io).

Abbreviation outcome := (recovered_outcome limits order io).

Lemma before_outcome next entries d :
  kept next entries → before (view entries) next d → outcome d = outcome (Present entries).
Proof using order_lists io_reliable.
  intros Hk (entries' & -> & Hk' & Hv). unfold recovered_outcome.
  by rewrite (recover_same limits order order_lists io next next entries' entries)
    by (done || apply io_reliable).
Qed.

Lemma rotated_outcome sn v next k d :
  durable limits sn → size_of (segment_of sn) <= max_segment_bytes limits →
  rotated v next (segment_of sn) k d → outcome d = presented next sn.
Proof using order_lists io_reliable.
  intros Hsn Hsize (Hk & entries & -> & Hkept & Hv). unfold recovered_outcome.
  rewrite drop_app_le in Hv by done. destruct Hsn.
  by rewrite (recover_newest limits order order_lists io (next + 1) entries _ next (segment_of sn) sn
    _ new_store io_reliable Hkept Hv Hsize (segment_decodes _ _ db_room0 db_limits0 db_snapshot0 db_fits0)).
Qed.

Lemma write_is_segment read wio sn report st :
  durable limits sn → size_of (segment_of sn) <= max_segment_bytes limits →
  write_snapshot limits order read wio sn report st =
    write_segment limits order read wio (segment_of sn) report st.
Proof using.
  intros [room Hl _ Hok Hf Hmeta] Hsize. unfold write_snapshot. rewrite encode_segment by done.
  by is_false (max_segment_bytes limits <? size_of (segment_of sn)).
Qed.

(** A call of [write_snapshot] that changes the disk is one of [write_segment]. *)
Lemma write_cases read wio sn report st entries :
  durable limits sn → kept (ps_next_sequence st) entries → is_u64 (ps_next_sequence st) →
  match write_snapshot limits order read wio sn report st (Present entries) with
  | (result, d, visited) =>
      Forall (λ d, outcome d = outcome (Present entries) ∨
                   outcome d = presented (ps_next_sequence st) sn) visited ∧
      Forall (during (view entries) (ps_next_sequence st) (segment_of sn)) visited ∧
      concluded limits read wio (view entries) (ps_next_sequence st) (segment_of sn) report st result d ∧
      (if ok result.2 then outcome d = presented (ps_next_sequence st) sn
       else outcome d = outcome (Present entries))
  end.
Proof using order_lists io_reliable.
  intros Hsn Hk Hu. pose proof Hsn as [room Hl Hseg Hok Hf Hmeta]. set (next := ps_next_sequence st) in *.
  assert (before (view entries) next (Present entries)) as Hb by by eexists.
  unfold write_snapshot. rewrite encode_segment by done.
  destruct (Z.ltb_spec (max_segment_bytes limits) (size_of (segment_of sn))) as [Hbig|Hsize].
  { cbn. split_and!; [constructor..| |done]. by split. }
  destruct (write_concluded limits order order_lists read wio (view entries) next (segment_of sn) Hu Hseg
    report st eq_refl _ Hb) as [Hd Hc].
  destruct (write_segment _ _ _ _ _ _ _ _) as [[result d] visited]. cbn [fst snd] in Hd, Hc.
  split_and!; [|done..|].
  - eapply Forall_impl; [exact Hd|]. intros d' [Hd'|[k Hd']]; [left; by eapply before_outcome|].
    right. by eapply rotated_outcome.
  - unfold concluded in Hc. destruct (ok result.2).
    + destruct Hc as (_ & k & Hr & _). by eapply rotated_outcome.
    + eapply before_outcome; [exact Hk|apply Hc].
Qed.
End promises.

(** Recovery takes the newest segment that can be read.  The listing is in the order of
    the sequence numbers; the outcome presents the last segment that is read whole, within
    the limits, and decodes, and when none is, says so; the segments after it are counted
    as skipped. *)
Theorem recover_takes_newest_readable (limits : PersistenceLimits)
    (order : Directory → list (string * Entry)) (io : ReadIo) (d : Disk) (st : PersistenceStore)
    (segments : list SegmentInfo) :
  list_segments order io d = Value segments →
  StronglySorted sequence_le segments ∧
  let skipped n := Nat.iter n (counting count_skipped) (counting count_attempt st) in
  match recover limits order io d st with
  | (st', outcome, status) =>
      status = success ∧
      ((∃ older segment newer snapshot report,
          segments = older ++ segment :: newer ∧
          Forall (unreadable limits io d) newer ∧
          readable_segment limits io d segment = Some (snapshot, report) ∧
          outcome = outcome_of (si_path segment) snapshot report ∧
          st' = counting count_recovered (skipped (length newer))) ∨
       (Forall (unreadable limits io d) segments ∧
          (∃ diagnostic, outcome = no_recovery diagnostic) ∧
          st' = counting count_unrecovered (skipped (length segments))))
  end.
Proof.
  intros Hlist. split; [by eapply listing_sorted|]. unfold recover. rewrite Hlist.
  destruct segments as [|oldest rest].
  { split; [done|]. right. split_and!; [constructor|by eexists|done]. }
  pose proof (loop_takes_newest limits io d (reverse (oldest :: rest)) EmptyString
                (counting count_attempt st)) as H.
  destruct (recover_loop _ _ _ _ _ _) as [st' outcome]. split; [done|].
  destruct H as [(newer & segment & older & snapshot & report & E & H)|(Hall & H)].
  - left. exists (reverse older), segment, (reverse newer), snapshot, report.
    rewrite length_reverse. split; [|by rewrite Forall_reverse].
    apply (f_equal reverse) in E. rewrite reverse_involutive, reverse_app, reverse_cons in E.
    by rewrite E, <- app_assoc.
  - right. rewrite Forall_reverse in Hall. by rewrite length_reverse in H.
Qed.

(** C29: a crash leaves the old segments or the new one.  Whatever calls fail while a snapshot
    is written, and wherever the process dies, recovery finds what it found before, or the
    new snapshot; it finds the new snapshot when the status is a success, and what it found
    before when it is not. *)
Theorem crash_leaves_old_or_new (limits : PersistenceLimits)
    (order : Directory → list (string * Entry)) (io read : ReadIo) (wio : WriteIo)
    (sn : DurableSnapshot) (report : PersistenceReport) (st : PersistenceStore)
    (entries : Directory) :
  (∀ entries, order entries ≡ₚ map_to_list entries) → reliable io → durable limits sn →
  kept (ps_next_sequence st) entries → is_u64 (ps_next_sequence st) →
  let outcome d := (recover limits order io d new_store).1.2 in
  let old := outcome (Present entries) in
  let new := presented (ps_next_sequence st) sn in
  match write_snapshot limits order read wio sn report st (Present entries) with
  | (_, status, final, visited) =>
      (∀ crashed, crashed ∈ visited → outcome crashed = old ∨ outcome crashed = new) ∧
      outcome final = (if ok status then new else old)
  end.
Proof.
  intros Horder Hio Hsn Hk Hu outcome old new.
  pose proof (write_cases limits order Horder io Hio read wio sn report st entries Hsn Hk Hu) as H.
  destruct (write_snapshot _ _ _ _ _ _ _ _) as [[[[st' report'] status] final] visited].
  destruct H as (Hv & _ & _ & Hf). split.
  - intros d Hd. rewrite Forall_forall in Hv. by apply Hv.
  - unfold outcome, old, new. by destruct (ok status) eqn:E; cbn in Hf; rewrite E in Hf.
Qed.

(** The disk after a write of which no call failed. *)
Lemma written_disk (limits : PersistenceLimits) (order : Directory → list (string * Entry))
    (io : ReadIo) (wio : WriteIo) (sn : DurableSnapshot) (report : PersistenceReport)
    (st : PersistenceStore) (entries : Directory) :
  (∀ entries, order entries ≡ₚ map_to_list entries) → reliable io → durable limits sn →
  size_of (segment_of sn) <= max_segment_bytes limits →
  smooth wio (length (segment_of sn)) →
  kept (ps_next_sequence st) entries → is_u64 (ps_next_sequence st) →
  entries !! segment_temp_name (ps_next_sequence st) ≠ Some Subdirectory →
  entries !! segment_file_name (ps_next_sequence st) ≠ Some Subdirectory →
  match write_snapshot limits order io wio sn report st (Present entries) with
  | (st', _, status, d, _) =>
      status = success ∧ ps_next_sequence st' = ps_next_sequence st +u 1 ∧
      ∃ entries' older, d = Present entries' ∧ kept (ps_next_sequence st + 1) entries' ∧
        view entries' = older ++ [(ps_next_sequence st, segment_of sn)] ∧
        view entries' = drop (excess limits (view entries))
                          (view entries ++ [(ps_next_sequence st, segment_of sn)])
  end.
Proof.
  intros Horder Hio Hsn Hsize Hsmooth Hk Hu Htemp Hfinal.
  pose proof (write_cases limits order Horder io Hio io wio sn report st entries Hsn Hk Hu) as H.
  pose proof (smooth_succeeds limits order io wio _ report st entries Horder Hsmooth Hk Hu Htemp Hfinal)
    as Hok.
  rewrite write_is_segment in * by done.
  destruct (write_segment _ _ _ _ _ _ _ _) as [[[[st' report'] status] d] visited].
  cbn [fst snd] in Hok. subst status. destruct H as (_ & _ & Hc & _). unfold concluded in Hc.
  cbn [fst snd] in Hc. rewrite ok_success in Hc. destruct Hc as (Hn & k & (Hkv & e & -> & Hke & Hv) & Hx).
  rewrite (Hx (rl_listable _ Hio) (sm_rotated _ _ Hsmooth)) in *. clear Hx. split; [done|].
  split; [done|]. eexists e, _. split; [done|]. split; [done|].
  split; [|exact Hv]. rewrite Hv. by apply drop_app_le.
Qed.

(** A written snapshot is kept, and the newest others with it.  When no call fails, the
    status is a success, recovery finds the snapshot, and the directory lists the newest
    segments, at most [max_segments] of them, of what it listed and the new one. *)
Theorem written_snapshot_is_kept (limits : PersistenceLimits)
    (order : Directory → list (string * Entry)) (io : ReadIo) (wio : WriteIo)
    (sn : DurableSnapshot) (report : PersistenceReport) (st : PersistenceStore)
    (entries : Directory) (segments : list SegmentInfo) :
  (∀ entries, order entries ≡ₚ map_to_list entries) → reliable io → durable limits sn →
  size_of (segment_of sn) <= max_segment_bytes limits →
  smooth wio (length (segment_of sn)) →
  kept (ps_next_sequence st) entries → is_u64 (ps_next_sequence st) →
  entries !! segment_temp_name (ps_next_sequence st) ≠ Some Subdirectory →
  entries !! segment_file_name (ps_next_sequence st) ≠ Some Subdirectory →
  list_segments order io (Present entries) = Value segments →
  match write_snapshot limits order io wio sn report st (Present entries) with
  | (st', _, status, d, _) =>
      status = success ∧ ps_next_sequence st' = ps_next_sequence st +u 1 ∧
      (recover limits order io d st').1.2 = presented (ps_next_sequence st) sn ∧
      list_segments order io d =
        Value (let all := segments ++
                 [mkSegment (segment_file_name (ps_next_sequence st)) (size_of (segment_of sn)) 0
                    (ps_next_sequence st)] in
               drop (length all - Z.to_nat (max_segments limits)) all)
  end.
Proof.
  intros Horder Hio Hsn Hsize Hsmooth Hk Hu Htemp Hfinal Hlist. pose proof (rl_listable _ Hio) as Hopen.
  rewrite (segments_listed order Horder io (ps_next_sequence st)) in Hlist by done. injection Hlist as <-.
  pose proof (written_disk limits order io wio sn report st entries Horder Hio Hsn Hsize Hsmooth Hk Hu
    Htemp Hfinal) as H.
  destruct (write_snapshot _ _ _ _ _ _ _ _) as [[[[st' report'] status] d] visited].
  destruct H as (Hok & Hn & e & older & -> & Hke & Hlast & Hv). split; [done|]. split; [done|].
  destruct Hsn as [room Hl _ Hsnap Hf _]. split.
  - by erewrite (recover_newest limits order Horder io) by
      (eassumption || by apply segment_decodes).
  - rewrite (segments_listed order Horder io (ps_next_sequence st + 1)), Hv by done. cbv zeta. f_equal.
    rewrite <- skipn_map, map_app. unfold listed at 2. cbn [map fst snd]. rewrite (rl_sized _ Hio).
    f_equal. unfold excess. rewrite length_app, length_map. cbn. lia.
Qed.
