(* ===== verification/PersistenceRuns.v ===== *)
(** * Runs of the persistence store

    Any sequence of writes, crashes and restarts, whatever calls fail: what recovery finds at
    the end is the last snapshot whose write succeeded, or one whose write was interrupted
    after it. *)

From stdpp Require Import gmap strings sorting.
From S2P Require Import Prelude Result Checked Text Bytes Metadata Limits Codec Format.
From S2P Require Import FormatBytes SegmentBytes SegmentTheorems.
From S2P Require Import Persistence PersistenceView PersistenceTheorems.
Open Scope Z_scope.

#[local] Set Warnings "-register-all".

(** A snapshot that was written, and whether the status was a success. *)
Abbreviation Attempt := (DurableSnapshot * bool)%type.

Section runs.
Context (limits : PersistenceLimits) (directory : string).
Context (order : Directory → list (string * Entry)).
Context (d0 : Disk) (st0 : PersistenceStore).

(** From the disk [d0] and the opened store [st0]: the disk, the store and the attempts.  A
    process that dies leaves a disk that the write passed through; the next one opens it. *)
Inductive run : Disk → PersistenceStore → list Attempt → Prop :=
| run_start : run d0 st0 []
| run_write d st attempts read wio sn report st' report' status d' visited :
    run d st attempts →
    write_snapshot limits order read wio sn report st d = (st', report', status, d', visited) →
    run d' st' (attempts ++ [(sn, ok status)])
| run_crash d st attempts read wio sn report result d' visited crashed allowed io st' status seen :
    run d st attempts →
    write_snapshot limits order read wio sn report st d = (result, d', visited) →
    crashed ∈ visited →
    io_listable io = true →
    open_store directory limits order io allowed new_store crashed = (st', status, crashed, seen) →
    ok status = true →
    run crashed st' (attempts ++ [(sn, false)])
| run_reopen d st attempts st1 allowed io st' status seen :
    run d st attempts →
    io_listable io = true →
    open_store directory limits order io allowed st1 d = (st', status, d, seen) →
    ok status = true →
    run d st' attempts
| run_recover d st attempts io st' outcome status :
    run d st attempts →
    recover limits order io d st = (st', outcome, status) →
    run d st' attempts.
End runs.

(** The attempt that recovery presents: none was a success after it. *)
Definition latest (attempts : list Attempt) (initial outcome : RecoveryOutcome) : Prop :=
  (∃ earlier sn succeeded later,
     attempts = earlier ++ (sn, succeeded) :: later ∧
     Forall (λ attempt, attempt.2 = false) later ∧
     ro_recovered outcome = true ∧ ro_snapshot outcome = sn) ∨
  (Forall (λ attempt, attempt.2 = false) attempts ∧ outcome = initial).

Lemma latest_new attempts initial next sn succeeded :
  latest (attempts ++ [(sn, succeeded)]) initial (presented next sn).
Proof. left. by exists attempts, sn, succeeded, []. Qed.

Lemma latest_old attempts initial outcome sn :
  latest attempts initial outcome → latest (attempts ++ [(sn, false)]) initial outcome.
Proof.
  intros [(earlier & sn' & succeeded & later & -> & Hl & H)|[Hf ->]].
  - left. exists earlier, sn', succeeded, (later ++ [(sn, false)]).
    rewrite <- app_assoc. split; [done|]. split; [|done]. apply Forall_app. by repeat constructor.
  - right. split; [|done]. apply Forall_app. by repeat constructor.
Qed.

(** Opening a directory that can be listed: the next number is above every segment. *)
Lemma next_above l next read :
  1 <= next → (∀ s, s ∈ l → s.1 < u64_max) →
  let next' := fold_left next_after (map (listed read) l) next in
  next <= next' ∧ (∀ s, s ∈ l → s.1 < next') ∧ ∀ bound, next <= bound → (∀ s, s ∈ l → s.1 < bound) → next' <= bound.
Proof.
  revert next. induction l as [|[s b] l IH]; intros next Hn Hmax next'.
  { split_and!; [cbn in *; lia|by intros s ?%elem_of_nil|done]. }
  assert (next <= next_after next (listed read (s, b)) ∧ s < next_after next (listed read (s, b)) ∧
    (∀ bound, next <= bound → s < bound → next_after next (listed read (s, b)) <= bound)) as (H1 & H2 & H3).
  { pose proof (Hmax (s, b) ltac:(by left)) as Hs. cbn in Hs. unfold next_after. cbn.
    destruct (Z.leb_spec next s); [rewrite wrap_u64_id by word_lia|]; split_and!; lia. }
  destruct (IH (next_after next (listed read (s, b)))) as (Hge & Hin & Hle); [lia|intros x Hx; apply Hmax; by right|].
  unfold next'. cbn. cbn in Hge, Hin, Hle. split_and!; [lia| |].
  - intros x [->|Hx]%elem_of_cons; [cbn; lia|by apply Hin].
  - intros bound Hb Hall. apply Hle; [|intros x Hx; apply Hall; by right].
    apply H3; [done|]. apply (Hall (s, b)). by left.
Qed.

Lemma kept_lower next next' entries :
  kept next entries → (∀ s, s ∈ view entries → s.1 < next') → kept next' entries.
Proof.
  intros Hk H. constructor; [|apply Hk]. intros name bytes s He Hp.
  destruct (kp_name _ _ Hk _ _ _ He Hp) as [-> Hlt]. split; [done|].
  apply (H (s, bytes)), (stored_spec next _ Hk). split_and!; [by eapply parsed_u64|done|done].
Qed.

(** Recovery counts, and otherwise leaves the store alone. *)
Lemma recover_next limits order io d st :
  ps_next_sequence (recover limits order io d st).1.1 = ps_next_sequence st.
Proof.
  unfold recover. destruct (list_segments order io d) as [[|segment segments]|]; [done| |done].
  cbn [fst]. generalize EmptyString as first.
  assert (ps_next_sequence (counting count_attempt st) = ps_next_sequence st) as <- by done.
  generalize (counting count_attempt st) as st1. induction (reverse (segment :: segments)) as [|s l IH]; [done|].
  intros st1 first. destruct (recover_step limits io d s l first st1) as [(m & -> & _)|(? & ? & -> & _)];
    [|done]. by rewrite IH.
Qed.

Lemma recover_outcome limits order io d st :
  (recover limits order io d st).1.2 = recovered_outcome limits order io d.
Proof.
  unfold recovered_outcome, recover. destruct (list_segments order io d) as [[|segment segments]|]; [done| |done].
  cbn [fst snd]. generalize EmptyString as first. generalize (counting count_attempt st) as st1.
  generalize (counting count_attempt new_store) as st2.
  induction (reverse (segment :: segments)) as [|s l IH]; [done|].
  intros st2 st1 first. cbn [recover_loop]. destruct (read_file_bounded _ _ _ _); [|apply IH].
  destruct (decode_snapshot _ _) as [[status sn] report]. destruct (negb _); [apply IH|done].
Qed.

Section held.
Context (limits : PersistenceLimits) (directory : string).
Context (order : Directory → list (string * Entry)).
Context (order_lists : ∀ entries, order entries ≡ₚ map_to_list entries).
Context (io : ReadIo) (io_reliable : reliable io).

Lemma open_keeps read allowed st st' status d d' seen next entries :
  open_store directory limits order read allowed st d = (st', status, d', seen) → ok status = true →
  io_listable read = true → d = Present entries → kept next entries → 1 <= next <= u64_max →
  d' = d ∧ kept (ps_next_sequence st') entries ∧ 1 <= ps_next_sequence st' <= next.
Proof using order_lists.
  intros Hopen Hok Hl -> Hk Hn. unfold open_store in Hopen.
  destruct (negb _) eqn:E; [injection Hopen as <- <- <- <-; by rewrite Hok in E|].
  unfold mbind, FileOp_bind in Hopen. cbn -[list_segments] in Hopen. unfold on_disk in Hopen.
  cbn -[list_segments] in Hopen. rewrite (segments_listed order order_lists read next) in Hopen by done.
  injection Hopen as <- <- <- <-. split; [done|]. cbn [ps_next_sequence].
  assert (∀ s, s ∈ view entries → s.1 < next) as Hlt.
  { intros [s b] H%(stored_spec next _ Hk). cbn. lia. }
  destruct (next_above (view entries) 1 read) as (H1 & H2 & H3);
    [lia|intros s Hs; specialize (Hlt s Hs); lia|].
  split; [by eapply kept_lower|]. split; [done|]. apply H3; [lia|done].
Qed.

Abbreviation outcome := (recovered_outcome limits order io).

Section from.
Context (d0 : Disk) (st0 : PersistenceStore) (entries0 : Directory).
Context (start : d0 = Present entries0 ∧ kept (ps_next_sequence st0) entries0 ∧ 1 <= ps_next_sequence st0).

(** What a run keeps: the directory is this program's, and recovery presents the latest. *)
Definition holds (d : Disk) (st : PersistenceStore) (attempts : list Attempt) : Prop :=
  ∃ entries, d = Present entries ∧ kept (ps_next_sequence st) entries ∧
    1 <= ps_next_sequence st <= ps_next_sequence st0 + size_of attempts ∧
    latest attempts (outcome d0) (outcome d).

Lemma holds_write d st attempts read wio sn report st' report' status d' visited :
  holds d st attempts → durable limits sn → ps_next_sequence st0 + size_of attempts < u64_max →
  write_snapshot limits order read wio sn report st d = (st', report', status, d', visited) →
  holds d' st' (attempts ++ [(sn, ok status)]).
Proof using order_lists io_reliable.
  intros (entries & -> & Hk & Hn & Hlatest) Hsn Hmax Hw.
  pose proof (write_cases limits order order_lists io io_reliable read wio sn report st entries Hsn Hk
    ltac:(word_lia)) as H.
  rewrite Hw in H. destruct H as (_ & _ & Hc & Ho). unfold concluded in Hc. cbn [fst snd] in *.
  unfold holds. rewrite size_of_app. destruct (ok status).
  - destruct Hc as (Hn' & k & (_ & e & -> & Hk' & _) & _).
    rewrite wrap_u64_id in Hn' by word_lia. rewrite <- Hn' in Hk'. exists e.
    split; [done|]. split; [done|]. split; [change (size_of [(sn, true)]) with 1; lia|].
    rewrite Ho. apply latest_new.
  - destruct Hc as [(e & -> & Hk' & _) [= -> _]]. exists e. split; [done|]. split; [done|].
    split; [change (size_of [(sn, false)]) with 1; lia|]. rewrite Ho. by apply latest_old.
Qed.

Lemma holds_crash d st attempts read wio sn report result d' visited crashed allowed io' st1 st' status seen :
  holds d st attempts → durable limits sn → ps_next_sequence st0 + size_of attempts < u64_max →
  write_snapshot limits order read wio sn report st d = (result, d', visited) →
  crashed ∈ visited → io_listable io' = true →
  open_store directory limits order io' allowed st1 crashed = (st', status, crashed, seen) →
  ok status = true → holds crashed st' (attempts ++ [(sn, false)]).
Proof using order_lists io_reliable.
  intros (entries & -> & Hk & Hn & Hlatest) Hsn Hmax Hw Hv Hio Hopen Hok.
  pose proof (write_cases limits order order_lists io io_reliable read wio sn report st entries Hsn Hk
    ltac:(word_lia)) as H.
  rewrite Hw in H. destruct H as (Houtcome & Hduring & _). rewrite Forall_forall in Houtcome, Hduring.
  specialize (Houtcome _ Hv). specialize (Hduring _ Hv).
  assert (∃ e n, crashed = Present e ∧ kept n e ∧ 1 <= n <= ps_next_sequence st + 1) as (e & n & -> & Hke & Hne).
  { destruct Hduring as [(e & -> & ? & _)|(k & _ & e & -> & ? & _)];
      [exists e, (ps_next_sequence st)|exists e, (ps_next_sequence st + 1)]; split_and!; (done || lia). }
  destruct (open_keeps _ _ _ _ _ _ _ _ n e Hopen Hok Hio eq_refl Hke ltac:(lia)) as (_ & Hk' & Hn').
  exists e. split; [done|]. split; [done|]. split.
  { rewrite size_of_app. change (size_of [(sn, false)]) with 1. lia. }
  destruct Houtcome as [-> | ->]; [by apply latest_old|apply latest_new].
Qed.

Lemma run_holds d st attempts :
  run limits directory order d0 st0 d st attempts →
  Forall (λ attempt, durable limits attempt.1) attempts →
  ps_next_sequence st0 + size_of attempts <= u64_max → holds d st attempts.
Proof using order_lists io_reliable start.
  intros Hrun. induction Hrun as [|d st attempts read wio sn report st' report' status d' visited Hrun IH Hw
    |d st attempts read wio sn report result d' visited crashed allowed io' st' status seen Hrun IH Hw Hv Hio Hopen Hok
    |d st attempts st1 allowed io' st' status seen Hrun IH Hio Hopen Hok
    |d st attempts io' st' found status Hrun IH Hr]; intros Hsn Hmax.
  - destruct start as (E & Hk & Hn). exists entries0. rewrite size_of_nil.
    split_and!; [done..|lia|]. by right.
  - apply Forall_app in Hsn as [Hsn [Hlast _]%Forall_cons]. rewrite size_of_app in Hmax.
    change (size_of [_]) with 1 in Hmax. eapply holds_write; [apply IH; [done|lia]|exact Hlast|lia|exact Hw].
  - apply Forall_app in Hsn as [Hsn [Hlast _]%Forall_cons]. rewrite size_of_app in Hmax.
    change (size_of [_]) with 1 in Hmax. eapply holds_crash;
      [apply IH; [done|lia]|exact Hlast|lia|eassumption..].
  - destruct (IH Hsn Hmax) as (e & -> & Hk & Hn & Hl).
    destruct (open_keeps _ _ _ _ _ _ _ _ (ps_next_sequence st) e Hopen Hok Hio eq_refl Hk ltac:(lia)) as (_ & Hk' & Hn').
    exists e. split_and!; (done || lia).
  - destruct (IH Hsn Hmax) as (e & -> & H). exists e. split; [done|].
    pose proof (recover_next limits order io' (Present e) st) as E. rewrite Hr in E. cbn in E.
    by rewrite E.
Qed.
End from.
End held.

(** C28: a snapshot whose write succeeded is recovered, or a later one.  The directory is one
    that this program keeps, what is written is durable data, and sequence numbers are left
    for every write.  Then after any sequence of writes in which any call may fail, of crashes
    at any moment of a write, of restarts that list the directory reliably, and of recoveries,
    a recovery that reads reliably presents one of the snapshots that were written, none of
    whose successors was written with success, or, when no write succeeded, what it presented
    at the start. *)
Theorem last_written_snapshot_is_recovered (limits : PersistenceLimits) (directory : string)
    (order : Directory → list (string * Entry)) (io : ReadIo) (entries : Directory)
    (st0 st : PersistenceStore) (d : Disk) (attempts : list Attempt) :
  (∀ entries, order entries ≡ₚ map_to_list entries) → reliable io →
  kept (ps_next_sequence st0) entries → 1 <= ps_next_sequence st0 →
  ps_next_sequence st0 + size_of attempts <= u64_max →
  Forall (λ attempt, durable limits attempt.1) attempts →
  run limits directory order (Present entries) st0 d st attempts →
  latest attempts (recover limits order io (Present entries) st0).1.2
    (recover limits order io d st).1.2.
Proof.
  intros Horder Hio Hk Hn Hmax Hsn Hrun.
  destruct (run_holds limits directory order Horder io Hio (Present entries) st0 entries
    ltac:(done) d st attempts Hrun Hsn Hmax) as (_ & _ & _ & _ & H).
  by rewrite !(recover_outcome limits order io _ st0), (recover_outcome limits order io _ st).
Qed.
