(* ===== verification/PersistenceExample.v ===== *)
(** * A directory of segments

    Snapshots written, lost and recovered, and where the directory misleads the program. *)

From stdpp Require Import gmap strings sorting.
From S2P Require Import Prelude Result Checked Text Bytes Identity Time Evidence Sample Metadata Event.
From S2P Require Import Limits Policy Admission Codec Format FormatBytes SegmentBytes.
From S2P Require Import SegmentTheorems SegmentExample Persistence PersistenceView PersistenceTheorems.
From S2P Require Import PersistenceRuns.
Open Scope Z_scope.

#[local] Set Warnings "-register-all".

Abbreviation example_limits := default_persistence_limits.
Definition in_order : Directory → list (string * Entry) := map_to_list.
Definition working_reads : ReadIo := mkReadIo true (λ _, true) (λ _, true) (λ _ size, size).
Definition working_writes : WriteIo :=
  mkWriteIo true 2000 true true true true true true (λ _, true).
(** The disk is full: nothing is written. *)
Definition full_writes : WriteIo := mkWriteIo true 0 true true true true true true (λ _, true).

(** A damaged segment, and a file that is none. *)
Definition example_entries : Directory :=
  <["segment-00000001.qobs" := RegularFile [81; 79; 66; 83]]>
    (<["notes.txt" := RegularFile []]> ∅).
Definition example_store : PersistenceStore := mkPersistence 2 no_report.

Lemma in_order_lists entries : in_order entries ≡ₚ map_to_list entries.
Proof. done. Qed.

Lemma working_reliable : reliable working_reads.
Proof. by constructor. Qed.

Lemma example_durable : durable example_limits example_snapshot.
Proof.
  constructor; [by vm_compute|apply default_limits_ok|by vm_compute|apply example_ok|apply example_fits|].
  intros _. by vm_compute.
Qed.

Lemma example_size : size_of (segment_of example_snapshot) = 1056.
Proof. vm_compute. done. Qed.

Lemma example_kept : kept 2 example_entries.
Proof.
  unfold example_entries. constructor.
  - intros name bytes sequence [[<- _]|[_ [[<- _]|[_ []%lookup_empty_Some]]%lookup_insert_Some]]%lookup_insert_Some Hp;
      vm_compute in Hp; [|done]. injection Hp as <-. by vm_compute.
  - intros name [[_ ?]|[_ [[_ ?]|[_ []%lookup_empty_Some]]%lookup_insert_Some]]%lookup_insert_Some; done.
Qed.

Abbreviation example_written :=
  (write_snapshot example_limits in_order working_reads working_writes example_snapshot no_report
     example_store (Present example_entries)).

Abbreviation example_segments :=
  [mkSegment "segment-00000001.qobs" 4 0 1; mkSegment "segment-00000002.qobs" 1056 0 2].

Lemma recover_takes_newest_readable_witness :
  list_segments in_order working_reads example_written.1.2 = Value example_segments ∧
  StronglySorted sequence_le example_segments.
Proof.
  assert (list_segments in_order working_reads example_written.1.2 = Value example_segments) as E
    by (vm_compute; reflexivity).
  split; [exact E|].
  exact (proj1 (recover_takes_newest_readable example_limits in_order working_reads
    example_written.1.2 example_store example_segments E)).
Defined.

Lemma crash_leaves_old_or_new_witness :
  let outcome d := (recover example_limits in_order working_reads d new_store).1.2 in
  match write_snapshot example_limits in_order working_reads full_writes example_snapshot no_report
          example_store (Present example_entries) with
  | (_, status, final, visited) =>
      (∀ crashed, crashed ∈ visited → outcome crashed = outcome (Present example_entries) ∨
         outcome crashed = presented 2 example_snapshot) ∧
      outcome final = (if ok status then presented 2 example_snapshot
                       else outcome (Present example_entries))
  end.
Proof.
  apply (crash_leaves_old_or_new example_limits in_order working_reads working_reads full_writes
    example_snapshot no_report example_store example_entries in_order_lists working_reliable
    example_durable example_kept). split; vm_compute; discriminate.
Defined.

Lemma example_fitting : size_of (segment_of example_snapshot) <= max_segment_bytes example_limits.
Proof. rewrite example_size. vm_compute. discriminate. Qed.
Lemma example_smooth : smooth working_writes (length (segment_of example_snapshot)).
Proof.
  constructor; [done| |done..]. cbn [w_written working_writes].
  pose proof example_size as H. unfold size_of in H. lia.
Qed.
Lemma next_is_u64 : is_u64 (ps_next_sequence example_store).
Proof. split; vm_compute; discriminate. Qed.
Lemma no_temp : example_entries !! segment_temp_name (ps_next_sequence example_store) ≠ Some Subdirectory.
Proof. vm_compute. discriminate. Qed.
Lemma no_final : example_entries !! segment_file_name (ps_next_sequence example_store) ≠ Some Subdirectory.
Proof. vm_compute. discriminate. Qed.
Lemma one_listed :
  list_segments in_order working_reads (Present example_entries) =
  Value [mkSegment "segment-00000001.qobs" 4 0 1].
Proof. vm_compute. done. Qed.

Lemma written_snapshot_is_kept_witness :
  match write_snapshot example_limits in_order working_reads working_writes example_snapshot no_report
          example_store (Present example_entries) with
  | (st', _, status, d, _) =>
      status = success ∧
      (recover example_limits in_order working_reads d st').1.2 = presented 2 example_snapshot
  end.
Proof.
  pose proof (written_snapshot_is_kept example_limits in_order working_reads working_writes
    example_snapshot no_report example_store example_entries
    [mkSegment "segment-00000001.qobs" 4 0 1] in_order_lists working_reliable example_durable
    example_fitting example_smooth example_kept next_is_u64 no_temp no_final one_listed) as H.
  destruct (write_snapshot _ _ _ _ _ _ _ _) as [[[[st' report'] status] d] visited].
  destruct H as (Hs & _ & Ho & _). split; [exact Hs|exact Ho].
Defined.

(** A process dies when the disk is full; the next one opens the directory and writes. *)
Abbreviation full_attempt :=
  (write_snapshot example_limits in_order working_reads full_writes example_snapshot no_report
     example_store (Present example_entries)).
Abbreviation crashed_entries := (<["segment-00000002.qobs.tmp" := RegularFile []]> example_entries).

Lemma crash_visited : Present crashed_entries ∈ full_attempt.2.
Proof.
  assert (full_attempt.2 = [Present crashed_entries; Present crashed_entries; Present example_entries])
    as -> by (vm_compute; reflexivity).
  by left.
Qed.
Lemma crash_opened :
  open_store "state" example_limits in_order working_reads true new_store (Present crashed_entries) =
  (example_store, success, Present crashed_entries, []).
Proof. vm_compute. done. Qed.

Abbreviation second_attempt :=
  (write_snapshot example_limits in_order working_reads working_writes example_snapshot no_report
     example_store (Present crashed_entries)).

Lemma attempt_parts {A B C D E} (x : A * B * C * D * E) :
  x = (x.1.1.1.1, x.1.1.1.2, x.1.1.2, x.1.2, x.2).
Proof. by destruct x as [[[[]]]]. Qed.

Lemma crash_then_write limits directory order read io allowed failing working sn report d0 st0 crashed
    st status b :
  crashed ∈ (write_snapshot limits order read failing sn report st0 d0).2 → io_listable io = true →
  open_store directory limits order io allowed new_store crashed = (st, status, crashed, []) →
  ok status = true →
  ok (write_snapshot limits order read working sn report st crashed).1.1.2 = b →
  run limits directory order d0 st0
    (write_snapshot limits order read working sn report st crashed).1.2
    (write_snapshot limits order read working sn report st crashed).1.1.1.1 [(sn, false); (sn, b)].
Proof.
  intros Hv Hio Hopen Hok <-.
  destruct (write_snapshot limits order read failing sn report st0 d0) as [[result d'] visited] eqn:E.
  pose proof (run_crash limits directory order d0 st0 d0 st0 [] read failing sn report result d' visited
    crashed allowed io st status [] (run_start _ _ _ _ _) E Hv Hio Hopen Hok) as H.
  exact (run_write limits directory order d0 st0 crashed st [(sn, false)] read working sn report
    _ _ _ _ _ H (attempt_parts _)).
Qed.

Lemma second_succeeds : ok second_attempt.1.1.2 = true.
Proof. vm_compute. done. Qed.

Lemma example_run :
  run example_limits "state" in_order (Present example_entries) example_store second_attempt.1.2
    second_attempt.1.1.1.1 [(example_snapshot, false); (example_snapshot, true)].
Proof.
  exact (crash_then_write example_limits "state" in_order working_reads working_reads true full_writes
    working_writes example_snapshot no_report (Present example_entries) example_store
    (Present crashed_entries) example_store success true crash_visited eq_refl crash_opened eq_refl
    second_succeeds).
Qed.

Lemma attempts_durable :
  Forall (λ attempt : Attempt, durable example_limits attempt.1)
    [(example_snapshot, false); (example_snapshot, true)].
Proof. repeat (constructor; [exact example_durable|]). constructor. Qed.

Lemma last_written_snapshot_is_recovered_witness :
  latest [(example_snapshot, false); (example_snapshot, true)]
    (recover example_limits in_order working_reads (Present example_entries) example_store).1.2
    (recover example_limits in_order working_reads second_attempt.1.2 second_attempt.1.1.1.1).1.2.
Proof.
  exact (last_written_snapshot_is_recovered example_limits "state" in_order working_reads
    example_entries example_store second_attempt.1.1.1.1 second_attempt.1.2
    [(example_snapshot, false); (example_snapshot, true)] in_order_lists working_reliable example_kept
    ltac:(vm_compute; discriminate) ltac:(vm_compute; discriminate) attempts_durable example_run).
Defined.

(** ** Where the directory misleads the program *)

Definition older_snapshot : DurableSnapshot :=
  mkSnapshot "old" (mkReceive 1 2) 4 "default" [] [] [] no_durable_metadata false.
Abbreviation older_bytes := (segment_of older_snapshot).

Definition recovered_run (d : Disk) : string * string :=
  let outcome := recovered_outcome example_limits in_order working_reads d in
  (ro_source outcome, sn_runtime_id (ro_snapshot outcome)).

(** The sequence number wraps after the largest one: a snapshot that is written after it is
    numbered 0, so recovery goes on presenting the older one. *)
Lemma last_sequence_hides_later_snapshots :
  let d := Present (<["segment-18446744073709551615.qobs" := RegularFile older_bytes]> ∅) in
  let opened := (open_store "state" example_limits in_order working_reads true new_store d).1.1.1 in
  let write := write_snapshot example_limits in_order working_reads working_writes example_snapshot
                 no_report opened d in
  ps_next_sequence opened = 0 ∧ write.1.1.2 = success ∧
  recovered_run write.1.2 = ("segment-18446744073709551615.qobs", "old").
Proof. vm_compute. done. Qed.

(** A directory that cannot be listed opens as an empty one, and the numbers start again: the
    snapshot that is written then is numbered below the older one, which is recovered. *)
Lemma unlistable_directory_opens :
  let d := Present (<["segment-00000005.qobs" := RegularFile older_bytes]> ∅) in
  let unlistable := mkReadIo false (λ _, true) (λ _, true) (λ _ size, size) in
  let opening := (open_store "state" example_limits in_order unlistable true new_store d).1.1 in
  let write := write_snapshot example_limits in_order working_reads working_writes example_snapshot
                 no_report opening.1 d in
  opening.2 = success ∧ ps_next_sequence opening.1 = 1 ∧ write.1.1.2 = success ∧
  recovered_run write.1.2 = ("segment-00000005.qobs", "old").
Proof. vm_compute. done. Qed.

(** An entry that cannot be examined makes the listing fail, unless it is the last one. *)
Lemma dangling_link_stops_listing io name :
  list_loop io false [("link", Dangling); (name, Subdirectory)] =
    fail ErrorCode.IoError "the persistence directory could not be listed" ∧
  list_loop io false [(name, Subdirectory); ("link", Dangling)] = Value [].
Proof. done. Qed.

(** The number of records written is never counted. *)
Lemma records_are_not_counted bytes report :
  pr_records_written report = 0 → pr_records_written (count_written bytes report) = 0.
Proof. intros H. cbn. by rewrite H. Qed.
