(* ===== verification/Lifecycle.v ===== *)
(** * The life of an observatory

    [runtime/Observatory.cpp] with its persistence directory: creation, [start], [stop],
    [persist_now], [recover] and [status], around the document queue of [Runtime].

    [start] and [stop] hold the lifecycle lock from beginning to end; here each is one step,
    with the calls of the file system it makes.  Nothing comes back where recovery meets a
    byte that is no enumerator. *)

From stdpp Require Import gmap strings.
From S2P Require Import Prelude Result Checked Text Bytes Identity Time Evidence Sample Counter.
From S2P Require Import Metadata Event Limits Policy Rules Explanation Classification.
From S2P Require Import Ring History Window OrderedMap Admission Store StoreOps Queries Decode Ingest.
From S2P Require Import Runtime Codec Format Recovery Persistence.
Open Scope Z_scope.

#[local] Set Warnings "-register-all".

Record ObservatoryConfig := mkObservatoryConfig {
  oc_policy : PressurePolicy;
  oc_ingest : IngestLimits;
  oc_history : HistoryLimits;
  oc_query : QueryLimits;
  oc_persistence : PersistenceLimits;
  oc_runtime : RuntimeLimits;
  oc_transport : TransportLimits;
  oc_persistence_directory : option string;
  oc_recover_on_start : bool;
  oc_persist_on_stop : bool;
  oc_runtime_seed : Z
}.

(** The validation of [Observatory::create]: the first status that is not a success. *)
Definition validate_config (config : ObservatoryConfig) : Status :=
  TRY validate_ingest (oc_ingest config) ;;
  TRY validate_history (oc_history config) ;;
  TRY validate_query (oc_query config) ;;
  TRY validate_persistence (oc_persistence config) ;;
  TRY validate_runtime (oc_runtime config) ;;
  TRY validate_transport (oc_transport config) ;;
  validate_policy (oc_policy config).

Record Observatory := mkObservatory {
  ob_runtime : Runtime;
  ob_persistence : option PersistenceStore;
  ob_recovered_on_start : bool;
  ob_recovery_diagnostic : string
}.

Definition set_runtime (rt : Runtime) (ob : Observatory) : Observatory :=
  mkObservatory rt (ob_persistence ob) (ob_recovered_on_start ob) (ob_recovery_diagnostic ob).
Definition set_persistence (st : PersistenceStore) (ob : Observatory) : Observatory :=
  mkObservatory (ob_runtime ob) (Some st) (ob_recovered_on_start ob) (ob_recovery_diagnostic ob).
Definition set_recovered (summary : RecoverySummary) (ob : Observatory) : Observatory :=
  mkObservatory (ob_runtime ob) (ob_persistence ob) (rs_recovered summary) (rs_diagnostic summary).
Definition with_store (s : Store) (rt : Runtime) : Runtime :=
  mkRuntime (rt_state rt) (rt_phase rt) (rt_stop_requested rt) s (rt_pending rt)
    (rt_next_ticket rt) (rt_next_apply_ticket rt) (rt_queued_samples rt) (rt_queued_batches rt)
    (rt_applied rt) (rt_dropped rt) (rt_decode_failures rt) (rt_in_flight rt) (rt_workers rt)
    (rt_drainers rt).

Section lifecycle.
Context (cfg : StoreConfig) (clock : nat → ReceiveTime) (record_bytes : Z).
Context (order : Directory → list (string * Entry)).
Context (config : ObservatoryConfig).

(** The constructor; the store is the one that [QueueStore]'s constructor makes. *)
Definition new_observatory (s : Store) : Observatory :=
  mkObservatory (created s)
    (match oc_persistence_directory config with Some _ => Some new_store | None => None end)
    false EmptyString.

(** ** Snapshots *)

Definition not_configured : Status :=
  failure ErrorCode.NotSupported "no persistence directory is configured for this runtime".

Definition persist_now (read : ReadIo) (io : WriteIo) (ob : Observatory) :
    FileOp (Observatory * PersistenceReport * Status) :=
  match ob_persistence ob with
  | None => ret (ob, no_report, not_configured)
  | Some st =>
      match build_snapshot cfg (max_samples_per_queue (oc_history config))
              (max_events_total (oc_history config)) (rt_store (ob_runtime ob)) with
      | Failure e => ret (ob, no_report, e)
      | Value snapshot =>
          result ← write_snapshot (oc_persistence config) order read io snapshot no_report st;
          let '(st, report, status) := result in
          ret (set_persistence st ob, report, status)
      end
  end.

Definition summary_attempted (report : DecodeReport) (diagnostic : string) : RecoverySummary :=
  mkSummary true false 0 0 0 0 0 0 0 false report diagnostic true.

Definition recover_now (io : ReadIo) (d : Disk) (ob : Observatory) :
    option (Observatory * RecoverySummary * Status) :=
  match ob_persistence ob with
  | None => Some (ob, no_summary, not_configured)
  | Some st =>
      let '(st, outcome, status) := recover (oc_persistence config) order io d st in
      let ob := set_persistence st ob in
      if negb (ok status) then Some (ob, summary_attempted no_decode_report EmptyString, status)
      else
        let summary := summary_attempted (ro_report outcome) (ro_diagnostic outcome) in
        if negb (ro_recovered outcome) then Some (ob, summary, success)
        else
          '(s, summary, status) ← apply_recovered_snapshot cfg clock record_bytes
            (ro_snapshot outcome) (ro_report outcome) summary (rt_store (ob_runtime ob));
          Some (set_runtime (with_store s (ob_runtime ob)) ob, summary, status)
  end.

(** ** [start] *)

(** The queue is emptied and the state stored; then the workers are made. *)
Definition reset_queue (rt : Runtime) : Runtime :=
  mkRuntime RuntimeState.Running NotStopping false (rt_store rt) [] 1 1 0 0 (rt_applied rt)
    (rt_dropped rt) (rt_decode_failures rt) 0 (rt_workers rt) (rt_drainers rt).
Definition spawn_workers (rt : Runtime) : Runtime :=
  set_workers (rt_workers rt ++ replicate (Z.to_nat (worker_threads (oc_runtime config))) Ready) rt.
Definition set_state (state : RuntimeState) (rt : Runtime) : Runtime :=
  set_phase state (rt_phase rt) (rt_stop_requested rt) rt.

Definition startable (rt : Runtime) : bool :=
  bool_decide (rt_state rt = RuntimeState.Created) ||
  bool_decide (rt_state rt = RuntimeState.Stopped).

(** What follows the opening of the directory. *)
Definition start_opened (io : ReadIo) (d : Disk) (ob : Observatory) : option (Observatory * Status) :=
  let ob := set_runtime (reset_queue (ob_runtime ob)) ob in
  if oc_recover_on_start config && is_some (ob_persistence ob) then
    '(ob, summary, status) ← recover_now io d ob;
    if negb (ok status) then
      Some (set_runtime (set_state RuntimeState.Created (ob_runtime ob)) ob, status)
    else
      let ob := set_recovered summary ob in
      Some (set_runtime (spawn_workers (ob_runtime ob)) ob, success)
  else Some (set_runtime (spawn_workers (ob_runtime ob)) ob, success).

Definition start_observatory (io : ReadIo) (allowed : bool) (ob : Observatory) :
    FileOp (option (Observatory * Status)) :=
  if negb (startable (ob_runtime ob)) then
    ret (Some (ob, failure ErrorCode.Busy "the runtime is already started"))
  else
    match ob_persistence ob with
    | None => on_disk (λ d, ret (start_opened io d ob))
    | Some st =>
        opened ← open_store (default EmptyString (oc_persistence_directory config))
                   (oc_persistence config) order io allowed st;
        let '(st, status) := opened in
        if negb (ok status) then ret (Some (set_persistence st ob, status))
        else on_disk (λ d, ret (start_opened io d (set_persistence st ob)))
    end.

(** ** [stop] *)

(** [stop] on a running runtime, once its workers have returned: the queue is discarded, and
    a snapshot written when the configuration asks for it. *)
Definition finish_stop (read : ReadIo) (io : WriteIo) (ob : Observatory) :
    FileOp (Observatory * Status) :=
  let ob := set_runtime (stop_discard (ob_runtime ob)) ob in
  if oc_persist_on_stop config && is_some (ob_persistence ob) then
    persisted ← persist_now read io ob;
    let '(ob, _, status) := persisted in
    ret (ob, status)
  else ret (ob, success).

(** ** [status] *)

Record RuntimeStatus := mkStatus {
  rn_state : RuntimeState;
  rn_runtime_id : string;
  rn_started : ReceiveTime;
  rn_worker_threads : Z;
  rn_queued_documents : Z;
  rn_queued_samples : Z;
  rn_applied_documents : Z;
  rn_dropped_documents : Z;
  rn_cancelled_documents : Z;
  rn_decode_failures : Z;
  rn_queues : Z;
  rn_history_bytes : Z;
  rn_counters : StoreCounters;
  rn_persistence : PersistenceReport;
  rn_recovered_on_start : bool;
  rn_recovery_diagnostic : string;
  rn_apply_order_violations : Z
}.

(** Nothing changes the counts of cancelled documents and of violations of the order. *)
Definition status (ob : Observatory) : RuntimeStatus :=
  let rt := ob_runtime ob in
  let s := rt_store rt in
  mkStatus (rt_state rt) (ss_runtime_id (cfg_session cfg)) (ss_started (cfg_session cfg))
    (worker_threads (oc_runtime config)) (size_of (rt_pending rt)) (rt_queued_samples rt)
    (rt_applied rt) (rt_dropped rt) 0 (rt_decode_failures rt) (size_of (st_queues s))
    (st_history_bytes s) (st_counters s)
    (match ob_persistence ob with Some st => ps_stats st | None => no_report end)
    (ob_recovered_on_start ob) (ob_recovery_diagnostic ob) 0.
End lifecycle.
