(* ===== verification/LifecycleTheorems.v ===== *)
(** * What a restart keeps

    A runtime without a directory starts as [Runtime] says; one that persists when it stops
    gives its history to the next process that starts on the directory. *)

From stdpp Require Import gmap strings sorting.
From S2P Require Import Prelude Result Checked Text Bytes Identity Time Evidence Sample Counter.
From S2P Require Import Metadata Event Limits Decode Policy Rules Explanation Classification Ring.
From S2P Require Import History Window OrderedMap Admission Store StoreOps Queries StoreExample.
From S2P Require Import Ingest Runtime Codec Format FormatBytes SegmentBytes SegmentTheorems.
From S2P Require Import SegmentExample Recovery RecoveryTheorems RecoveryExample Persistence.
From S2P Require Import PersistenceView PersistenceTheorems PersistenceRuns PersistenceExample.
From S2P Require Import Lifecycle.
Open Scope Z_scope.

#[local] Set Warnings "-register-all".

(** Without a persistence directory, [start] is that of the document queue. *)
Lemma start_without_directory cfg clock record_bytes order config io allowed ob d :
  ob_persistence ob = None → rt_workers (ob_runtime ob) = [] →
  start_observatory cfg clock record_bytes order config io allowed ob d =
    (Some (let '(rt, status) := start (oc_runtime config) (ob_runtime ob) in
           (set_runtime rt ob, status)), d, []).
Proof.
  intros H Hw. unfold start_observatory, start, startable. rewrite H, <- negb_orb.
  destruct (negb _); [by destruct ob|].
  unfold on_disk, start_opened, spawn_workers, reset_queue. cbn. by rewrite H, andb_false_r, Hw.
Qed.

(** Opening the directory that a write left. *)
Lemma open_succeeds directory limits order io allowed st next entries :
  (∀ entries, order entries ≡ₚ map_to_list entries) → limits_ok limits → io_listable io = true →
  kept next entries →
  open_store directory limits order io allowed st (Present entries) =
    (mkPersistence (fold_left next_after (map (listed io) (view entries)) 1) (ps_stats st), success,
     Present entries, []).
Proof.
  intros Horder Hl Hio Hk. unfold open_store. rewrite (lk_valid _ Hl). cbn [negb].
  unfold mbind, FileOp_bind, on_disk. cbn -[list_segments].
  by rewrite (segments_listed order Horder io next).
Qed.

(** Recovery on a directory whose newest segment holds [sn]. *)
Lemma recover_now_newest cfg clock record_bytes order config io next entries older s sn ob st :
  (∀ entries, order entries ≡ₚ map_to_list entries) → reliable io →
  durable (oc_persistence config) sn → size_of (segment_of sn) <= max_segment_bytes (oc_persistence config) →
  kept next entries → view entries = older ++ [(s, segment_of sn)] → ob_persistence ob = Some st →
  recover_now cfg clock record_bytes order config io (Present entries) ob =
    (let report := ro_report (presented s sn) in
     '(s, summary, status) ← apply_recovered_snapshot cfg clock record_bytes sn report
        (summary_attempted report (ro_diagnostic (presented s sn))) (rt_store (ob_runtime ob));
     Some (set_runtime (with_store s (ob_runtime ob))
             (set_persistence (counting count_recovered (counting count_attempt st)) ob),
           summary, status)).
Proof.
  intros Horder Hio [room Hl _ Hsn Hf _] Hsize Hk Hv Hst. unfold recover_now. rewrite Hst.
  rewrite (recover_newest _ order Horder io next entries older s (segment_of sn) sn _ st Hio Hk Hv Hsize
    (segment_decodes _ sn room Hl Hsn Hf)). done.
Qed.

(** What [start] makes of a process that recovers [sn], from the store [s] it begins with. *)
Definition resumes (cfg : StoreConfig) (clock : nat → ReceiveTime) (record_bytes sequence : Z)
    (sn : DurableSnapshot) (s : Store) (started : option (Observatory * Status)) : Prop :=
  let report := ro_report (presented sequence sn) in
  match apply_recovered_snapshot cfg clock record_bytes sn report
          (summary_attempted report (ro_diagnostic (presented sequence sn))) s with
  | None => started = None
  | Some (s, summary, status) =>
      ∃ ob status', started = Some (ob, status') ∧ ok status' = ok status ∧
        rt_store (ob_runtime ob) = s ∧
        rt_state (ob_runtime ob) =
          (if ok status then RuntimeState.Running else RuntimeState.Created)
  end.

Lemma start_resumes cfg clock record_bytes order config io allowed next entries older s sn s0 dir :
  (∀ entries, order entries ≡ₚ map_to_list entries) → reliable io →
  durable (oc_persistence config) sn → size_of (segment_of sn) <= max_segment_bytes (oc_persistence config) →
  kept next entries → view entries = older ++ [(s, segment_of sn)] →
  oc_persistence_directory config = Some dir → oc_recover_on_start config = true →
  resumes cfg clock record_bytes s sn s0
    (start_observatory cfg clock record_bytes order config io allowed (new_observatory config s0)
       (Present entries)).1.1.
Proof.
  intros Horder Hio Hsn Hsize Hk Hv Hdir Hrecover.
  unfold start_observatory, new_observatory. rewrite Hdir.
  change (startable _) with true. cbn [negb ob_persistence default].
  rewrite (bind_result _ _ _ _ (Present entries)) by
    (by rewrite (open_succeeds _ _ order io allowed _ next entries Horder (db_limits _ _ Hsn) (rl_listable _ Hio) Hk)).
  cbv beta iota zeta. rewrite ok_success. cbn [negb]. unfold on_disk, ret. cbn [fst]. unfold start_opened.
  rewrite Hrecover. cbn [set_runtime set_persistence ob_persistence is_some andb].
  erewrite (recover_now_newest cfg clock record_bytes order config io next entries older s sn);
    [|eassumption..|reflexivity].
  unfold resumes. cbv zeta. cbn [ob_runtime reset_queue rt_store created].
  destruct (apply_recovered_snapshot _ _ _ _ _ _ _) as [[[s1 summary] status]|]; [|done]. cbn.
  destruct (ok status) eqn:E; cbn; eexists _, _; split_and!; (done || by rewrite E).
Qed.

(** C26: the history of a runtime that persists when it stops is presented to the next one.
    The runtime persists on stop and the next recovers on start.  The store's snapshot can be
    built, is data the format can carry ([durable]) and fits the segment limit; the directory
    is one that this program keeps, without a directory under the names of the next segment;
    no call of the file system fails and every listing is complete.  Then [stop] writes the
    snapshot; a process that starts on the directory re-admits it, and its samples are, for
    every queue of the store that stopped, its newest [max_samples_per_queue] records in
    order. *)
Theorem restart_readmits_history (cfg cfg' : StoreConfig) (clock : nat → ReceiveTime)
    (record_bytes : Z) (order : Directory → list (string * Entry)) (config : ObservatoryConfig)
    (io : ReadIo) (wio : WriteIo) (allowed : bool) (ob : Observatory) (st : PersistenceStore)
    (entries : Directory) (sn : DurableSnapshot) (directory : string) (fresh : Store) :
  (∀ entries, order entries ≡ₚ map_to_list entries) → reliable io →
  oc_persistence_directory config = Some directory →
  oc_persist_on_stop config = true → oc_recover_on_start config = true →
  ob_persistence ob = Some st →
  let max_samples := max_samples_per_queue (oc_history config) in
  build_snapshot cfg max_samples (max_events_total (oc_history config)) (rt_store (ob_runtime ob)) =
    Value sn →
  durable (oc_persistence config) sn →
  size_of (segment_of sn) <= max_segment_bytes (oc_persistence config) →
  smooth wio (length (segment_of sn)) →
  kept (ps_next_sequence st) entries → is_u64 (ps_next_sequence st) →
  entries !! segment_temp_name (ps_next_sequence st) ≠ Some Subdirectory →
  entries !! segment_file_name (ps_next_sequence st) ≠ Some Subdirectory →
  match finish_stop cfg order config io wio ob (Present entries) with
  | (_, status, d, _) =>
      status = success ∧
      resumes cfg' clock record_bytes (ps_next_sequence st) sn fresh
        (start_observatory cfg' clock record_bytes order config io allowed
           (new_observatory config fresh) d).1.1 ∧
      ∃ samples, recovered_samples sn = Some samples ∧
        Forall2 (λ record,
            presents (incarnation_tokens (map snd (st_sources (rt_store (ob_runtime ob)))))
              record.1 record.2)
          (persisted_records max_samples (rt_store (ob_runtime ob))) samples
  end.
Proof.
  intros Horder Hio Hdir Hpersist Hrecover Hst max_samples Hbuild Hsn Hsize Hsmooth Hk Hu Htemp Hfinal.
  pose proof (written_disk (oc_persistence config) order io wio sn no_report st entries Horder Hio Hsn
    Hsize Hsmooth Hk Hu Htemp Hfinal) as H.
  pose proof (snapshot_presents_history _ _ _ _ _ Hbuild) as Hsamples.
  unfold finish_stop, persist_now. rewrite Hpersist. cbn [set_runtime ob_persistence ob_runtime].
  rewrite Hst. change (rt_store (stop_discard (ob_runtime ob))) with (rt_store (ob_runtime ob)).
  fold max_samples. rewrite Hbuild. cbn [is_some andb]. unfold mbind, FileOp_bind.
  destruct (write_snapshot _ _ _ _ _ _ _ _) as [[[[st' report'] status] d] visited].
  destruct H as (-> & _ & e & older & -> & Hke & Hv & _). cbn. split; [done|]. split; [|exact Hsamples].
  by eapply start_resumes.
Qed.

(** ** A restart

    A runtime stops, writes what it holds, and the next process presents it. *)

Definition restart_config : ObservatoryConfig :=
  mkObservatoryConfig (cfg_policy example_config) default_ingest_limits (cfg_history example_config)
    (cfg_query example_config) default_persistence_limits default_runtime_limits
    default_transport_limits (Some "state") true true 0.

(** The runtime holds the store of two samples. *)
Definition stopping : Observatory :=
  mkObservatory (created StoreExample.example_store) (Some PersistenceExample.example_store) false
    EmptyString.

Definition stored_snapshot : DurableSnapshot :=
  Eval vm_compute in persisted StoreExample.example_store.

Lemma stored_built :
  build_snapshot example_config (max_samples_per_queue (oc_history restart_config))
    (max_events_total (oc_history restart_config)) (rt_store (ob_runtime stopping)) =
  Value stored_snapshot.
Proof. vm_compute. reflexivity. Qed.

Lemma stored_sample_ok sample :
  sample ∈ dq_samples (hd (mkDurableQueue (mkQueuePath "" "" 0) (durable_classes no_classes) false [])
                         (sn_queues stored_snapshot)) → sample_ok sample.
Proof.
  intros [->|[->|[]%elem_of_nil]%elem_of_cons]%elem_of_cons; (constructor; try decided;
    [repeat (constructor; [by vm_compute|]); constructor|intros field _; by destruct field]).
Qed.

Lemma stored_ok : snapshot_ok default_persistence_limits stored_snapshot.
Proof.
  constructor.
  - constructor; decided.
  - constructor; [|constructor]. constructor; try decided.
    do 2 (constructor; [apply stored_sample_ok; set_solver|]). constructor.
  - constructor; [|constructor]. constructor; try decided. constructor; [|constructor]. split; decided.
  - decided.
  - do 3 (constructor; [constructor; decided|]). constructor.
  - decided.
  - decided.
Qed.

Lemma stored_fits : fits default_persistence_limits (records_of stored_snapshot).
Proof.
  constructor; [|by vm_compute..]. repeat (constructor; [split; by vm_compute|]). constructor.
Qed.

Lemma stored_durable : durable (oc_persistence restart_config) stored_snapshot.
Proof.
  constructor; [by vm_compute|apply default_limits_ok|by vm_compute|apply stored_ok|apply stored_fits|].
  done.
Qed.

Lemma stored_size : size_of (segment_of stored_snapshot) = 947.
Proof. vm_compute. reflexivity. Qed.
Lemma stored_fitting :
  size_of (segment_of stored_snapshot) <= max_segment_bytes (oc_persistence restart_config).
Proof. rewrite stored_size. vm_compute. discriminate. Qed.
Lemma stored_smooth : smooth working_writes (length (segment_of stored_snapshot)).
Proof.
  constructor; [done| |done..]. cbn [w_written working_writes].
  pose proof stored_size as H. unfold size_of in H. lia.
Qed.

Lemma restart_readmits_history_witness :
  match finish_stop example_config in_order restart_config working_reads working_writes stopping
          (Present example_entries) with
  | (_, status, d, _) =>
      status = success ∧
      resumes example_config example_clock example_record_bytes 2 stored_snapshot
        (init_store example_config)
        (start_observatory example_config example_clock example_record_bytes in_order restart_config
           working_reads true (new_observatory restart_config (init_store example_config)) d).1.1 ∧
      ∃ samples, recovered_samples stored_snapshot = Some samples ∧ length samples = 2%nat
  end.
Proof.
  pose proof (restart_readmits_history example_config example_config example_clock example_record_bytes
    in_order restart_config working_reads working_writes true stopping PersistenceExample.example_store
    example_entries stored_snapshot "state" (init_store example_config) in_order_lists working_reliable
    eq_refl eq_refl eq_refl eq_refl stored_built stored_durable stored_fitting stored_smooth
    example_kept next_is_u64 no_temp no_final) as H.
  destruct (finish_stop _ _ _ _ _ _ _) as [[[ob status] d] visited].
  destruct H as (Hs & Hr & samples & Hd & Hp). split; [exact Hs|]. split; [exact Hr|].
  exists samples. split; [exact Hd|].
  apply Forall2_length in Hp. rewrite <- Hp. vm_compute. reflexivity.
Defined.

(** The two samples are presented, and the process runs. *)
Example restarted_process :
  let d := (finish_stop example_config in_order restart_config working_reads working_writes stopping
              (Present example_entries)).1.2 in
  match (start_observatory example_config example_clock example_record_bytes in_order restart_config
           working_reads true (new_observatory restart_config (init_store example_config)) d).1.1 with
  | Some (ob, status) =>
      ok status = true ∧ rt_state (ob_runtime ob) = RuntimeState.Running ∧
      ob_recovered_on_start ob = true ∧ ob_recovery_diagnostic ob = "recovered a clean segment" ∧
      map (λ e : QueuePath * QueueState, (qp_queue e.1, cr_state (q_latest e.2)))
        (st_queues (rt_store (ob_runtime ob))) = [(3, PressureState.Stale)]
  | None => False
  end.
Proof. vm_compute. done. Qed.
