(* ===== verification/Export.v ===== *)
(** * The export query

    [QueueStore::export_data] ([store/Store.cpp]): the queues of a page, and the buckets of
    their windows, one line each, as JSON or as text. *)

From S2P Require Import Prelude Result Checked Text JsonWriter Identity Time Evidence Sample Counter.
From S2P Require Import Metadata Event Limits Policy Rules Explanation Classification.
From S2P Require Import Ring History Window OrderedMap Admission Store StoreOps Queries Decode.
Open Scope Z_scope.

#[local] Set Warnings "-register-all".

Module ExportFormat.
Inductive ExportFormat : Set := Ndjson | Text.
#[export] Instance ExportFormat_eq_dec : EqDecision ExportFormat.
Proof. solve_decision. Defined.

Definition to_string (format : ExportFormat) : string :=
  match format with Ndjson => "ndjson" | Text => "text" end.
Definition parse_export_format (text : string) : option ExportFormat :=
  if bool_decide (text = "ndjson") then Some Ndjson
  else if bool_decide (text = "text") then Some Text
  else None.
End ExportFormat.
#[export] Existing Instance ExportFormat.ExportFormat_eq_dec.
Abbreviation ExportFormat := ExportFormat.ExportFormat.

Record ExportQuery := mkExportQuery {
  eq_filter : QueueFilter;
  eq_page : QueryPagination;
  eq_format : ExportFormat;
  eq_include_history : bool;
  eq_window : WindowSpec
}.

Record ExportResult := mkExportResult {
  ex_document : string;
  ex_rows : nat;
  ex_history_records : nat;
  ex_truncated : bool
}.
Definition no_export : ExportResult := mkExportResult EmptyString 0 0 false.

Definition newline : string := String (byte_char 10) EmptyString.

(** ** The lines *)

Section lines.
Context (session : SessionInfo).

Definition queue_members (path : QueuePath) (q : QueueState) : Writing :=
  let latest := q_latest q in
  WRITE member_string "record" "queue_state" ;;
  WRITE member_u64 "wire_version" kVersion ;;
  WRITE member_string "runtime_id" (ss_runtime_id session) ;;
  WRITE member_string "policy" (cr_policy_name latest) ;;
  WRITE member_u64 "policy_version" (cr_policy_version latest) ;;
  WRITE member_string "queue" (path_to_string path) ;;
  WRITE member_string "state" (PressureState.to_string (cr_state latest)) ;;
  WRITE member_string "assessment" (describe (cr_assessment latest)) ;;
  WRITE member_string "basis" (pb_label (cr_basis latest)) ;;
  WRITE member_string "deciding_rule" (RuleId.rule_name (cr_deciding_rule latest)) ;;
  WRITE member_u64 "explanation_digest" (cr_explanation_digest latest) ;;
  WRITE member_u64 "history_records" (Z.of_nat (history_size (q_history q))) ;;
  WRITE member_u64 "history_capacity" (Z.of_nat (history_capacity (q_history q))) ;;
  WRITE member_u64 "accepted" (q_accepted q) ;;
  WRITE member_u64 "conflicts" (q_conflicts q) ;;
  WRITE member_string "last_received_wall" (format_wall_utc (wall (q_last_received q))) ;;
  member_string "last_received_steady" (format_steady (steady (q_last_received q))).

Definition queue_text (path : QueuePath) (q : QueueState) : string :=
  path_to_string path +:+ " state=" +:+ PressureState.to_string (cr_state (q_latest q)) +:+ " " +:+
  render_explanation_summary (q_latest q).

Definition bucket_members (path : QueuePath) (window : WindowSpec) (bucket : WindowBucket) : Writing :=
  WRITE member_string "record" "window_bucket" ;;
  WRITE member_string "queue" (path_to_string path) ;;
  WRITE member_string "window" (ws_name window) ;;
  WRITE member_i64 "bucket_start_steady_ns" (wb_start_ns bucket) ;;
  WRITE member_u64 "samples" (wb_sample_count bucket) ;;
  WRITE write_some (wb_occupancy bucket) (λ '(maximum, minimum, last),
    WRITE member_u64 "occupancy_max" maximum ;;
    WRITE member_u64 "occupancy_min" minimum ;;
    member_u64 "occupancy_last" last) ;;
  WRITE member_u64 "drops" (sum_drops (wb_sums bucket)) ;;
  WRITE member_u64 "marks" (sum_marks (wb_sums bucket)) ;;
  WRITE member_u64 "pause_frames" (sum_pause_frames (wb_sums bucket)) ;;
  WRITE member_u64 "pause_nanos" (sum_pause_nanos (wb_sums bucket)) ;;
  member_u64 "unknown_delta_samples" (wb_unknown_delta_samples bucket).
End lines.

(** ** The loop *)

Section export.
Context (cfg : StoreConfig) (now_ns : Nanos) (query : ExportQuery).

(** The result, the text and the number of matches. *)
Definition Exporting : Type := ExportResult * string * Z.

Definition is_json : bool := bool_decide (eq_format query = ExportFormat.Ndjson).

Definition append_document (line : string) (result : ExportResult) : ExportResult :=
  mkExportResult (ex_document result +:+ line +:+ newline) (ex_rows result)
    (ex_history_records result) (ex_truncated result).
Definition count_row (result : ExportResult) : ExportResult :=
  mkExportResult (ex_document result) (S (ex_rows result)) (ex_history_records result)
    (ex_truncated result).
Definition count_history (result : ExportResult) : ExportResult :=
  mkExportResult (ex_document result) (ex_rows result) (S (ex_history_records result))
    (ex_truncated result).
Definition cut (result : ExportResult) : ExportResult :=
  mkExportResult (ex_document result) (ex_rows result) (ex_history_records result) true.

(** The buckets of a window, those without samples left out. *)
Fixpoint export_buckets (path : QueuePath) (buckets : list WindowBucket) (result : ExportResult) :
    ExportResult * Status :=
  match buckets with
  | [] => (result, success)
  | bucket :: buckets =>
      if wb_sample_count bucket =? 0 then export_buckets path buckets result
      else
        match written false (value_object (bucket_members path (eq_window query) bucket)) with
        | Failure e => (result, e)
        | Value line => export_buckets path buckets (count_history (append_document line result))
        end
  end.

Definition export_window (path : QueuePath) (q : QueueState) (result : ExportResult) :
    ExportResult * Status :=
  let '(accumulator, configured) := configure (eq_window query) no_accumulator in
  if negb (ok configured) then (result, configured)
  else
    let accumulator := expire now_ns (observe_history (q_history q) accumulator) in
    if is_json then export_buckets path (buckets accumulator) result else (result, success).

(** One queue that is on the page. *)
Definition export_queue (path : QueuePath) (q : QueueState) (result : ExportResult) (text : string) :
    ExportResult * string * Status :=
  let '(result, text, status) :=
    if is_json then
      match written false (value_object (queue_members (cfg_session cfg) path q)) with
      | Failure e => (result, text, e)
      | Value line => (append_document line result, text, success)
      end
    else (result, text +:+ queue_text path q +:+ newline, success) in
  if negb (ok status) then (result, text, status)
  else
    let result := count_row result in
    if eq_include_history query then
      let '(result, status) := export_window path q result in
      (result, text, status)
    else (result, text, success).

Fixpoint export_loop (entries : list (QueuePath * QueueState)) (st : Exporting) : Exporting * Status :=
  match entries with
  | [] => (st, success)
  | (path, q) :: entries =>
      let '(result, text, matched) := st in
      if negb (matches_filter (eq_filter query) path (q_classes q) (cr_state (q_latest q))) then
        export_loop entries st
      else
        let matched := matched + 1 in
        if matched <=? pg_offset (eq_page query) then export_loop entries (result, text, matched)
        else if page_limit (cfg_query cfg) (eq_page query) <=? Z.of_nat (ex_rows result) then
          export_loop entries (cut result, text, matched)
        else
          let '(result, text, status) := export_queue path q result text in
          if negb (ok status) then ((result, text, matched), status)
          else export_loop entries (result, text, matched)
  end.
End export.

Definition export_data (cfg : StoreConfig) (clock : nat → ReceiveTime) (query : ExportQuery)
    (s : Store) : ExportResult * Status :=
  if negb (ok (cfg_status cfg)) then (no_export, cfg_status cfg)
  else
    let spec_status :=
      if eq_include_history query then validate_window_spec (eq_window query) else success in
    if negb (ok spec_status) then (no_export, spec_status)
    else
      let '((result, text, _), status) :=
        export_loop cfg (steady (clock 0%nat)) query (st_queues s) (no_export, EmptyString, 0) in
      if negb (ok status) then (result, status)
      else
        (if bool_decide (eq_format query = ExportFormat.Text) then
           mkExportResult text (ex_rows result) (ex_history_records result) (ex_truncated result)
         else result, success).
