(* ===== verification/ExportTheorems.v ===== *)
(** * What an export says

    An export is a page of the matching queues: one line each, with the buckets of its window
    after it.  The lines of an NDJSON export are the documents they are meant to be: split at
    the newlines, each is read back by the parser as the object that was written. *)

From S2P Require Import Prelude Result Checked Text Json JsonBounds JsonWriter JsonRoundTrip Identity.
From S2P Require Import Time Evidence Sample Counter Metadata Event Limits Policy Rules Explanation.
From S2P Require Import Classification Ring History Window OrderedMap Admission Store StoreOps Queries.
From S2P Require Import QueryTheorems Decode SampleRoundTrip StoreExample Export.
Open Scope Z_scope.

#[local] Set Warnings "-register-all".

(** ** The objects *)

Section objects.
Context (session : SessionInfo).

Definition queue_object_members (path : QueuePath) (q : QueueState) : list Member :=
  let latest := q_latest q in
  [ ("record", JString "queue_state"); ("wire_version", JUint kVersion);
    ("runtime_id", JString (ss_runtime_id session)); ("policy", JString (cr_policy_name latest));
    ("policy_version", JUint (cr_policy_version latest)); ("queue", JString (path_to_string path));
    ("state", JString (PressureState.to_string (cr_state latest)));
    ("assessment", JString (describe (cr_assessment latest)));
    ("basis", JString (pb_label (cr_basis latest)));
    ("deciding_rule", JString (RuleId.rule_name (cr_deciding_rule latest)));
    ("explanation_digest", JUint (cr_explanation_digest latest));
    ("history_records", JUint (Z.of_nat (history_size (q_history q))));
    ("history_capacity", JUint (Z.of_nat (history_capacity (q_history q))));
    ("accepted", JUint (q_accepted q)); ("conflicts", JUint (q_conflicts q));
    ("last_received_wall", JString (format_wall_utc (wall (q_last_received q))));
    ("last_received_steady", JString (format_steady (steady (q_last_received q)))) ].
Definition queue_object path q : JsonValue := object_of (queue_object_members path q).

Definition occupancy_members (occupancy : option (Z * Z * Z)) : list Member :=
  match occupancy with
  | Some (maximum, minimum, last) =>
      [("occupancy_max", JUint maximum); ("occupancy_min", JUint minimum);
       ("occupancy_last", JUint last)]
  | None => []
  end.
Definition bucket_object_members (path : QueuePath) (window : WindowSpec) (bucket : WindowBucket) :
    list Member :=
  [ ("record", JString "window_bucket"); ("queue", JString (path_to_string path));
    ("window", JString (ws_name window)); ("bucket_start_steady_ns", signed_value (wb_start_ns bucket));
    ("samples", JUint (wb_sample_count bucket)) ] ++
  occupancy_members (wb_occupancy bucket) ++
  [ ("drops", JUint (sum_drops (wb_sums bucket))); ("marks", JUint (sum_marks (wb_sums bucket)));
    ("pause_frames", JUint (sum_pause_frames (wb_sums bucket)));
    ("pause_nanos", JUint (sum_pause_nanos (wb_sums bucket)));
    ("unknown_delta_samples", JUint (wb_unknown_delta_samples bucket)) ].
Definition bucket_object path window bucket : JsonValue :=
  object_of (bucket_object_members path window bucket).

Lemma queue_written path q :
  written false (value_object (queue_members session path q)) =
    Value (json_text false 0 (queue_object path q)).
Proof.
  apply written_text, writes_value_object. unfold queue_members, queue_object_members. cbv zeta.
  repeat (apply builds_cons; [auto with qobs|]). apply builds_last. auto with qobs.
Qed.

Lemma bucket_written path window bucket :
  written false (value_object (bucket_members path window bucket)) =
    Value (json_text false 0 (bucket_object path window bucket)).
Proof.
  apply written_text, writes_value_object. unfold bucket_members, bucket_object_members.
  do 5 (apply builds_cons; [auto with qobs|]). cbn [app].
  apply (builds_then _ _ _ (occupancy_members (wb_occupancy bucket))).
  - destruct (wb_occupancy bucket) as [[[maximum minimum] last]|]; [|apply builds_nothing]. cbn.
    repeat (apply builds_cons; [auto with qobs|]). apply builds_last. auto with qobs.
  - repeat (apply builds_cons; [auto with qobs|]). apply builds_last. auto with qobs.
Qed.
End objects.

(** ** The loop, as a page *)

Fixpoint lines_text (lines : list string) : string :=
  match lines with [] => EmptyString | line :: lines => line +:+ newline +:+ lines_text lines end.

Lemma lines_text_app a b : lines_text (a ++ b) = lines_text a +:+ lines_text b.
Proof.
  induction a as [|line a IH]; [done|]. cbn [app lines_text]. rewrite IH.
  by rewrite !string_app_assoc.
Qed.

Lemma lines_text_one a : lines_text [a] = a +:+ newline.
Proof. cbn [lines_text]. by rewrite string_app_nil_r. Qed.

(** The lines of a document are its pieces between newlines; nothing follows the last one. *)
Lemma lines_split lines :
  Forall (no_sep (byte_char 10)) lines → split (lines_text lines) (byte_char 10) = lines ++ [EmptyString].
Proof.
  induction 1 as [|line lines Hl _ IH]; [done|]. cbn [lines_text app].
  rewrite <- IH. by apply split_cons.
Qed.

Section export.
Context (cfg : StoreConfig) (now_ns : Nanos) (query : ExportQuery).

Abbreviation Row := (QueuePath * QueueState)%type.

(** The buckets that are exported for a queue. *)
Definition exported_buckets (q : QueueState) : list WindowBucket :=
  if eq_include_history query then
    List.filter (λ bucket, negb (wb_sample_count bucket =? 0))
      (buckets (expire now_ns
                  (observe_history (q_history q) (configure (eq_window query) no_accumulator).1)))
  else [].
Definition row_objects (row : Row) : list JsonValue :=
  queue_object (cfg_session cfg) row.1 row.2 ::
  map (bucket_object row.1 (eq_window query)) (exported_buckets row.2).
Definition object_lines (objects : list JsonValue) : list string := map (json_text false 0) objects.
Lemma object_lines_app a b : object_lines (a ++ b) = object_lines a ++ object_lines b.
Proof using. apply map_app. Qed.
Definition row_text (row : Row) : string := queue_text row.1 row.2.

Lemma append_lines line result lines :
  ex_document result = lines_text lines →
  append_document line result =
    mkExportResult (lines_text (lines ++ [line])) (ex_rows result) (ex_history_records result)
      (ex_truncated result).
Proof using.
  intros H. unfold append_document. by rewrite H, lines_text_app, lines_text_one.
Qed.

Lemma buckets_exported path bs lines rows count truncated :
  let kept := List.filter (λ bucket, negb (wb_sample_count bucket =? 0)) bs in
  export_buckets query path bs (mkExportResult (lines_text lines) rows count truncated) =
  (mkExportResult (lines_text (lines ++ object_lines (map (bucket_object path (eq_window query)) kept)))
     rows (count + length kept) truncated, success).
Proof using.
  cbv zeta. revert lines count. induction bs as [|bucket bs IH]; intros lines count.
  { cbn. by rewrite app_nil_r, Nat.add_0_r. }
  cbn [export_buckets List.filter]. destruct (wb_sample_count bucket =? 0); cbn [negb]; [apply IH|].
  rewrite bucket_written, (append_lines _ _ lines) by done. unfold count_history. cbn [ex_document
    ex_rows ex_history_records ex_truncated]. rewrite IH. cbn [map length object_lines].
  rewrite <- app_assoc. cbn [app]. by rewrite Nat.add_succ_comm.
Qed.

Context (window_ok : eq_include_history query = true → ok (validate_window_spec (eq_window query)) = true).

Lemma window_exported path q lines rows count truncated :
  eq_include_history query = true →
  export_window now_ns query path q (mkExportResult (lines_text lines) rows count truncated) =
  ((if is_json query then
      mkExportResult
        (lines_text (lines ++ object_lines (map (bucket_object path (eq_window query)) (exported_buckets q))))
        rows (count + length (exported_buckets q)) truncated
    else mkExportResult (lines_text lines) rows count truncated), success).
Proof using window_ok.
  intros Hinc. unfold export_window, exported_buckets. rewrite Hinc. unfold configure.
  rewrite (window_ok Hinc). cbn [fst]. rewrite ok_success. cbn [negb].
  destruct (is_json query); [apply buckets_exported|done].
Qed.

Lemma queue_exported path q lines rows count truncated text :
  export_queue cfg now_ns query path q (mkExportResult (lines_text lines) rows count truncated) text =
  (if is_json query then
     (mkExportResult (lines_text (lines ++ object_lines (row_objects (path, q)))) (S rows)
        (count + length (exported_buckets q)) truncated, text, success)
   else
     (mkExportResult (lines_text lines) (S rows) count truncated,
      text +:+ row_text (path, q) +:+ newline, success)).
Proof using window_ok.
  pose proof (window_exported path q) as Hw. unfold export_queue. destruct (is_json query) eqn:Hj.
  - rewrite queue_written, (append_lines _ _ lines) by done. rewrite ok_success. cbn [negb].
    unfold count_row. cbn [ex_document ex_rows ex_history_records ex_truncated].
    destruct (eq_include_history query) eqn:Hinc.
    + rewrite Hw by done. by rewrite <- app_assoc.
    + unfold row_objects, exported_buckets. rewrite Hinc. cbn [map length object_lines fst snd].
      rewrite Nat.add_0_r. reflexivity.
  - rewrite ok_success. cbn [negb]. unfold count_row. cbn [ex_document ex_rows ex_history_records ex_truncated].
    destruct (eq_include_history query) eqn:Hinc; [|done]. by rewrite Hw by done.
Qed.

(** What a page of rows is exported as. *)
Definition exporting (p : Page Row) : Exporting :=
  (mkExportResult
     (lines_text (if is_json query then object_lines (flat_map row_objects (page_rows p)) else []))
     (length (page_rows p))
     (if is_json query then length (flat_map (λ row, exported_buckets row.2) (page_rows p)) else 0)
     (page_truncated p),
   lines_text (if is_json query then [] else map row_text (page_rows p)), page_total p).

Abbreviation offset := (pg_offset (eq_page query)).
Abbreviation limit := (page_limit (cfg_query cfg) (eq_page query)).

Lemma page_added (row : Row) (p : Page Row) entries :
  matches_filter (eq_filter query) row.1 (q_classes row.2) (cr_state (q_latest row.2)) = true →
  export_loop cfg now_ns query (row :: entries) (exporting p) =
  export_loop cfg now_ns query entries (exporting (page_add offset limit row p)).
Proof using window_ok.
  intros Hm. destruct row as [path q]. cbn [fst snd] in Hm. cbn [export_loop exporting].
  rewrite Hm. cbn [negb ex_rows]. unfold page_add.
  destruct (page_total p + 1 <=? offset); [done|].
  destruct (limit <=? Z.of_nat (length (page_rows p))); [done|].
  rewrite queue_exported. unfold exporting. cbn [page_rows page_total page_truncated].
  destruct (is_json query); rewrite ok_success; cbn [negb]; rewrite length_app, Nat.add_1_r.
  - rewrite !flat_map_app, object_lines_app, length_app. cbn [flat_map snd].
    by rewrite !app_nil_r.
  - rewrite map_app, lines_text_app. cbn [map]. by rewrite lines_text_one.
Qed.

Definition row_matches (row : Row) : bool :=
  matches_filter (eq_filter query) row.1 (q_classes row.2) (cr_state (q_latest row.2)).

Lemma loop_exported entries p :
  export_loop cfg now_ns query entries (exporting p) =
  (exporting (fold_left (λ p row, page_add offset limit row p) (List.filter row_matches entries) p),
   success).
Proof using window_ok.
  revert p. induction entries as [|row entries IH]; intros p; [done|]. cbn [List.filter].
  destruct (row_matches row) eqn:E.
  - cbn [fold_left]. rewrite page_added by done. apply IH.
  - rewrite <- IH. destruct row as [path q]. unfold row_matches in E. cbn [fst snd] in E.
    cbn [export_loop exporting]. by rewrite E.
Qed.
End export.

(** ** Every line is read back *)

(** The parser's default limits let every value of a queue's lines through. *)
Definition row_small (cfg : StoreConfig) (now_ns : Nanos) (query : ExportQuery)
    (row : QueuePath * QueueState) : Prop :=
  Forall (λ kv : Member, small_leaf kv.2) (queue_object_members (cfg_session cfg) row.1 row.2) ∧
  Forall (λ bucket, Forall (λ kv : Member, small_leaf kv.2)
            (bucket_object_members row.1 (eq_window query) bucket))
    (exported_buckets now_ns query row.2).

Lemma queue_flat session path q :
  Forall (λ kv : Member, small_leaf kv.2) (queue_object_members session path q) →
  flat_ok (queue_object_members session path q).
Proof. intros H. constructor; [not_in|not_in|cbn; lia|done]. Qed.

Lemma bucket_flat path window bucket :
  Forall (λ kv : Member, small_leaf kv.2) (bucket_object_members path window bucket) →
  flat_ok (bucket_object_members path window bucket).
Proof.
  intros H. unfold bucket_object_members in *.
  destruct (wb_occupancy bucket) as [[[maximum minimum] last]|]; (constructor; [not_in|not_in|cbn; lia|done]).
Qed.

Lemma row_lines cfg now_ns query row object :
  row_small cfg now_ns query row → object ∈ row_objects cfg now_ns query row →
  ∃ kvs, object = object_of kvs ∧ flat_ok kvs.
Proof.
  intros [Hq Hb] [->|Hin]%elem_of_cons.
  - eexists. split; [done|by apply queue_flat].
  - apply list_elem_of_fmap in Hin as (bucket & -> & Hin). eexists. split; [done|].
    apply bucket_flat. rewrite Forall_forall in Hb. by apply Hb.
Qed.

(** C17: an export is the page it claims to be, line by line.  It succeeds, counts the rows of
    the page and says whether queues were left out; a text export holds one line for each
    queue of the page, in the order of the paths.  An NDJSON export, split at its newlines,
    is the texts of the queues' objects, each followed by those of its buckets, and the
    parser reads every line back as its object. *)
Theorem export_lines_parse (cfg : StoreConfig) (clock : nat → ReceiveTime) (query : ExportQuery)
    (s : Store) (double_in_range : string → bool) :
  let offset := pg_offset (eq_page query) in
  let limit := page_limit (cfg_query cfg) (eq_page query) in
  let now_ns := steady (clock 0%nat) in
  ok (cfg_status cfg) = true →
  (eq_include_history query = true → ok (validate_window_spec (eq_window query)) = true) →
  0 <= offset → 0 <= limit →
  let matching := List.filter (row_matches query) (st_queues s) in
  let page := slice offset limit matching in
  let objects := flat_map (row_objects cfg now_ns query) page in
  let '(result, status) := export_data cfg clock query s in
  status = success ∧ ex_rows result = length page ∧
  ex_truncated result = (offset + limit <? Z.of_nat (length matching)) ∧
  match eq_format query with
  | ExportFormat.Text => ex_document result = lines_text (map row_text page)
  | ExportFormat.Ndjson =>
      Forall (row_small cfg now_ns query) page →
      split (ex_document result) (byte_char 10) = object_lines objects ++ [EmptyString] ∧
      Forall (λ object,
        parse_json default_json_limits double_in_range (json_text false 0 object) = Value object) objects
  end.
Proof.
  intros offset limit now_ns Hcfg Hwindow Ho Hl matching page objects. unfold export_data. rewrite Hcfg.
  assert (ok (if eq_include_history query then validate_window_spec (eq_window query) else success) = true)
    as -> by (destruct (eq_include_history query); auto).
  cbn [negb]. fold now_ns.
  assert ((no_export, EmptyString, 0) = exporting cfg now_ns query no_page) as ->.
  { unfold exporting. by destruct (is_json query). }
  rewrite loop_exported by done.
  change (fold_left _ (List.filter (row_matches query) (st_queues s)) no_page)
    with (page_all offset limit matching).
  rewrite page_all_spec by done. fold page. unfold exporting. cbn [page_rows page_total page_truncated].
  rewrite ok_success. cbn [negb]. unfold is_json.
  destruct (eq_format query).
  - rewrite (bool_decide_eq_true_2 (ExportFormat.Ndjson = ExportFormat.Ndjson)) by done.
    rewrite (bool_decide_eq_false_2 (ExportFormat.Ndjson = ExportFormat.Text)) by done.
    cbn [ex_document ex_rows ex_truncated]. split_and!; try done. intros Hsmall.
    assert (∀ object, object ∈ objects → ∃ kvs, object = object_of kvs ∧ flat_ok kvs) as Hflat.
    { intros object Hin%list_elem_of_In. apply in_flat_map in Hin as (row & Hrow & Hin).
      rewrite Forall_forall in Hsmall. apply list_elem_of_In in Hrow, Hin.
      exact (row_lines _ _ _ _ _ (Hsmall _ Hrow) Hin). }
    split.
    + apply lines_split, Forall_map, Forall_forall. intros object Hin.
      destruct (Hflat object Hin) as (kvs & -> & H). by apply flat_one_line.
    + apply Forall_forall. intros object Hin. destruct (Hflat object Hin) as (kvs & -> & H).
      by apply flat_reads.
  - rewrite (bool_decide_eq_false_2 (ExportFormat.Text = ExportFormat.Ndjson)) by done.
    by rewrite (bool_decide_eq_true_2 (ExportFormat.Text = ExportFormat.Text)) by done.
Qed.

(** ** An example *)

Definition export_example (format : ExportFormat) : ExportQuery :=
  mkExportQuery no_filter (mkPagination 0 0) format true (mkWindowSpec "w" 32000 1000 1 64).

#[local] Instance small_leaf_dec v : Decision (small_leaf v).
Proof. destruct v; cbn; unfold is_u64; apply _. Defined.

Abbreviation ndjson := (export_example ExportFormat.Ndjson).
Abbreviation example_now := (steady (example_clock 0)).
Abbreviation example_page :=
  (slice 0 1000 (List.filter (row_matches ndjson) (st_queues example_store))).
Abbreviation example_export := (export_data example_config example_clock ndjson example_store).1.

Lemma example_rows_small : Forall (row_small example_config example_now ndjson) example_page.
Proof.
  apply (bool_decide_unpack _). unfold row_small. vm_compute. exact I.
Qed.

Lemma export_lines_parse_witness :
  ex_rows example_export = 1%nat ∧ ex_history_records example_export = 2%nat ∧
  split (ex_document example_export) (byte_char 10) =
    object_lines (flat_map (row_objects example_config example_now ndjson) example_page) ++ [EmptyString] ∧
  Forall (λ object,
      parse_json default_json_limits (λ _, true) (json_text false 0 object) = Value object)
    (flat_map (row_objects example_config example_now ndjson) example_page).
Proof.
  assert (ex_history_records example_export = 2%nat) as Hcount by (vm_compute; reflexivity).
  assert (length example_page = 1%nat) as Hlength by (vm_compute; reflexivity).
  assert (ok (cfg_status example_config) = true) as Hcfg by (vm_compute; reflexivity).
  assert (ok (validate_window_spec (eq_window ndjson)) = true) as Hspec by (vm_compute; reflexivity).
  pose proof (export_lines_parse example_config example_clock ndjson example_store (λ _, true) Hcfg
    (λ _, Hspec) ltac:(cbn; lia) ltac:(vm_compute; discriminate)) as H.
  destruct (export_data example_config example_clock ndjson example_store) as [result status].
  cbn [fst snd] in *. destruct H as (_ & Hrows & _ & Hlines).
  destruct (Hlines example_rows_small) as [Hsplit Hparse].
  split; [rewrite Hrows; exact Hlength|]. split; [exact Hcount|]. split; [exact Hsplit|exact Hparse].
Defined.

(** What an export of text says of the buckets: nothing. *)
Lemma text_export_has_no_history :
  ex_history_records (export_data example_config example_clock (export_example ExportFormat.Text)
                        example_store).1 = 0%nat ∧
  ex_document (export_data example_config example_clock (export_example ExportFormat.Text) example_store).1 =
  ex_document (export_data example_config example_clock
    (mkExportQuery no_filter (mkPagination 0 0) ExportFormat.Text false (mkWindowSpec "w" 32000 1000 1 64))
    example_store).1.
Proof. vm_compute. done. Qed.
