(* ===== verification/Report.v ===== *)
(** * Reports

    [runtime/Export.cpp]: the text in which the command line shows the results of queries,
    one line for each row. *)

From S2P Require Import Prelude Result Checked Text Bytes Identity Time Evidence Sample Counter.
From S2P Require Import Metadata Event Limits Policy Rules Explanation Classification.
From S2P Require Import Ring History Window OrderedMap Admission Store StoreOps Queries Contention.
From S2P Require Import Decode Ingest Runtime Codec Format Recovery Persistence Lifecycle Export.
Open Scope Z_scope.

#[local] Set Warnings "-register-all".

Definition truth (b : bool) : string := if b then "true" else "false".
Definition number (n : Z) : string := u64_to_string n.

(** ** Tables *)

Fixpoint row_cells (first : bool) (cells : list string) (widths : list nat) : string :=
  match cells, widths with
  | cell :: cells, width :: widths =>
      (if first then EmptyString else " ") +:+ pad_right cell width +:+ row_cells false cells widths
  | _, _ => EmptyString
  end.
Definition append_row (cells : list string) (widths : list nat) : string :=
  row_cells true cells widths +:+ newline.

Definition rows_text {A} (f : A → string) (rows : list A) : string :=
  fold_right (λ row text, f row +:+ text) EmptyString rows.

Definition page_footer {A} (p : Page A) : string :=
  "matched=" +:+ number (page_total p) +:+ " returned=" +:+ number (size_of (page_rows p)) +:+
  " truncated=" +:+ truth (page_truncated p) +:+ newline.

Definition inspect_widths : list nat := [28; 8; 12; 12; 10; 8; 8; 8; 8; 8]%nat.
Definition inspect_cells (row : InspectRow) : list string :=
  [ sanitize_for_display (path_to_string (ir_queue row)) 28; PressureState.to_string (ir_state row);
    Freshness.to_string (ea_freshness (ir_assessment row));
    EvidenceQuality.to_string (ea_quality (ir_assessment row));
    number (Z.of_nat (ir_history_records row)); number (ir_counter_wraps row);
    number (ir_counter_resets row); number (ir_counter_ambiguous row);
    number (ir_counter_discontinuous row); number (ir_accepted row) ].
Definition render_inspect_table (result : Page InspectRow) (header : bool) : string :=
  (if header then
     append_row ["QUEUE"; "STATE"; "FRESHNESS"; "QUALITY"; "RECORDS"; "WRAPS"; "RESETS"; "AMBIG";
                 "DISCONT"; "ACCEPTED"] inspect_widths
   else EmptyString) +:+
  rows_text (λ row, append_row (inspect_cells row) inspect_widths) (page_rows result) +:+
  page_footer result.

Definition reported (value : option Z) : string :=
  match value with Some n => number n | None => "not_reported" end.

Definition pressure_widths : list nat := [28; 12; 22; 14; 14; 16]%nat.
Definition pressure_cells (row : PressureRow) : list string :=
  [ sanitize_for_display (path_to_string (Queries.pr_queue row)) 28;
    PressureState.to_string (pr_state row); sanitize_for_display (pb_label (pr_basis row)) 22;
    reported (pb_value (pr_basis row)); reported (pb_limit (pr_basis row));
    RuleId.rule_name (pr_deciding_rule row) ].
Definition render_pressure_table (result : Page PressureRow) (header : bool) : string :=
  (if header then
     append_row ["QUEUE"; "STATE"; "BASIS"; "VALUE"; "LIMIT"; "DECIDING_RULE"] pressure_widths
   else EmptyString) +:+
  rows_text (λ row, append_row (pressure_cells row) pressure_widths) (page_rows result) +:+
  page_footer result.

(** ** History *)

Definition aggregate_lines (a : WindowAggregate) : string :=
  "window=" +:+ ws_name (wa_spec a) +:+ " buckets=" +:+ number (wa_bucket_count a) +:+
  " covered=" +:+ number (wa_covered_buckets a) +:+
  " coverage_sufficient=" +:+ truth (wa_coverage_sufficient a) +:+ newline +:+
  "samples=" +:+ number (wa_sample_count a) +:+
  " occupancy_max=" +:+ reported ((λ o, o.1.1) <$> wa_occupancy a) +:+
  " occupancy_min=" +:+ reported ((λ o, o.1.2) <$> wa_occupancy a) +:+
  " occupancy_last=" +:+ reported (snd <$> wa_occupancy a) +:+
  " excursion=" +:+ number (wa_occupancy_excursion a) +:+ newline +:+
  "drops=" +:+ number (sum_drops (wa_sums a)) +:+ " marks=" +:+ number (sum_marks (wa_sums a)) +:+
  " pause_frames=" +:+ number (sum_pause_frames (wa_sums a)) +:+
  " pause_nanos=" +:+ number (sum_pause_nanos (wa_sums a)) +:+
  " unknown_delta_samples=" +:+ number (wa_unknown_delta_samples a) +:+ newline +:+
  "assessment=" +:+ describe (wa_assessment a) +:+ newline.

Definition record_line (record : HistoryRecord) : string :=
  "  " +:+ format_wall_utc (wall (hr_received record)) +:+
  " state=" +:+ PressureState.to_string (hr_state record) +:+
  " freshness=" +:+ Freshness.to_string (hr_freshness record) +:+
  " quality=" +:+ EvidenceQuality.to_string (hr_quality record) +:+
  " source=" +:+ sanitize_for_display (hr_source record) 32 +:+
  " sequence=" +:+ id_to_string (hr_sequence record) +:+
  (match record_value record SampleField.OccupancyCells with
   | Some cells => " occupancy_cells=" +:+ number cells
   | None => EmptyString
   end) +:+
  (let drops := record_delta record SampleField.DropPackets in
   if cd_known drops then " drop_delta=" +:+ number (cd_delta drops) else EmptyString) +:+ newline.

Definition render_history_report (result : HistoryResult) : string :=
  "queue=" +:+ path_to_string (ht_queue result) +:+ " found=" +:+ truth (ht_found result) +:+ newline +:+
  (if negb (ht_found result) then EmptyString
   else
     aggregate_lines (ht_aggregate result) +:+
     "records_retained=" +:+ number (Z.of_nat (ht_records_retained result)) +:+
     " records_evicted=" +:+ number (ht_records_evicted result) +:+
     " records_returned=" +:+ number (size_of (ht_records result)) +:+
     " truncated=" +:+ truth (ht_truncated result) +:+ newline +:+
     rows_text record_line (ht_records result)).

(** ** Bursts and contention *)

Definition burst_line (record : MicroburstRecord) : string :=
  sanitize_for_display (path_to_string (mr_queue record)) 28 +:+
  " detected=" +:+ truth (mr_detected record) +:+ " excursion=" +:+ number (mr_excursion record) +:+
  " required=" +:+ number (mr_required_excursion record) +:+ " peak=" +:+ number (mr_peak record) +:+
  " trough=" +:+ number (mr_trough record) +:+
  " covered_buckets=" +:+ number (mr_covered_buckets record) +:+ "/" +:+
  number (mr_required_buckets record) +:+
  " coverage_sufficient=" +:+ truth (mr_coverage_sufficient record) +:+
  " sub_sample_reconstructed=false" +:+ newline.
Definition render_microburst_report (result : MicroburstResult) : string :=
  "queues_examined=" +:+ number (mb_queues_examined result) +:+
  " queues_insufficient_coverage=" +:+ number (mb_queues_insufficient result) +:+
  " records=" +:+ number (size_of (page_rows (mb_records result))) +:+
  " truncated=" +:+ truth (page_truncated (mb_records result)) +:+ newline +:+
  rows_text burst_line (page_rows (mb_records result)).

Definition contention_line (record : ContentionRecord) : string :=
  port_to_string (cr_port record) +:+
  " class=" +:+ sanitize_for_display (cr_scheduling_class record) 16 +:+
  " a=" +:+ path_to_string (cr_queue_a record) +:+ " b=" +:+ path_to_string (cr_queue_b record) +:+
  " ratio=" +:+ number (cr_ratio_numerator record) +:+ "/" +:+ number (cr_ratio_denominator record) +:+
  " simultaneous=" +:+ number (cr_simultaneous_buckets record) +:+
  " covered=" +:+ number (cr_covered_buckets record) +:+ newline.
Definition render_contention_report (result : ContentionResult) : string :=
  "ports_examined=" +:+ number (cx_ports_examined result) +:+
  " pairs_examined=" +:+ number (cx_pairs_examined result) +:+
  " pairs_insufficient_coverage=" +:+ number (cx_pairs_insufficient_coverage result) +:+
  " records=" +:+ number (size_of (page_rows (cx_records result))) +:+
  " truncated=" +:+ truth (page_truncated (cx_records result)) +:+ newline +:+
  rows_text contention_line (page_rows (cx_records result)).

(** ** Events, sources and conflicts *)

Definition render_events_report (result : Page EventRecord) : string :=
  rows_text (λ event, render_event event +:+ newline) (page_rows result) +:+ page_footer result.

Definition source_line (source : SourceRecord) : string :=
  sanitize_for_display (sr_id source) 32 +:+
  " authority=" +:+ SourceAuthority.to_string (sr_authority source) +:+
  " incarnation=" +:+ sanitize_for_display (sr_incarnation source) 32 +:+
  " ordinal=" +:+ number (sr_incarnation_ordinal source) +:+
  " generation=" +:+ id_to_string (sr_generation source) +:+
  " last_sequence=" +:+ id_to_string (sr_last_sequence source) +:+
  " accepted=" +:+ number (sr_accepted source) +:+ " fenced=" +:+ number (sr_fenced source) +:+
  " duplicates=" +:+ number (sr_duplicates source) +:+ newline.
Definition render_sources_report (sources : list SourceRecord) : string :=
  rows_text source_line sources +:+ "sources=" +:+ number (size_of sources) +:+ newline.

Definition conflict_line (conflict : ConflictRecord) : string :=
  format_wall_utc (wall (cn_detected conflict)) +:+
  " queue=" +:+ path_to_string (cn_queue conflict) +:+
  " a=" +:+ sanitize_for_display (cn_source_a conflict) 32 +:+
  " b=" +:+ sanitize_for_display (cn_source_b conflict) 32 +:+
  " value_a=" +:+ number (cn_value_a conflict) +:+ " value_b=" +:+ number (cn_value_b conflict) +:+
  " difference=" +:+ number (cn_difference conflict) +:+
  " tolerance=" +:+ number (cn_tolerance conflict) +:+ " active=" +:+ truth (cn_active conflict) +:+ newline.
Definition render_conflicts_report (conflicts : list ConflictRecord) : string :=
  rows_text conflict_line conflicts +:+ "conflicts=" +:+ number (size_of conflicts) +:+ newline.

(** ** Ingestion *)

Definition diagnostic_line (diagnostic : DecodeDiagnostic) : string :=
  "  line=" +:+ number (Z.of_nat (dd_line diagnostic)) +:+
  " status=" +:+ DecodeStatus.to_string (dd_status diagnostic) +:+
  " reason=" +:+ sanitize_for_display (dd_reason diagnostic) 256 +:+ newline.
Definition failure_line (failure : AdmissionFailure) : string :=
  "  index=" +:+ number (Z.of_nat (af_index failure)) +:+
  " outcome=" +:+ AdmissionOutcome.to_string (af_outcome failure) +:+
  " queue=" +:+ path_to_string (af_queue failure) +:+
  " reason=" +:+ sanitize_for_display (af_reason failure) 256 +:+ newline.

Definition decode_totals (d : DecodeOutcome) : string :=
  "lines=" +:+ number (do_lines d) +:+ " records=" +:+ number (do_records d) +:+
  " samples=" +:+ number (do_sample_count d) +:+
  " metadata_records=" +:+ number (do_metadata_records d) +:+ " skipped=" +:+ number (do_skipped d) +:+
  " malformed=" +:+ number (do_malformed d) +:+ " unsupported=" +:+ number (do_unsupported d) +:+
  " version_mismatches=" +:+ number (do_version_mismatches d) +:+
  " unknown_keys=" +:+ number (do_unknown_keys d) +:+ newline.
Definition batch_line (b : BatchAdmission) : string :=
  "presented=" +:+ number (bt_presented b) +:+ " accepted=" +:+ number (bt_accepted b) +:+
  " rejected=" +:+ number (bt_rejected b) +:+ " fenced=" +:+ number (bt_fenced b) +:+
  " duplicates=" +:+ number (bt_duplicates b) +:+ " conflicts=" +:+ number (bt_conflicts b) +:+
  " state_changes=" +:+ number (bt_state_changes b) +:+
  " queues_created=" +:+ number (bt_queues_created b) +:+ newline.
Definition render_ingest_report (report : IngestReport) : string :=
  decode_totals (ig_decode report) +:+ batch_line (ig_admission report) +:+
  rows_text diagnostic_line (do_diagnostics (ig_decode report)) +:+
  (if do_diagnostics_truncated (ig_decode report)
   then "  diagnostics_truncated=true" +:+ newline else EmptyString) +:+
  rows_text failure_line (bt_failures (ig_admission report)) +:+
  (if bt_failures_truncated (ig_admission report)
   then "  admission_failures_truncated=true" +:+ newline else EmptyString).

(** ** The runtime *)

Definition counters_text (c : StoreCounters) : string :=
  " samples_presented=" +:+ number (c StoreCounter.samples_presented) +:+
  " samples_accepted=" +:+ number (c StoreCounter.samples_accepted) +:+
  " samples_rejected=" +:+ number (c StoreCounter.samples_rejected) +:+
  " samples_fenced=" +:+ number (c StoreCounter.samples_fenced) +:+
  " duplicates_suppressed=" +:+ number (c StoreCounter.duplicates_suppressed) +:+
  " counter_wraps=" +:+ number (c StoreCounter.counter_wraps) +:+
  " counter_resets=" +:+ number (c StoreCounter.counter_resets) +:+
  " counter_ambiguous=" +:+ number (c StoreCounter.counter_ambiguous) +:+
  " counter_discontinuous=" +:+ number (c StoreCounter.counter_discontinuous).
Definition render_runtime_status (status : RuntimeStatus) : string :=
  "state=" +:+ RuntimeState.to_string (rn_state status) +:+
  " runtime_id=" +:+ sanitize_for_display (rn_runtime_id status) 32 +:+
  " workers=" +:+ number (rn_worker_threads status) +:+
  " queued_documents=" +:+ number (rn_queued_documents status) +:+
  " queued_samples=" +:+ number (rn_queued_samples status) +:+
  " applied_documents=" +:+ number (rn_applied_documents status) +:+
  " dropped_documents=" +:+ number (rn_dropped_documents status) +:+
  " decode_failures=" +:+ number (rn_decode_failures status) +:+
  " apply_order_violations=" +:+ number (rn_apply_order_violations status) +:+ newline +:+
  "queues=" +:+ number (rn_queues status) +:+ " history_bytes=" +:+ number (rn_history_bytes status) +:+
  counters_text (rn_counters status) +:+ newline +:+
  "recovered_on_start=" +:+ truth (rn_recovered_on_start status) +:+
  (if bool_decide (rn_recovery_diagnostic status = EmptyString) then EmptyString
   else " recovery_diagnostic=" +:+ sanitize_for_display (rn_recovery_diagnostic status) 256) +:+ newline.

Definition render_recovery_summary (summary : RecoverySummary) : string :=
  let report := rs_report summary in
  "attempted=" +:+ truth (rs_attempted summary) +:+ " recovered=" +:+ truth (rs_recovered summary) +:+
  " queues=" +:+ number (rs_queues summary) +:+ " samples=" +:+ number (rs_samples summary) +:+
  " presented=" +:+ number (rs_samples_presented summary) +:+
  " rejected=" +:+ number (rs_samples_rejected summary) +:+
  " fenced=" +:+ number (rs_samples_fenced summary) +:+ " events=" +:+ number (rs_events summary) +:+
  " metadata_present=" +:+ truth (rs_metadata_present summary) +:+
  " evidence_marked_stale=" +:+ truth (rs_evidence_marked_stale summary) +:+ newline +:+
  "format_version=" +:+ number (re_format_version report) +:+
  " header_crc_valid=" +:+ truth (re_header_crc_valid report) +:+
  " payload_crc_valid=" +:+ truth (re_payload_crc_valid report) +:+
  " truncated=" +:+ truth (re_truncated report) +:+
  " integrity_failed=" +:+ truth (re_integrity_failed report) +:+
  " records_parsed=" +:+ number (re_records_parsed report) +:+
  " records_declared=" +:+ number (re_records_declared report) +:+ newline +:+
  (if bool_decide (rs_diagnostic summary = EmptyString) then EmptyString
   else "diagnostic=" +:+ sanitize_for_display (rs_diagnostic summary) 256 +:+ newline).
