(* ===== verification/ReportTheorems.v ===== *)
(** * What a report prints

    The reports are line-oriented: whatever names, reasons and diagnostics the rows carry,
    a row is one line of printable characters. *)

From S2P Require Import Prelude Result Checked Text Json JsonRoundTrip Bytes Identity Time Evidence.
From S2P Require Import Sample Counter Metadata Event Limits Policy Rules Explanation Classification.
From S2P Require Import Ring History Window OrderedMap Admission Store StoreOps Queries Contention.
From S2P Require Import Decode Ingest Runtime Codec Format Recovery Persistence Lifecycle Export.
From S2P Require Import StoreExample ExportTheorems Report.
Open Scope Z_scope.

#[local] Set Warnings "-register-all".

(** ** Printable text *)

Create HintDb printed.

(** No control character: neither one below space nor DEL. *)
Definition printable_char (c : ascii) : bool := (32 <=? byte_value c) && negb (byte_value c =? 127).
Definition printable (s : string) : Prop := str_forallb printable_char s = true.

Lemma printable_app a b : printable a → printable b → printable (a +:+ b).
Proof. unfold printable. rewrite str_forallb_app. by intros -> ->. Qed.
Lemma printable_digits n : printable (u64_to_string n).
Proof.
  pose proof (u64_to_string_digits n) as H. unfold printable. revert H.
  generalize (u64_to_string n) as s. induction s as [|c s IH]; [done|]. cbn [str_forallb].
  intros [Hc Hs]%andb_prop. rewrite IH by done. unfold is_digit in Hc. unfold printable_char.
  bool_cases; try done; lia.
Qed.

Lemma printable_if (b : bool) s t : printable s → printable t → printable (if b then s else t).
Proof. by destruct b. Qed.

Lemma printable_repeat c n : printable_char c = true → printable (str_repeat c n).
Proof.
  intros H. unfold printable. induction n as [|n IH]; [done|]. cbn [str_repeat str_forallb].
  by rewrite IH, H.
Qed.
Lemma printable_pad_right s width : printable s → printable (pad_right s width).
Proof. intros H. by apply printable_app, printable_repeat. Qed.
Lemma printable_zero_pad (width : nat) (s : string) : printable s → printable (Time.zero_pad width s).
Proof. intros H. apply printable_app; [by apply printable_repeat|done]. Qed.

Lemma printable_sanitize s limit : printable (sanitize_for_display s limit).
Proof.
  apply printable_app; [|by destruct (_ <? _)%nat].
  generalize (str_take (Nat.min (String.length s) limit) s) as t. unfold printable.
  induction t as [|c t IH]; [done|]. cbn [str_map str_forallb]. rewrite IH, andb_true_r.
  unfold sanitize_char, printable_char. destruct (Z.ltb_spec (byte_value c) 32); cbn [orb]; [done|].
  destruct (byte_value c =? 127) eqn:E; [done|]. rewrite E. cbn [negb]. rewrite andb_true_r.
  by apply Z.leb_le.
Qed.

Lemma printable_number n : printable (number n).
Proof. apply printable_digits. Qed.
Lemma printable_truth b : printable (truth b).
Proof. by destruct b. Qed.
Lemma printable_reported v : printable (reported v).
Proof. destruct v; [apply printable_digits|done]. Qed.
Lemma printable_signed n : printable (i64_to_string n).
Proof.
  unfold i64_to_string. destruct (n <? 0); [|apply printable_digits].
  apply (printable_app "-"); [done|apply printable_digits].
Qed.

Lemma printable_append_two n : printable (append_two n).
Proof.
  unfold append_two, printable. cbn [str_forallb].
  pose proof (Z.mod_pos_bound (n / 10) 10 ltac:(lia)). pose proof (Z.mod_pos_bound n 10 ltac:(lia)).
  unfold printable_char. rewrite !byte_value_char by lia. bool_cases; try done; lia.
Qed.
#[export] Hint Resolve printable_number printable_truth printable_reported printable_signed printable_sanitize printable_digits
  printable_append_two printable_zero_pad printable_pad_right printable_app printable_if : printed.
#[export] Hint Extern 0 (printable (String _ _)) => reflexivity : printed.
#[export] Hint Extern 0 (printable EmptyString) => reflexivity : printed.

Lemma printable_wall t : printable (format_wall_utc t).
Proof.
  unfold format_wall_utc. destruct (civil_from_days _) as [[year month] day].
  auto 30 with printed.
Qed.
#[export] Hint Resolve printable_wall : printed.

Lemma printable_id n : printable (id_to_string n).
Proof. apply printable_digits. Qed.
Lemma printable_state s : printable (PressureState.to_string s).
Proof. by destruct s. Qed.
Lemma printable_freshness f : printable (Freshness.to_string f).
Proof. by destruct f. Qed.
Lemma printable_quality q : printable (EvidenceQuality.to_string q).
Proof. by destruct q. Qed.
Lemma printable_provenance p : printable (Provenance.to_string p).
Proof. by destruct p. Qed.
Lemma printable_authority a : printable (SourceAuthority.to_string a).
Proof. by destruct a. Qed.
Lemma printable_rule r : printable (RuleId.rule_name r).
Proof. by destruct r. Qed.
Lemma printable_kind k : printable (EventKind.to_string k).
Proof. by destruct k. Qed.
Lemma printable_severity s : printable (Severity.to_string s).
Proof. by destruct s. Qed.
Lemma printable_outcome o : printable (AdmissionOutcome.to_string o).
Proof. by destruct o. Qed.
Lemma printable_decoded d : printable (DecodeStatus.to_string d).
Proof. by destruct d. Qed.
Lemma printable_runtime s : printable (RuntimeState.to_string s).
Proof. by destruct s. Qed.
#[export] Hint Resolve printable_id printable_state printable_freshness printable_quality printable_provenance
  printable_authority printable_rule printable_kind printable_severity printable_outcome printable_decoded printable_runtime : printed.

Lemma printable_join_rest sep names : printable sep → Forall printable names → printable (join_rest names sep).
Proof. intros Hs. induction 1 as [|name names Hn _ IH]; [done|]. cbn. auto with printed. Qed.
Lemma printable_flags mask : printable (describe_flags mask).
Proof.
  unfold describe_flags.
  assert (Forall printable (map snd (filter (λ entry, has_flag mask entry.1 = true) flag_names))) as H.
  { apply Forall_map, Forall_forall. intros entry [_ Hin]%list_elem_of_filter. revert entry Hin.
    apply Forall_forall. by repeat constructor. }
  destruct H as [|name names Hn Hns]; [done|]. cbn. apply printable_app; [done|].
  by apply printable_join_rest.
Qed.
#[export] Hint Resolve printable_flags : printed.

(** Identities: empty, or accepted by their constructor. *)
Definition held (tag : NameTag) (name : string) : Prop := name = EmptyString ∨ create tag name = Value name.
Definition path_held (p : QueuePath) : Prop := held DeviceTag (qp_device p) ∧ held PortTag (qp_port p).
Definition port_held (p : PortPath) : Prop := held DeviceTag (pp_device p) ∧ held PortTag (pp_port p).

Lemma printable_held tag name : held tag name → printable name.
Proof.
  intros [->|(_ & _ & _ & H & _)%create_Value]; [done|]. revert H. unfold printable.
  induction name as [|c name IH]; [done|]. cbn [str_forallb]. intros [Hc H]%andb_prop.
  rewrite (IH H), andb_true_r. unfold printable_char. apply negb_true_iff, orb_false_iff in Hc as [Hc Hd].
  rewrite Hd. cbn [negb]. rewrite andb_true_r. apply Z.ltb_ge in Hc. by apply Z.leb_le.
Qed.
Lemma printable_path p : path_held p → printable (path_to_string p).
Proof.
  intros [Hd%printable_held Hp%printable_held]. unfold path_to_string.
  apply printable_app; [done|]. apply (printable_app (String kSeparator EmptyString)); [done|].
  apply printable_app; [done|]. apply (printable_app (String kSeparator EmptyString)); [done|].
  apply printable_id.
Qed.
Lemma printable_port p : port_held p → printable (port_to_string p).
Proof.
  intros [Hd%printable_held Hp%printable_held]. unfold port_to_string.
  apply printable_app; [done|]. by apply (printable_app (String kSeparator EmptyString)).
Qed.
#[export] Hint Resolve printable_path printable_port : printed.

Lemma printable_describe a : printable (ea_reason a) → printable (describe a).
Proof. intros H. unfold describe. auto 30 with printed. Qed.
Lemma printable_event e : path_held (ev_queue e) → printable (render_event e).
Proof. intros H. unfold render_event, optional_text. auto 40 with printed. Qed.
#[export] Hint Resolve printable_describe printable_event : printed.

(** ** Texts of so many lines *)

Definition text_lines (n : nat) (text : string) : Prop :=
  ∃ lines, text = lines_text lines ∧ length lines = n ∧ Forall printable lines.

Lemma lines_none : text_lines 0 EmptyString.
Proof. by exists []. Qed.
Lemma lines_newline n text : text_lines n text → text_lines (S n) (newline +:+ text).
Proof. intros (lines & -> & <- & H). exists (EmptyString :: lines). split_and!; [done..|]. by constructor. Qed.
Lemma lines_one : text_lines 1 newline.
Proof. apply (lines_newline 0 EmptyString), lines_none. Qed.
Lemma lines_prefix n a text : printable a → text_lines (S n) text → text_lines (S n) (a +:+ text).
Proof.
  intros Ha (lines & -> & Hn & H). destruct lines as [|line lines]; [done|].
  exists ((a +:+ line) :: lines). cbn [lines_text]. rewrite !string_app_assoc. split_and!; [done..|].
  inversion H; subst. constructor; [by apply printable_app|done].
Qed.
Lemma lines_app n m a b : text_lines n a → text_lines m b → text_lines (n + m) (a +:+ b).
Proof.
  intros (la & -> & <- & Ha) (lb & -> & <- & Hb). exists (la ++ lb).
  rewrite lines_text_app, length_app. split_and!; [done..|]. by apply Forall_app.
Qed.
Lemma lines_rows {A} (f : A → string) rows :
  Forall (λ row, text_lines 1 (f row)) rows → text_lines (length rows) (rows_text f rows).
Proof. induction 1 as [|row rows Hr _ IH]; [apply lines_none|]. cbn. by apply (lines_app 1). Qed.
Lemma lines_each {A} (f : A → string) rows :
  (∀ row, text_lines 1 (f row)) → text_lines (length rows) (rows_text f rows).
Proof. intros H. by apply lines_rows, Forall_forall. Qed.

Lemma printable_cells first cells widths : Forall printable cells → printable (row_cells first cells widths).
Proof.
  intros H. revert first widths. induction H as [|cell cells Hc _ IH]; intros first [|width widths];
    cbn [row_cells]; auto with printed.
Qed.
Lemma lines_row cells widths : Forall printable cells → text_lines 1 (append_row cells widths).
Proof. intros H. apply lines_prefix; [by apply printable_cells|apply lines_one]. Qed.

Ltac through := repeat (apply lines_prefix; [solve [auto 8 with printed]|]).
Ltac line := through; apply lines_one.
Ltac cells := apply lines_row; repeat constructor; auto with printed.

Lemma lines_footer {A} (p : Page A) : text_lines 1 (page_footer p).
Proof. unfold page_footer. line. Qed.

Definition header_lines (header : bool) : nat := if header then 1 else 0.

(** ** The reports *)

Lemma inspect_lines (p : Page InspectRow) header :
  text_lines (header_lines header + (length (page_rows p) + 1)) (render_inspect_table p header).
Proof.
  apply lines_app; [destruct header; [cells|apply lines_none]|].
  apply lines_app; [|apply lines_footer]. apply lines_each. intros row. cells.
Qed.

Lemma pressure_lines (p : Page PressureRow) header :
  text_lines (header_lines header + (length (page_rows p) + 1)) (render_pressure_table p header).
Proof.
  apply lines_app; [destruct header; [cells|apply lines_none]|].
  apply lines_app; [|apply lines_footer]. apply lines_each. intros row. cells.
Qed.

Lemma microburst_lines (r : MicroburstResult) :
  text_lines (1 + length (page_rows (mb_records r))) (render_microburst_report r).
Proof.
  unfold render_microburst_report. through.
  apply lines_newline, lines_each. intros record. unfold burst_line. line.
Qed.

Lemma contention_lines (r : ContentionResult) :
  Forall (λ c, port_held (cr_port c) ∧ path_held (cr_queue_a c) ∧ path_held (cr_queue_b c))
    (page_rows (cx_records r)) →
  text_lines (1 + length (page_rows (cx_records r))) (render_contention_report r).
Proof.
  intros H. unfold render_contention_report. through.
  apply lines_newline, lines_rows. eapply Forall_impl; [exact H|]. intros record (Hp & Ha & Hb).
  unfold contention_line. line.
Qed.

Lemma events_lines (p : Page EventRecord) :
  Forall (λ e, path_held (ev_queue e)) (page_rows p) →
  text_lines (length (page_rows p) + 1) (render_events_report p).
Proof.
  intros H. apply lines_app; [|apply lines_footer]. apply lines_rows.
  eapply Forall_impl; [exact H|]. intros event He. line.
Qed.

Lemma sources_lines sources : text_lines (length sources + 1) (render_sources_report sources).
Proof.
  apply lines_app; [|line]. apply lines_each. intros source. unfold source_line. line.
Qed.

Lemma conflicts_lines conflicts :
  Forall (λ c, path_held (cn_queue c)) conflicts →
  text_lines (length conflicts + 1) (render_conflicts_report conflicts).
Proof.
  intros H. apply lines_app; [|line]. apply lines_rows. eapply Forall_impl; [exact H|].
  intros conflict Hc. unfold conflict_line. line.
Qed.

Lemma ingest_lines (r : IngestReport) :
  Forall (λ f, path_held (af_queue f)) (bt_failures (ig_admission r)) →
  text_lines
    (2 + length (do_diagnostics (ig_decode r)) + header_lines (do_diagnostics_truncated (ig_decode r)) +
     length (bt_failures (ig_admission r)) + header_lines (bt_failures_truncated (ig_admission r)))
    (render_ingest_report r).
Proof.
  intros H. unfold render_ingest_report. rewrite <- !Nat.add_assoc.
  apply (lines_app 1); [unfold decode_totals; line|]. apply (lines_app 1); [unfold batch_line; line|].
  apply lines_app; [apply lines_each; intros d; unfold diagnostic_line; line|].
  apply lines_app; [destruct (do_diagnostics_truncated _); [line|apply lines_none]|].
  apply lines_app; [|destruct (bt_failures_truncated _); [line|apply lines_none]].
  apply lines_rows. eapply Forall_impl; [exact H|]. intros failure Hf. unfold failure_line. line.
Qed.

Lemma status_lines status : text_lines 3 (render_runtime_status status).
Proof.
  unfold render_runtime_status, counters_text. rewrite !string_app_assoc.
  through. apply lines_newline.
  through. apply lines_newline. line.
Qed.

Definition diagnostic_lines (diagnostic : string) : nat :=
  if bool_decide (diagnostic = EmptyString) then 0 else 1.
Lemma summary_lines summary :
  text_lines (2 + diagnostic_lines (rs_diagnostic summary)) (render_recovery_summary summary).
Proof.
  unfold render_recovery_summary, diagnostic_lines. cbv zeta.
  through. apply lines_newline.
  through. apply lines_newline.
  case_bool_decide; [apply lines_none|line].
Qed.

(** The window's label is the query's, and the reason of its assessment is a constant text. *)
Lemma expire_spec now a : ba_spec (expire now a) = ba_spec a.
Proof.
  unfold expire. destruct (_ || _); [done|]. generalize (subtract_clamped now (ws_duration_ns (ba_spec a))) as cutoff.
  generalize (size (ba_ring a)) as fuel. intros fuel. revert a.
  induction fuel as [|fuel IH]; intros a cutoff; cbn [expire_loop]; [done|]. destruct (_ && _); [|done]. by rewrite IH.
Qed.
Lemma place_spec start a : ba_spec (find_or_create_bucket start a).1 = ba_spec a.
Proof. unfold find_or_create_bucket. by repeat case_match. Qed.
Lemma observe_spec o a : ba_spec (observe o a) = ba_spec a.
Proof.
  unfold observe. destruct (_ || _); [done|]. cbv zeta. set (a1 := mkAccumulator _ _ _ _ _ _).
  pose proof (place_spec (align_bucket (wo_steady_ns o) (ws_bucket_ns (ba_spec (expire (wo_steady_ns o) a1))))
    (expire (wo_steady_ns o) a1)) as H.
  destruct (find_or_create_bucket _ _) as [a2 [index|]]; cbn in H |- *; by rewrite H, expire_spec.
Qed.
Lemma observe_history_spec h a : ba_spec (observe_history h a) = ba_spec a.
Proof.
  unfold observe_history. revert a. induction (history_snapshot h) as [|record records IH]; intros a; [done|].
  cbn [fold_left]. by rewrite IH, observe_spec.
Qed.
Lemma printable_reason spec l now freshness : printable (ea_reason (window_assessment spec l now freshness)).
Proof. unfold window_assessment. repeat case_match; cbn [ea_reason]; auto 8 with printed. Qed.

Lemma history_answer cfg clock query s :
  let r := (history cfg clock query s).1 in
  ht_queue r = hq_queue query ∧
  (ht_found r = true → wa_spec (ht_aggregate r) = hq_window query ∧
   printable (ea_reason (wa_assessment (ht_aggregate r)))).
Proof.
  unfold history. cbv zeta. destruct (negb _); [done|]. destruct (negb _); [done|].
  destruct (negb (ok (validate_window_spec _))); [done|]. destruct (om_find _ _) as [q|]; [|done].
  unfold configure. destruct (ok (validate_window_spec _)) eqn:E.
  2:{ cbn [negb]. rewrite E. by split. }
  cbn [negb ok]. split; [done|]. intros _. cbn [fst ht_aggregate]. unfold aggregate. cbn [wa_spec wa_assessment].
  split; [by rewrite expire_spec, observe_history_spec|apply printable_reason].
Qed.

Definition history_line_count (r : HistoryResult) : nat :=
  1 + if ht_found r then 5 + length (ht_records r) else 0.
Lemma history_lines cfg clock query s :
  path_held (hq_queue query) → printable (ws_name (hq_window query)) →
  let r := (history cfg clock query s).1 in
  text_lines (history_line_count r) (render_history_report r).
Proof.
  intros Hq Hw. destruct (history_answer cfg clock query s) as [Hqueue Ha].
  generalize dependent (history cfg clock query s).1. intros r Hqueue Ha. cbv zeta. rewrite <- Hqueue in Hq.
  unfold render_history_report, history_line_count. through. apply lines_newline.
  destruct (ht_found r); cbn [negb]; [|apply lines_none].
  destruct (Ha eq_refl) as [Hspec Hreason]. rewrite <- Hspec in Hw.
  unfold aggregate_lines. rewrite !string_app_assoc.
  do 5 (through; apply lines_newline).
  apply lines_each. intros record. unfold record_line. cbv zeta.
  destruct (record_value _ _), (cd_known _); line.
Qed.

(** Names and reasons with newlines and escape sequences. *)
Definition escape_name : string := String (byte_char 27) (String (byte_char 127) "[2J") +:+ newline +:+ "sources=0".
Definition escape_source : SourceRecord :=
  mkSource escape_name SourceAuthority.Primary SourceAuthority.Primary escape_name 1 1 1 "dom"
    no_receive no_receive 1 0 0 0 0 [].
Definition escape_conflict : ConflictRecord :=
  mkConflictRecord leaf_queue no_receive escape_name escape_name 1 2 1 0 true.
Definition escape_failure : AdmissionFailure :=
  mkAdmissionFailure 0 AdmissionOutcome.RejectedInvalid leaf_queue escape_name.
Definition escape_report : IngestReport :=
  mkIngestReport no_outcome (mkBatch 1 0 1 0 0 0 0 0 [escape_failure] false) true.
Definition escape_event : EventRecord :=
  mkEvent EventKind.SampleRejected Severity.Warning no_receive no_observation leaf_queue escape_name escape_name
    1 1 escape_name.
Definition escape_status : RuntimeStatus :=
  mkStatus RuntimeState.Running escape_name no_receive 1 0 0 0 0 0 0 0 0 no_counters
    Persistence.no_report true escape_name 0.

(** C30: the reports are line-oriented whatever the rows hold.  Names, reasons and
    diagnostics are arbitrary strings; queue paths and ports are those the identities'
    constructors accept, and the label of a history query's window has no control character
    (the history report prints it as it is).  Each of the eleven reports is a sequence of lines
    without control characters, DEL included: one for each row, plus the header, the footer,
    the totals or the aggregate, so no text that a device or a file supplied adds a line or
    starts an escape sequence. *)
Theorem reports_are_line_oriented (inspected : Page InspectRow) (pressures : Page PressureRow)
    (header : bool) (bursts : MicroburstResult) (contended : ContentionResult)
    (logged : Page EventRecord) (sources : list SourceRecord) (conflicts : list ConflictRecord)
    (ingested : IngestReport) (status : RuntimeStatus) (summary : RecoverySummary)
    (cfg : StoreConfig) (clock : nat → ReceiveTime) (query : HistoryQuery) (s : Store) :
  Forall (λ c, port_held (cr_port c) ∧ path_held (cr_queue_a c) ∧ path_held (cr_queue_b c))
    (page_rows (cx_records contended)) →
  Forall (λ e, path_held (ev_queue e)) (page_rows logged) →
  Forall (λ c, path_held (cn_queue c)) conflicts →
  Forall (λ f, path_held (af_queue f)) (bt_failures (ig_admission ingested)) →
  path_held (hq_queue query) → printable (ws_name (hq_window query)) →
  text_lines (header_lines header + (length (page_rows inspected) + 1))
    (render_inspect_table inspected header) ∧
  text_lines (header_lines header + (length (page_rows pressures) + 1))
    (render_pressure_table pressures header) ∧
  text_lines (history_line_count (history cfg clock query s).1)
    (render_history_report (history cfg clock query s).1) ∧
  text_lines (1 + length (page_rows (mb_records bursts))) (render_microburst_report bursts) ∧
  text_lines (1 + length (page_rows (cx_records contended))) (render_contention_report contended) ∧
  text_lines (length (page_rows logged) + 1) (render_events_report logged) ∧
  text_lines (length sources + 1) (render_sources_report sources) ∧
  text_lines (length conflicts + 1) (render_conflicts_report conflicts) ∧
  text_lines
    (2 + length (do_diagnostics (ig_decode ingested)) +
     header_lines (do_diagnostics_truncated (ig_decode ingested)) +
     length (bt_failures (ig_admission ingested)) +
     header_lines (bt_failures_truncated (ig_admission ingested)))
    (render_ingest_report ingested) ∧
  text_lines 3 (render_runtime_status status) ∧
  text_lines (2 + diagnostic_lines (rs_diagnostic summary)) (render_recovery_summary summary).
Proof.
  auto 14 using inspect_lines, pressure_lines, history_lines, microburst_lines, contention_lines, events_lines,
    sources_lines, conflicts_lines, ingest_lines, status_lines, summary_lines.
Qed.

(** The label of a window adds what lines it holds. *)
Definition labelled_query (label : string) : HistoryQuery :=
  mkHistoryQuery leaf_queue
    (mkWindowSpec label 1000000000 125000000 1 4096) (mkPagination 0 0) true.
Definition forged_label : string := "1s" +:+ newline +:+ "drops=0" +:+ String (byte_char 127) EmptyString.
Definition labelled_report (label : string) : string :=
  render_history_report (history example_config example_clock (labelled_query label) example_store).1.
Lemma window_label_is_not_sanitized :
  ∃ rest, labelled_report forged_label =
    "queue=leaf|eth0|3 found=true" +:+ newline +:+ "window=" +:+ forged_label +:+ rest.
Proof. eexists. vm_compute. reflexivity. Qed.

Lemma reports_are_line_oriented_witness :
  text_lines 2 (render_sources_report [escape_source]) ∧
  text_lines 2 (render_conflicts_report [escape_conflict]) ∧
  text_lines 3 (render_ingest_report escape_report) ∧
  text_lines 2 (render_events_report (mkPage [escape_event] 1 false)) ∧
  text_lines 3 (render_runtime_status escape_status) ∧
  text_lines 8 (labelled_report "1s").
Proof.
  assert (path_held leaf_queue) as Hpath by (split; right; reflexivity).
  assert (history_line_count (history example_config example_clock (labelled_query "1s") example_store).1 = 8%nat)
    as Hlines by by vm_compute.
  destruct (reports_are_line_oriented no_page no_page true no_microbursts no_contention
    (mkPage [escape_event] 1 false) [escape_source] [escape_conflict] escape_report escape_status
    no_summary example_config example_clock (labelled_query "1s") example_store (Forall_nil_2 _)
    (Forall_cons_2 (λ e, path_held (ev_queue e)) escape_event [] Hpath (Forall_nil_2 _))
    (Forall_cons_2 (λ c, path_held (cn_queue c)) escape_conflict [] Hpath (Forall_nil_2 _))
    (Forall_cons_2 (λ f, path_held (af_queue f)) escape_failure [] Hpath (Forall_nil_2 _)) Hpath eq_refl)
    as (_ & _ & Hh & _ & _ & He & Hs & Hc & Hi & Hst & _).
  rewrite Hlines in Hh.
  exact (conj Hs (conj Hc (conj Hi (conj He (conj Hst Hh))))).
Defined.
