(* ===== verification/Transport.v ===== *)
(** * The transport's endpoints

    [transport/Socket.cpp], [transport/Server.cpp] and [transport/Client.cpp]: sending and
    receiving on a socket, what the server does with a connection and its frames, and the
    client's calls.

    What the system answers is part of a [Socket]: the results of the next calls of [send]
    (every chunk is taken whole when there is none left), and of the next calls of [recv]
    (the end of the stream when there is none left: the peer has closed its side).  A socket
    also remembers the bytes that were sent on it.  One connection is handled here, of a peer
    that closes it in the end; [Serve] has the threads around it, and the peers that keep a
    connection open and leave a worker waiting in [recv] or [send]. *)

From stdpp Require Import gmap strings.
From S2P Require Import Prelude Result Checked Text Bytes Crc32c Json JsonWriter Identity Time Evidence.
From S2P Require Import Sample Counter Metadata Event Limits Policy Rules Explanation Classification.
From S2P Require Import Ring History Window OrderedMap Admission Store StoreOps Queries Decode Ingest.
From S2P Require Import Runtime Codec Format Recovery Persistence Lifecycle Protocol.
Open Scope Z_scope.
Open Scope word_scope.

#[local] Set Warnings "-register-all".

(** [QOBS_VERSION_STRING] *)
Definition kVersionString : string := "1.0.0".

(** ** Sockets *)

Inductive Arrival : Set := Arrived (bytes : list Z) | Broken.

Record Socket := mkSocket {
  so_open : bool;
  so_answers : list Z;
  so_arrivals : list Arrival;
  so_sent : list Z
}.
Definition closed_socket : Socket := mkSocket false [] [] [].

Definition close_socket (sock : Socket) : Socket :=
  if negb (so_open sock) then sock
  else mkSocket false (so_answers sock) (so_arrivals sock) (so_sent sock).

(** [1u << 20] *)
Definition kSocketChunk : Z := 1048576.

Section transport.
Context (socket_error : string).

(** One call of [::send]. *)
Definition send_some (chunk : Z) (sock : Socket) : Z * Socket :=
  match so_answers sock with
  | [] => (chunk, sock)
  | answer :: answers => (answer, mkSocket (so_open sock) answers (so_arrivals sock) (so_sent sock))
  end.
Definition sent_on (bytes : list Z) (sock : Socket) : Socket :=
  mkSocket (so_open sock) (so_answers sock) (so_arrivals sock) (so_sent sock ++ bytes).

Fixpoint send_loop (fuel : nat) (bytes : list Z) (sock : Socket) : Socket * Status :=
  match fuel, bytes with
  | S fuel, _ :: _ =>
      let chunk := Z.min (size_of bytes) kSocketChunk in
      let '(sent, sock) := send_some chunk sock in
      if sent <=? 0 then
        (sock, failure ErrorCode.IoError ("the frame could not be sent: " +:+ socket_error))
      else
        send_loop fuel (drop (Z.to_nat sent) bytes) (sent_on (take (Z.to_nat sent) bytes) sock)
  | _, _ => (sock, success)
  end.
(** Every round sends a byte at least. *)
Definition send_all (bytes : list Z) (sock : Socket) : Socket * Status :=
  if negb (so_open sock) then (sock, failure ErrorCode.NotRunning "cannot send on a closed socket")
  else send_loop (length bytes) bytes sock.

(** No bytes: the end of the stream.  (The wait for a peer that is silent is in [Serve].) *)
Definition receive (sock : Socket) : Socket * list Z * Status :=
  if negb (so_open sock) then
    (sock, [], failure ErrorCode.NotRunning "cannot receive on a closed socket")
  else
    match so_arrivals sock with
    | [] => (sock, [], success)
    | arrival :: arrivals =>
        let sock := mkSocket (so_open sock) (so_answers sock) arrivals (so_sent sock) in
        match arrival with
        | Arrived bytes => (sock, bytes, success)
        | Broken =>
            (sock, [], failure ErrorCode.IoError
                         ("the connection failed while receiving: " +:+ socket_error))
        end
    end.

(** A frame of text, encoded and sent. *)
Definition text_frame (type : FrameType) (payload : string) : Frame :=
  mkFrame type 0 (text_bytes payload).
Definition send_frame (limits : TransportLimits) (frame : Frame) (sock : Socket) : Socket * Status :=
  match encode_frame frame limits with
  | Failure e => (sock, e)
  | Value bytes => send_all bytes sock
  end.

(** ** Payloads *)

Record BatchReply := mkBatchReply {
  br_ticket : Z;
  br_report : IngestReport;
  br_error_code : string;
  br_error_message : string
}.
Definition no_reply : BatchReply := mkBatchReply 0 Ingest.no_report EmptyString EmptyString.

Definition status_members (st : RuntimeStatus) : Writing :=
  WRITE member_string "state" (RuntimeState.to_string (rn_state st)) ;;
  WRITE member_string "runtime_id" (rn_runtime_id st) ;;
  WRITE member_u64 "queues" (rn_queues st) ;;
  WRITE member_u64 "history_bytes" (rn_history_bytes st) ;;
  WRITE member_u64 "samples_presented" (rn_counters st StoreCounter.samples_presented) ;;
  WRITE member_u64 "samples_accepted" (rn_counters st StoreCounter.samples_accepted) ;;
  WRITE member_u64 "samples_fenced" (rn_counters st StoreCounter.samples_fenced) ;;
  WRITE member_u64 "samples_rejected" (rn_counters st StoreCounter.samples_rejected) ;;
  WRITE member_u64 "duplicates_suppressed" (rn_counters st StoreCounter.duplicates_suppressed) ;;
  WRITE member_u64 "counter_wraps" (rn_counters st StoreCounter.counter_wraps) ;;
  WRITE member_u64 "counter_resets" (rn_counters st StoreCounter.counter_resets) ;;
  WRITE member_u64 "counter_ambiguous" (rn_counters st StoreCounter.counter_ambiguous) ;;
  WRITE member_u64 "wire_version" kVersion ;;
  member_string "runtime_version" kVersionString.

Definition reply_members (reply : BatchReply) : Writing :=
  let decode := ig_decode (br_report reply) in
  let admission := ig_admission (br_report reply) in
  WRITE member_u64 "ticket" (br_ticket reply) ;;
  WRITE write_if (negb (bool_decide (br_error_code reply = EmptyString)))
    (WRITE member_string "error_code" (br_error_code reply) ;;
     member_string "error_message" (br_error_message reply)) ;;
  WRITE member_u64 "lines" (do_lines decode) ;;
  WRITE member_u64 "samples_decoded" (do_sample_count decode) ;;
  WRITE member_u64 "metadata_records" (do_metadata_records decode) ;;
  WRITE member_u64 "malformed" (do_malformed decode) ;;
  WRITE member_u64 "unsupported" (do_unsupported decode) ;;
  WRITE member_u64 "version_mismatches" (do_version_mismatches decode) ;;
  WRITE member_u64 "presented" (bt_presented admission) ;;
  WRITE member_u64 "accepted" (bt_accepted admission) ;;
  WRITE member_u64 "rejected" (bt_rejected admission) ;;
  WRITE member_u64 "fenced" (bt_fenced admission) ;;
  WRITE member_u64 "duplicates" (bt_duplicates admission) ;;
  WRITE member_u64 "queues_created" (bt_queues_created admission) ;;
  member_bool "applied" (ig_accepted (br_report reply)).

Definition text_or_empty_object (text : Result string) : string :=
  match text with Value text => text | Failure _ => "{}" end.
Definition encode_status_payload (st : RuntimeStatus) : string :=
  text_or_empty_object (JsonWriter.written false (value_object (status_members st))).
Definition encode_batch_result (reply : BatchReply) : string :=
  text_or_empty_object (JsonWriter.written false (value_object (reply_members reply))).

Definition welcome_members (runtime_id : string) : Writing :=
  WRITE member_string "server" "queue-observatory" ;;
  WRITE member_string "runtime_version" kVersionString ;;
  WRITE member_u64 "wire_version" kVersion ;;
  WRITE member_string "runtime_id" runtime_id ;;
  member_string "boundary"
    "observation only: this endpoint accepts evidence and never changes device configuration".

(** ** The server *)

Record ServerStats := mkServerStats {
  ss_connections_accepted : Z;
  ss_connections_rejected : Z;
  ss_frames_received : Z;
  ss_frames_rejected : Z;
  ss_batches_applied : Z;
  ss_batch_failures : Z
}.
Definition no_stats : ServerStats := mkServerStats 0 0 0 0 0 0.

Record TransportServer := mkTransportServer {
  tv_stats : ServerStats;
  tv_next_batch_ticket : Z;
  tv_runtime : Observatory
}.
Definition update_stats (f : ServerStats → ServerStats) (sv : TransportServer) : TransportServer :=
  mkTransportServer (f (tv_stats sv)) (tv_next_batch_ticket sv) (tv_runtime sv).
Definition count_connection (st : ServerStats) : ServerStats :=
  mkServerStats (ss_connections_accepted st +u 1) (ss_connections_rejected st)
    (ss_frames_received st) (ss_frames_rejected st) (ss_batches_applied st) (ss_batch_failures st).
Definition count_busy (st : ServerStats) : ServerStats :=
  mkServerStats (ss_connections_accepted st) (ss_connections_rejected st +u 1)
    (ss_frames_received st) (ss_frames_rejected st) (ss_batches_applied st) (ss_batch_failures st).
Definition count_frame (st : ServerStats) : ServerStats :=
  mkServerStats (ss_connections_accepted st) (ss_connections_rejected st)
    (ss_frames_received st +u 1) (ss_frames_rejected st) (ss_batches_applied st)
    (ss_batch_failures st).
Definition count_rejected_frame (st : ServerStats) : ServerStats :=
  mkServerStats (ss_connections_accepted st) (ss_connections_rejected st) (ss_frames_received st)
    (ss_frames_rejected st +u 1) (ss_batches_applied st) (ss_batch_failures st).
Definition count_batch (applied : bool) (st : ServerStats) : ServerStats :=
  mkServerStats (ss_connections_accepted st) (ss_connections_rejected st) (ss_frames_received st)
    (ss_frames_rejected st)
    (if applied then ss_batches_applied st +u 1 else ss_batches_applied st)
    (if applied then ss_batch_failures st else ss_batch_failures st +u 1).

Section server.
Context (cfg : StoreConfig) (clock : nat → ReceiveTime) (record_bytes : Z).
Context (double_in_range : string → bool) (config : ObservatoryConfig).
Abbreviation limits := (oc_transport config).

(** [next_batch_ticket_.fetch_add(1)] *)
Definition take_ticket (sv : TransportServer) : Z * TransportServer :=
  (tv_next_batch_ticket sv,
   mkTransportServer (tv_stats sv) (tv_next_batch_ticket sv +u 1) (tv_runtime sv)).
Definition server_store (sv : TransportServer) : Store := rt_store (ob_runtime (tv_runtime sv)).
Definition set_server_store (s : Store) (sv : TransportServer) : TransportServer :=
  mkTransportServer (tv_stats sv) (tv_next_batch_ticket sv)
    (set_runtime (with_store s (ob_runtime (tv_runtime sv))) (tv_runtime sv)).

(** What follows the ingestion of a batch: it is counted, and its reply made. *)
Definition finish_batch (ticket : Z) (report : IngestReport) (st : Status) (sv : TransportServer) :
    TransportServer * BatchReply :=
  (update_stats (count_batch (ok st)) sv,
   if ok st then mkBatchReply ticket report EmptyString EmptyString
   else mkBatchReply ticket report (ErrorCode.to_string (code st)) (message st)).

(** A batch: its ticket is taken, and its document ingested. *)
Definition apply_batch (payload : list Z) (sv : TransportServer) : TransportServer * BatchReply :=
  let '(ticket, sv) := take_ticket sv in
  let '(s, report, st) :=
    ingest_document cfg clock record_bytes double_in_range (oc_ingest config) (bytes_text payload)
      (server_store sv) in
  finish_batch ticket report st (set_server_store s sv).

Definition unexpected_frame (type : FrameType) : string :=
  quoted "{'code':'unexpected_frame','message':'the server does not accept " +:+
  FrameType.to_string type +:+ quoted " frames'}".

(** The reply to a frame, when there is one; the switch is over the whole enumeration. *)
Definition answer_frame (frame : Frame) (sv : TransportServer) :
    TransportServer * option (Result Frame) :=
  match fr_type frame with
  | FrameType.Hello =>
      (sv, Some (match JsonWriter.written false (value_object (welcome_members (ss_runtime_id (cfg_session cfg)))) with
                 | Failure e => Failure e
                 | Value payload => Value (text_frame FrameType.Welcome payload)
                 end))
  | FrameType.Batch =>
      let '(sv, reply) := apply_batch (fr_payload frame) sv in
      (sv, Some (Value (text_frame FrameType.BatchResult (encode_batch_result reply))))
  | FrameType.StatusRequest =>
      (sv, Some (Value (text_frame FrameType.StatusReply
                   (encode_status_payload (Lifecycle.status cfg config (tv_runtime sv))))))
  | FrameType.Bye => (sv, None)
  | FrameType.Welcome | FrameType.BatchResult | FrameType.StatusReply | FrameType.Error =>
      (sv, Some (Value (text_frame FrameType.Error (unexpected_frame (fr_type frame)))))
  end.

(** [handle_frame]: [false] where [keep_going] is cleared. *)
Definition handle_frame (frame : Frame) (sock : Socket) (sv : TransportServer) :
    Socket * TransportServer * bool * Status :=
  match answer_frame frame sv with
  | (sv, None) => (sock, sv, false, success)
  | (sv, Some (Failure e)) => (sock, sv, true, e)
  | (sv, Some (Value reply)) =>
      let '(sock, st) := send_frame limits reply sock in (sock, sv, true, st)
  end.

Definition integrity_failure (diagnostic : string) : string :=
  quoted "{'code':'integrity_failure','message':'" +:+ escape_json diagnostic +:+ quoted "'}".

(** The frames that a read completes; a status where the connection ends. *)
Fixpoint handle_frames (fuel : nat) (reader : FrameReader) (sock : Socket) (sv : TransportServer)
    (keep_going : bool) : FrameReader * Socket * TransportServer * bool * option Status :=
  match fuel with
  | O => (reader, sock, sv, keep_going, None)
  | S fuel =>
      let '(reader, produced, next_status) := reader_next reader in
      if negb (ok next_status) then
        let sv := update_stats count_rejected_frame sv in
        let '(sock, _) :=
          send_frame limits (text_frame FrameType.Error (integrity_failure (message next_status))) sock in
        (reader, sock, sv, keep_going, Some success)
      else
        match produced with
        | None => (reader, sock, sv, keep_going, None)
        | Some frame =>
            let sv := update_stats count_frame sv in
            let '(sock, sv, keep, frame_status) := handle_frame frame sock sv in
            let keep_going := keep_going && keep in
            if negb (ok frame_status) then (reader, sock, sv, keep_going, Some frame_status)
            else handle_frames fuel reader sock sv keep_going
        end
  end.

Fixpoint connection_loop (fuel : nat) (reader : FrameReader) (sock : Socket) (sv : TransportServer) :
    Socket * TransportServer * Status :=
  match fuel with
  | O => (sock, sv, success)
  | S fuel =>
      let '(sock, bytes, receive_status) := receive sock in
      if negb (ok receive_status) then (sock, sv, receive_status)
      else
        match bytes with
        | [] => (sock, sv, success)
        | _ =>
            let '(reader, append_status) := reader_append bytes reader in
            if negb (ok append_status) then (sock, sv, append_status)
            else
              let '(reader, sock, sv, keep_going, ended) :=
                handle_frames (S (length (rd_buffer reader))) reader sock sv true in
              match ended with
              | Some st => (sock, sv, st)
              | None => if keep_going then connection_loop fuel reader sock sv else (sock, sv, success)
              end
        end
  end.
(** Every round reads once; after the last read the stream ends. *)
Definition handle_connection (sock : Socket) (sv : TransportServer) :
    Socket * TransportServer * Status :=
  connection_loop (S (length (so_arrivals sock))) (mkReader limits []) sock
    (update_stats count_connection sv).
End server.

(** ** The client *)

Record TransportClient := mkTransportClient {
  tc_connection : Socket;
  tc_reader : FrameReader;
  tc_welcome : string
}.
(** A client has the default limits. *)
Definition new_client : TransportClient :=
  mkTransportClient closed_socket (mkReader default_transport_limits []) EmptyString.

Definition client_send (type : FrameType) (payload : list Z) (c : TransportClient) :
    TransportClient * Status :=
  let '(sock, st) := send_frame default_transport_limits (mkFrame type 0 payload) (tc_connection c) in
  (mkTransportClient sock (tc_reader c) (tc_welcome c), st).

Fixpoint receive_loop (fuel : nat) (sock : Socket) (reader : FrameReader) :
    Socket * FrameReader * Result Frame :=
  match fuel with
  | O => (sock, reader, Value no_frame)
  | S fuel =>
      let '(reader, produced, next_status) := reader_next reader in
      if negb (ok next_status) then (sock, reader, Failure next_status)
      else
        match produced with
        | Some frame => (sock, reader, Value frame)
        | None =>
            let '(sock, bytes, receive_status) := receive sock in
            if negb (ok receive_status) then (sock, reader, Failure receive_status)
            else
              match bytes with
              | [] =>
                  (sock, reader, fail ErrorCode.IoError
                     "the server closed the connection before sending a complete frame")
              | _ =>
                  let '(reader, append_status) := reader_append bytes reader in
                  if negb (ok append_status) then (sock, reader, Failure append_status)
                  else receive_loop fuel sock reader
              end
        end
  end.
Definition client_receive (c : TransportClient) : TransportClient * Result Frame :=
  let '(sock, reader, frame) :=
    receive_loop (S (S (length (so_arrivals (tc_connection c))))) (tc_connection c) (tc_reader c) in
  (mkTransportClient sock reader (tc_welcome c), frame).

Definition read_u64 (object : JsonValue) (key : string) : Z :=
  match json_find key object with
  | Some (JUint n) => n
  | Some (JInt n) => if 0 <=? n then n else 0
  | _ => 0
  end.
Definition read_bool (object : JsonValue) (key : string) : bool :=
  match json_find key object with Some (JBool b) => b | _ => false end.
Definition read_text (object : JsonValue) (key : string) : string :=
  match json_find key object with Some (JString s) => s | _ => EmptyString end.

Definition read_reply (object : JsonValue) : BatchReply :=
  let n := read_u64 object in
  mkBatchReply (n "ticket")
    (mkIngestReport
       (Decode.mkOutcome (n "lines") 0 (n "samples_decoded") 0 (n "metadata_records") 0 (n "malformed")
          (n "unsupported") (n "version_mismatches") [] [] [] false 0)
       (mkBatch (n "presented") (n "accepted") (n "rejected") (n "fenced") (n "duplicates") 0 0
          (n "queues_created") [] false)
       (read_bool object "applied"))
    (read_text object "error_code") (read_text object "error_message").

Section client.
Context (double_in_range : string → bool).

Definition batch_response (response : Frame) : Result BatchReply :=
  if bool_decide (fr_type response = FrameType.Error) then
    fail ErrorCode.Internal
      ("the server rejected the batch frame: " +:+ bytes_text (fr_payload response))
  else if negb (bool_decide (fr_type response = FrameType.BatchResult)) then
    fail ErrorCode.Internal "the server answered a batch frame with an unexpected frame type"
  else
    match parse_json default_json_limits double_in_range (bytes_text (fr_payload response)) with
    | Failure _ =>
        fail ErrorCode.ParseError "the batch result frame carries an unreadable payload"
    | Value object => Value (read_reply object)
    end.

Definition send_batch (document : string) (c : TransportClient) : TransportClient * Result BatchReply :=
  if max_frame_bytes default_transport_limits <? Z.of_nat (String.length document) then
    (c, fail ErrorCode.LimitExceeded "the document exceeds the configured frame size")
  else
    let '(c, sent) := client_send FrameType.Batch (text_bytes document) c in
    if negb (ok sent) then (c, Failure sent)
    else
      match client_receive c with
      | (c, Failure e) => (c, Failure e)
      | (c, Value response) => (c, batch_response response)
      end.

Definition hello_members (client_name : string) : Writing :=
  WRITE member_string "client" client_name ;;
  WRITE member_u64 "wire_version" kVersion ;;
  member_string "client_version" kVersionString.

(** [connected] is what [Socket::connect_to] returned. *)
Definition connect_to (connected : Result Socket) (client_name : string) (c : TransportClient) :
    TransportClient * Status :=
  let limits_status := validate_transport default_transport_limits in
  if negb (ok limits_status) then (c, limits_status)
  else
    match connected with
    | Failure e => (c, e)
    | Value sock =>
        let c := mkTransportClient sock (mkReader default_transport_limits []) (tc_welcome c) in
        match JsonWriter.written false (value_object (hello_members client_name)) with
        | Failure e => (c, e)
        | Value payload =>
            let '(c, sent) := client_send FrameType.Hello (text_bytes payload) c in
            if negb (ok sent) then (c, sent)
            else
              match client_receive c with
              | (c, Failure e) => (c, e)
              | (c, Value welcome) =>
                  if negb (bool_decide (fr_type welcome = FrameType.Welcome)) then
                    (c, failure ErrorCode.Internal
                          "the server did not answer the handshake with a welcome frame")
                  else
                    (mkTransportClient (tc_connection c) (tc_reader c)
                       (bytes_text (fr_payload welcome)), success)
              end
        end
    end.

Definition request_status (c : TransportClient) : TransportClient * Result string :=
  let '(c, sent) := client_send FrameType.StatusRequest [] c in
  if negb (ok sent) then (c, Failure sent)
  else
    match client_receive c with
    | (c, Failure e) => (c, Failure e)
    | (c, Value response) =>
        if negb (bool_decide (fr_type response = FrameType.StatusReply)) then
          (c, fail ErrorCode.Internal
                "the server answered a status request with an unexpected frame type")
        else (c, Value (bytes_text (fr_payload response)))
    end.

Definition close_client (c : TransportClient) : TransportClient * Status :=
  if negb (so_open (tc_connection c)) then (c, success)
  else
    let '(c, _) := client_send FrameType.Bye [] c in
    (mkTransportClient (close_socket (tc_connection c)) (tc_reader c) (tc_welcome c), success).
End client.
End transport.
