(* ===== verification/TransportTheorems.v ===== *)
(** * What goes over a connection

    A server answers the frames of a connection in order, however their bytes are cut into
    reads, and a client gets for every batch the counts of its ingestion. *)

From stdpp Require Import gmap strings.
From S2P Require Import Prelude Result Checked Text Bytes Crc32c Json JsonBounds JsonWriter JsonRoundTrip.
From S2P Require Import Identity Time Evidence Sample Counter Metadata Event Limits Policy Rules.
From S2P Require Import Explanation Classification Ring History Window OrderedMap Admission Store.
From S2P Require Import StoreOps Queries Decode SampleRoundTrip Ingest Runtime Codec.
From S2P Require Import Format Recovery Persistence Lifecycle Protocol Transport.
Open Scope Z_scope.
Open Scope word_scope.

#[local] Set Warnings "-register-all".

Abbreviation client_limits := default_transport_limits.

(** ** Sending *)

(** The system accepts something of every chunk. *)
Definition accepting (sock : Socket) : Prop :=
  so_open sock = true ∧ Forall (λ answer, 0 < answer) (so_answers sock).

(** From [sock] to [sock'] exactly these bytes were sent and nothing was received. *)
Record sends (sock : Socket) (bytes : list Z) (sock' : Socket) : Prop := mkSends {
  sd_accepting : accepting sock';
  sd_arrivals : so_arrivals sock' = so_arrivals sock;
  sd_sent : so_sent sock' = so_sent sock ++ bytes
}.

Lemma sends_nothing sock : accepting sock → sends sock [] sock.
Proof. intros H. constructor; [done|done|by rewrite app_nil_r]. Qed.
Lemma sends_then a b c xs ys : sends a xs b → sends b ys c → sends a (xs ++ ys) c.
Proof.
  intros [H1 H2 H3] [K1 K2 K3]. constructor; [done|congruence|]. by rewrite K3, H3, app_assoc.
Qed.

Section transport.
Context (socket_error : string).

Lemma send_loop_sends fuel bytes sock :
  accepting sock → (length bytes <= fuel)%nat →
  ∃ sock', send_loop socket_error fuel bytes sock = (sock', success) ∧ sends sock bytes sock'.
Proof using.
  revert bytes sock. induction fuel as [|fuel IH]; intros bytes sock [Ho Ha] Hf.
  { destruct bytes; [|cbn in Hf; lia]. exists sock. split; [done|by apply sends_nothing]. }
  destruct bytes as [|byte bytes]; [exists sock; split; [done|by apply sends_nothing]|].
  cbn [send_loop]. set (all := byte :: bytes) in *. set (chunk := Z.min _ _).
  assert (0 < chunk) as Hchunk.
  { subst chunk. unfold kSocketChunk, size_of. subst all. cbn [length]. lia. }
  assert (∃ sent sock1, send_some chunk sock = (sent, sock1) ∧ 0 < sent ∧ accepting sock1 ∧
    so_arrivals sock1 = so_arrivals sock ∧ so_sent sock1 = so_sent sock) as (sent & sock1 & -> & Hs & H1 & H2 & H3).
  { unfold send_some. destruct (so_answers sock) as [|answer answers] eqn:E.
    - exists chunk, sock. unfold accepting. by rewrite E.
    - apply Forall_cons in Ha as [??]. by eexists _, _. }
  is_false (sent <=? 0). destruct H1 as [H1 H1'].
  destruct (IH (drop (Z.to_nat sent) all) (sent_on (take (Z.to_nat sent) all) sock1)) as (sock' & -> & [K1 K2 K3]).
  - done.
  - rewrite length_drop. subst all. cbn [length] in *. lia.
  - exists sock'. split; [done|]. constructor; [done|by rewrite K2|]. rewrite K3. cbn [so_sent sent_on].
    by rewrite H3, <- app_assoc, take_drop.
Qed.

Lemma send_all_sends bytes sock :
  accepting sock → ∃ sock', send_all socket_error bytes sock = (sock', success) ∧ sends sock bytes sock'.
Proof using.
  intros H. unfold send_all. destruct (H) as [-> _]. cbn [negb]. by apply send_loop_sends.
Qed.

Lemma send_frame_sends limits frame sock :
  ok (validate_transport limits) = true → frame_ok limits frame → accepting sock →
  ∃ sock', send_frame socket_error limits frame sock = (sock', success) ∧
    sends sock (encoding frame) sock'.
Proof using.
  intros Hok Hf Hs. unfold send_frame. rewrite encode_encoding by done. by apply send_all_sends.
Qed.

(** Whatever the system answers, what was sent is a beginning of the bytes, and all of them
    where the status is a success. *)
Lemma send_loop_prefix fuel bytes sock sock' st :
  (length bytes <= fuel)%nat → send_loop socket_error fuel bytes sock = (sock', st) →
  ∃ n, so_sent sock' = so_sent sock ++ take n bytes ∧ (ok st = true → take n bytes = bytes).
Proof using.
  revert bytes sock. induction fuel as [|fuel IH]; intros bytes sock Hf.
  { destruct bytes; [|cbn in Hf; lia]. intros [= <- <-]. exists 0%nat. by rewrite app_nil_r. }
  destruct bytes as [|byte bytes]; [intros [= <- <-]; exists 0%nat; by rewrite app_nil_r|].
  cbn [send_loop]. set (all := byte :: bytes) in *.
  assert (∃ sent sock1, send_some (Z.min (size_of all) kSocketChunk) sock = (sent, sock1) ∧
    so_sent sock1 = so_sent sock) as (sent & sock1 & -> & H1).
  { unfold send_some. destruct (so_answers sock); eauto. }
  destruct (Z.leb_spec sent 0).
  { intros [= <- <-]. exists 0%nat. split; [by rewrite app_nil_r|done]. }
  intros E. apply IH in E as (n & Hn & Hall); [|rewrite length_drop; subst all; cbn [length] in *; lia].
  exists (Z.to_nat sent + n)%nat. cbn [so_sent sent_on] in Hn. rewrite Hn, H1, <- app_assoc.
  assert (take (Z.to_nat sent + n) all = take (Z.to_nat sent) all ++ take n (drop (Z.to_nat sent) all)) as ->.
  { rewrite <- (take_drop (Z.to_nat sent) all) at 1. rewrite take_app, take_take, length_take.
    destruct (Nat.le_gt_cases (Z.to_nat sent) (length all)).
    - f_equal; f_equal; lia.
    - rewrite drop_ge by lia. rewrite !take_nil, !app_nil_r. f_equal. lia. }
  split; [done|]. intros Hst. by rewrite (Hall Hst), take_drop.
Qed.

(** ** Serving frames *)

Section server.
Context (cfg : StoreConfig) (clock : nat → ReceiveTime) (record_bytes : Z).
Context (double_in_range : string → bool) (config : ObservatoryConfig).
Abbreviation limits := (oc_transport config).
Abbreviation answer := (answer_frame cfg clock record_bytes double_in_range config).
Abbreviation received := (update_stats count_frame).

(** The frames handled one after the other, and the replies in order. *)
Inductive served : list Frame → TransportServer → TransportServer → list Frame → Prop :=
| served_none sv : served [] sv sv []
| served_quiet frame frames sv sv1 sv' replies :
    answer frame (received sv) = (sv1, None) → served frames sv1 sv' replies →
    served (frame :: frames) sv sv' replies
| served_reply frame frames sv sv1 sv' reply replies :
    answer frame (received sv) = (sv1, Some (Value reply)) → frame_ok limits reply →
    served frames sv1 sv' replies → served (frame :: frames) sv sv' (reply :: replies).

Lemma served_app a b sv sv1 sv' ra rb :
  served a sv sv1 ra → served b sv1 sv' rb → served (a ++ b) sv sv' (ra ++ rb).
Proof using.
  intros Ha Hb. induction Ha; cbn [app]; [done|by eapply served_quiet; eauto|].
  by eapply served_reply; eauto.
Qed.
Lemma served_split a b sv sv' replies :
  served (a ++ b) sv sv' replies →
  ∃ sv1 ra rb, served a sv sv1 ra ∧ served b sv1 sv' rb ∧ replies = ra ++ rb.
Proof using.
  revert sv replies. induction a as [|frame a IH]; intros sv replies H.
  { exists sv, [], replies. split_and!; [constructor|done|done]. }
  cbn [app] in H. inversion H as [|? ? ? sv1 ? ? Ha Hs|? ? ? sv1 ? reply ? Ha Hf Hs]; subst;
    apply IH in Hs as (sv2 & ra & rb & H1 & H2 & ->).
  - exists sv2, ra, rb. split_and!; [by eapply served_quiet|done|done].
  - exists sv2, (reply :: ra), rb. split_and!; [by eapply served_reply|done|done].
Qed.

(** Only [Bye] has no reply, and it ends the connection once its read is handled. *)
Definition is_bye (frame : Frame) : bool := bool_decide (fr_type frame = FrameType.Bye).
Lemma answer_bye frame sv sv1 reply :
  answer frame sv = (sv1, reply) → reply = None ↔ is_bye frame = true.
Proof using.
  unfold answer_frame, is_bye. destruct (fr_type frame); try (by intros [= <- <-]).
  destruct (apply_batch _ _ _ _ _ _ _). by intros [= <- <-].
Qed.

Context (Hok : ok (validate_transport limits) = true).

Lemma handled frame sock sv sv1 answered :
  answer frame sv = (sv1, answered) → accepting sock →
  match answered with
  | None => handle_frame socket_error cfg clock record_bytes double_in_range config frame sock sv =
              (sock, sv1, false, success) ∧ is_bye frame = true
  | Some (Value reply) => frame_ok limits reply →
      ∃ sock', handle_frame socket_error cfg clock record_bytes double_in_range config frame sock sv =
        (sock', sv1, true, success) ∧ sends sock (encoding reply) sock' ∧ is_bye frame = false
  | Some (Failure _) => True
  end.
Proof using Hok.
  intros Ha Hs. pose proof (answer_bye _ _ _ _ Ha) as Hbye. unfold handle_frame. rewrite Ha.
  destruct answered as [[reply|e]|]; [|done|split; [done|by apply Hbye]].
  intros Hf. destruct (send_frame_sends limits reply sock Hok Hf Hs) as (sock' & -> & Hsend).
  exists sock'. split_and!; [done|done|]. destruct (is_bye frame); [|done].
  by destruct Hbye as [_ Hbye]; specialize (Hbye eq_refl).
Qed.

Abbreviation handle := (handle_frames socket_error cfg clock record_bytes double_in_range config).

(** The frames that a buffer completes are handled, in order. *)
Lemma handle_spec fuel buffer rest frames sock sv keep :
  Forall (frame_ok limits) frames → buffer ++ rest = stream frames →
  (length buffer < fuel)%nat → accepting sock →
  (∃ sv' replies, served frames sv sv' replies) →
  ∃ taken left buffer' sock' sv' replies,
    frames = taken ++ left ∧ pending buffer' left ∧ buffer' ++ rest = stream left ∧
    served taken sv sv' replies ∧ sends sock (stream replies) sock' ∧
    handle fuel (mkReader limits buffer) sock sv keep =
      (mkReader limits buffer', sock', sv', keep && negb (existsb is_bye taken), None).
Proof using Hok.
  revert buffer frames sock sv keep.
  induction fuel as [|fuel IH]; intros buffer frames sock sv keep Hf H Hfuel Hs Hserved; [lia|].
  cbn [handle_frames]. destruct (next_spec limits Hok buffer rest frames Hf H)
    as [[Hp ->]|(frame & frames' & buffer' & -> & Hlen & H' & ->)].
  { exists [], frames, buffer, sock, sv, []. rewrite ok_success. cbn. rewrite andb_true_r.
    split_and!; [done|done|done|constructor|by apply sends_nothing|done]. }
  rewrite ok_success. cbn [negb]. apply Forall_cons in Hf as [_ Hf]. rewrite encoding_length in Hlen.
  destruct Hserved as (sv2 & replies & Hserved).
  assert (∃ sv1 answered, answer frame (received sv) = (sv1, answered) ∧
    (∃ sv' replies', served frames' sv1 sv' replies') ∧
    (answered = None ∨ ∃ reply, answered = Some (Value reply) ∧ frame_ok limits reply))
    as (sv1 & answered & Ha & Hrest & Hcase) by (inversion Hserved; subst; eauto 10).
  pose proof (handled frame sock (received sv) sv1 answered Ha Hs) as Hhandled.
  destruct Hcase as [->|(reply & -> & Hreply)].
  - destruct Hhandled as [-> Hbye]. rewrite ok_success. cbn [negb].
    destruct (IH buffer' frames' sock sv1 (keep && false) Hf H') as
      (taken & left & last & sock' & sv' & rs & -> & Hp & Hl & Hsv & Hsends & ->); [lia|done|done|].
    exists (frame :: taken), left, last, sock', sv', rs. cbn [existsb]. rewrite Hbye.
    split_and!; [done|done|done|by eapply served_quiet|done|]. cbn [orb negb].
    by rewrite !andb_false_r.
  - destruct (Hhandled Hreply) as (sock1 & -> & Hsend & Hbye). rewrite ok_success. cbn [negb].
    destruct (IH buffer' frames' sock1 sv1 (keep && true) Hf H') as
      (taken & left & last & sock' & sv' & rs & -> & Hp & Hl & Hsv & Hsends & ->); [lia|apply Hsend|done|].
    exists (frame :: taken), left, last, sock', sv', (reply :: rs). cbn [existsb]. rewrite Hbye.
    split_and!; [done|done|done|by eapply served_reply| |by rewrite andb_true_r].
    unfold stream. cbn [map concat]. by eapply sends_then.
Qed.

Lemma served_functional frames sv sv1 sv2 r1 r2 :
  served frames sv sv1 r1 → served frames sv sv2 r2 → sv1 = sv2 ∧ r1 = r2.
Proof using.
  intros H. revert sv2 r2. induction H as [sv|frame frames sv sv1 sv' rs Ha H IH|
    frame frames sv sv1 sv' reply rs Ha Hf H IH]; intros sv2 r2 H2; inversion H2; subst;
    [done|match goal with K : answer _ _ = _ |- _ => rewrite Ha in K; simplify_eq end..].
  - by apply IH.
  - match goal with K : served frames _ _ _ |- _ => by destruct (IH _ _ K) as [<- <-] end.
Qed.

Context (Hwidth : max_connection_buffer_bytes limits <= u64_max) (Hmax : 0 <= max_frame_bytes limits).

(** The reads of a connection: none is empty, and the reader has room for each. *)
Definition reads_ok (l : TransportLimits) (pieces : list (list Z)) : Prop :=
  Forall (λ piece, piece ≠ [] ∧
    15 + max_frame_bytes l + Z.of_nat (length piece) <= max_connection_buffer_bytes l) pieces.

(** Nothing follows a [Bye]. *)
Definition bye_last (frames : list Frame) : Prop :=
  ∀ a frame b, frames = a ++ frame :: b → is_bye frame = true → b = [].

Lemma bye_last_app a b : bye_last (a ++ b) → bye_last b.
Proof using. intros H x frame y -> Hbye. by apply (H (a ++ x) frame y); [rewrite <- app_assoc|]. Qed.

Lemma bye_taken taken left :
  bye_last (taken ++ left) → existsb is_bye taken = true → left = [].
Proof using.
  intros H (frame & Hin & Hbye)%existsb_exists. apply in_split in Hin as (a & b & ->).
  assert (b ++ left = []) as [_ ->]%app_eq_nil; [|done].
  apply (H a frame); [by rewrite <- app_assoc|done].
Qed.

Lemma append_room buffer piece frames :
  Forall (frame_ok limits) frames → pending buffer frames →
  15 + max_frame_bytes limits + Z.of_nat (length piece) <= max_connection_buffer_bytes limits →
  reader_append piece (mkReader limits buffer) = (mkReader limits (buffer ++ piece), success).
Proof using Hwidth Hmax.
  intros Hf Hp Hroom. pose proof (pending_bound _ _ _ Hmax Hf Hp). unfold reader_append.
  cbn [rd_buffer rd_limits]. rewrite add_u64_spec by (unfold is_u64; lia).
  is_true (_ + _ <=? u64_max). by is_false (max_connection_buffer_bytes limits <? _).
Qed.

Lemma receive_arrived piece arrivals sock :
  accepting sock → so_arrivals sock = Arrived piece :: arrivals →
  ∃ sock', receive socket_error sock = (sock', piece, success) ∧ accepting sock' ∧
    so_arrivals sock' = arrivals ∧ so_sent sock' = so_sent sock.
Proof using.
  intros [Ho Ha] E. unfold receive. rewrite Ho, E. by eexists.
Qed.

Lemma connection_spec pieces fuel buffer frames sock sv sv' replies :
  (length pieces < fuel)%nat →
  Forall (frame_ok limits) frames → pending buffer frames → bye_last frames →
  buffer ++ concat pieces = stream frames → so_arrivals sock = map Arrived pieces →
  reads_ok limits pieces → accepting sock → served frames sv sv' replies →
  ∃ sock', connection_loop socket_error cfg clock record_bytes double_in_range config
    fuel (mkReader limits buffer) sock sv = (sock', sv', success) ∧
    so_sent sock' = so_sent sock ++ stream replies.
Proof using Hok Hwidth Hmax.
  revert fuel buffer frames sock sv replies. induction pieces as [|piece pieces IH];
    intros [|fuel] buffer frames sock sv replies Hfuel Hf Hp Hbye H Harr Hreads Hs Hserved;
    cbn [length] in Hfuel; [lia| |lia|]; cbn [connection_loop].
  - unfold receive. destruct (Hs) as [-> _]. rewrite Harr. cbn [map negb]. rewrite ok_success. cbn [negb].
    cbn [concat] in H. rewrite app_nil_r in H. pose proof (pending_whole _ _ Hp H) as ->.
    inversion Hserved; subst. exists sock. by rewrite app_nil_r.
  - apply Forall_cons in Hreads as [[Hne Hroom] Hreads].
    destruct (receive_arrived piece _ sock Hs Harr) as (sock1 & -> & Hs1 & Harr1 & Hsent1).
    rewrite ok_success. cbn [negb]. destruct piece as [|byte piece]; [done|].
    rewrite (append_room _ _ _ Hf Hp Hroom), ok_success. cbn [negb rd_buffer].
    cbn [concat] in H. rewrite app_assoc in H.
    destruct (handle_spec (S (length (buffer ++ byte :: piece))) _ _ _ sock1 sv true Hf H) as
      (taken & left & buffer' & sock2 & sv2 & ra & -> & Hp' & H' & Hsv & [Hs2 Harr2 Hsent2] & ->);
      [lia|done|eauto|].
    apply served_split in Hserved as (sv3 & ra' & rb & K1 & K2 & ->).
    destruct (served_functional _ _ _ _ _ _ Hsv K1) as [<- <-]. cbn [andb].
    destruct (existsb is_bye taken) eqn:E; cbn [negb].
    + pose proof (bye_taken _ _ Hbye E) as ->. inversion K2; subst. exists sock2. split; [done|].
      by rewrite app_nil_r, Hsent2, Hsent1.
    + apply Forall_app in Hf as [_ Hf]. apply bye_last_app in Hbye.
      destruct (IH fuel buffer' left sock2 sv2 rb ltac:(lia) Hf Hp' Hbye H') as (sock' & -> & Hsent'); try done.
      { by rewrite Harr2, Harr1. }
      exists sock'. split; [done|]. rewrite Hsent', Hsent2, Hsent1.
      unfold stream. by rewrite map_app, concat_app, app_assoc.
Qed.

Lemma pending_start frames : pending [] frames.
Proof using. destruct frames; [done|]. unfold pending. rewrite encoding_length. cbn. lia. Qed.

(** A connection is its frames, however they were cut into reads. *)
Lemma handle_connection_spec pieces frames sock sv sv' replies :
  Forall (frame_ok limits) frames → bye_last frames → concat pieces = stream frames →
  so_arrivals sock = map Arrived pieces → reads_ok limits pieces → accepting sock →
  served frames (update_stats count_connection sv) sv' replies →
  ∃ sock', handle_connection socket_error cfg clock record_bytes double_in_range config sock sv =
    (sock', sv', success) ∧ so_sent sock' = so_sent sock ++ stream replies.
Proof using Hok Hwidth Hmax.
  intros Hf Hbye H Harr Hreads Hs Hserved. unfold handle_connection. rewrite Harr, length_map.
  apply (connection_spec pieces _ [] frames); try done; [lia|]. apply pending_start.
Qed.
End server.

(** ** The client *)

Lemma client_limits_ok : ok (validate_transport client_limits) = true.
Proof using. done. Qed.

(** The frames that the client has still to receive, partly read already. *)
Definition awaits (c : TransportClient) (frames : list Frame) : Prop :=
  accepting (tc_connection c) ∧ Forall (frame_ok client_limits) frames ∧
  ∃ buffer pieces, tc_reader c = mkReader client_limits buffer ∧
    so_arrivals (tc_connection c) = map Arrived pieces ∧ reads_ok client_limits pieces ∧
    buffer ++ concat pieces = stream frames.

Lemma receive_spec fuel pieces buffer frame frames sock :
  (length pieces < fuel)%nat → Forall (frame_ok client_limits) (frame :: frames) →
  buffer ++ concat pieces = stream (frame :: frames) → so_arrivals sock = map Arrived pieces →
  reads_ok client_limits pieces → accepting sock →
  ∃ sock' buffer' pieces',
    receive_loop socket_error fuel sock (mkReader client_limits buffer) =
      (sock', mkReader client_limits buffer', Value frame) ∧
    buffer' ++ concat pieces' = stream frames ∧ so_arrivals sock' = map Arrived pieces' ∧
    reads_ok client_limits pieces' ∧ accepting sock' ∧ so_sent sock' = so_sent sock.
Proof using.
  revert pieces buffer sock. induction fuel as [|fuel IH]; intros pieces buffer sock Hfuel Hf H Harr Hreads Hs;
    [lia|]. cbn [receive_loop].
  destruct (next_spec client_limits client_limits_ok buffer (concat pieces) _ Hf H)
    as [[Hp ->]|(frame' & frames' & buffer' & [= <- <-] & Hlen & H' & ->)].
  2:{ rewrite ok_success. cbn [negb]. by exists sock, buffer', pieces. }
  rewrite ok_success. cbn [negb]. destruct pieces as [|piece pieces].
  { cbn [concat] in H. rewrite app_nil_r in H. by pose proof (pending_whole _ _ Hp H). }
  cbn [map] in Harr. apply Forall_cons in Hreads as [[Hne Hroom] Hreads].
  destruct (receive_arrived piece _ sock Hs Harr) as (sock1 & -> & Hs1 & Harr1 & Hsent1).
  rewrite ok_success. cbn [negb]. destruct piece as [|byte piece]; [done|].
  unfold reader_append. cbn [rd_buffer rd_limits].
  pose proof (pending_bound client_limits buffer _ ltac:(done) Hf Hp).
  cbn [max_frame_bytes max_connection_buffer_bytes default_transport_limits] in *.
  rewrite add_u64_spec by word_lia. is_true (_ + _ <=? u64_max).
  is_false (16777216 <? Z.of_nat (length buffer) + Z.of_nat (length (byte :: piece))).
  rewrite ok_success. cbn [negb]. cbn [concat] in H. rewrite app_assoc in H. cbn [length] in Hfuel.
  destruct (IH pieces (buffer ++ byte :: piece) sock1 ltac:(lia) Hf H Harr1 Hreads Hs1)
    as (sock' & buffer' & pieces' & -> & H1 & H2 & H3 & H4 & H5).
  exists sock', buffer', pieces'. by rewrite H5, Hsent1.
Qed.

Lemma client_receives c frame frames :
  awaits c (frame :: frames) →
  ∃ c', client_receive socket_error c = (c', Value frame) ∧ awaits c' frames ∧
    so_sent (tc_connection c') = so_sent (tc_connection c).
Proof using.
  intros (Hs & Hf & buffer & pieces & Hr & Harr & Hreads & H). unfold client_receive. rewrite Hr.
  destruct (receive_spec (S (S (length (so_arrivals (tc_connection c))))) pieces buffer frame frames
              (tc_connection c)) as (sock' & buffer' & pieces' & -> & H1 & H2 & H3 & H4 & H5); try done.
  { rewrite Harr, length_map. lia. }
  eexists. split; [done|]. split; [|done]. apply Forall_cons in Hf as [_ Hf].
  split; [done|]. split; [done|]. by exists buffer', pieces'.
Qed.

Lemma client_sends c type payload frames :
  awaits c frames → frame_ok client_limits (mkFrame type 0 payload) →
  ∃ c', client_send socket_error type payload c = (c', success) ∧ awaits c' frames ∧
    so_sent (tc_connection c') = so_sent (tc_connection c) ++ encoding (mkFrame type 0 payload).
Proof using.
  intros (Hs & Hf & buffer & pieces & Hr & Harr & Hreads & H) Hframe. unfold client_send.
  destruct (send_frame_sends client_limits _ (tc_connection c) client_limits_ok Hframe Hs)
    as (sock' & -> & [H1 H2 H3]).
  eexists. split; [done|]. split; [|done]. split; [done|]. split; [done|].
  exists buffer, pieces. cbn. by rewrite H2.
Qed.

(** ** Replies *)

Definition reply_counts (reply : BatchReply) : list Member :=
  let decode := ig_decode (br_report reply) in
  let admission := ig_admission (br_report reply) in
  [ ("lines", JUint (do_lines decode)); ("samples_decoded", JUint (do_sample_count decode));
    ("metadata_records", JUint (do_metadata_records decode)); ("malformed", JUint (do_malformed decode));
    ("unsupported", JUint (do_unsupported decode));
    ("version_mismatches", JUint (do_version_mismatches decode));
    ("presented", JUint (bt_presented admission)); ("accepted", JUint (bt_accepted admission));
    ("rejected", JUint (bt_rejected admission)); ("fenced", JUint (bt_fenced admission));
    ("duplicates", JUint (bt_duplicates admission));
    ("queues_created", JUint (bt_queues_created admission));
    ("applied", JBool (ig_accepted (br_report reply))) ].
Definition reply_object_members (reply : BatchReply) : list Member :=
  [("ticket", JUint (br_ticket reply))] ++
  (if negb (bool_decide (br_error_code reply = EmptyString))
   then [("error_code", JString (br_error_code reply)); ("error_message", JString (br_error_message reply))]
   else []) ++
  reply_counts reply.

Lemma reply_written reply :
  JsonWriter.written false (value_object (reply_members reply)) =
    Value (json_text false 0 (object_of (reply_object_members reply))).
Proof using.
  apply written_text, writes_value_object. unfold reply_members, reply_object_members.
  apply builds_cons; [auto with qobs|]. apply builds_then.
  - apply builds_if. intros _. apply builds_cons; [auto with qobs|]. apply builds_last. auto with qobs.
  - unfold reply_counts. repeat (apply builds_cons; [auto with qobs|]). apply builds_last. auto with qobs.
Qed.

(** A reply that the client's parser lets through, and what it keeps of it. *)
Record reply_ok (reply : BatchReply) : Prop := mkReplyOk {
  ro_leaves : Forall (λ kv : Member, small_leaf kv.2) (reply_object_members reply);
  ro_no_error : br_error_code reply = EmptyString → br_error_message reply = EmptyString
}.
Definition transmitted (reply : BatchReply) : BatchReply :=
  let decode := ig_decode (br_report reply) in
  let admission := ig_admission (br_report reply) in
  mkBatchReply (br_ticket reply)
    (mkIngestReport
       (Decode.mkOutcome (do_lines decode) 0 (do_sample_count decode) 0 (do_metadata_records decode) 0
          (do_malformed decode) (do_unsupported decode) (do_version_mismatches decode) [] [] [] false 0)
       (mkBatch (bt_presented admission) (bt_accepted admission) (bt_rejected admission)
          (bt_fenced admission) (bt_duplicates admission) 0 0 (bt_queues_created admission) [] false)
       (ig_accepted (br_report reply)))
    (br_error_code reply) (br_error_message reply).

Lemma reply_flat reply : reply_ok reply → flat_ok (reply_object_members reply).
Proof using.
  intros [H _]. unfold reply_object_members in *. case_bool_decide; cbn [negb app] in *;
    (constructor; [not_in|not_in|cbn; lia|done]).
Qed.

Lemma reply_read reply :
  reply_ok reply → read_reply (object_of (reply_object_members reply)) = transmitted reply.
Proof using.
  intros [_ H]. unfold reply_object_members. case_bool_decide as E; cbn [negb app].
  - unfold transmitted. rewrite E, (H E). reflexivity.
  - reflexivity.
Qed.

Definition reply_frame (reply : BatchReply) : Frame :=
  text_frame FrameType.BatchResult (encode_batch_result reply).

Lemma text_frame_ok limits type s :
  Z.of_nat (String.length s) <= 2000000 → 2000000 <= max_frame_bytes limits →
  frame_ok limits (text_frame type s).
Proof using.
  intros H1 H2. pose proof (size_of_text s) as Hs. unfold size_of in Hs.
  constructor; cbn [text_frame fr_flags fr_payload]; [unfold is_byte; lia|apply text_bytes_ok|lia|].
  rewrite Hs. word_lia.
Qed.

Lemma reply_frame_ok limits reply :
  reply_ok reply → 2000000 <= max_frame_bytes limits → frame_ok limits (reply_frame reply).
Proof using.
  intros H Hmax. apply text_frame_ok; [|done]. unfold encode_batch_result. rewrite reply_written.
  cbn [text_or_empty_object]. by apply flat_text_length, reply_flat.
Qed.

Lemma reply_received double_in_range reply :
  reply_ok reply → batch_response double_in_range (reply_frame reply) = Value (transmitted reply).
Proof using.
  intros H. unfold batch_response, reply_frame, text_frame. cbn [fr_type fr_payload].
  rewrite (bool_decide_eq_false_2 (FrameType.BatchResult = FrameType.Error)) by done.
  rewrite (bool_decide_eq_true_2 (FrameType.BatchResult = FrameType.BatchResult)) by done. cbn [negb].
  rewrite bytes_text_bytes. unfold encode_batch_result. rewrite reply_written.
  cbn [text_or_empty_object]. rewrite flat_reads by (by apply reply_flat). by rewrite reply_read.
Qed.

Definition batch_frame (document : string) : Frame := text_frame FrameType.Batch document.

Lemma batch_sent double_in_range c document reply frames :
  awaits c (reply_frame reply :: frames) → reply_ok reply →
  Z.of_nat (String.length document) <= max_frame_bytes client_limits →
  ∃ c', send_batch socket_error double_in_range document c = (c', Value (transmitted reply)) ∧
    awaits c' frames ∧
    so_sent (tc_connection c') = so_sent (tc_connection c) ++ encoding (batch_frame document).
Proof using.
  intros Hc Hreply Hdoc. unfold send_batch.
  is_false (max_frame_bytes client_limits <? Z.of_nat (String.length document)).
  assert (frame_ok client_limits (mkFrame FrameType.Batch 0 (text_bytes document))) as Hf.
  { pose proof (size_of_text document) as Hs. unfold size_of in Hs.
    cbn [max_frame_bytes default_transport_limits] in *.
    constructor; cbn [fr_flags fr_payload]; [unfold is_byte; lia|apply text_bytes_ok|cbn; lia|word_lia]. }
  destruct (client_sends c _ _ _ Hc Hf) as (c1 & -> & Hc1 & Hsent1). rewrite ok_success. cbn [negb].
  destruct (client_receives c1 _ _ Hc1) as (c2 & -> & Hc2 & Hsent2).
  exists c2. rewrite reply_received by done. by rewrite Hsent2, Hsent1.
Qed.
End transport.
