(* ===== verification/TransportSession.v ===== *)
(** * A session of batches

    A client that sends documents over a connection and the server that ingests them, put
    together: the store ends as if the documents had been ingested in their order, and every
    call of the client returns the counts of its own document. *)

From stdpp Require Import gmap strings.
From S2P Require Import Prelude Result Checked Text Bytes Crc32c Json JsonBounds JsonWriter JsonRoundTrip.
From S2P Require Import Identity Time Evidence Sample Counter Metadata Event Limits Policy Rules.
From S2P Require Import Explanation Classification Ring History Window OrderedMap Admission Store.
From S2P Require Import StoreOps Queries Decode SampleRoundTrip Ingest Runtime Codec.
From S2P Require Import Format Recovery Persistence Lifecycle Protocol Transport TransportTheorems.
Open Scope Z_scope.
Open Scope word_scope.

#[local] Set Warnings "-register-all".

(** ** The counts of a report *)

Definition outcome_counts (o : DecodeOutcome) : list Z :=
  [do_lines o; do_sample_count o; do_metadata_records o; do_malformed o; do_unsupported o;
   do_version_mismatches o].
Definition outcome_within (n : Z) (o : DecodeOutcome) : Prop :=
  Forall (λ count, 0 <= count <= n) (outcome_counts o).
Definition batch_counts (b : BatchAdmission) : list Z :=
  [bt_presented b; bt_accepted b; bt_rejected b; bt_fenced b; bt_duplicates b; bt_queues_created b].
Definition batch_u64 (b : BatchAdmission) : Prop := Forall is_u64 (batch_counts b).

Lemma decode_line_within double_in_range limits line_number line n o :
  0 <= n → outcome_within n o → outcome_within (n + 1) (decode_line double_in_range limits line_number line o).
Proof.
  unfold outcome_within, outcome_counts. rewrite !Forall_cons. intros Hn H. unfold decode_line.
  destruct H as (? & ? & ? & ? & ? & ? & _).
  destruct (is_comment _); [cbn; split_and!; (lia || constructor)|].
  destruct (parse_line _ _ _ _ _ _) as [[]|[]]; cbn; split_and!; (lia || constructor).
Qed.

Lemma decode_lines_within double_in_range limits lines line_number n o :
  0 <= n → outcome_within n o →
  outcome_within (n + Z.of_nat (length lines)) (decode_lines double_in_range limits line_number lines o).
Proof.
  revert line_number n o. induction lines as [|line lines IH]; intros line_number n o Hn Ho; cbn [decode_lines].
  - cbn. by rewrite Z.add_0_r.
  - replace (n + Z.of_nat (length (line :: lines))) with (n + 1 + Z.of_nat (length lines))
      by (cbn [length]; lia).
    apply IH; [lia|]. by apply decode_line_within.
Qed.

Lemma split_length s sep : (length (split s sep) <= S (String.length s))%nat.
Proof.
  unfold split. generalize (S (String.length s)) as fuel. intros fuel. revert s.
  induction fuel as [|fuel IH]; intros s; cbn [split_loop]; [cbn; lia|].
  destruct (find_char sep s); cbn [length]; [|lia]. specialize (IH (str_drop (S n) s)). lia.
Qed.

Lemma decoded_within double_in_range limits payload o :
  decode_document double_in_range limits payload = Value o →
  outcome_within (Z.of_nat (String.length payload) + 1) o.
Proof.
  unfold decode_document. destruct (negb _); [done|]. destruct (_ <? _); [done|]. intros [= <-].
  pose proof (split_length payload (byte_char 10)).
  pose proof (decode_lines_within double_in_range limits (split payload (byte_char 10)) 1 0 no_outcome) as Hw.
  assert (outcome_within 0 no_outcome) as H0 by (apply Forall_forall; intros count Hin; set_unfold; lia).
  eapply Forall_impl; [exact (Hw ltac:(lia) H0)|]. cbv beta. lia.
Qed.

Lemma tally_u64 index admission st b : batch_u64 b → batch_u64 (tally index admission st b).
Proof.
  unfold batch_u64, batch_counts, tally. rewrite !Forall_cons. intros (H1 & H2 & H3 & H4 & H5 & H6 & _).
  destruct (negb (ok st)); cbn -[wrap_u64].
  - split_and!; [apply wrap_u64_range|done|apply wrap_u64_range|done|done|done|constructor].
  - destruct (AdmissionOutcome.admitted _), (bool_decide _), (ar_queue_created _);
      split_and!; first [apply wrap_u64_range|done|constructor].
Qed.

Section session.
Context (cfg : StoreConfig) (clock : nat → ReceiveTime) (record_bytes : Z).
Context (double_in_range : string → bool) (config : ObservatoryConfig).
Abbreviation limits := (oc_transport config).
Abbreviation ingest := (ingest_document cfg clock record_bytes double_in_range (oc_ingest config)).

Lemma batch_loop_u64 stop total index samples b s :
  batch_u64 b → batch_u64 (batch_loop cfg clock record_bytes stop total index samples b s).1.2.
Proof using.
  revert index b s. induction samples as [|sample samples IH]; intros index b s Hb; cbn [batch_loop]; [done|].
  destruct (stop index); [done|]. destruct (ingest_locked _ _ _ _ _ _) as [[s1 admission] st].
  by apply IH, tally_u64.
Qed.

(** The counts of a report fit their types when the document is not too long. *)
Lemma report_counts document s s' report st :
  Z.of_nat (String.length document) <= u32_max → ingest document s = (s', report, st) →
  Forall is_u64 (outcome_counts (ig_decode report)) ∧ batch_u64 (ig_admission report).
Proof using.
  intros Hlen. unfold ingest_document, apply_outcome.
  assert (batch_u64 no_batch) as Hnone by (apply Forall_forall; intros count Hin; set_unfold; word_lia).
  destruct (decode_document _ _ document) as [o|e] eqn:E.
  - apply decoded_within in E. assert (Forall is_u64 (outcome_counts o)) as Ho.
    { eapply Forall_impl; [exact E|]. cbv beta. intros. word_lia. }
    destruct (apply_tables _ _ _ _) as [s1 st1]. destruct (negb (ok st1)); [by intros [= <- <- <-]|].
    unfold ingest_batch. destruct (negb _); [by intros [= <- <- <-]|].
    destruct (batch_loop _ _ _ _ _ _ _ _ _) as [[s2 b] st2] eqn:Eb. intros [= <- <- <-].
    split; [done|]. cbn [ig_admission]. change b with (s2, b, st2).1.2. rewrite <- Eb. by apply batch_loop_u64.
  - intros [= <- <- <-]. split; [|done]. apply Forall_forall. intros count Hin. set_unfold. word_lia.
Qed.

(** ** The session *)

(** The documents ingested one after the other. *)
Fixpoint ingest_each (documents : list string) (s : Store) : Store * list (IngestReport * Status) :=
  match documents with
  | [] => (s, [])
  | document :: documents =>
      let '(s, report, st) := ingest document s in
      let '(s, results) := ingest_each documents s in
      (s, (report, st) :: results)
  end.

Definition batch_reply (ticket : Z) (result : IngestReport * Status) : BatchReply :=
  if ok result.2 then mkBatchReply ticket result.1 EmptyString EmptyString
  else mkBatchReply ticket result.1 (ErrorCode.to_string (code result.2)) (message result.2).
Fixpoint batch_replies (ticket : Z) (results : list (IngestReport * Status)) : list BatchReply :=
  match results with
  | [] => []
  | result :: results => batch_reply ticket result :: batch_replies (ticket +u 1) results
  end.


Lemma batch_reply_ok ticket report st :
  is_u64 ticket → Forall is_u64 (outcome_counts (ig_decode report)) → batch_u64 (ig_admission report) →
  (String.length (message st) <= 4096)%nat → reply_ok (batch_reply ticket (report, st)).
Proof using.
  unfold batch_u64, outcome_counts, batch_counts. rewrite !Forall_cons.
  intros Ht (?&?&?&?&?&?&_) (?&?&?&?&?&?&_) Hmessage. unfold batch_reply. cbn [fst snd].
  destruct (ok st); (constructor; [|by cbn; try destruct (code st)]); unfold reply_object_members;
    cbn [br_error_code br_error_message br_ticket br_report]; case_bool_decide; cbn [negb app];
    repeat apply Forall_cons_2; try apply Forall_nil_2; cbn [snd small_leaf]; try done.
  destruct (code st); cbn; lia.
Qed.

Lemma answer_batch document sv :
  let '(s, report, st) := ingest document (server_store sv) in
  ∃ sv', answer_frame cfg clock record_bytes double_in_range config (batch_frame document) sv =
    (sv', Some (Value (reply_frame (batch_reply (tv_next_batch_ticket sv) (report, st))))) ∧
    server_store sv' = s ∧ tv_next_batch_ticket sv' = tv_next_batch_ticket sv +u 1.
Proof using.
  unfold answer_frame, apply_batch, take_ticket. cbn [batch_frame text_frame fr_type fr_payload].
  change (server_store (mkTransportServer _ _ _)) with (server_store sv).
  rewrite bytes_text_bytes. destruct (ingest_document _ _ _ _ _ _ _) as [[s report] st].
  eexists. split; [reflexivity|done].
Qed.

Lemma batches_served documents sv :
  is_u64 (tv_next_batch_ticket sv) → 2000000 <= max_frame_bytes limits →
  Forall (λ document, Z.of_nat (String.length document) <= u32_max) documents →
  let '(s, results) := ingest_each documents (server_store sv) in
  Forall (λ result, String.length (message result.2) <= 4096)%nat results →
  let replies := batch_replies (tv_next_batch_ticket sv) results in
  Forall reply_ok replies ∧
  ∃ sv', served cfg clock record_bytes double_in_range config (map batch_frame documents) sv sv'
           (map reply_frame replies) ∧ server_store sv' = s.
Proof using.
  intros Ht Hmax Hdocs. revert sv Ht. induction Hdocs as [|document documents Hdoc Hdocs IH];
    intros sv Ht; cbn [ingest_each].
  { intros _. split; [constructor|]. exists sv. split; [constructor|done]. }
  change (server_store sv) with (server_store (update_stats count_frame sv)).
  pose proof (answer_batch document (update_stats count_frame sv)) as Ha.
  destruct (ingest document _) as [[s1 report] st] eqn:E.
  destruct Ha as (sv1 & Ha & Hs1 & Ht1). specialize (IH sv1). rewrite Hs1, Ht1 in IH.
  cbn [update_stats tv_next_batch_ticket] in IH, Ha.
  destruct (ingest_each documents s1) as [s results].
  intros [Hm Hms]%Forall_cons. destruct IH as (Hreplies & sv' & Hserved & Hs); [apply wrap_u64_range|done|].
  assert (reply_ok (batch_reply (tv_next_batch_ticket sv) (report, st))) as Hreply.
  { destruct (report_counts _ _ _ _ _ Hdoc E) as [??]. by apply batch_reply_ok. }
  cbn [batch_replies]. split; [by constructor|]. exists sv'. split; [|done].
  cbn [map]. eapply served_reply; [exact Ha|by apply reply_frame_ok|done].
Qed.

Context (socket_error : string).

(** A client that sends the documents one after the other. *)
Fixpoint send_batches (documents : list string) (c : TransportClient) :
    TransportClient * list (Result BatchReply) :=
  match documents with
  | [] => (c, [])
  | document :: documents =>
      let '(c, reply) := send_batch socket_error double_in_range document c in
      let '(c, replies) := send_batches documents c in
      (c, reply :: replies)
  end.

Lemma batches_answered documents replies c :
  length documents = length replies → Forall reply_ok replies →
  Forall (λ document, Z.of_nat (String.length document) <= max_frame_bytes client_limits) documents →
  awaits c (map reply_frame replies) →
  ∃ c', send_batches documents c = (c', map (λ reply, Value (transmitted reply)) replies) ∧
    so_sent (tc_connection c') = so_sent (tc_connection c) ++ stream (map batch_frame documents).
Proof using.
  revert replies c. induction documents as [|document documents IH]; intros [|reply replies] c Hlen Hr Hd Hc;
    cbn [length] in Hlen; try lia.
  { exists c. cbn. by rewrite app_nil_r. }
  apply Forall_cons in Hr as [Hr Hrs]. apply Forall_cons in Hd as [Hd Hds]. cbn [map] in Hc. cbn [send_batches].
  destruct (batch_sent socket_error double_in_range c document reply _ Hc Hr Hd) as (c1 & -> & Hc1 & Hs1).
  destruct (IH replies c1) as (c2 & -> & Hs2); [lia|done..|]. exists c2. split; [done|].
  rewrite Hs2, Hs1, <- app_assoc. done.
Qed.

Lemma batch_replies_length ticket results : length (batch_replies ticket results) = length results.
Proof using. revert ticket. induction results as [|? ? IH]; intros ticket; cbn; [done|]. by rewrite IH. Qed.
Lemma ingest_each_length documents s : length (ingest_each documents s).2 = length documents.
Proof using.
  revert s. induction documents as [|document documents IH]; intros s; cbn [ingest_each]; [done|].
  destruct (ingest document s) as [[s1 report] st]. specialize (IH s1).
  destruct (ingest_each documents s1). cbn in *. by rewrite IH.
Qed.

Lemma no_bye_batches documents : bye_last (map batch_frame documents).
Proof using.
  intros a frame b H Hbye. assert (frame ∈ map batch_frame documents) as Hin.
  { rewrite H. apply elem_of_app. right. by left. }
  apply list_elem_of_fmap in Hin as (document & -> & _). done.
Qed.

Lemma batch_frame_ok document :
  Z.of_nat (String.length document) <= max_frame_bytes limits →
  Z.of_nat (String.length document) <= u32_max → frame_ok limits (batch_frame document).
Proof using.
  intros H1 H2. pose proof (size_of_text document) as Hs. unfold size_of in Hs.
  constructor; cbn [batch_frame text_frame fr_flags fr_payload];
    [unfold is_byte; lia|apply text_bytes_ok|lia|word_lia].
Qed.
End session.

(** C35: batches over the wire are ingested in order, and every reply is its own batch's.  A
    client sends documents one after the other over a connection.  However the bytes of
    the requests are cut into the server's reads, and the bytes that the server sends into
    the client's, and however little the system takes of each send: the connection
    ends with a success, the store is the one that ingesting the documents in their order
    gives, and the n-th call returns the n-th ticket from the server's next one, with the
    counts, the verdict and the error of the n-th ingestion. *)
Theorem batches_over_the_wire (socket_error : string) (cfg : StoreConfig) (clock : nat → ReceiveTime)
    (record_bytes : Z) (double_in_range : string → bool) (config : ObservatoryConfig)
    (documents : list string) (sv sv' : TransportServer) (sock sock' : Socket) (st : Status)
    (s : Store) (results : list (IngestReport * Status)) (requests : list (list Z)) :
  let limits := oc_transport config in
  ok (validate_transport limits) = true → max_connection_buffer_bytes limits <= u64_max →
  2000000 <= max_frame_bytes limits → is_u64 (tv_next_batch_ticket sv) →
  Forall (λ document, Z.of_nat (String.length document) <=
                        Z.min (max_frame_bytes limits) (max_frame_bytes client_limits)) documents →
  concat requests = stream (map batch_frame documents) → reads_ok limits requests →
  accepting sock → so_arrivals sock = map Arrived requests → so_sent sock = [] →
  ingest_each cfg clock record_bytes double_in_range config documents (server_store sv) = (s, results) →
  Forall (λ result, String.length (message result.2) <= 4096)%nat results →
  handle_connection socket_error cfg clock record_bytes double_in_range config sock sv = (sock', sv', st) →
  st = success ∧ server_store sv' = s ∧
  ∀ (c : TransportClient) (answers : list (list Z)),
    concat answers = so_sent sock' → reads_ok client_limits answers →
    accepting (tc_connection c) → tc_reader c = mkReader client_limits [] →
    so_arrivals (tc_connection c) = map Arrived answers →
    ∃ c', send_batches double_in_range socket_error documents c =
        (c', map (λ reply, Value (transmitted reply)) (batch_replies (tv_next_batch_ticket sv) results)) ∧
      so_sent (tc_connection c') = so_sent (tc_connection c) ++ concat requests.
Proof.
  intros limits Hok Hwidth Hmax Ht Hdocs Hrequests Hreads Hs Harr Hempty Hingest Hmessages Hhandled.
  subst limits.
  assert (Forall (λ document, Z.of_nat (String.length document) <= u32_max) documents) as Hshort.
  { eapply Forall_impl; [exact Hdocs|]. cbn. unfold u32_max. lia. }
  pose proof (batches_served cfg clock record_bytes double_in_range config documents
    (update_stats count_connection sv) Ht Hmax Hshort) as Hserved.
  change (server_store (update_stats count_connection sv)) with (server_store sv) in Hserved.
  pose proof (ingest_each_length cfg clock record_bytes double_in_range config documents (server_store sv)) as Hl.
  rewrite Hingest in Hserved, Hl.
  destruct (Hserved Hmessages) as (Hreplies & sv1 & Hsv & Hstore). cbn [update_stats tv_next_batch_ticket] in *.
  assert (Forall (frame_ok (oc_transport config)) (map batch_frame documents)) as Hframes.
  { apply Forall_map. eapply Forall_impl; [exact Hdocs|]. cbv beta. intros document Hd.
    cbn [max_frame_bytes default_transport_limits] in Hd.
    apply batch_frame_ok; word_lia. }
  destruct (handle_connection_spec socket_error cfg clock record_bytes double_in_range config Hok Hwidth
    ltac:(lia) requests _ sock sv sv1 _ Hframes (no_bye_batches documents) Hrequests Harr Hreads Hs Hsv)
    as (sock1 & Hrun & Hsent).
  rewrite Hrun in Hhandled. injection Hhandled as <- <- <-.
  split; [done|]. split; [done|]. intros c answers Hanswers Hreads' Hc Hreader Harr'.
  rewrite Hrequests. apply batches_answered; [|done| |].
  - by rewrite batch_replies_length.
  - eapply Forall_impl; [exact Hdocs|]. cbv beta. lia.
  - split; [done|]. split.
    + apply Forall_map. eapply Forall_impl; [exact Hreplies|]. intros reply Hr. by apply reply_frame_ok.
    + exists [], answers. split_and!; try done. by rewrite Hanswers, Hsent, Hempty.
Qed.
