(* ===== verification/Serve.v ===== *)
(** * The server's threads

    [TransportServer::serve] of [transport/Server.cpp]: the accept loop, the bounded queue of
    connections and the workers that handle them, and the steps in which one connection is
    handled while the others go on.

    A critical section under [queue_mutex] or [mutex_] is atomic, and so is [fetch_add]; the
    store's lock is taken once for each table of a document and once for its samples.  What a
    worker does between two of these is one step.  A condition variable is the set of workers
    that sleep on it.  Connections are numbered in the order in which they are accepted. *)

From stdpp Require Import gmap strings.
From S2P Require Import Prelude Result Checked Text Bytes Crc32c Json JsonWriter Identity Time Evidence.
From S2P Require Import Sample Counter Metadata Event Limits Policy Rules Explanation Classification.
From S2P Require Import Ring History Window OrderedMap Admission Store StoreOps Queries Decode Ingest.
From S2P Require Import Runtime Codec Format Recovery Persistence Lifecycle Protocol.
From S2P Require Import Transport.
Open Scope Z_scope.
Open Scope word_scope.

#[local] Set Warnings "-register-all".

(** ** One connection, step by step *)

Record Connection := mkConnection {
  cn_reader : FrameReader;
  cn_sock : Socket;
  cn_keep_going : bool
}.

(** Where [handle_connection] is: at its start; at the test of [keep_going]; before the next
    frame; with a batch whose ticket is taken; applying what the batch decoded to, with the
    tables that are left; in [send_all], with where it goes on once the call returns; returned. *)
Inductive Handler :=
| Opened (sock : Socket)
| Reading (c : Connection)
| Framing (c : Connection)
| Ticketed (c : Connection) (ticket : Z) (payload : list Z)
| Applying (c : Connection) (ticket : Z) (o : DecodeOutcome) (tables : list ClassMetadataTable)
| Replying (next : Handler)
| Ended (sock : Socket) (st : Status).

Section serve.
Context (socket_error : string).
Context (cfg : StoreConfig) (clock : nat → ReceiveTime) (record_bytes : Z).
Context (double_in_range : string → bool) (config : ObservatoryConfig).
Abbreviation limits := (oc_transport config).

(** What follows [handle_frame] in the loop over the frames. *)
Definition after_frame (reader : FrameReader) (keep_going : bool) (sock : Socket) (st : Status) : Handler :=
  if negb (ok st) then Ended sock st else Framing (mkConnection reader sock keep_going).

Definition reply_batch (c : Connection) (ticket : Z) (report : IngestReport) (st : Status)
    (sv : TransportServer) : Handler * TransportServer :=
  let '(sv, reply) := finish_batch ticket report st sv in
  let '(sock, st) :=
    send_frame socket_error limits (text_frame FrameType.BatchResult (encode_batch_result reply))
      (cn_sock c) in
  (Replying (after_frame (cn_reader c) (cn_keep_going c) sock st), sv).

Definition read_step (c : Connection) : Handler :=
  if negb (cn_keep_going c) then Ended (cn_sock c) success
  else
    let '(sock, bytes, receive_status) := receive socket_error (cn_sock c) in
    if negb (ok receive_status) then Ended sock receive_status
    else
      match bytes with
      | [] => Ended sock success
      | _ =>
          let '(reader, append_status) := reader_append bytes (cn_reader c) in
          if negb (ok append_status) then Ended sock append_status
          else Framing (mkConnection reader sock (cn_keep_going c))
      end.

Definition frame_step (c : Connection) (sv : TransportServer) : Handler * TransportServer :=
  let '(reader, produced, next_status) := reader_next (cn_reader c) in
  if negb (ok next_status) then
    let '(sock, _) :=
      send_frame socket_error limits
        (text_frame FrameType.Error (integrity_failure (message next_status))) (cn_sock c) in
    (Ended sock success, update_stats count_rejected_frame sv)
  else
    match produced with
    | None => (Reading (mkConnection reader (cn_sock c) (cn_keep_going c)), sv)
    | Some frame =>
        let sv := update_stats count_frame sv in
        match fr_type frame with
        | FrameType.Batch =>
            let '(ticket, sv) := take_ticket sv in
            (Ticketed (mkConnection reader (cn_sock c) (cn_keep_going c)) ticket (fr_payload frame), sv)
        | _ =>
            let '(sock, sv, keep, frame_status) :=
              handle_frame socket_error cfg clock record_bytes double_in_range config frame
                (cn_sock c) sv in
            let next := after_frame reader (cn_keep_going c && keep) sock frame_status in
            (if keep then Replying next else next, sv)
        end
    end.

(** [ingest_document], up to the first table. *)
Definition decode_step (c : Connection) (ticket : Z) (payload : list Z) (sv : TransportServer) :
    Handler * TransportServer :=
  match decode_document double_in_range (oc_ingest config) (bytes_text payload) with
  | Failure e => reply_batch c ticket Ingest.no_report e sv
  | Value o => (Applying c ticket o (do_metadata o), sv)
  end.

(** A table, or the samples when no table is left. *)
Definition apply_step (c : Connection) (ticket : Z) (o : DecodeOutcome)
    (tables : list ClassMetadataTable) (sv : TransportServer) : Handler * TransportServer :=
  match tables with
  | table :: tables =>
      let '(s, _, st) := apply_metadata cfg clock table (server_store sv) in
      let sv := set_server_store s sv in
      if negb (ok st) then reply_batch c ticket (mkIngestReport o no_batch false) st sv
      else (Applying c ticket o tables, sv)
  | [] =>
      let '(s, admission, st) :=
        ingest_batch cfg clock record_bytes no_stop (do_samples o) (server_store sv) in
      reply_batch c ticket (mkIngestReport o admission (ok st)) st (set_server_store s sv)
  end.

Definition handler_step (h : Handler) (sv : TransportServer) : Handler * TransportServer :=
  match h with
  | Opened sock => (Reading (mkConnection (mkReader limits []) sock true), update_stats count_connection sv)
  | Reading c => (read_step c, sv)
  | Framing c => frame_step c sv
  | Ticketed c ticket payload => decode_step c ticket payload sv
  | Applying c ticket o tables => apply_step c ticket o tables sv
  | Replying next => (next, sv)
  | Ended _ _ => (h, sv)
  end.

(** *** Waiting for the peer

    [recv] waits while the peer has sent nothing more and keeps the connection open, and
    [send] while it does not read what it was sent; neither has a timeout.  [stalls id h]
    says that the peer of the connection [id] leaves it at that for ever.  (A [Socket] whose
    arrivals are used up is one whose peer has closed it, unless [stalls] says otherwise.)
    The two short frames that are sent under a lock, the busy reply of [turn_away] and the
    error frame that follows a malformed frame, are part of their critical sections: those
    sends are taken to return. *)
Context (stalls : nat → Handler → bool).

Definition waiting (id : nat) (h : Handler) : bool :=
  match h with
  | Reading c =>
      cn_keep_going c && so_open (cn_sock c) &&
      (match so_arrivals (cn_sock c) with [] => true | _ => false end) && stalls id h
  | Replying _ => stalls id h
  | _ => false
  end.

(** ** The pool *)

(** Where a worker is: about to test its predicate under the lock; asleep on [queue_cv];
    with a connection; returned. *)
Inductive PoolWorker :=
| Checking
| Sleeping
| Serving (id : nat) (h : Handler)
| Gone.

(** Where [serve] is: in the accept loop; before [notify_one]; after the loop; before
    [notify_all]; joining the workers; returned. *)
Inductive ServePhase : Set := Selecting | Notifying | Leaving | NotifyingAll | Joining | Returned.

(** [po_accepted] counts the connections that [accept] returned; the connections turned away
    and those handled are remembered with how they ended. *)
Record Pool := mkPool {
  po_phase : ServePhase;
  po_result : Status;
  po_closing : bool;
  po_queue : list (nat * Socket);
  po_workers : list PoolWorker;
  po_server : TransportServer;
  po_accepted : nat;
  po_rejected : list (nat * Socket);
  po_handled : list (nat * Status)
}.

Definition pool_size : nat :=
  if max_connections limits =? 0 then 1 else Z.to_nat (max_connections limits).

(** The pool that [serve] makes. *)
Definition new_pool (sv : TransportServer) : Pool :=
  mkPool Selecting success false [] (replicate pool_size Checking) sv 0 [] [].

(** [serve] without a listening socket, and with one: the workers are made. *)
Definition start_serving (listening : bool) (sv : TransportServer) : Result Pool :=
  if negb listening then
    fail ErrorCode.NotRunning "the transport server is not listening on any socket"
  else Value (new_pool sv).

Definition set_serve_phase (phase : ServePhase) (p : Pool) : Pool :=
  mkPool phase (po_result p) (po_closing p) (po_queue p) (po_workers p) (po_server p)
    (po_accepted p) (po_rejected p) (po_handled p).
Definition set_result (st : Status) (p : Pool) : Pool :=
  mkPool (po_phase p) st (po_closing p) (po_queue p) (po_workers p) (po_server p)
    (po_accepted p) (po_rejected p) (po_handled p).
Definition set_worker (i : nat) (w : PoolWorker) (p : Pool) : Pool :=
  mkPool (po_phase p) (po_result p) (po_closing p) (po_queue p) (<[i := w]> (po_workers p))
    (po_server p) (po_accepted p) (po_rejected p) (po_handled p).

(** *** The accept loop *)

(** What a round of the loop meets: a stop that was requested; a listening socket that
    cannot be waited for; no connection within the poll interval; a call of [accept] that
    fails, with a stop requested meanwhile or not; a connection. *)
Inductive AcceptEvent :=
| StopSeen
| SelectFailed
| NoConnection
| AcceptFailed (stop_seen : bool)
| Arriving (sock : Socket).

Definition busy_frame : Frame :=
  text_frame FrameType.Error
    (quoted "{'code':'busy','message':'the server is at its connection limit'}").

(** A connection beyond the queue's bound is told so and closed. *)
Definition turn_away (sock : Socket) (p : Pool) : Pool :=
  let '(sock, _) := send_frame socket_error limits busy_frame sock in
  mkPool (po_phase p) (po_result p) (po_closing p) (po_queue p) (po_workers p)
    (update_stats count_busy (po_server p)) (S (po_accepted p))
    (po_rejected p ++ [(po_accepted p, close_socket sock)]) (po_handled p).
Definition enqueue (sock : Socket) (p : Pool) : Pool :=
  mkPool Notifying (po_result p) (po_closing p) (po_queue p ++ [(po_accepted p, sock)])
    (po_workers p) (po_server p) (S (po_accepted p)) (po_rejected p) (po_handled p).

Definition accept_turn (stop_after_batches : Z) (event : AcceptEvent) (p : Pool) : Pool :=
  match event with
  | StopSeen => set_serve_phase Leaving p
  | SelectFailed =>
      set_serve_phase Leaving
        (set_result
           (failure ErrorCode.IoError ("the listening socket became unreadable: " +:+ socket_error)) p)
  | NoConnection =>
      if (0 <? stop_after_batches) &&
         (stop_after_batches <=? ss_batches_applied (tv_stats (po_server p)))
      then set_serve_phase Leaving p else p
  | AcceptFailed stop_seen => if stop_seen then set_serve_phase Leaving p else p
  | Arriving sock =>
      if (pool_size <=? length (po_queue p))%nat then turn_away sock p else enqueue sock p
  end.

(** [notify_one] wakes the sleeper that the system chooses, or nobody. *)
Definition notify_sleeper (i : nat) (p : Pool) : Pool := set_serve_phase Selecting (set_worker i Checking p).
Definition notify_nobody (p : Pool) : Pool := set_serve_phase Selecting p.

(** [closing = true] under the lock, and [notify_all]. *)
Definition close_queue (p : Pool) : Pool :=
  mkPool NotifyingAll (po_result p) true (po_queue p) (po_workers p) (po_server p)
    (po_accepted p) (po_rejected p) (po_handled p).
Definition wake_sleeper (w : PoolWorker) : PoolWorker := match w with Sleeping => Checking | _ => w end.
Definition wake_all (p : Pool) : Pool :=
  mkPool Joining (po_result p) (po_closing p) (po_queue p) (map wake_sleeper (po_workers p))
    (po_server p) (po_accepted p) (po_rejected p) (po_handled p).

(** *** The workers *)

(** Under [queue_mutex]: the connection in front is taken; without one the worker sleeps, or
    returns when the queue is closing. *)
Definition take_connection (i : nat) (p : Pool) : Pool :=
  match po_queue p with
  | (id, sock) :: queue =>
      mkPool (po_phase p) (po_result p) (po_closing p) queue
        (<[i := Serving id (Opened sock)]> (po_workers p)) (po_server p) (po_accepted p)
        (po_rejected p) (po_handled p)
  | [] => set_worker i (if po_closing p then Gone else Sleeping) p
  end.

(** A worker with a connection takes a step with it; the status it returns is not used. *)
Definition serve_turn (i id : nat) (h : Handler) (p : Pool) : Pool :=
  match h with
  | Ended sock st =>
      mkPool (po_phase p) (po_result p) (po_closing p) (po_queue p)
        (<[i := Checking]> (po_workers p)) (po_server p) (po_accepted p) (po_rejected p)
        (po_handled p ++ [(id, st)])
  | _ =>
      let '(h, sv) := handler_step h (po_server p) in
      mkPool (po_phase p) (po_result p) (po_closing p) (po_queue p)
        (<[i := Serving id h]> (po_workers p)) sv (po_accepted p) (po_rejected p) (po_handled p)
  end.

(** ** Steps *)

Definition asleep (w : PoolWorker) : bool := match w with Sleeping => true | _ => false end.
Definition gone (w : PoolWorker) : bool := match w with Gone => true | _ => false end.

(** What the server's own threads do, without the accept loop; a worker that waits for its
    peer does nothing. *)
Inductive pool_step : Pool → Pool → Prop :=
| pool_check i p :
    po_workers p !! i = Some Checking → pool_step p (take_connection i p)
| pool_serve i id h p :
    po_workers p !! i = Some (Serving id h) → waiting id h = false →
    pool_step p (serve_turn i id h p)
| pool_notify i p :
    po_phase p = Notifying → po_workers p !! i = Some Sleeping → pool_step p (notify_sleeper i p)
| pool_notify_nobody p :
    po_phase p = Notifying → existsb asleep (po_workers p) = false → pool_step p (notify_nobody p)
| pool_close p : po_phase p = Leaving → pool_step p (close_queue p)
| pool_notify_all p : po_phase p = NotifyingAll → pool_step p (wake_all p)
| pool_joined p :
    po_phase p = Joining → forallb gone (po_workers p) = true → pool_step p (set_serve_phase Returned p).

(** What arrives on a connection is bytes. *)
Definition typed_socket (sock : Socket) : Prop :=
  Forall (λ arrival, match arrival with Arrived bytes => bytes_ok bytes | Broken => True end)
    (so_arrivals sock).
Definition typed_event (event : AcceptEvent) : Prop :=
  match event with Arriving sock => typed_socket sock | _ => True end.

(** All steps: those, a round of the accept loop, a wake-up without notification. *)
Inductive serve_step (stop_after_batches : Z) : Pool → Pool → Prop :=
| serve_pool p p' : pool_step p p' → serve_step stop_after_batches p p'
| serve_accept event p :
    po_phase p = Selecting → typed_event event →
    serve_step stop_after_batches p (accept_turn stop_after_batches event p)
| serve_wake i p :
    po_workers p !! i = Some Sleeping → serve_step stop_after_batches p (set_worker i Checking p).

Definition serves (stop_after_batches : Z) (sv : TransportServer) : Pool → Prop :=
  rtc (serve_step stop_after_batches) (new_pool sv).
End serve.
