(* ===== verification/ServeOutcomes.v ===== *)
(** * Runs of the pool

    Whatever the order in which connections arrive, the accept loop and the workers go on:
    nothing is lost between them, and they come to an end. *)

From stdpp Require Import gmap strings.
From Stdlib Require Import Wellfounded.
From S2P Require Import Prelude Result Checked Text Bytes Crc32c Json JsonWriter Identity Time.
From S2P Require Import Evidence Sample Counter Metadata Event Limits Decode Policy Rules.
From S2P Require Import Explanation Classification Protocol Ring History Window OrderedMap.
From S2P Require Import Admission Store StoreOps Queries Ingest Runtime Codec Format.
From S2P Require Import Recovery Persistence Lifecycle Transport Serve ServeTheorems.
Open Scope Z_scope.
Open Scope word_scope.

#[local] Set Warnings "-register-all".

(** ** The invariant *)

Definition held (w : PoolWorker) : list nat := match w with Serving id _ => [id] | _ => [] end.
Definition checking (w : PoolWorker) : nat := match w with Checking => 1 | _ => 0 end.
Definition typed_worker (w : PoolWorker) : Prop :=
  match w with Serving _ h => typed_handler h | _ => True end.
(** The phases after [closing = true], and those after [notify_all]. *)
Definition closed (phase : ServePhase) : bool :=
  match phase with NotifyingAll | Joining | Returned => true | _ => false end.
Definition notified (phase : ServePhase) : bool :=
  match phase with Joining | Returned => true | _ => false end.
(** A notification that is on its way. *)
Definition on_its_way (phase : ServePhase) : nat := match phase with Notifying => 1 | _ => 0 end.

Section runs.
Context (socket_error : string).
Context (cfg : StoreConfig) (clock : nat → ReceiveTime) (record_bytes : Z).
Context (double_in_range : string → bool) (config : ObservatoryConfig).
Context (stalls : nat → Handler → bool).
Abbreviation limits := (oc_transport config).
Abbreviation hstep := (handler_step socket_error cfg clock record_bytes double_in_range config).
Abbreviation pstep := (pool_step socket_error cfg clock record_bytes double_in_range config stalls).
Abbreviation sstep := (serve_step socket_error cfg clock record_bytes double_in_range config stalls).
Abbreviation runs := (serves socket_error cfg clock record_bytes double_in_range config stalls).
Abbreviation size := (pool_size config).

(** The connections, each in one place. *)
Definition places (p : Pool) : list nat :=
  map fst (po_queue p) ++ (po_workers p ≫= held) ++ map fst (po_handled p) ++ map fst (po_rejected p).

Record pool_ok (p : Pool) : Prop := mkPoolOk {
  pk_size : length (po_workers p) = size;
  pk_bound : (length (po_queue p) <= size)%nat;
  pk_places : seq 0 (po_accepted p) ≡ₚ places p;
  pk_closing : po_closing p = closed (po_phase p);
  pk_gone : Forall (λ w, w = Gone → po_closing p = true ∧ po_queue p = []) (po_workers p);
  pk_awake : notified (po_phase p) = true → Forall (λ w, w ≠ Sleeping) (po_workers p);
  pk_returned : po_phase p = Returned → Forall (λ w, w = Gone) (po_workers p);
  pk_wake : po_closing p = false → Forall (λ w, w ≠ Sleeping) (po_workers p) ∨
    (length (po_queue p) <= sum_list_with checking (po_workers p) + on_its_way (po_phase p))%nat;
  pk_typed : Forall typed_worker (po_workers p);
  pk_typed_queue : Forall (λ entry, typed_socket entry.2) (po_queue p)
}.

Lemma new_pool_ok sv : pool_ok (new_pool config sv).
Proof using.
  constructor; cbn [new_pool po_workers po_queue po_closing po_phase po_accepted closed notified].
  - apply length_replicate.
  - cbn [length]. lia.
  - unfold places. cbn. rewrite app_nil_r. replace (replicate size Checking ≫= held) with (@nil nat); [done|].
    by induction size.
  - done.
  - by apply Forall_replicate.
  - done.
  - done.
  - intros _. left. by apply Forall_replicate.
  - by apply Forall_replicate.
  - constructor.
Qed.

(** A worker that changes while the rest stays: what there is to show of its new state. *)
Lemma others {P : PoolWorker → Prop} p i w : Forall P (po_workers p) → P w → Forall P (<[i := w]> (po_workers p)).
Proof using. intros. by apply Forall_insert. Qed.
Lemma there {P : PoolWorker → Prop} p i w : Forall P (po_workers p) → po_workers p !! i = Some w → P w.
Proof using. intros H Hi. by eapply Forall_lookup_1. Qed.

Lemma take_connection_ok i p :
  po_workers p !! i = Some Checking → pool_ok p → pool_ok (take_connection i p).
Proof using.
  intros Hi [H1 H2 H3 H4 H5 H6 H7 H8 H9 H10]. unfold take_connection.
  pose proof (λ w, bind_insert held _ i Checking w Hi) as Hheld.
  pose proof (λ w, sum_insert checking _ i Checking w Hi) as Hsum. cbn in Hheld, Hsum.
  assert (po_phase p ≠ Returned) as Hnot by (intros Hp; pose proof (there _ _ _ (H7 Hp) Hi); done).
  destruct (po_queue p) as [|[id sock] queue] eqn:Q.
  - unfold set_worker. constructor; cbn [po_workers po_queue po_closing po_phase po_accepted].
    + by rewrite length_insert.
    + by rewrite Q.
    + rewrite H3. unfold places. cbn. rewrite Q.
      specialize (Hheld (if po_closing p then Gone else Sleeping)).
      destruct (po_closing p); cbn in Hheld; rewrite !app_nil_r in Hheld; by rewrite Hheld.
    + done.
    + apply others; [by rewrite Q|]. rewrite Q. by destruct (po_closing p).
    + intros Hn. apply others; [by apply H6|].
      rewrite H4. by destruct (po_phase p).
    + done.
    + intros _. right. rewrite Q. cbn. lia.
    + apply others; [done|]. by destruct (po_closing p).
    + by rewrite Q.
  - apply Forall_cons in H10 as [H10 H11].
    constructor; cbn [po_workers po_queue po_closing po_phase po_accepted].
    + by rewrite length_insert.
    + cbn [length] in H2. lia.
    + rewrite H3. unfold places. cbn. rewrite Q. cbn. specialize (Hheld (Serving id (Opened sock))).
      cbn in Hheld. rewrite app_nil_r in Hheld. rewrite Hheld. solve_Permutation.
    + done.
    + apply others; [|done]. eapply Forall_impl; [exact H5|]. cbv beta. intros w Hw Hg. by destruct (Hw Hg).
    + intros Hn. apply others; [by apply H6|done].
    + done.
    + intros Hc. destruct (H8 Hc) as [Hs|Hs]; [left; by apply others|right].
      specialize (Hsum (Serving id (Opened sock))). cbn in Hsum, Hs. lia.
    + by apply others.
    + done.
Qed.

(** A worker that goes on with what it has, the phase perhaps changing. *)
Lemma worker_goes_on i w w' phase sv handled p :
  po_workers p !! i = Some w → w' ≠ Gone → w' ≠ Sleeping → typed_worker w' → w ≠ Gone →
  held w' ++ map fst handled ≡ₚ held w ++ map fst (po_handled p) →
  closed phase = closed (po_phase p) → notified phase = notified (po_phase p) → phase ≠ Returned →
  (checking w + on_its_way (po_phase p) <= checking w' + on_its_way phase)%nat → pool_ok p →
  pool_ok (mkPool phase (po_result p) (po_closing p) (po_queue p) (<[i := w']> (po_workers p)) sv
             (po_accepted p) (po_rejected p) handled).
Proof using.
  intros Hi Hg Hs Ht Hw Hh Hc Hn Hr Hle [H1 H2 H3 H4 H5 H6 H7 H8 H9 H10].
  pose proof (bind_insert held _ i w w' Hi) as Hheld.
  pose proof (sum_insert checking _ i w w' Hi) as Hsum.
  constructor; cbn [po_workers po_queue po_closing po_phase po_accepted].
  - by rewrite length_insert.
  - done.
  - rewrite H3. unfold places. cbn. apply Permutation_app_head.
    apply (Permutation_app_inv_l (held w)). apply (Permutation_app_inv_l (held w')).
    transitivity ((held w' ++ map fst handled) ++ (<[i:=w']> (po_workers p) ≫= held) ++ held w ++ map fst (po_rejected p)).
    2:{ solve_Permutation. }
    rewrite Hh. transitivity (((po_workers p ≫= held) ++ held w') ++ held w ++ map fst (po_handled p) ++ map fst (po_rejected p)).
    + solve_Permutation.
    + rewrite <- Hheld. solve_Permutation.
  - congruence.
  - by apply others.
  - intros Hp. apply others; [apply H6; congruence|done].
  - done.
  - intros Hp. destruct (H8 Hp) as [?|Hq]; [left; by apply others|right]. lia.
  - by apply others.
  - done.
Qed.

Lemma serve_turn_ok i id h p :
  po_workers p !! i = Some (Serving id h) → pool_ok p →
  pool_ok (serve_turn socket_error cfg clock record_bytes double_in_range config i id h p).
Proof using.
  intros Hi Hp. pose proof (there _ _ _ (pk_typed p Hp) Hi) as Ht.
  assert (po_phase p ≠ Returned) as Hnot.
  { intros Hr. pose proof (there _ _ _ (pk_returned p Hp Hr) Hi). done. }
  assert (∀ h' sv', hstep h (po_server p) = (h', sv') → pool_ok
    (mkPool (po_phase p) (po_result p) (po_closing p) (po_queue p) (<[i := Serving id h']> (po_workers p)) sv'
       (po_accepted p) (po_rejected p) (po_handled p))) as Hstep.
  { intros h' sv' E. eapply worker_goes_on; try done.
    by destruct (step_typed _ _ _ _ _ _ _ _ _ _ Ht E). }
  unfold serve_turn. destruct (hstep h (po_server p)) as [h' sv'] eqn:E.
  specialize (Hstep h' sv' eq_refl). destruct h; try done.
  eapply worker_goes_on; try done; [|cbn; lia]. rewrite map_app. cbn. solve_Permutation.
Qed.

(** The phase changes, and nothing else. *)
Lemma phase_changes phase result sv p :
  closed phase = closed (po_phase p) → notified phase = notified (po_phase p) →
  (phase = Returned → Forall (λ w, w = Gone) (po_workers p)) →
  Forall (λ w, w ≠ Sleeping) (po_workers p) ∨ (on_its_way (po_phase p) <= on_its_way phase)%nat → pool_ok p →
  pool_ok (mkPool phase result (po_closing p) (po_queue p) (po_workers p) sv (po_accepted p)
             (po_rejected p) (po_handled p)).
Proof using.
  intros Hc Hn Hr Hle [H1 H2 H3 H4 H5 H6 H7 H8 H9 H10].
  constructor; cbn [po_workers po_queue po_closing po_phase po_accepted]; try done.
  - congruence.
  - intros Hp. apply H6. congruence.
  - intros Hp. destruct Hle as [?|Hle]; [by left|]. destruct (H8 Hp); [by left|right; lia].
Qed.

Lemma wake_all_ok p : po_phase p = NotifyingAll → pool_ok p → pool_ok (wake_all p).
Proof using.
  intros Hphase [H1 H2 H3 H4 H5 H6 H7 H8 H9 H10]. rewrite Hphase in H4. cbn in H4.
  constructor; cbn [wake_all po_workers po_queue po_closing po_phase po_accepted]; try done.
  - by rewrite length_map.
  - rewrite H3. unfold places. cbn. replace (map wake_sleeper (po_workers p) ≫= held) with (po_workers p ≫= held); [done|].
    clear. induction (po_workers p) as [|w ws IH]; [done|]. cbn. rewrite <- IH. by destruct w.
  - apply Forall_map. eapply Forall_impl; [exact H5|]. intros [] Hw; cbn; try done; auto.
  - intros _. apply Forall_map. apply Forall_true. by intros [].
  - intros Hp. congruence.
  - apply Forall_map. eapply Forall_impl; [exact H9|]. by intros [].
Qed.

Lemma close_queue_ok p : po_phase p = Leaving → pool_ok p → pool_ok (close_queue p).
Proof using.
  intros Hphase [H1 H2 H3 H4 H5 H6 H7 H8 H9 H10]. rewrite Hphase in H4. cbn in H4.
  constructor; cbn [close_queue po_workers po_queue po_closing po_phase po_accepted]; try done.
  eapply Forall_impl; [exact H5|]. cbv beta. intros w Hw Hg. destruct (Hw Hg). congruence.
Qed.

Lemma turn_away_ok sock p :
  po_phase p = Selecting → pool_ok p → pool_ok (turn_away socket_error config sock p).
Proof using.
  intros Hphase [H1 H2 H3 H4 H5 H6 H7 H8 H9 H10]. unfold turn_away.
  destruct (send_frame _ _ _ _) as [sock' st].
  constructor; cbn [po_workers po_queue po_closing po_phase po_accepted]; try done.
  rewrite seq_S, H3. unfold places. cbn. rewrite map_app, !app_assoc. done.
Qed.
Lemma enqueue_ok sock p :
  po_phase p = Selecting → typed_socket sock → (length (po_queue p) < size)%nat → pool_ok p →
  pool_ok (enqueue sock p).
Proof using.
  intros Hphase Ht Hroom [H1 H2 H3 H4 H5 H6 H7 H8 H9 H10]. rewrite Hphase in H4, H8. cbn in H4.
  constructor; cbn [enqueue po_workers po_queue po_closing po_phase po_accepted]; try done.
  - rewrite length_app. cbn. lia.
  - rewrite seq_S, H3. unfold places. cbn. rewrite map_app. cbn. solve_Permutation.
  - eapply Forall_impl; [exact H5|]. cbv beta. intros w Hw Hg. destruct (Hw Hg). congruence.
  - intros Hp. destruct (H8 Hp) as [?|Hq]; [by left|right]. cbn in *. rewrite length_app. cbn. lia.
  - apply Forall_app_2; [done|by constructor].
Qed.

Lemma no_sleeper p : existsb asleep (po_workers p) = false → Forall (λ w, w ≠ Sleeping) (po_workers p).
Proof using.
  intros H. apply Forall_forall. intros w Hin ->. apply list_elem_of_In in Hin.
  assert (existsb asleep (po_workers p) = true) by (apply existsb_exists; by exists Sleeping). congruence.
Qed.
Lemma all_gone p : forallb gone (po_workers p) = true → Forall (λ w, w = Gone) (po_workers p).
Proof using.
  intros H. apply Forall_forall. intros w Hin. apply list_elem_of_In in Hin.
  rewrite forallb_forall in H. specialize (H w Hin). by destruct w.
Qed.

Lemma pool_step_ok p p' : pstep p p' → pool_ok p → pool_ok p'.
Proof using.
  intros [i p0 Hi|i id h p0 Hi Hgoes|i p0 Hphase Hi|p0 Hphase Hno|p0 Hphase|p0 Hphase|p0 Hphase Hall] Hp.
  - by apply take_connection_ok.
  - by apply serve_turn_ok.
  - apply (worker_goes_on i Sleeping Checking Selecting (po_server p0) (po_handled p0) p0); try done;
      rewrite Hphase; done || (cbn; lia).
  - apply phase_changes; try (rewrite Hphase; done); [done|left; by apply no_sleeper|done].
  - by apply close_queue_ok.
  - by apply wake_all_ok.
  - apply phase_changes; try (rewrite Hphase; done); [intros _; by apply all_gone|right; rewrite Hphase; done|done].
Qed.

Lemma accept_turn_ok stop event p :
  po_phase p = Selecting → typed_event event → pool_ok p →
  pool_ok (accept_turn socket_error config stop event p).
Proof using.
  intros Hphase Ht Hp. assert (∀ result, pool_ok
    (mkPool Leaving result (po_closing p) (po_queue p) (po_workers p) (po_server p) (po_accepted p)
       (po_rejected p) (po_handled p))) as Hleave.
  { intros result. apply phase_changes; try (rewrite Hphase; done); [done|right; by rewrite Hphase|done]. }
  destruct event as [| | |[]|sock]; cbn [accept_turn]; try apply Hleave; try done.
  - destruct (_ && _); [apply Hleave|done].
  - destruct (Nat.leb_spec (pool_size config) (length (po_queue p))); [by apply turn_away_ok|by apply enqueue_ok].
Qed.

Lemma serve_step_ok stop p p' : sstep stop p p' → pool_ok p → pool_ok p'.
Proof using.
  intros [q q' H|event q Hphase Ht|i q Hi] Hp.
  - by eapply pool_step_ok.
  - by apply accept_turn_ok.
  - apply (worker_goes_on i Sleeping Checking (po_phase q) (po_server q) (po_handled q) q); try done; [|cbn; lia].
    intros Hr. pose proof (there _ _ _ (pk_returned q Hp Hr) Hi). done.
Qed.
Lemma runs_ok stop sv p : runs stop sv p → pool_ok p.
Proof using.
  intros H. unfold serves in H. remember (new_pool config sv) as first.
  assert (pool_ok first) as H0 by (subst; apply new_pool_ok). clear Heqfirst.
  induction H; [done|]. eauto using serve_step_ok.
Qed.
End runs.

(** ** What serving comes to

    The steps of the pool come to an end with every connection turned away, handled or held
    up by a silent peer, and the batches of the connections that are handled side by side
    keep their own tickets. *)

(** ** The measure *)

(** Less is left to read, or as much and the rest is nearer its end. *)
Definition nearer (a b : nat * nat) : Prop :=
  (a.1 < b.1 ∨ a.1 <= b.1 ∧ a.2 < b.2)%nat.
Lemma nearer_wf : well_founded nearer.
Proof.
  intros [l r]. revert r. induction l as [l IHl] using lt_wf_ind. intros r.
  induction r as [r IHr] using lt_wf_ind. constructor. intros [l' r'] [H|[H H']]; cbn in *.
  - by apply IHl.
  - destruct (decide (l' < l)%nat); [by apply IHl|]. replace l' with l by lia. by apply IHr.
Qed.

Section outcomes.
Context (socket_error : string).
Context (cfg : StoreConfig) (clock : nat → ReceiveTime) (record_bytes : Z).
Context (double_in_range : string → bool) (config : ObservatoryConfig).
Context (stalls : nat → Handler → bool).
Abbreviation hstep := (handler_step socket_error cfg clock record_bytes double_in_range config).
Abbreviation pstep := (pool_step socket_error cfg clock record_bytes double_in_range config stalls).
Abbreviation sstep := (serve_step socket_error cfg clock record_bytes double_in_range config stalls).
Abbreviation runs := (serves socket_error cfg clock record_bytes double_in_range config stalls).

Definition connection_load (c : Connection) : nat := buffered (cn_reader c) + unread (cn_sock c).
Fixpoint handler_load (h : Handler) : nat :=
  match h with
  | Opened sock => unread sock
  | Reading c | Framing c | Ticketed c _ _ | Applying c _ _ _ => connection_load c
  | Replying next => handler_load next
  | Ended _ _ => 0
  end.
Definition table_count (payload : list Z) : nat :=
  match decode_document double_in_range (oc_ingest config) (bytes_text payload) with
  | Value o => length (do_metadata o)
  | Failure _ => 0
  end.
Fixpoint handler_rank (h : Handler) : nat :=
  match h with
  | Opened _ => 7
  | Reading _ => 5
  | Framing _ => 6
  | Ticketed _ _ payload => 9 + table_count payload
  | Applying _ _ _ tables => 8 + length tables
  | Replying next => 1 + handler_rank next
  | Ended _ _ => 3
  end.

Lemma sent_unread frame sock sock' st :
  send_frame socket_error (oc_transport config) frame sock = (sock', st) → unread sock' = unread sock.
Proof using. unfold unread. by intros ->%send_frame_arrivals. Qed.
Lemma after_frame_nearer reader keep sock st :
  (handler_load (after_frame reader keep sock st) <= buffered reader + unread sock)%nat ∧
  (handler_rank (after_frame reader keep sock st) <= 6)%nat.
Proof using. unfold after_frame. destruct (negb _); cbn; unfold connection_load; cbn; lia. Qed.
Lemma reply_nearer c ticket report st sv :
  let h := (reply_batch socket_error config c ticket report st sv).1 in
  (handler_load h <= connection_load c)%nat ∧ (handler_rank h <= 7)%nat.
Proof using.
  unfold reply_batch. destruct (finish_batch _ _ _ _) as [sv' reply].
  destruct (send_frame _ _ _ _) as [sock st'] eqn:E. cbn [fst]. unfold connection_load.
  rewrite <- (sent_unread _ _ _ _ E). cbn [handler_load handler_rank].
  destruct (after_frame_nearer (cn_reader c) (cn_keep_going c) sock st'). lia.
Qed.

Ltac load_lia := cbn; unfold connection_load; cbn; lia.

Definition handler_measure (h : Handler) : nat * nat := (handler_load h, handler_rank h).

Lemma handler_nearer h sv h' sv' :
  typed_handler h → hstep h sv = (h', sv') → (∀ sock st, h ≠ Ended sock st) →
  nearer (handler_measure h') (handler_measure h).
Proof using.
  intros Ht E Hend. unfold nearer. cbn [handler_measure fst snd].
  destruct h as [sock|c|c|c ticket payload|c ticket o tables|next|sock st]; cbn [handler_step typed_handler] in *.
  - injection E as <- <-. load_lia.
  - injection E as <- <-. destruct Ht as [_ Ht]. unfold read_step. destruct (negb _); [right; load_lia|].
    destruct (receive _ _) as [[sock bytes] st] eqn:R.
    destruct (received _ _ _ _ _ R Ht) as (_ & _ & Hread & _).
    destruct (negb (ok st)); [right; load_lia|]. destruct bytes as [|byte bytes]; [right; load_lia|].
    destruct (Hread ltac:(done)) as [Hless _]. destruct (reader_append _ _) as [reader st'] eqn:A.
    destruct (ok st') eqn:Hok; cbn [negb]; [|right; load_lia].
    destruct (appended _ _ _ _ A Hok) as [Hb _]. left. cbn [handler_load connection_load cn_reader cn_sock] in *.
    unfold connection_load. cbn [cn_reader cn_sock]. lia.
  - destruct Ht as [Hb _]. unfold frame_step in E.
    destruct (reader_next _) as [[reader produced] st] eqn:N.
    destruct (negb (ok st)).
    { destruct (send_frame _ _ _ _) as [sock st']. injection E as <- <-. right. load_lia. }
    destruct produced as [frame|].
    2:{ injection E as <- <-. right. rewrite (nothing_produced _ _ _ _ N (or_intror eq_refl)). load_lia. }
    destruct (produced_shrinks _ _ _ _ Hb N) as [Hless _]. left.
    destruct (decide (fr_type frame = FrameType.Batch)) as [Et|Et].
    { rewrite Et in E. injection E as <- <-. cbn. unfold connection_load. load_lia. }
    destruct (handle_frame _ _ _ _ _ _ frame _ _) as [[[sock1 sv1] keep1] st1] eqn:F.
    destruct (handle_frame_quiet _ _ _ _ _ _ _ _ _ _ _ _ _ Et F) as [-> Ha].
    apply other_frame in E as [= -> _]; [|done].
    destruct (after_frame_nearer reader (cn_keep_going c && keep1) sock1 st1) as [Hl _].
    unfold unread in Hl. rewrite Ha in Hl.
    destruct keep1; cbn [handler_load]; unfold connection_load, unread; lia.
  - right. unfold decode_step in E. cbn [handler_load handler_rank table_count]. unfold table_count.
    destruct (decode_document _ _ _) as [o|e].
    { injection E as <- <-. load_lia. }
    pose proof (reply_nearer c ticket Ingest.no_report e sv) as H. rewrite E in H. cbn in H. lia.
  - right. cbn [handler_load handler_rank]. unfold apply_step in E. destruct tables as [|table tables].
    + destruct (ingest_batch _ _ _ _ _ _) as [[s admission] st].
      pose proof (reply_nearer c ticket (mkIngestReport o admission (ok st)) st (set_server_store s sv)) as H.
      rewrite E in H. cbn in H |- *. lia.
    + destruct (apply_metadata _ _ _ _) as [[s admission] st]. destruct (negb (ok st)).
      * pose proof (reply_nearer c ticket (mkIngestReport o no_batch false) st (set_server_store s sv)) as H.
        rewrite E in H. cbn in H |- *. lia.
      * injection E as <- <-. load_lia.
  - injection E as <- <-. right. load_lia.
  - by destruct (Hend sock st).
Qed.

Definition worker_load (w : PoolWorker) : nat := match w with Serving _ h => handler_load h | _ => 0 end.
Definition worker_rank (w : PoolWorker) : nat :=
  match w with Checking => 2 | Serving _ h => handler_rank h | Sleeping | Gone => 0 end.
Definition phase_rank (workers : nat) (phase : ServePhase) : nat :=
  match phase with
  | Selecting | Returned => 0 | Notifying => 3 | Leaving => 2 * workers + 4
  | NotifyingAll => 2 * workers + 3 | Joining => 1
  end.
Definition pool_load (p : Pool) : nat :=
  sum_list_with worker_load (po_workers p) + sum_list_with (λ entry, unread entry.2) (po_queue p).
Definition pool_rank (p : Pool) : nat :=
  sum_list_with worker_rank (po_workers p) + 10 * length (po_queue p) +
  phase_rank (length (po_workers p)) (po_phase p).
Definition pool_measure (p : Pool) : nat * nat := (pool_load p, pool_rank p).

Lemma woken_rank ws :
  (sum_list_with worker_rank (map wake_sleeper ws) <= sum_list_with worker_rank ws + 2 * length ws)%nat ∧
  sum_list_with worker_load (map wake_sleeper ws) = sum_list_with worker_load ws.
Proof using.
  induction ws as [|w ws [IH1 IH2]]; cbn [map sum_list_with length]; [lia|]. destruct w; cbn [wake_sleeper worker_rank worker_load]; lia.
Qed.

Lemma pool_step_nearer p p' : pool_ok config p → pstep p p' → nearer (pool_measure p') (pool_measure p).
Proof using.
  intros Hp Hstep. unfold nearer, pool_measure, pool_load, pool_rank. cbn [fst snd].
  destruct Hstep as [i p Hi|i id h p Hi Hgoes|i p Hphase Hi|p Hphase Hno|p Hphase|p Hphase|p Hphase Hall].
  - unfold take_connection.
    pose proof (λ w, sum_insert worker_load _ i Checking w Hi) as Hl.
    pose proof (λ w, sum_insert worker_rank _ i Checking w Hi) as Hr. right.
    destruct (po_queue p) as [|[id sock] queue] eqn:Q; cbn [set_worker po_workers po_queue po_phase];
      rewrite length_insert.
    + rewrite Q. specialize (Hl (if po_closing p then Gone else Sleeping)).
      specialize (Hr (if po_closing p then Gone else Sleeping)). destruct (po_closing p); cbn in *; lia.
    + specialize (Hl (Serving id (Opened sock))). specialize (Hr (Serving id (Opened sock))). cbn in *. lia.
  - pose proof (λ w, sum_insert worker_load _ i (Serving id h) w Hi) as Hl.
    pose proof (λ w, sum_insert worker_rank _ i (Serving id h) w Hi) as Hr.
    pose proof (there _ _ _ (pk_typed _ p Hp) Hi) as Ht. cbn [worker_load worker_rank typed_worker] in *.
    destruct (hstep h (po_server p)) as [h' sv'] eqn:E.
    assert ((∀ sock st, h ≠ Ended sock st) → nearer
      (pool_measure (mkPool (po_phase p) (po_result p) (po_closing p) (po_queue p)
         (<[i := Serving id h']> (po_workers p)) sv' (po_accepted p) (po_rejected p) (po_handled p)))
      (pool_measure p)) as Hgo.
    { intros Hend. pose proof (handler_nearer h _ _ _ Ht E Hend) as Hn. unfold nearer, handler_measure in Hn.
      unfold nearer, pool_measure, pool_load, pool_rank. cbn [fst snd po_workers po_queue po_phase] in *.
      specialize (Hl (Serving id h')). specialize (Hr (Serving id h')). cbn in Hl, Hr.
      rewrite length_insert. lia. }
    unfold nearer, pool_measure, pool_load, pool_rank in Hgo. cbn [fst snd] in Hgo.
    unfold serve_turn. rewrite E. destruct h; try (apply Hgo; done).
    right. cbn [po_workers po_queue po_phase]. rewrite length_insert.
    specialize (Hl Checking). specialize (Hr Checking). cbn in Hl, Hr. lia.
  - right. pose proof (sum_insert worker_load _ i Sleeping Checking Hi) as Hl.
    pose proof (sum_insert worker_rank _ i Sleeping Checking Hi) as Hr.
    cbn [notify_sleeper set_serve_phase set_worker po_workers po_queue po_phase]. rewrite length_insert, Hphase.
    cbn in *. lia.
  - right. cbn [notify_nobody set_serve_phase po_workers po_queue po_phase]. rewrite Hphase. cbn. lia.
  - right. cbn [close_queue po_workers po_queue po_phase]. rewrite Hphase. cbn. lia.
  - right. cbn [wake_all po_workers po_queue po_phase]. rewrite Hphase. destruct (woken_rank (po_workers p)).
    cbn. lia.
  - right. cbn [set_serve_phase po_workers po_queue po_phase]. rewrite Hphase. cbn. lia.
Qed.

Lemma pool_steps_end p : pool_ok config p → Acc (λ p' p, pstep p p') p.
Proof using.
  intros Hp. remember (pool_measure p) as m eqn:Hm. revert p Hp Hm.
  induction m as [m IH] using (well_founded_induction nearer_wf). intros p Hp ->.
  constructor. intros p' Hstep. eapply IH; [by apply pool_step_nearer| |done].
  by eapply pool_step_ok.
Qed.

(** ** Where the steps end *)

Lemma pool_size_pos : 0 <= max_connections (oc_transport config) → (0 < pool_size config)%nat.
Proof using. intros H. unfold pool_size. destruct (Z.eqb_spec (max_connections (oc_transport config)) 0); lia. Qed.

Definition stuck (p : Pool) : Prop := ∀ p', ¬ pstep p p'.

(** A worker that waits for its peer, and one that can go nowhere. *)
Definition waits (w : PoolWorker) : Prop :=
  match w with Serving id h => waiting stalls id h = true | _ => False end.
Definition at_rest (w : PoolWorker) : Prop := w = Sleeping ∨ w = Gone ∨ waits w.

Lemma stuck_pool_workers p : stuck p → Forall at_rest (po_workers p).
Proof using.
  intros H. apply Forall_lookup_2. intros i [| |id h|] Hi; [|by left| |by right; left].
  - destruct (H _ (pool_check _ _ _ _ _ _ _ _ _ Hi)).
  - right. right. cbn. destruct (waiting stalls id h) eqn:E; [done|].
    destruct (H _ (pool_serve _ _ _ _ _ _ _ _ _ _ _ Hi E)).
Qed.

Lemma waiting_stalls id h : waiting stalls id h = true → stalls id h = true.
Proof using. destruct h; cbn; try done. by intros [_ H]%andb_true_iff. Qed.

Lemma stuck_phase p :
  pool_ok config p → stuck p →
  po_phase p = Selecting ∨ po_phase p = Returned ∨ po_phase p = Joining ∧ Exists waits (po_workers p).
Proof using.
  intros Hp H. pose proof (stuck_pool_workers p H) as Hw.
  destruct (po_phase p) eqn:E; [by left| | | | |by right; left]; [exfalso..|].
  - destruct (existsb asleep (po_workers p)) eqn:Hs; [|by apply (H _ (pool_notify_nobody _ _ _ _ _ _ _ _ E Hs))].
    apply existsb_exists in Hs as (w & Hin%list_elem_of_In & Hs).
    apply list_elem_of_lookup in Hin as [i Hi]. destruct w; try done.
    by apply (H _ (pool_notify _ _ _ _ _ _ _ _ _ E Hi)).
  - by apply (H _ (pool_close _ _ _ _ _ _ _ _ E)).
  - by apply (H _ (pool_notify_all _ _ _ _ _ _ _ _ E)).
  - right. right. split; [done|]. destruct (forallb gone (po_workers p)) eqn:Hall.
    { destruct (H _ (pool_joined _ _ _ _ _ _ _ _ E Hall)). }
    pose proof (pk_awake _ p Hp) as Ha. rewrite E in Ha. specialize (Ha eq_refl).
    clear -Hall Ha Hw. induction Hw as [|w ws Hw _ IH]; [done|]. apply Forall_cons in Ha as [Ha1 Ha2].
    destruct Hw as [->|[->|Hw]]; [done| |by left]. right. by apply IH.
Qed.

(** The queue waits only where every worker does. *)
Lemma stuck_queue p :
  (0 < pool_size config)%nat → pool_ok config p → stuck p →
  po_queue p = [] ∨ Forall waits (po_workers p).
Proof using.
  intros Hsize Hp H. pose proof (stuck_pool_workers p H) as Hw.
  destruct (po_queue p) as [|entry queue] eqn:Q; [by left|right].
  assert (Forall (λ w, w ≠ Sleeping) (po_workers p)) as Hs.
  { destruct (stuck_phase p Hp H) as [E|[E|[E _]]]; [|apply (pk_awake _ p Hp); by rewrite E..].
    pose proof (pk_wake _ p Hp) as Hwake. rewrite (pk_closing _ p Hp), E, Q in Hwake.
    destruct (Hwake eq_refl) as [?|Hle]; [done|]. cbn [length on_its_way] in Hle.
    assert (sum_list_with checking (po_workers p) = 0%nat) as Hz; [|lia].
    clear -Hw. induction Hw as [|w ws Hw _ IH]; [done|]. cbn. rewrite IH.
    destruct Hw as [->|[->|Hw]]; [done..|by destruct w]. }
  pose proof (pk_gone _ p Hp) as Hg. rewrite Q in Hg. rewrite Forall_forall in *. intros w Hin.
  destruct (Hw w Hin) as [?|[?|?]]; [by destruct (Hs w Hin)|by destruct (Hg w Hin)|done].
Qed.

(** Nobody waits where no peer stalls. *)
Lemma nobody_waits p :
  pool_ok config p → (∀ id h, (id < po_accepted p)%nat → stalls id h = false) →
  Forall (λ w, ¬ waits w) (po_workers p).
Proof using.
  intros Hp Hst. apply Forall_forall. intros [| |id h|] Hin Hw; try done. cbn in Hw.
  apply waiting_stalls in Hw. rewrite Hst in Hw; [done|].
  assert (id ∈ seq 0 (po_accepted p)) as Hid%elem_of_seq; [|lia].
  rewrite (pk_places _ p Hp). unfold places. apply elem_of_app. right. apply elem_of_app. left.
  apply list_elem_of_bind. exists (Serving id h). split; [by left|done].
Qed.

Lemma nothing_held ws : Forall at_rest ws → Forall (λ w, ¬ waits w) ws → ws ≫= held = [].
Proof using.
  induction 1 as [|w ws Hw _ IH]; [done|]. intros [H1 H2]%Forall_cons. cbn. rewrite IH by done.
  by destruct Hw as [->|[->|Hw]].
Qed.

(** Once the accept loop is left it is not entered again. *)
Definition loop_left (phase : ServePhase) : bool :=
  match phase with Selecting | Notifying => false | _ => true end.
Lemma pool_step_left p p' : pstep p p' → loop_left (po_phase p) = true → loop_left (po_phase p') = true.
Proof using.
  intros [i p0 Hi|i id h p0 Hi Hgoes|i p0 Hphase Hi|p0 Hphase Hno|p0 Hphase|p0 Hphase|p0 Hphase Hall]; try done.
  - unfold take_connection. by destruct (po_queue p0) as [|[]].
  - unfold serve_turn. destruct (hstep h (po_server p0)). by destruct h.
  - by rewrite Hphase.
  - by rewrite Hphase.
Qed.

(** ** Tickets and the store *)

Definition in_hand (w : PoolWorker) : list Z := match w with Serving _ h => hand h | _ => [] end.
Abbreviation nth_ticket first := (λ j, wrap_u64 (first + Z.of_nat j)).

(** Of the tickets from [first] on, [taken] were taken, those of [order] are in progress and
    the others finished. *)
Record tickets_ok (first counted : Z) (p : Pool) : Prop := mkTicketsOk {
  tk_split : ∃ taken finished order,
    taken = (finished + length order)%nat ∧ NoDup order ∧ Forall (λ j, (j < taken)%nat) order ∧
    (po_workers p ≫= in_hand) ≡ₚ map (nth_ticket first) order ∧
    tv_next_batch_ticket (po_server p) = nth_ticket first taken ∧
    wrap_u64 (batches (po_server p)) = wrap_u64 (counted + Z.of_nat finished)
}.

Lemma next_ticket first j : nth_ticket first j +u 1 = nth_ticket first (S j).
Proof using. cbv beta. rewrite wrap_u64_add_l. f_equal. lia. Qed.

Lemma tickets_kept first counted p p' :
  (po_workers p' ≫= in_hand) ≡ₚ (po_workers p ≫= in_hand) →
  tv_next_batch_ticket (po_server p') = tv_next_batch_ticket (po_server p) →
  batches (po_server p') = batches (po_server p) → tickets_ok first counted p → tickets_ok first counted p'.
Proof using.
  intros Hw Ht Hb [(taken & finished & order & H1 & H2 & H3 & H4 & H5 & H6)].
  constructor. exists taken, finished, order. rewrite Hw, Ht, Hb. done.
Qed.

Lemma tickets_move first counted i id h h' sv' p :
  po_workers p !! i = Some (Serving id h) → ticket_move h (po_server p) h' sv' →
  tickets_ok first counted p →
  tickets_ok first counted
    (mkPool (po_phase p) (po_result p) (po_closing p) (po_queue p) (<[i := Serving id h']> (po_workers p)) sv'
       (po_accepted p) (po_rejected p) (po_handled p)).
Proof using.
  intros Hi Hm Hp. pose proof (bind_insert in_hand _ i (Serving id h) (Serving id h') Hi) as Hheld. cbn in Hheld.
  destruct Hp as [(taken & finished & order & H1 & H2 & H3 & H4 & H5 & H6)].
  destruct Hm as [Hh Ht Hb|Hh Hh' Ht Hb|ticket Hh Hh' Ht Hb].
  - constructor. exists taken, finished, order. cbn [po_workers po_server]. rewrite Ht, Hb.
    rewrite Hh in Hheld. apply Permutation_app_inv_r in Hheld. by rewrite Hheld.
  - constructor. exists (S taken), finished, (order ++ [taken]). cbn [po_workers po_server].
    rewrite Ht, Hb, H5, next_ticket, length_app. cbn [length].
    rewrite Hh, Hh', app_nil_r in Hheld. rewrite Hheld, H4, H5, map_app. split_and!; try done; [lia| |].
    + apply NoDup_app. split_and!; [done| |by apply NoDup_singleton].
      intros j Hj ->%list_elem_of_singleton. rewrite Forall_forall in H3. specialize (H3 _ Hj). lia.
    + apply Forall_app_2; [|by repeat constructor]. eapply Forall_impl; [exact H3|]. cbn. lia.
  - rewrite Hh, Hh', app_nil_r in Hheld.
    assert (ticket ∈ map (nth_ticket first) order) as Hin.
    { rewrite <- H4, <- Hheld. apply elem_of_app. right. by left. }
    apply list_elem_of_fmap in Hin as (j & -> & Hj). apply list_elem_of_split in Hj as (a & b & ->).
    constructor. exists taken, (S finished), (a ++ b). cbn [po_workers po_server]. rewrite Ht.
    rewrite length_app in *. cbn [length] in H1.
    apply NoDup_app in H2 as (N1 & N2 & N3). apply NoDup_cons in N3 as [N3 N4].
    apply Forall_app in H3 as [F1 [_ F2]%Forall_cons].
    split_and!; [lia| | | |done|].
    + apply NoDup_app. split_and!; [done| |done]. intros x Hx Hb'. apply (N2 x Hx). by right.
    + by apply Forall_app_2.
    + apply (Permutation_app_inv_r [nth_ticket first j]). rewrite Hheld, H4, !map_app. cbn [map].
      solve_Permutation.
    + rewrite Hb, <- wrap_u64_add_l, H6, wrap_u64_add_l. f_equal. lia.
Qed.

Lemma serve_turn_tickets first counted i id h p :
  po_workers p !! i = Some (Serving id h) → tickets_ok first counted p →
  tickets_ok first counted (serve_turn socket_error cfg clock record_bytes double_in_range config i id h p).
Proof using.
  intros Hi Hp. unfold serve_turn. destruct (hstep h (po_server p)) as [h' sv'] eqn:E.
  pose proof (tickets_move first counted i id h h' sv' p Hi (step_tickets _ _ _ _ _ _ _ _ _ _ E) Hp) as H.
  destruct h; try done. apply (tickets_kept first counted p); try done. cbn [po_workers].
  pose proof (bind_insert in_hand _ i _ Checking Hi) as Hh. cbn in Hh. by rewrite !app_nil_r in Hh.
Qed.

(** The workers of whom nobody's ticket changes. *)
Lemma idle_change {i w w' p} :
  po_workers p !! i = Some w → in_hand w = [] → in_hand w' = [] →
  (<[i := w']> (po_workers p) ≫= in_hand) ≡ₚ (po_workers p ≫= in_hand).
Proof using.
  intros Hi Hw Hw'. pose proof (bind_insert in_hand _ i w w' Hi) as H.
  by rewrite Hw, Hw', !app_nil_r in H.
Qed.

Lemma pool_step_tickets first counted p p' :
  pstep p p' → tickets_ok first counted p → tickets_ok first counted p'.
Proof using.
  intros [i p0 Hi|i id h p0 Hi Hgoes|i p0 Hphase Hi|p0 Hphase Hno|p0 Hphase|p0 Hphase|p0 Hphase Hall] Hp;
    try (by apply (tickets_kept first counted p0)).
  - unfold take_connection. destruct (po_queue p0) as [|[id sock] queue].
    + apply (tickets_kept first counted p0); try done. apply (idle_change Hi); [done|by destruct (po_closing p0)].
    + apply (tickets_kept first counted p0); try done. by apply (idle_change Hi).
  - by apply serve_turn_tickets.
  - apply (tickets_kept first counted p0); try done. by apply (idle_change Hi).
  - apply (tickets_kept first counted p0); try done. cbn [wake_all po_workers].
    replace (map wake_sleeper (po_workers p0) ≫= in_hand) with (po_workers p0 ≫= in_hand); [done|].
    clear. induction (po_workers p0) as [|w ws IH]; [done|]. cbn. rewrite <- IH. by destruct w.
Qed.

Lemma accept_turn_keeps stop event p :
  let p' := accept_turn socket_error config stop event p in
  po_workers p' = po_workers p ∧
  tv_next_batch_ticket (po_server p') = tv_next_batch_ticket (po_server p) ∧
  batches (po_server p') = batches (po_server p) ∧ server_store (po_server p') = server_store (po_server p).
Proof using.
  destruct event as [| | |[]|sock]; cbn [accept_turn]; try done.
  - by destruct (_ && _).
  - destruct (_ <=? _)%nat; [|done]. unfold turn_away. by destruct (send_frame _ _ _ _).
Qed.

Lemma serve_step_tickets first counted stop p p' :
  sstep stop p p' → tickets_ok first counted p → tickets_ok first counted p'.
Proof using.
  intros [q q' H|event q Hphase Ht|i q Hi] Hp.
  - by eapply pool_step_tickets.
  - destruct (accept_turn_keeps stop event q) as (Hw & H1 & H2 & _).
    apply (tickets_kept first counted q); try done. by rewrite Hw.
  - apply (tickets_kept first counted q); try done. by apply (idle_change Hi).
Qed.

(** What the store reaches. *)
Abbreviation reached := (reachable cfg clock record_bytes).
Lemma serve_step_store stop p p' :
  sstep stop p p' → pool_ok config p → reached (server_store (po_server p)) → reached (server_store (po_server p')).
Proof using.
  intros [q q' H|event q Hphase Ht|i q Hi] Hp; [|by destruct (accept_turn_keeps stop event q) as (_ & _ & _ & ->)|done].
  destruct H as [i p0 Hi|i id h p0 Hi Hgoes|i p0 Hphase Hi|p0 Hphase Hno|p0 Hphase|p0 Hphase|p0 Hphase Hall]; try done.
  - unfold take_connection. by destruct (po_queue p0) as [|[]].
  - unfold serve_turn. destruct (hstep h (po_server p0)) as [h' sv'] eqn:E. intros Hr.
    pose proof (there _ _ _ (pk_typed _ _ Hp) Hi) as Ht. cbn in Ht.
    destruct (step_typed _ _ _ _ _ _ _ _ _ _ Ht E) as [_ Hs]. destruct h; try done; by apply Hs.
Qed.

Lemma new_pool_tickets sv :
  is_u64 (tv_next_batch_ticket sv) → tickets_ok (tv_next_batch_ticket sv) (batches sv) (new_pool config sv).
Proof using.
  intros H. constructor. exists 0%nat, 0%nat, []. cbn [new_pool po_workers po_server]. split_and!; try done.
  - constructor.
  - replace (replicate (pool_size config) Checking ≫= in_hand) with (@nil Z); [done|].
    by induction (pool_size config).
  - rewrite Z.add_0_r. by rewrite wrap_u64_id.
  - by rewrite Z.add_0_r.
Qed.

(** C36: serving loses no connection and no wake-up, and only a silent peer holds it up.  In
    every state that the accept loop and the workers reach, with connections arriving in any
    order and each peer going silent whenever it likes, the queue is within the pool's size
    and the steps of the server's own threads come to an end.  Where none is left a worker
    sleeps, has returned or waits for its peer, and every connection that was accepted is in
    one place: handled, turned away, in the hands of a worker that waits, or in the queue,
    and there only while all the workers wait.  [serve] waits for the next connection, has
    returned, or joins a worker that waits.  So where no peer stalls for ever, every
    connection was handled or turned away and, the accept loop left, [serve] has returned.
    (The two frames that are sent under a lock are taken to be sent.) *)
Theorem connections_all_served stop sv p :
  0 <= max_connections (oc_transport config) → runs stop sv p →
  (length (po_queue p) <= pool_size config)%nat ∧ Acc (λ p' p, pstep p p') p ∧
  ∀ p', rtc pstep p p' → stuck p' →
    Forall at_rest (po_workers p') ∧
    seq 0 (po_accepted p') ≡ₚ map fst (po_handled p') ++ map fst (po_rejected p') ++
      (po_workers p' ≫= held) ++ map fst (po_queue p') ∧
    (po_queue p' = [] ∨ Forall waits (po_workers p')) ∧
    (po_phase p' = Selecting ∨ po_phase p' = Returned ∨
     po_phase p' = Joining ∧ Exists waits (po_workers p')) ∧
    (loop_left (po_phase p) = true → po_phase p' ≠ Selecting) ∧
    ((∀ id h, (id < po_accepted p')%nat → stalls id h = false) →
     po_queue p' = [] ∧
     seq 0 (po_accepted p') ≡ₚ map fst (po_handled p') ++ map fst (po_rejected p') ∧
     (po_phase p' = Selecting ∨ po_phase p' = Returned) ∧
     (loop_left (po_phase p) = true → po_phase p' = Returned)).
Proof using.
  intros Hmax Hrun%runs_ok. pose proof (pool_size_pos Hmax) as Hsize.
  split; [apply Hrun|]. split; [by apply pool_steps_end|]. intros p' Hsteps Hstuck.
  assert (pool_ok config p' ∧ (loop_left (po_phase p) = true → loop_left (po_phase p') = true)) as [Hp' Hleft].
  { clear Hstuck. induction Hsteps as [|p p1 p' Hstep _ IH]; [done|].
    destruct (IH (pool_step_ok _ _ _ _ _ _ _ _ _ Hstep Hrun)) as [H1 H2]. split; [done|]. intros H.
    apply H2. by eapply pool_step_left. }
  pose proof (stuck_pool_workers p' Hstuck) as Hw. pose proof (stuck_phase p' Hp' Hstuck) as Hphase.
  pose proof (stuck_queue p' Hsize Hp' Hstuck) as Hqueue. pose proof (pk_places _ p' Hp') as Hids.
  assert (loop_left (po_phase p) = true → po_phase p' ≠ Selecting) as Hnot.
  { intros H%Hleft E. by rewrite E in H. }
  split_and!; try done.
  { rewrite Hids. unfold places. solve_Permutation. }
  intros Hst. pose proof (nobody_waits p' Hp' Hst) as Hno.
  assert (po_queue p' = []) as Hempty.
  { destruct Hqueue as [?|Hall]; [done|]. pose proof (pk_size _ p' Hp') as Hl.
    destruct (po_workers p') as [|w ws]; [cbn in Hl; lia|].
    apply Forall_cons in Hall as [Hall _]. by apply Forall_cons in Hno as [Hno _]. }
  assert (po_phase p' = Selecting ∨ po_phase p' = Returned) as Hend.
  { destruct Hphase as [?|[?|[_ Hex]]]; [by left|by right|]. by apply Forall_not_Exists in Hno. }
  split_and!; [done| |done|].
  - rewrite Hids. unfold places. by rewrite Hempty, (nothing_held _ Hw Hno).
  - intros H. by destruct Hend as [E|E]; [destruct (Hnot H)|].
Qed.

(** C37: batches side by side keep their tickets and the store its guarantees.  However
    connections interleave, down to the tables of their documents: the tickets taken are
    consecutive from the server's first, every batch in progress holds one of its own, those
    of no batch in progress are counted as applied or failed, once each; and the store is
    among the states that its operations reach, of which the store's theorems speak. *)
Theorem batches_side_by_side stop sv p :
  is_u64 (tv_next_batch_ticket sv) → reached (server_store sv) → runs stop sv p →
  reached (server_store (po_server p)) ∧
  ∃ taken finished order,
    taken = (finished + length order)%nat ∧ NoDup order ∧ Forall (λ j, (j < taken)%nat) order ∧
    (po_workers p ≫= in_hand) ≡ₚ
      map (λ j, wrap_u64 (tv_next_batch_ticket sv + Z.of_nat j)) order ∧
    tv_next_batch_ticket (po_server p) = wrap_u64 (tv_next_batch_ticket sv + Z.of_nat taken) ∧
    wrap_u64 (batches (po_server p)) = wrap_u64 (batches sv + Z.of_nat finished).
Proof using.
  intros Ht Hs Hrun.
  enough (pool_ok config p ∧ reached (server_store (po_server p)) ∧
    tickets_ok (tv_next_batch_ticket sv) (batches sv) p) as (_ & ? & []) by done.
  assert (pool_ok config (new_pool config sv) ∧ reached (server_store (po_server (new_pool config sv))) ∧
    tickets_ok (tv_next_batch_ticket sv) (batches sv) (new_pool config sv)) as H0.
  { split_and!; [apply new_pool_ok|done|by apply new_pool_tickets]. }
  revert H0. unfold serves in Hrun. generalize (tv_next_batch_ticket sv) (batches sv). intros first counted.
  induction Hrun as [|p p1 p' Hstep _ IH]; [done|]. intros (H1 & H2 & H3). apply IH.
  split_and!; [by eapply serve_step_ok|by eapply serve_step_store|by eapply serve_step_tickets].
Qed.
End outcomes.
