(* ===== verification/ServeExample.v ===== *)
(** * Example connections

    A client and a server that exchange two batches, with the requests and the replies cut
    into small reads, and what becomes of frames after a [Bye]. *)

From stdpp Require Import gmap strings.
From S2P Require Import Prelude Result Checked Text Bytes Crc32c Json JsonWriter Identity Time.
From S2P Require Import Evidence Sample Counter Metadata Event Limits Decode SampleRoundTrip Policy.
From S2P Require Import Rules Explanation Classification Protocol Ring History Window OrderedMap.
From S2P Require Import Admission Store StoreOps Queries StoreExample Ingest Runtime Codec.
From S2P Require Import Format Recovery Persistence Lifecycle Transport.
From S2P Require Import TransportTheorems TransportSession Serve ServeTheorems ServeOutcomes.
Open Scope Z_scope.

#[local] Set Warnings "-register-all".

Definition server_config : ObservatoryConfig :=
  mkObservatoryConfig (cfg_policy example_config) default_ingest_limits (cfg_history example_config)
    (cfg_query example_config) default_persistence_limits default_runtime_limits
    default_transport_limits None false false 0.
Definition example_server : TransportServer :=
  mkTransportServer no_stats 1 (new_observatory server_config (init_store example_config)).

(** A sample, and a line that is not JSON. *)
Definition sent_documents : list string := [encoded (cells_sample "a" "i1" 1 100); "{'a'"].

(** Pieces of so many bytes. *)
Fixpoint pieces_of (fuel size : nat) (bytes : list Z) : list (list Z) :=
  match fuel, bytes with
  | S fuel, _ :: _ => take size bytes :: pieces_of fuel size (drop size bytes)
  | _, _ => []
  end.
Definition requests : list (list Z) :=
  Eval vm_compute in pieces_of 1000 100 (stream (map batch_frame sent_documents)).
(** The system takes a byte of the first chunk, then seven. *)
Definition server_socket : Socket := mkSocket true [1; 7] (map Arrived requests) [].

Abbreviation handled_connection :=
  (handle_connection "error" example_config example_clock example_record_bytes (λ _, true) server_config
     server_socket example_server).
Definition answers : list (list Z) :=
  Eval vm_compute in pieces_of 1000 64 (so_sent handled_connection.1.1).
Definition example_client : TransportClient :=
  mkTransportClient (mkSocket true [3] (map Arrived answers) []) (mkReader default_transport_limits [])
    EmptyString.

Abbreviation ingested :=
  (ingest_each example_config example_clock example_record_bytes (λ _, true) server_config sent_documents
     (server_store example_server)).
Abbreviation replies := (batch_replies (tv_next_batch_ticket example_server) ingested.2).

Lemma requests_ok : reads_ok default_transport_limits requests.
Proof. unfold reads_ok, requests. repeat (constructor; [split; [discriminate|vm_compute; discriminate]|]). constructor. Qed.
Lemma answers_ok : reads_ok client_limits answers.
Proof. unfold reads_ok, answers. repeat (constructor; [split; [discriminate|vm_compute; discriminate]|]). constructor. Qed.

Lemma messages_short : Forall (λ result, String.length (message result.2) <= 4096)%nat ingested.2.
Proof.
  assert (forallb (λ result, String.length (message result.2) <=? 4096)%nat ingested.2 = true) as H
    by (vm_compute; reflexivity).
  apply Forall_forall. intros result Hin. rewrite forallb_forall in H. apply Nat.leb_le, H.
  by apply list_elem_of_In.
Qed.
Lemma answers_sent : concat answers = so_sent handled_connection.1.1.
Proof. vm_compute. reflexivity. Qed.
Lemma requests_sent : concat requests = stream (map batch_frame sent_documents).
Proof. vm_compute. reflexivity. Qed.
Lemma documents_fit :
  Forall (λ document, Z.of_nat (String.length document) <=
            Z.min (max_frame_bytes (oc_transport server_config)) (max_frame_bytes client_limits))
    sent_documents.
Proof. unfold sent_documents. repeat apply Forall_cons_2; try apply Forall_nil_2; vm_compute; discriminate. Qed.
Lemma server_accepting : accepting server_socket.
Proof. split; [done|]. repeat constructor. Qed.
Lemma client_accepting : accepting (tc_connection example_client).
Proof. split; [done|]. repeat constructor. Qed.

Lemma triple_parts {A B C} (x : A * B * C) : x = (x.1.1, x.1.2, x.2).
Proof. by destruct x as [[]]. Qed.

Lemma batches_over_the_wire_witness :
  handled_connection.2 = success ∧ server_store handled_connection.1.2 = ingested.1 ∧
  ∃ c', send_batches (λ _, true) "error" sent_documents example_client =
    (c', map (λ reply, Value (transmitted reply)) replies).
Proof.
  destruct (batches_over_the_wire "error" example_config example_clock example_record_bytes (λ _, true)
    server_config sent_documents example_server handled_connection.1.2 server_socket
    handled_connection.1.1 handled_connection.2 ingested.1 ingested.2 requests eq_refl
    ltac:(vm_compute; discriminate) ltac:(vm_compute; discriminate) ltac:(split; vm_compute; discriminate)
    documents_fit requests_sent requests_ok server_accepting eq_refl eq_refl
    (surjective_pairing _) messages_short (triple_parts _)) as (Hst & Hs & Hc).
  split; [exact Hst|]. split; [exact Hs|].
  destruct (Hc example_client answers answers_sent answers_ok client_accepting eq_refl eq_refl)
    as (c' & Hcalls & _).
  exists c'. exact Hcalls.
Defined.

(** [keep_going] is read once every frame of a read was handled: whether a batch behind a
    [Bye] is applied depends on how the bytes are cut into reads. *)
Definition bye_then_batch : list Frame := [text_frame FrameType.Bye EmptyString; batch_frame "{'a'"].
Definition reads_of (reads : list (list Z)) : Socket := mkSocket true [] (map Arrived reads) [].
Definition stats_after (reads : list (list Z)) : ServerStats :=
  tv_stats (handle_connection "error" example_config example_clock example_record_bytes (λ _, true)
              server_config (reads_of reads) example_server).1.2.
Lemma bye_depends_on_reads :
  stats_after [stream bye_then_batch] = mkServerStats 1 0 2 0 1 0 ∧
  stats_after (pieces_of 3 (length (stream (take 1 bye_then_batch))) (stream bye_then_batch)) =
    mkServerStats 1 0 1 0 0 0.
Proof. by vm_compute. Qed.

(** ** Serving, on examples *)

Abbreviation accept := (accept_turn "error" server_config 0).
Abbreviation turn :=
  (serve_turn "error" example_config example_clock example_record_bytes (λ _, true) server_config).
Abbreviation some_runs :=
  (serves "error" example_config example_clock example_record_bytes (λ _, true) server_config
     (λ _ _, false) 0).

(** A connection arrives, a worker takes it and opens its reader, another arrives. *)
Definition arrived : Pool := accept (Arriving server_socket) (new_pool server_config example_server).
Definition taken : Pool := take_connection 0 arrived.
Definition opened : Pool := turn 0 0 (Opened server_socket) taken.
Definition first_states : Pool := accept (Arriving server_socket) (notify_nobody opened).

Lemma server_socket_typed : typed_socket server_socket.
Proof.
  unfold typed_socket, server_socket, requests. cbn [so_arrivals map].
  repeat (apply Forall_cons_2; [repeat (apply Forall_cons_2; [unfold is_byte; lia|]); apply Forall_nil_2|]).
  apply Forall_nil_2.
Qed.

Lemma first_states_run : some_runs example_server first_states.
Proof.
  apply (rtc_l _ _ arrived); [by apply (serve_accept _ _ _ _ _ _ _ _ (Arriving server_socket)), server_socket_typed|].
  apply (rtc_l _ _ taken); [by apply serve_pool, pool_check|].
  apply (rtc_l _ _ opened); [by apply serve_pool, pool_serve|].
  apply (rtc_l _ _ (notify_nobody opened)); [by apply serve_pool, pool_notify_nobody|].
  by apply rtc_once, (serve_accept _ _ _ _ _ _ _ _ (Arriving server_socket)), server_socket_typed.
Qed.

Lemma connections_all_served_witness :
  (length (po_queue first_states) <= pool_size server_config)%nat ∧
  Acc (λ p' p, pool_step "error" example_config example_clock example_record_bytes (λ _, true)
                 server_config (λ _ _, false) p p') first_states.
Proof.
  destruct (connections_all_served "error" example_config example_clock example_record_bytes (λ _, true)
    server_config (λ _ _, false) 0 example_server first_states ltac:(vm_compute; discriminate) first_states_run)
    as (Hqueue & Hend & _).
  split; [exact Hqueue|exact Hend].
Defined.

Lemma batches_side_by_side_witness :
  reachable example_config example_clock example_record_bytes (server_store (po_server first_states)).
Proof.
  exact (proj1 (batches_side_by_side "error" example_config example_clock example_record_bytes (λ _, true)
    server_config (λ _ _, false) 0 example_server first_states ltac:(split; vm_compute; discriminate)
    (reachable_init _ _ _) first_states_run)).
Defined.

(** ** A pool of one worker *)

Definition small_config : ObservatoryConfig :=
  mkObservatoryConfig (oc_policy server_config) (oc_ingest server_config) (oc_history server_config)
    (oc_query server_config) (oc_persistence server_config) (oc_runtime server_config)
    (mkTransportLimits (max_frame_bytes default_transport_limits) 1 (max_queued_frames default_transport_limits)
       (max_connection_buffer_bytes default_transport_limits)) None false false 0.

(** The worker moves as long as it can. *)
Fixpoint drive (fuel : nat) (p : Pool) : Pool :=
  match fuel with
  | O => p
  | S fuel =>
      match po_workers p with
      | [Checking] => drive fuel (take_connection 0 p)
      | [Serving id h] =>
          drive fuel (serve_turn "error" example_config example_clock example_record_bytes (λ _, true)
                        small_config 0 id h p)
      | _ => p
      end
  end.

Definition one_frame (document : string) : Socket :=
  mkSocket true [] [Arrived (encoding (batch_frame document))] [].

(** Three connections arrive while the worker has the first: one waits, one is turned away;
    both of the others are handled before [serve] returns. *)
Definition crowded : Pool :=
  let arrive p document := notify_nobody (accept_turn "error" small_config 0 (Arriving (one_frame document)) p) in
  let p := take_connection 0 (arrive (new_pool small_config example_server) "{'a'") in
  let p := accept_turn "error" small_config 0 (Arriving (one_frame "{'c'")) (arrive p "{'b'") in
  drive 100 (wake_all (close_queue (accept_turn "error" small_config 0 StopSeen p))).
Lemma crowded_pool :
  po_workers crowded = [Gone] ∧ map fst (po_handled crowded) = [0; 1]%nat ∧
  map fst (po_rejected crowded) = [2%nat] ∧ tv_next_batch_ticket (po_server crowded) = 3 ∧
  tv_stats (po_server crowded) = mkServerStats 2 1 2 0 2 0.
Proof. by vm_compute. Qed.

(** ** A silent client

    A client connects, sends nothing and keeps the connection open; then a stop is seen.  The
    worker waits for the client, and [serve] joins the worker. *)
Definition silent_socket : Socket := mkSocket true [] [] [].
Definition silent_arrived : Pool :=
  accept_turn "error" small_config 0 (Arriving silent_socket) (new_pool small_config example_server).
Definition silent_taken : Pool := take_connection 0 (notify_nobody silent_arrived).
Definition silent_opened : Pool :=
  serve_turn "error" example_config example_clock example_record_bytes (λ _, true) small_config 0 0
    (Opened silent_socket) silent_taken.
Definition silent_stopped : Pool := accept_turn "error" small_config 0 StopSeen silent_opened.
Definition silent_joining : Pool := wake_all (close_queue silent_stopped).

Abbreviation silent_pool_step :=
  (pool_step "error" example_config example_clock example_record_bytes (λ _, true) small_config
     (λ _ _, true)).
Abbreviation silent_runs :=
  (serves "error" example_config example_clock example_record_bytes (λ _, true) small_config
     (λ _ _, true) 0).

Lemma silent_joining_run : silent_runs example_server silent_joining.
Proof.
  apply (rtc_l _ _ silent_arrived);
    [by apply (serve_accept _ _ _ _ _ _ _ _ (Arriving silent_socket)), List.Forall_nil|].
  apply (rtc_l _ _ (notify_nobody silent_arrived)); [by apply serve_pool, pool_notify_nobody|].
  apply (rtc_l _ _ silent_taken); [by apply serve_pool, pool_check|].
  apply (rtc_l _ _ silent_opened); [by apply serve_pool, pool_serve|].
  apply (rtc_l _ _ silent_stopped); [by apply (serve_accept _ _ _ _ _ _ _ _ StopSeen)|].
  apply (rtc_l _ _ (close_queue silent_stopped)); [by apply serve_pool, pool_close|].
  by apply rtc_once, serve_pool, pool_notify_all.
Qed.

Lemma silent_client_holds_serve :
  silent_runs example_server silent_joining ∧ po_phase silent_joining = Joining ∧
  ∀ p, ¬ silent_pool_step silent_joining p.
Proof.
  split; [exact silent_joining_run|]. split; [done|]. intros p Hstep.
  remember silent_joining as q eqn:Hq.
  destruct Hstep as [i q Hi|i id h q Hi Hgoes|i q Hphase|q Hphase|q Hphase|q Hphase|q Hphase Hall]; subst q; try done.
  - by destruct i as [|[]].
  - destruct i as [|[]]; [|done..]. vm_compute in Hi. injection Hi as <- <-. done.
Qed.
