(* ===== verification/CommandLine.v ===== *)
(** * The command line's options

    [apps/qobs/main.cpp], up to the commands: the tokens of the command line, the options
    among them, and the filters, pages and windows that they describe. *)

From S2P Require Import Prelude Result Checked Text Identity Time Evidence Sample Counter Metadata.
From S2P Require Import Event Limits Policy Rules Explanation Classification Ring History Window.
From S2P Require Import OrderedMap Admission Store Queries.
Open Scope Z_scope.

#[local] Set Warnings "-register-all".

(** A [bool] result with its [error]. *)
Inductive Argued (A : Type) : Type :=
| Given (a : A)
| Complaint (error : string).
Arguments Given {A} a.
Arguments Complaint {A} error.
#[export] Instance Argued_ret : MRet Argued := @Given.
#[export] Instance Argued_bind : MBind Argued := λ _ _ f r,
  match r with Given a => f a | Complaint error => Complaint error end.

#[export] Instance Argued_fmap : FMap Argued := λ _ _ f r,
  match r with Given a => Given (f a) | Complaint error => Complaint error end.

Definition require {A} (o : option A) (error : string) : Argued A :=
  match o with Some a => Given a | None => Complaint error end.

(** ** Options *)

Record Options := mkOptions {
  op_command : string;
  op_values : list (string * string);
  op_positional : list string
}.
Definition no_options : Options := mkOptions EmptyString [] [].

(** The first value of an option, and all of them. *)
Fixpoint first_value (name : string) (values : list (string * string)) : option string :=
  match values with
  | [] => None
  | entry :: values => if bool_decide (entry.1 = name) then Some entry.2 else first_value name values
  end.
Definition get (name : string) (o : Options) : option string := first_value name (op_values o).
Definition get_or (name fallback : string) (o : Options) : string := default fallback (get name o).
Definition has (name : string) (o : Options) : bool := is_some (get name o).
Definition get_all (name : string) (o : Options) : list string :=
  map snd (List.filter (λ entry, bool_decide (entry.1 = name)) (op_values o)).

Definition kFlags : list string :=
  [ "no-recover"; "persist-on-stop"; "trace"; "json"; "no-header"; "summary-only"; "history";
    "sufficient-only"; "help" ].
Definition is_boolean_flag (name : string) : bool :=
  existsb (λ flag, bool_decide (name = flag)) kFlags.

Definition is_option (token : string) : bool :=
  (2 <? String.length token)%nat && starts_with token "--".
Definition add_value (name value : string) (o : Options) : Options :=
  mkOptions (op_command o) (op_values o ++ [(name, value)]) (op_positional o).
(** A token that is no option: the command, or a positional argument behind it. *)
Definition add_word (token : string) (o : Options) : Options :=
  if bool_decide (op_command o = EmptyString) then mkOptions token (op_values o) (op_positional o)
  else mkOptions (op_command o) (op_values o) (op_positional o ++ [token]).

Fixpoint parse_tokens (tokens : list string) (o : Options) : Argued Options :=
  match tokens with
  | [] => Given o
  | token :: tokens =>
      if negb (is_option token) then parse_tokens tokens (add_word token o)
      else
        let name := str_drop 2 token in
        match find_char "="%char name with
        | Some equals =>
            parse_tokens tokens (add_value (str_take equals name) (str_drop (S equals) name) o)
        | None =>
            if is_boolean_flag name then parse_tokens tokens (add_value name EmptyString o)
            else
              match tokens with
              | [] => Complaint ("option --" +:+ name +:+ " requires a value")
              | value :: tokens => parse_tokens tokens (add_value name value o)
              end
        end
  end.

(** [argv] without the program's name. *)
Definition parse_options (arguments : list string) : Argued Options :=
  match arguments with
  | [] => Complaint "a command is required"
  | _ =>
      options ← parse_tokens arguments no_options;
      if bool_decide (op_command options = EmptyString) then Complaint "a command is required"
      else Given options
  end.

(** ** Numbers *)

(** [parse_size_option]: nothing when the option is not given. *)
Definition size_option (name : string) (o : Options) : Argued (option Z) :=
  match get name o with
  | None => Given None
  | Some text =>
      Some <$> require (parse_u64 text) ("option --" +:+ name +:+ " requires a non-negative integer")
  end.
Definition nanos_option (name : string) (o : Options) : Argued (option Nanos) :=
  match get name o with
  | None => Given None
  | Some text =>
      let error := "option --" +:+ name +:+ " requires a positive nanosecond duration" in
      value ← require (parse_i64 text) error;
      if value <=? 0 then Complaint error else Given (Some value)
  end.

(** ** What the options describe *)

(** An option that is parsed when it is given. *)
Definition parsed_option {A} (name : string) (parse : string → option A) (error : string → string)
    (o : Options) : Argued (option A) :=
  match get name o with
  | None => Given None
  | Some text => Some <$> require (parse text) (error text)
  end.
(** A number that must fit [max]. *)
Definition narrow_option (name error : string) (max : Z) (o : Options) : Argued (option Z) :=
  value ← size_option name o;
  match value with
  | None => Given None
  | Some value => Some <$> require (narrow_u max value) error
  end.
Definition identity_option (tag : NameTag) (name error : string) (o : Options) :
    Argued (option string) :=
  parsed_option name (λ text, result_option (create tag text)) (λ _, error) o.

Definition build_filter (o : Options) : Argued QueueFilter :=
  device ← identity_option DeviceTag "device" "the device filter is not a usable identity" o;
  port ← identity_option PortTag "port" "the port filter is not a usable identity" o;
  queue ← narrow_option "queue" "the queue filter does not fit in 32 bits" u32_max o;
  class ← identity_option SchedulingClassTag "class" "the class filter is not a usable identity" o;
  traffic ← narrow_option "traffic-class" "the traffic class filter does not fit in 16 bits" u16_max o;
  state ← parsed_option "state" PressureState.parse
            (λ text, "unknown pressure state '" +:+ text +:+ "'") o;
  Given (mkFilter device port queue traffic class state).

Definition build_pagination (o : Options) : Argued QueryPagination :=
  limit ← size_option "limit" o;
  offset ← size_option "offset" o;
  Given (mkPagination (default 0 offset) (default 0 limit)).

Definition build_window (o : Options) : Argued WindowSpec :=
  duration ← nanos_option "window-ns" o;
  bucket ← nanos_option "bucket-ns" o;
  min_buckets ← size_option "min-buckets" o;
  covered ← match min_buckets with
            | None => Given (ws_min_covered_buckets no_window_spec)
            | Some n =>
                if (n =? 0) || (u32_max <? n) then
                  Complaint "option --min-buckets must be between 1 and 4294967295"
                else Given n
            end;
  let window :=
    mkWindowSpec (get_or "window-name" "1s" o)
      (default (ws_duration_ns no_window_spec) duration)
      (default (ws_bucket_ns no_window_spec) bucket) covered 4096 in
  let status := validate_window_spec window in
  if ok status then Given window else Complaint (error_to_string status).

Definition parse_queue_path (o : Options) : Argued QueuePath :=
  text ← require (get "queue-path" o) "this command requires --queue-path device|port|queue";
  match path_parse text with
  | Value path => Given path
  | Failure e => Complaint (message e)
  end.
