(* ===== verification/Commands.v ===== *)
(** * The commands of the command line

    [apps/qobs/main.cpp]: each [run_*], and [main] around them.  What a process prints on its
    two streams, and its exit code, are its result.

    A document file is what the system answers about it.  The store's reads of the clock go on
    from one operation to the next; a query's is the next one. *)

From stdpp Require Import gmap strings.
From S2P Require Import Prelude Result Checked Text Bytes Identity Time Evidence Sample Counter.
From S2P Require Import Metadata Event Limits Decode Policy Rules Explanation Classification Ring.
From S2P Require Import History Window OrderedMap Admission Store StoreOps Queries Contention Ingest.
From S2P Require Import Runtime Codec Format Recovery Persistence Lifecycle Export Report Transport.
From S2P Require Import CommandLine.
Open Scope Z_scope.
Open Scope word_scope.

#[local] Set Warnings "-register-all".

(** The exit code, standard output and standard error. *)
Record Printed := mkPrinted { pn_exit : Z; pn_out : string; pn_err : string }.

Definition prints (text : string) : Printed := mkPrinted 0 text EmptyString.
Definition fail (message : string) : Printed :=
  mkPrinted 2 EmptyString ("qobs: " +:+ message +:+ newline).
Definition fail_status (st : Status) : Printed :=
  mkPrinted 1 EmptyString ("qobs: " +:+ error_to_string st +:+ newline).
Definition usage_lines : list string :=
  [ "Queue Observatory -- observation and historical interpretation of network queue state";
    "";
    "usage: qobs <command> [options]";
    "";
    "commands:";
    "  ingest     decode and apply observation documents";
    "  inspect    list tracked queues with their current state";
    "  history    show the bounded history and an aggregated window of one queue";
    "  pressure   show the deterministic pressure classification of every queue";
    "  explain    show the full decision trace that produced one queue state";
    "  export     write a deterministic machine-readable export";
    "  status     show runtime counters and persistence statistics";
    "  recover    re-read the newest persistence segment and report what was usable";
    "  events     show the bounded event log";
    "  sources    show the source registry and its fencing counters";
    "  conflicts  show recorded peer disagreements";
    "  burst      show observed microburst evidence";
    "  contend    show sibling contention correlation";
    "  version    show build information";
    "";
    "common options:";
    "  --file <path>            document to ingest (repeatable)";
    "  --persist-dir <path>     enable persistence in this directory";
    "  --no-recover             do not recover persisted evidence on start";
    "  --persist-on-stop        write a snapshot when the run ends";
    "  --workers <n>            background applier threads (default 0: synchronous)";
    "  --device <name>          filter by device";
    "  --port <name>            filter by port";
    "  --queue <index>          filter by queue index";
    "  --class <name>           filter by scheduling class";
    "  --traffic-class <n>      filter by traffic class";
    "  --state <name>           filter by pressure state";
    "  --limit <n>              page size (default 100)";
    "  --offset <n>             page offset";
    "  --window-name <name>     window label (default 1s)";
    "  --window-ns <n>          window duration in nanoseconds (default 1000000000)";
    "  --bucket-ns <n>          window bucket in nanoseconds (default 125000000)";
    "  --min-buckets <n>        covered buckets required for a claim (default 1)";
    "  --trace                  include the full decision trace";
    "  --json                   emit JSON where the command supports it" ].
Definition usage : string := rows_text (λ line, line +:+ newline) usage_lines.
Definition with_usage (p : Printed) : Printed := mkPrinted (pn_exit p) (pn_out p) (usage +:+ pn_err p).

(** A complaint about the options, or what follows. *)
Definition given {A} (r : Argued A) (f : A → Printed) : Printed :=
  match r with Given a => f a | Complaint error => fail error end.
(** A query's result, printed when its status is a success. *)
Definition queried {A} (result : A * Status) (f : A → Printed) : Printed :=
  if negb (ok result.2) then fail_status result.2 else f result.1.

(** ** Reading a document *)

(** What the system answers: the size; whether the file can be opened; what [fread] reads. *)
Record DocumentFile := mkDocumentFile {
  df_size : option Z;
  df_opens : bool;
  df_contents : string
}.

Definition read_document_file (files : string → DocumentFile) (path : string) (max_bytes : Z) :
    Result string :=
  match df_size (files path) with
  | None => Result.fail ErrorCode.IoError ("the document size could not be read: " +:+ path)
  | Some size =>
      if max_bytes <? size then
        Result.fail ErrorCode.LimitExceeded
          ("the document is larger than the configured read limit: " +:+ path)
      else if negb (df_opens (files path)) then
        Result.fail ErrorCode.IoError ("the document could not be opened: " +:+ path)
      else
        let buffer := str_take (Z.to_nat size) (df_contents (files path)) in
        if negb (Z.of_nat (String.length buffer) =? size) then
          Result.fail ErrorCode.IoError ("the document could not be read completely: " +:+ path)
        else Value buffer
  end.

Section commands.
Context (cfg : StoreConfig) (clock : nat → ReceiveTime) (record_bytes : Z).
Context (double_in_range : string → bool) (files : string → DocumentFile).
Context (config : ObservatoryConfig).

(** The clock of a query on [s]. *)
Definition query_clock (s : Store) : nat → ReceiveTime := λ n, clock (st_clock s + n)%nat.

(** ** The commands *)

Record IngestTotals := mkTotals { tt_accepted : Z; tt_rejected : Z; tt_malformed : Z }.
Definition add_totals (report : IngestReport) (t : IngestTotals) : IngestTotals :=
  mkTotals (tt_accepted t +u bt_accepted (ig_admission report))
    (tt_rejected t +u bt_rejected (ig_admission report))
    (tt_malformed t +u do_malformed (ig_decode report)).
Definition totals_line (t : IngestTotals) : string :=
  "total_accepted=" +:+ number (tt_accepted t) +:+ " total_rejected=" +:+ number (tt_rejected t) +:+
  " total_malformed=" +:+ number (tt_malformed t) +:+ newline.

(** The loop over the files, with what was printed so far. *)
Fixpoint ingest_files (paths : list string) (s : Store) (t : IngestTotals) (out : string) :
    Store * Printed :=
  match paths with
  | [] =>
      (s, mkPrinted (if (tt_rejected t =? 0) && (tt_malformed t =? 0) then 0 else 3)
            (out +:+ totals_line t) EmptyString)
  | path :: paths =>
      let stopped st := mkPrinted (pn_exit (fail_status st)) out (pn_err (fail_status st)) in
      match read_document_file files path (max_payload_bytes (oc_ingest config)) with
      | Failure e => (s, stopped e)
      | Value document =>
          let '(s, report, st) :=
            ingest_document cfg clock record_bytes double_in_range (oc_ingest config) document s in
          if negb (ok st) then (s, stopped st)
          else ingest_files paths s (add_totals report t) (out +:+ render_ingest_report report)
      end
  end.
Definition run_ingest (o : Options) (s : Store) : Store * Printed :=
  match get_all "file" o with
  | [] => (s, fail "ingest requires at least one --file")
  | paths => ingest_files paths s (mkTotals 0 0 0) EmptyString
  end.

(** The filter and the page that most commands begin with. *)
Definition selection (o : Options) : Argued (QueueFilter * QueryPagination) :=
  filter ← build_filter o;
  page ← build_pagination o;
  Given (filter, page).

Definition run_inspect (o : Options) (s : Store) : Printed :=
  given (selection o) (λ '(filter, page),
    queried (inspect cfg filter page s) (λ result,
      prints (render_inspect_table result (negb (has "no-header" o))))).

Definition run_history (o : Options) (s : Store) : Printed :=
  given (queue ← parse_queue_path o;
         window ← build_window o;
         page ← build_pagination o;
         Given (mkHistoryQuery queue window page (negb (has "summary-only" o)))) (λ query,
    queried (history cfg (query_clock s) query s) (λ result,
      mkPrinted (if ht_found result then 0 else 4) (render_history_report result) EmptyString)).

Definition trace_line (entry : TraceEntry) : string :=
  "  rule=" +:+ RuleId.rule_name (te_rule entry) +:+ " matched=" +:+ truth (te_matched entry) +:+
  " operand=" +:+ number (te_operand entry) +:+ " threshold=" +:+ number (te_threshold entry) +:+
  " detail=" +:+ te_detail entry +:+ newline.
Definition row_trace (row : PressureRow) : string :=
  "trace " +:+ path_to_string (Queries.pr_queue row) +:+ newline +:+
  rows_text trace_line (pr_trace row).
Definition run_pressure (o : Options) (s : Store) : Printed :=
  let include_trace := has "trace" o in
  given (selection o) (λ '(filter, page),
    queried (pressure cfg filter page include_trace s) (λ result,
      prints (render_pressure_table result (negb (has "no-header" o)) +:+
              (if include_trace then rows_text row_trace (page_rows result) else EmptyString)))).

Definition run_explain (o : Options) (s : Store) : Printed :=
  given (parse_queue_path o) (λ queue,
    queried (explain cfg (mkExplainQuery queue None) s) (λ result,
      if negb (er_found result) then
        mkPrinted 4 ("queue=" +:+ path_to_string queue +:+ " found=false" +:+ newline) EmptyString
      else
        prints (er_explanation result +:+ "explanation_digest=" +:+
                number (cr_explanation_digest (er_classification result)) +:+ newline))).

Definition run_export (o : Options) (s : Store) : Printed :=
  given (selected ← selection o;
         let format := get_or "format" "ndjson" o in
         parsed ← require (ExportFormat.parse_export_format format)
                    ("unknown export format '" +:+ format +:+ "'");
         let include_history := has "history" o in
         window ← if include_history : bool then build_window o else Given no_window_spec;
         Given (mkExportQuery selected.1 selected.2 parsed include_history window)) (λ query,
    queried (export_data cfg (query_clock s) query s) (λ result,
      mkPrinted 0 (ex_document result)
        ("rows=" +:+ number (Z.of_nat (ex_rows result)) +:+ " history_records=" +:+
         number (Z.of_nat (ex_history_records result)) +:+ " truncated=" +:+
         truth (ex_truncated result) +:+ newline))).

Definition run_status (ob : Observatory) : Printed :=
  prints (render_runtime_status (Lifecycle.status cfg config ob)).

(** [to_string(candidate) == *kind], over the enumerators in their order. *)
Definition named {E} `{Enumeration E} (to_string : E → string) (text : string) : option E :=
  find (λ candidate, bool_decide (to_string candidate = text)) enumerators.
Definition run_events (o : Options) (s : Store) : Printed :=
  given (kind ← parsed_option "kind" (named EventKind.to_string)
                  (λ text, "unknown event kind '" +:+ text +:+ "'") o;
         severity ← parsed_option "min-severity" (named Severity.to_string)
                      (λ text, "unknown severity '" +:+ text +:+ "'") o;
         page ← build_pagination o;
         Given (mkEventQuery kind None severity page)) (λ query,
    queried (events cfg query s) (λ result, prints (render_events_report result))).

Definition run_sources (s : Store) : Printed :=
  queried (sources cfg s) (λ result, prints (render_sources_report result)).
Definition run_conflicts (s : Store) : Printed :=
  queried (conflicts cfg s) (λ result, prints (render_conflicts_report result)).

Definition run_burst (o : Options) (s : Store) : Printed :=
  given (selection o) (λ '(filter, page),
    queried (microburst cfg (query_clock s) filter page (negb (has "sufficient-only" o)) s) (λ result,
      prints (render_microburst_report result))).

Definition port_selector (o : Options) : Argued (option PortPath) :=
  if has "device" o || has "port" o then
    match get "device" o, get "port" o with
    | Some device, Some port =>
        match create DeviceTag device, create PortTag port with
        | Value device, Value port => Given (Some (mkPortPath device port))
        | _, _ => Complaint "the port selector is not a usable identity"
        end
    | _, _ => Complaint "--device and --port must be supplied together for a contention query"
    end
  else Given None.
Definition run_contend (o : Options) (s : Store) : Printed :=
  given (port ← port_selector o;
         class ← identity_option SchedulingClassTag "class"
                   "the class filter is not a usable identity" o;
         page ← build_pagination o;
         Given (mkContentionQuery port class page)) (λ query,
    queried (contention cfg (query_clock s) query s) (λ result,
      prints (render_contention_report result))).

(** [recover] reads the directory again. *)
Definition run_recover (order : Directory → list (string * Entry)) (io : ReadIo) (d : Disk)
    (ob : Observatory) : option (Observatory * Printed) :=
  '(ob, summary, st) ← recover_now cfg clock record_bytes order config io d ob;
  Some (ob, if negb (ok st) then fail_status st
            else mkPrinted (if rs_recovered summary then 0 else 4) (render_recovery_summary summary)
                   EmptyString).

Definition run_command (order : Directory → list (string * Entry)) (io : ReadIo) (o : Options)
    (d : Disk) (ob : Observatory) : option (Observatory * Printed) :=
  let command := op_command o in
  let s := rt_store (ob_runtime ob) in
  let observed p := Some (ob, p) in
  if bool_decide (command = "ingest") then
    let '(s, p) := run_ingest o s in Some (set_runtime (with_store s (ob_runtime ob)) ob, p)
  else if bool_decide (command = "inspect") then observed (run_inspect o s)
  else if bool_decide (command = "history") then observed (run_history o s)
  else if bool_decide (command = "pressure") then observed (run_pressure o s)
  else if bool_decide (command = "explain") then observed (run_explain o s)
  else if bool_decide (command = "export") then observed (run_export o s)
  else if bool_decide (command = "status") then observed (run_status ob)
  else if bool_decide (command = "recover") then run_recover order io d ob
  else if bool_decide (command = "events") then observed (run_events o s)
  else if bool_decide (command = "sources") then observed (run_sources s)
  else if bool_decide (command = "conflicts") then observed (run_conflicts s)
  else if bool_decide (command = "burst") then observed (run_burst o s)
  else if bool_decide (command = "contend") then observed (run_contend o s)
  else observed (with_usage (fail ("unknown command '" +:+ command +:+ "'"))).
End commands.

(** ** The process *)

(** What the build says of itself ([core/Version.cpp]). *)
Record BuildInfo := mkBuildInfo {
  bi_compiler : string;
  bi_configuration : string;
  bi_has_address_sanitizer : bool;
  bi_has_lock_audit : bool
}.
Definition version_string : string := kVersionString.
Definition version_text (build : BuildInfo) : string :=
  "qobs " +:+ version_string +:+ " compiler=" +:+ bi_compiler build +:+
  " configuration=" +:+ bi_configuration build +:+
  " sanitizer=" +:+ (if bi_has_address_sanitizer build then "yes" else "no") +:+
  " lock_audit=" +:+ (if bi_has_lock_audit build then "enabled" else "disabled") +:+ newline +:+
  "persistence_format=1 wire_format=1 policy=1" +:+ newline.

Definition default_config : ObservatoryConfig :=
  mkObservatoryConfig default_pressure_policy default_ingest_limits default_history_limits
    default_query_limits default_persistence_limits default_runtime_limits default_transport_limits
    None true false 0.
Definition with_workers (n : Z) (limits : RuntimeLimits) : RuntimeLimits :=
  mkRuntimeLimits (max_pending_batches limits) (max_pending_samples limits) n
    (max_deferred_records limits).
(** What [main] makes of the options. *)
Definition command_config (o : Options) : Argued ObservatoryConfig :=
  workers ← size_option "workers" o;
  Given (mkObservatoryConfig (oc_policy default_config) (oc_ingest default_config)
           (oc_history default_config) (oc_query default_config) (oc_persistence default_config)
           (with_workers (default 0 workers) (oc_runtime default_config)) (oc_transport default_config)
           (get "persist-dir" o) (negb (has "no-recover" o)) (has "persist-on-stop" o) 0).

(** [Observatory::create]: the store is made with the clock's first reading. *)
Definition store_config (clock : nat → ReceiveTime) (config : ObservatoryConfig) : StoreConfig :=
  make_config (oc_policy config) (oc_history config) (oc_query config) (clock 0%nat).
Definition create_observatory (clock : nat → ReceiveTime) (config : ObservatoryConfig) :
    Result Observatory :=
  let valid := validate_config config in
  if negb (ok valid) then Failure valid
  else Value (new_observatory config (init_store (store_config clock config))).

(** How the calls of the file system turn out: at the start, in the command, at the end. *)
Record ProcessIo := mkProcessIo {
  pi_start : ReadIo;
  pi_allowed : bool;
  pi_command : ReadIo;
  pi_stop_read : ReadIo;
  pi_stop_write : WriteIo
}.

Section process.
Context (build : BuildInfo) (clock : nat → ReceiveTime) (record_bytes : Z).
Context (double_in_range : string → bool) (files : string → DocumentFile).
Context (order : Directory → list (string * Entry)) (io : ProcessIo).

(** The end of [main]: the exit code of a failed stop shows where the command has none. *)
Definition after_stop (p : Printed) (stopped : Status) : Printed :=
  if negb (ok stopped) && (pn_exit p =? 0) then
    mkPrinted (pn_exit (fail_status stopped)) (pn_out p) (pn_err p +:+ pn_err (fail_status stopped))
  else p.

(** The observatory from [start] to [stop], with the command in between. *)
Definition run_observatory (config : ObservatoryConfig) (o : Options) (ob : Observatory) :
    FileOp (option Printed) :=
  let cfg := store_config clock config in
  started ← start_observatory cfg clock record_bytes order config (pi_start io) (pi_allowed io) ob;
  match started with
  | None => ret None
  | Some (ob, st) =>
      if negb (ok st) then ret (Some (fail_status st))
      else
        on_disk (λ d,
          match run_command cfg clock record_bytes double_in_range files config order (pi_command io)
                  o d ob with
          | None => ret None
          | Some (ob, p) =>
              stopped ← finish_stop cfg order config (pi_stop_read io) (pi_stop_write io) ob;
              ret (Some (after_stop p stopped.2))
          end)
  end.

Definition main (arguments : list string) : FileOp (option Printed) :=
  match parse_options arguments with
  | Complaint error => ret (Some (with_usage (fail error)))
  | Given o =>
      let command := op_command o in
      if bool_decide (command = "help") || bool_decide (command = "--help") ||
         bool_decide (command = "-h") then ret (Some (prints usage))
      else if bool_decide (command = "version") then ret (Some (prints (version_text build)))
      else
        match command_config o with
        | Complaint error => ret (Some (fail error))
        | Given config =>
            match create_observatory clock config with
            | Failure e => ret (Some (fail_status e))
            | Value ob => run_observatory config o ob
            end
        end
  end.
End process.
