(* ===== verification/CommandTheorems.v ===== *)
(** * What the command line does

    The options are exactly the spellings of the usage; ingesting files is ingesting their
    documents in order; and no command changes what is on disk unless it is asked to persist. *)

From stdpp Require Import gmap strings.
From S2P Require Import Prelude Result Checked Text Bytes Identity Time Evidence Sample Counter.
From S2P Require Import Metadata Event Limits SampleRoundTrip Decode Policy Rules Explanation.
From S2P Require Import Classification Ring History Window OrderedMap Admission Store StoreOps Queries.
From S2P Require Import Contention StoreExample Ingest Runtime Codec Format Recovery Persistence.
From S2P Require Import PersistenceExample Lifecycle Export Report Transport TransportSession.
From S2P Require Import CommandLine Commands.
Open Scope Z_scope.
Open Scope word_scope.

#[local] Set Warnings "-register-all".

(** ** Spellings *)

(** What a command line is made of: a word, and the three ways to write an option. *)
Inductive Piece :=
| Word (text : string)
| Assigned (name value : string)
| Spaced (name value : string)
| Flag (name : string).

Definition spelled (piece : Piece) : list string :=
  match piece with
  | Word text => [text]
  | Assigned name value => ["--" +:+ name +:+ String "="%char value]
  | Spaced name value => ["--" +:+ name; value]
  | Flag name => ["--" +:+ name]
  end.
Definition written (pieces : list Piece) : list string := concat (map spelled pieces).

Definition no_equals (name : string) : Prop := find_char "="%char name = None.
Definition piece_ok (piece : Piece) : Prop :=
  match piece with
  | Word text => is_option text = false
  | Assigned name _ => no_equals name
  | Spaced name _ => name ≠ EmptyString ∧ no_equals name ∧ is_boolean_flag name = false
  | Flag name => is_boolean_flag name = true
  end.

Definition piece_effect (o : Options) (piece : Piece) : Options :=
  match piece with
  | Word text => add_word text o
  | Assigned name value | Spaced name value => add_value name value o
  | Flag name => add_value name EmptyString o
  end.
Definition described (pieces : list Piece) : Options := fold_left piece_effect pieces no_options.

Lemma option_token text : (0 < String.length text)%nat → is_option ("--" +:+ text) = true.
Proof. destruct text; cbn; [lia|done]. Qed.
Lemma option_split token : is_option token = true → token = "--" +:+ str_drop 2 token ∧ str_drop 2 token ≠ EmptyString.
Proof.
  unfold is_option. intros [Hl Hs]%andb_prop. unfold starts_with in Hs. apply andb_prop in Hs as [_ Hs].
  apply bool_decide_eq_true in Hs. destruct token as [|a [|b token]]; try done. cbn in Hs.
  injection Hs as -> ->. split; [done|]. by destruct token.
Qed.

Lemma flag_plain name : is_boolean_flag name = true → no_equals name ∧ name ≠ EmptyString.
Proof.
  unfold is_boolean_flag. intros (flag & Hin & ->%bool_decide_eq_true)%existsb_exists.
  repeat (destruct Hin as [<-|Hin]; [by vm_compute|]). done.
Qed.

Lemma find_equals name value :
  no_equals name → find_char "="%char (name +:+ String "="%char value) = Some (String.length name).
Proof.
  unfold no_equals. induction name as [|c name IH]; [done|]. rewrite string_app_cons. cbn [find_char String.length].
  destruct (decide (c = "="%char)); [done|]. destruct (find_char "="%char name); [done|]. intros _. by rewrite IH.
Qed.
Lemma take_name name rest : str_take (String.length name) (name +:+ rest) = name.
Proof. induction name as [|c name IH]; [by destruct rest|]. rewrite string_app_cons. cbn. by rewrite IH. Qed.
Lemma drop_name name c rest : str_drop (S (String.length name)) (name +:+ String c rest) = rest.
Proof. induction name as [|d name IH]; [done|]. rewrite string_app_cons. exact IH. Qed.
Lemma option_name name : str_drop 2 ("--" +:+ name) = name.
Proof. done. Qed.

(** A spelled command line is read back. *)
Lemma written_parsed pieces o :
  Forall piece_ok pieces → parse_tokens (written pieces) o = Given (fold_left piece_effect pieces o).
Proof.
  intros H. revert o. induction H as [|piece pieces Hp _ IH]; intros o; [done|].
  unfold written in *. cbn [map concat fold_left].
  destruct piece as [text|name value|name value|name]; cbn [spelled app parse_tokens piece_effect piece_ok] in *.
  - rewrite Hp. apply IH.
  - rewrite option_token by (rewrite string_length_app; cbn [String.length]; lia). cbv zeta. cbn [negb].
    rewrite option_name, find_equals, take_name, drop_name by done. apply IH.
  - destruct Hp as (Hne & Heq & Hflag). rewrite option_token by (destruct name; [done|cbn; lia]).
    cbv zeta. cbn [negb]. rewrite option_name, Heq, Hflag. apply IH.
  - destruct (flag_plain _ Hp) as [Heq Hne]. rewrite option_token by (destruct name; [done|cbn; lia]).
    cbv zeta. cbn [negb]. rewrite option_name, Heq, Hp. apply IH.
Qed.

(** Tokens that are read are the spelling of something. *)
Lemma parsed_written tokens o o' :
  parse_tokens tokens o = Given o' →
  ∃ pieces, Forall piece_ok pieces ∧ tokens = written pieces ∧ o' = fold_left piece_effect pieces o.
Proof.
  remember (length tokens) as n eqn:Hn. revert tokens o Hn.
  induction n as [n IH] using lt_wf_ind. intros [|token tokens] o -> H.
  { injection H as <-. by exists []. }
  cbn [parse_tokens] in H. destruct (is_option token) eqn:Ho; cbn [negb] in H.
  2:{ destruct (IH (length tokens) ltac:(cbn; lia) _ _ eq_refl H) as (pieces & Hp & -> & ->).
      exists (Word token :: pieces). split; [by constructor|]. done. }
  destruct (option_split _ Ho) as [Htoken Hne]. set (name := str_drop 2 token) in *.
  destruct (find_char "="%char name) as [equals|] eqn:E.
  - destruct (IH (length tokens) ltac:(cbn; lia) _ _ eq_refl H) as (pieces & Hp & -> & ->).
    destruct (find_char_Some _ _ _ E) as (Hsplit & Hno & _).
    exists (Assigned (str_take equals name) (str_drop (S equals) name) :: pieces).
    split; [constructor; [by apply find_char_None|done]|]. split; [|done].
    rewrite Htoken. unfold written. cbn [map concat spelled app]. by rewrite <- Hsplit.
  - destruct (is_boolean_flag name) eqn:Hf.
    + destruct (IH (length tokens) ltac:(cbn; lia) _ _ eq_refl H) as (pieces & Hp & -> & ->).
      exists (Flag name :: pieces). split; [by constructor|]. split; [|done]. by rewrite Htoken.
    + destruct tokens as [|value tokens]; [done|].
      destruct (IH (length tokens) ltac:(cbn; lia) _ _ eq_refl H) as (pieces & Hp & -> & ->).
      exists (Spaced name value :: pieces). split; [by constructor|]. split; [|done]. by rewrite Htoken.
Qed.

(** C40: the command line accepts exactly the spellings of its usage.  Arguments that are
    accepted are words and options written as [--name=value], [--name value] or, for a flag,
    [--name], in any order; the command is the first word, the other words and the options
    keep their order.  Whatever is refused is no such spelling that has a command. *)
Theorem command_line_exact arguments :
  match parse_options arguments with
  | Given o =>
      ∃ pieces, Forall piece_ok pieces ∧ arguments = written pieces ∧ o = described pieces ∧
        op_command o ≠ EmptyString
  | Complaint _ =>
      ∀ pieces, Forall piece_ok pieces → arguments = written pieces →
        op_command (described pieces) = EmptyString
  end.
Proof.
  unfold parse_options. destruct arguments as [|token tokens] eqn:Ha.
  { intros [|[] pieces] _ Hw; by try discriminate. }
  rewrite <- Ha. clear Ha. unfold mbind, Argued_bind.
  destruct (parse_tokens arguments no_options) as [o|error] eqn:E.
  - destruct (parsed_written _ _ _ E) as (pieces & Hp & Hw & Ho). case_bool_decide as Hc.
    + intros pieces' Hp' Hw'. unfold described. apply (written_parsed _ no_options) in Hp'.
      rewrite <- Hw', E in Hp'. by injection Hp' as <-.
    + by exists pieces.
  - intros pieces Hp ->. by rewrite (written_parsed _ _ Hp) in E.
Qed.

(** ** Ingesting files *)

Section ingest.
Context (cfg : StoreConfig) (clock : nat → ReceiveTime) (record_bytes : Z).
Context (double_in_range : string → bool) (files : string → DocumentFile).
Context (config : ObservatoryConfig).
Abbreviation each := (ingest_each cfg clock record_bytes double_in_range config).
Abbreviation read := (λ path, read_document_file files path (max_payload_bytes (oc_ingest config))).

(** What is printed for the documents that were ingested. *)
Definition printed_reports (results : list (IngestReport * Status)) : string :=
  rows_text (λ r, render_ingest_report r.1) results.
Definition all_ok (results : list (IngestReport * Status)) : Prop := Forall (λ r, ok r.2 = true) results.
Definition totals (results : list (IngestReport * Status)) : IngestTotals :=
  fold_left (λ t r, add_totals r.1 t) results (mkTotals 0 0 0).
(** Nothing rejected and nothing malformed, in the totals that are printed. *)
Definition clean (t : IngestTotals) : bool := (tt_rejected t =? 0) && (tt_malformed t =? 0).

(** The ways the command ends: every file is ingested; a file cannot be read, the ones before
    it having been ingested; a document cannot be ingested, the ones before it having been. *)
Inductive ingested (paths : list string) (s s' : Store) (p : Printed) : Prop :=
| ingested_all documents results :
    Forall2 (λ path document, read path = Value document) paths documents →
    each documents s = (s', results) → all_ok results →
    p = mkPrinted (if clean (totals results) then 0 else 3)
          (printed_reports results +:+ totals_line (totals results)) EmptyString →
    ingested paths s s' p
| ingest_unread first path rest documents results e :
    paths = first ++ path :: rest →
    Forall2 (λ path document, read path = Value document) first documents → read path = Failure e →
    each documents s = (s', results) → all_ok results →
    p = mkPrinted 1 (printed_reports results) (pn_err (fail_status e)) →
    ingested paths s s' p
| ingest_failed first path rest documents document results report e :
    paths = first ++ path :: rest →
    Forall2 (λ path document, read path = Value document) (first ++ [path]) (documents ++ [document]) →
    each (documents ++ [document]) s = (s', results ++ [(report, e)]) → all_ok results → ok e = false →
    p = mkPrinted 1 (printed_reports results) (pn_err (fail_status e)) →
    ingested paths s s' p.

Lemma each_app xs ys s :
  each (xs ++ ys) s = let '(s1, first) := each xs s in let '(s2, second) := each ys s1 in (s2, first ++ second).
Proof using.
  revert s. induction xs as [|x xs IH]; intros s; cbn [app ingest_each]; [by destruct (each ys s)|].
  destruct (ingest_document _ _ _ _ _ x s) as [[s1 report] st]. rewrite IH.
  destruct (each xs s1) as [s2 first]. by destruct (each ys s2).
Qed.
Lemma rows_text_app {A} (f : A → string) xs ys : rows_text f (xs ++ ys) = rows_text f xs +:+ rows_text f ys.
Proof using.
  unfold rows_text. induction xs as [|x xs IH]; [done|]. cbn [app fold_right].
  by rewrite IH, string_app_assoc.
Qed.

(** The loop after the files [first] were ingested. *)
Lemma ingest_files_spec first rest documents results s0 s :
  Forall2 (λ path document, read path = Value document) first documents →
  each documents s0 = (s, results) → all_ok results →
  let '(s', p) :=
    ingest_files cfg clock record_bytes double_in_range files config rest s (totals results)
      (printed_reports results) in
  ingested (first ++ rest) s0 s' p.
Proof using.
  revert first documents results s. induction rest as [|path rest IH];
    intros first documents results s Hread Heach Hok; cbn [ingest_files].
  { rewrite app_nil_r. by eapply ingested_all. }
  destruct (read path) as [document|e] eqn:R.
  2:{ by eapply (ingest_unread _ _ _ _ first path rest). }
  destruct (ingest_document _ _ _ _ _ document s) as [[s1 report] st] eqn:E.
  assert (Forall2 (λ path document, read path = Value document) (first ++ [path]) (documents ++ [document])) as Hread'
    by (apply Forall2_app; [done|by constructor]).
  assert (each (documents ++ [document]) s0 = (s1, results ++ [(report, st)])) as Heach'.
  { rewrite each_app, Heach. cbn [ingest_each]. by rewrite E. }
  destruct (ok st) eqn:Hst; cbn [negb].
  - specialize (IH (first ++ [path]) (documents ++ [document]) (results ++ [(report, st)]) s1 Hread' Heach').
    unfold printed_reports, totals in IH. rewrite fold_left_app, rows_text_app, <- app_assoc in IH.
    cbn [rows_text fold_right fold_left fst app] in IH. rewrite string_app_nil_r in IH.
    apply IH. apply Forall_app_2; [done|by constructor].
  - by eapply (ingest_failed _ _ _ _ first path rest).
Qed.

(** C39: [qobs ingest] is the ingestion of its files in their order.  Without a file it is
    refused and nothing changes.  Otherwise it ends in one of three ways.  Every file is read
    and ingested without an error: the totals follow the reports, and the exit code is zero
    when nothing was rejected or malformed, and three when something was.  Or the first files
    are, and the next one cannot be read, or its document cannot be ingested: the reports of
    those before it are printed, the reason is the error, and the exit code is one.  The store
    is that of the documents ingested one after the other, up to that file. *)
Theorem ingest_command_exact o s :
  let paths := get_all "file" o in
  let '(s', p) := run_ingest cfg clock record_bytes double_in_range files config o s in
  (paths = [] → s' = s ∧ p = fail "ingest requires at least one --file") ∧
  (paths ≠ [] → ingested paths s s' p).
Proof using.
  intros paths. unfold run_ingest. fold paths. destruct paths as [|path rest]; [done|].
  pose proof (ingest_files_spec [] (path :: rest) [] [] s s (Forall2_nil_2 _ _ _) eq_refl (Forall_nil_2 _)) as H.
  change (totals []) with (mkTotals 0 0 0) in H. change (printed_reports []) with EmptyString in H.
  by destruct (ingest_files _ _ _ _ _ _ (path :: rest) s _ _) as [s' p].
Qed.
End ingest.

(** ** What is on disk *)

(** The directory as it was, or made where there was none. *)
Definition untouched (d d' : Disk) : Prop := d' = d ∨ (d = Absent ∧ d' = Present ∅).
Definition keeps {A} (m : FileOp A) : Prop :=
  ∀ d, untouched d (m d).1.2 ∧ Forall (untouched d) (m d).2.

Lemma untouched_trans a b c : untouched a b → untouched b c → untouched a c.
Proof. intros [->|[-> ->]] [->|[? ->]]; unfold untouched; auto. Qed.

Lemma ret_keeps {A} (a : A) : keeps (ret a).
Proof. intros d. split; [by left|constructor]. Qed.
Lemma bind_keeps {A B} (m : FileOp A) (f : A → FileOp B) :
  keeps m → (∀ a, keeps (f a)) → keeps (m ≫= f).
Proof.
  intros Hm Hf d. unfold mbind, FileOp_bind. specialize (Hm d). destruct (m d) as [[a d1] first].
  cbn [fst snd] in Hm. destruct Hm as [H1 H2]. specialize (Hf a d1). destruct (f a d1) as [[b d2] second].
  cbn [fst snd] in *. destruct Hf as [K1 K2]. split; [by eapply untouched_trans|].
  apply Forall_app_2; [done|]. eapply Forall_impl; [exact K2|]. intros x Hx. by eapply untouched_trans.
Qed.
Lemma on_disk_keeps {A} (f : Disk → FileOp A) : (∀ d, keeps (f d)) → keeps (on_disk f).
Proof. intros H d. apply H. Qed.

Ltac keeps := repeat lazymatch goal with
  | |- keeps (ret _) => apply ret_keeps
  | |- keeps (on_disk _) => apply on_disk_keeps; intros ?
  | |- keeps (_ ≫= _) => apply bind_keeps; [|intros ?]
  | |- keeps (match _ with _ => _ end) => case_match
  end.

Lemma create_keeps allowed : keeps (create_directories allowed).
Proof.
  intros [| |entries]; cbn; [destruct allowed|..]; cbn; rewrite ?Forall_singleton, ?Forall_nil;
    unfold untouched; auto.
Qed.
Lemma opening_keeps directory limits order io allowed st :
  keeps (open_store directory limits order io allowed st).
Proof. unfold open_store. destruct (negb _); [apply ret_keeps|]. apply bind_keeps; [apply create_keeps|]. intros created. keeps. Qed.
Lemma start_keeps cfg clock record_bytes order config io allowed ob :
  keeps (start_observatory cfg clock record_bytes order config io allowed ob).
Proof.
  unfold start_observatory. destruct (negb _); [apply ret_keeps|].
  destruct (ob_persistence ob); [|keeps]. apply bind_keeps; [apply opening_keeps|]. intros [st' status]. keeps.
Qed.
Lemma stop_keeps cfg order config read io ob :
  oc_persist_on_stop config = false → keeps (finish_stop cfg order config read io ob).
Proof. intros H. unfold finish_stop. rewrite H. apply ret_keeps. Qed.

Definition asks_to_persist (arguments : list string) : bool :=
  match parse_options arguments with Given o => has "persist-on-stop" o | Complaint _ => false end.

(** C38: observing changes nothing on disk.  Whatever the command and the other options, and
    whatever the calls of the file system do: without [--persist-on-stop] the directory is,
    at every moment of the process, what it was, or the empty one made where there was none.
    A command that ingests is no exception, so [--persist-dir] alone leaves nothing for a second
    run to recover (README.md says that it does). *)
Theorem observing_keeps_disk build clock record_bytes double_in_range files order io arguments :
  asks_to_persist arguments = false →
  keeps (main build clock record_bytes double_in_range files order io arguments).
Proof.
  unfold asks_to_persist, main. destruct (parse_options arguments) as [o|error]; [|intros _; apply ret_keeps].
  intros Hpersist. destruct (_ || _); [apply ret_keeps|]. case_bool_decide; [apply ret_keeps|].
  destruct (command_config o) as [config|error] eqn:E; [|apply ret_keeps].
  destruct (create_observatory clock config) as [ob|e]; [|apply ret_keeps].
  assert (oc_persist_on_stop config = false) as Hstop.
  { unfold command_config in E. destruct (size_option "workers" o); [|done]. by injection E as <-. }
  unfold run_observatory. apply bind_keeps; [apply start_keeps|]. intros [[ob' st]|]; [|apply ret_keeps].
  destruct (negb (ok st)); [apply ret_keeps|]. apply on_disk_keeps. intros d.
  destruct (run_command _ _ _ _ _ _ _ _ _ _ _) as [[ob1 p]|]; [|apply ret_keeps].
  apply bind_keeps; [by apply stop_keeps|]. intros stopped. apply ret_keeps.
Qed.

(** ** Processes *)

Definition example_build : BuildInfo := mkBuildInfo "gcc" "release" false false.
Definition example_document : string := encoded (cells_sample "leaf" "i1" 1 100).
(** One file that can be read, named [x]. *)
Definition example_files (path : string) : DocumentFile :=
  if bool_decide (path = "x")
  then mkDocumentFile (Some (Z.of_nat (String.length example_document))) true example_document
  else mkDocumentFile None false EmptyString.
Definition working_process : ProcessIo :=
  mkProcessIo working_reads true working_reads working_reads working_writes.
Definition qobs : list string → FileOp (option Printed) :=
  main example_build example_clock example_record_bytes (λ _, true) example_files in_order
    working_process.
Definition exit_of (r : option Printed * Disk * list Disk) : option Z := option_map pn_exit r.1.1.

Lemma observing_keeps_disk_witness : keeps (qobs ["inspect"; "--persist-dir"; "state"]).
Proof.
  exact (observing_keeps_disk example_build example_clock example_record_bytes (λ _, true) example_files
           in_order working_process ["inspect"; "--persist-dir"; "state"] eq_refl).
Defined.

(** A process that ingests and persists, and the next, which finds the queue but no present. *)
Definition ingested_disk : Disk :=
  (qobs ["ingest"; "--file=x"; "--persist-dir=state"; "--persist-on-stop"] Absent).1.2.
Lemma next_process_sees_history :
  exit_of (qobs ["recover"; "--persist-dir=state"] ingested_disk) = Some 0 ∧
  exit_of (qobs ["recover"; "--persist-dir=state"] Absent) = Some 4 ∧
  exit_of (qobs ["recover"] Absent) = Some 1 ∧
  option_map (λ p, str_take 38 (str_drop 120 (pn_out p)))
    (qobs ["inspect"; "--persist-dir=state"] ingested_disk).1.1 =
  Some "leaf|eth0|3                  stale    ".
Proof. by vm_compute. Qed.

(** [--help] is an option, not a command. *)
Lemma help_option_is_refused :
  option_map (λ p, (pn_exit p, pn_out p)) (qobs ["--help"] Absent).1.1 = Some (2, EmptyString) ∧
  exit_of (qobs ["help"] Absent) = Some 0.
Proof. by vm_compute. Qed.

(** The usage's defaults of the window are not there. *)
Lemma history_needs_a_window :
  (qobs ["history"; "--queue-path"; "leaf|eth0|3"] Absent).1.1 =
    Some (fail "invalid_argument: window duration must be a positive duration") ∧
  exit_of (qobs ["history"; "--queue-path"; "leaf|eth0|3"; "--window-ns"; "1000000000";
                 "--bucket-ns"; "125000000"] Absent) = Some 4.
Proof. by vm_compute. Qed.

(** An option that no command knows takes the word behind it. *)
Lemma unknown_option_takes_the_command :
  exit_of (qobs ["--quiet"; "status"] Absent) = Some 2 ∧
  exit_of (qobs ["status"; "--quiet"; "yes"] Absent) = Some 0.
Proof. by vm_compute. Qed.
