(* ===== verification/TransportTools.v ===== *)
(** * The transport's programs

    [apps/qobs_transport_server/main.cpp] and [apps/qobs_transport_client/main.cpp]: their
    arguments, the configuration of the server, what the client does over its connection,
    and what both print and return. *)

From stdpp Require Import gmap strings.
From S2P Require Import Prelude Result Checked Text Bytes Crc32c Json JsonWriter Identity Time Evidence.
From S2P Require Import Sample Counter Metadata Event Limits SampleRoundTrip Decode Policy Rules.
From S2P Require Import Explanation Classification Protocol Ring History Window OrderedMap Admission.
From S2P Require Import Store StoreOps Queries StoreExample Ingest Runtime Codec Format Recovery.
From S2P Require Import Persistence Lifecycle Export Report Transport TransportTheorems TransportSession.
From S2P Require Import Serve ServeExample CommandLine Commands.
Open Scope Z_scope.
Open Scope word_scope.

#[local] Set Warnings "-register-all".

(** A number within [first] and [last]. *)
Definition number_within (first last : Z) (text : string) : option Z :=
  match parse_u64 text with
  | Some value => if (first <=? value) && (value <=? last) then Some value else None
  | None => None
  end.

Definition failed (program : string) (exit : Z) (message : string) : Printed :=
  mkPrinted exit EmptyString (program +:+ ": " +:+ message +:+ newline).
(** A process that printed [out] before it failed. *)
Definition after_output (out : string) (p : Printed) : Printed :=
  mkPrinted (pn_exit p) (out +:+ pn_out p) (pn_err p).

(** ** The server's program *)

Definition kServer : string := "qobs-transport-server".

Record ServerArguments := mkServerArguments {
  sa_host : string;
  sa_port : Z;
  sa_port_given : bool;
  sa_listen_handle : Z;
  sa_handle_given : bool;
  sa_port_file : string;
  sa_workers : Z;
  sa_max_connections : Z;
  sa_exit_after_batches : Z;
  sa_persist_dir : string
}.
Definition default_server_arguments : ServerArguments :=
  mkServerArguments "127.0.0.1" 0 false 0 false EmptyString 0 32 0 EmptyString.

Definition set_host (host : string) (a : ServerArguments) : ServerArguments :=
  mkServerArguments host (sa_port a) (sa_port_given a) (sa_listen_handle a) (sa_handle_given a)
    (sa_port_file a) (sa_workers a) (sa_max_connections a) (sa_exit_after_batches a) (sa_persist_dir a).
Definition set_port (port : Z) (a : ServerArguments) : ServerArguments :=
  mkServerArguments (sa_host a) port true (sa_listen_handle a) (sa_handle_given a)
    (sa_port_file a) (sa_workers a) (sa_max_connections a) (sa_exit_after_batches a) (sa_persist_dir a).
Definition set_handle (handle : Z) (a : ServerArguments) : ServerArguments :=
  mkServerArguments (sa_host a) (sa_port a) (sa_port_given a) handle true
    (sa_port_file a) (sa_workers a) (sa_max_connections a) (sa_exit_after_batches a) (sa_persist_dir a).
Definition set_port_file (file : string) (a : ServerArguments) : ServerArguments :=
  mkServerArguments (sa_host a) (sa_port a) (sa_port_given a) (sa_listen_handle a) (sa_handle_given a)
    file (sa_workers a) (sa_max_connections a) (sa_exit_after_batches a) (sa_persist_dir a).
Definition set_worker_threads (n : Z) (a : ServerArguments) : ServerArguments :=
  mkServerArguments (sa_host a) (sa_port a) (sa_port_given a) (sa_listen_handle a) (sa_handle_given a)
    (sa_port_file a) n (sa_max_connections a) (sa_exit_after_batches a) (sa_persist_dir a).
Definition set_max_connections (n : Z) (a : ServerArguments) : ServerArguments :=
  mkServerArguments (sa_host a) (sa_port a) (sa_port_given a) (sa_listen_handle a) (sa_handle_given a)
    (sa_port_file a) (sa_workers a) n (sa_exit_after_batches a) (sa_persist_dir a).
Definition set_exit_after (n : Z) (a : ServerArguments) : ServerArguments :=
  mkServerArguments (sa_host a) (sa_port a) (sa_port_given a) (sa_listen_handle a) (sa_handle_given a)
    (sa_port_file a) (sa_workers a) (sa_max_connections a) n (sa_persist_dir a).
Definition set_persist_dir (dir : string) (a : ServerArguments) : ServerArguments :=
  mkServerArguments (sa_host a) (sa_port a) (sa_port_given a) (sa_listen_handle a) (sa_handle_given a)
    (sa_port_file a) (sa_workers a) (sa_max_connections a) (sa_exit_after_batches a) dir.

(** What an option does with its value: [None] where the option is unknown, and inside it
    where the value is refused. *)
Definition server_option (token value : string) (a : ServerArguments) :
    option (option ServerArguments) :=
  let number first last f := Some ((λ n, f n a) <$> number_within first last value) in
  if bool_decide (token = "--host") then Some (Some (set_host value a))
  else if bool_decide (token = "--port") then number 0 65535 set_port
  else if bool_decide (token = "--listen-handle") || bool_decide (token = "--listen-fd") then
    number 0 u64_max set_handle
  else if bool_decide (token = "--port-file") then Some (Some (set_port_file value a))
  else if bool_decide (token = "--workers") then number 0 u64_max set_worker_threads
  else if bool_decide (token = "--max-connections") then number 1 u64_max set_max_connections
  else if bool_decide (token = "--exit-after-batches") then number 0 u64_max set_exit_after
  else if bool_decide (token = "--persist-dir") then Some (Some (set_persist_dir value a))
  else None.

(** [parse]; an unknown option is reported before its value is looked for. *)
Fixpoint parse_server (tokens : list string) (a : ServerArguments) : Argued ServerArguments :=
  match tokens with
  | [] => Given a
  | token :: tokens =>
      if negb (is_some (server_option token EmptyString a)) then
        Complaint (kServer +:+ ": unknown option '" +:+ token +:+ "'" +:+ newline)
      else
        match tokens with
        | [] => Complaint EmptyString
        | value :: tokens =>
            match server_option token value a with
            | Some (Some a) => parse_server tokens a
            | _ => Complaint EmptyString
            end
        end
  end.

Definition server_usage : string :=
  rows_text (λ line, line +:+ newline)
    [ "usage: qobs-transport-server [--host H] [--port N] [--listen-handle H] [--port-file P]";
      "                             [--workers N] [--max-connections N]";
      "                             [--exit-after-batches N] [--persist-dir P]" ].

(** The configuration that the arguments make. *)
Definition with_connections (n : Z) (limits : TransportLimits) : TransportLimits :=
  mkTransportLimits (max_frame_bytes limits) n (max_queued_frames limits)
    (max_connection_buffer_bytes limits).
Definition server_configuration (a : ServerArguments) : ObservatoryConfig :=
  mkObservatoryConfig (oc_policy default_config) (oc_ingest default_config) (oc_history default_config)
    (oc_query default_config) (oc_persistence default_config)
    (with_workers (sa_workers a) (oc_runtime default_config))
    (with_connections (sa_max_connections a) (oc_transport default_config))
    (if bool_decide (sa_persist_dir a = EmptyString) then None else Some (sa_persist_dir a))
    true false 0.

Definition listening_line (a : ServerArguments) (bound : Z) (runtime_id : string) : string :=
  "listening host=" +:+ sa_host a +:+ " port=" +:+ number bound +:+ " runtime=" +:+ runtime_id +:+ newline.
Definition stats_line (st : ServerStats) : string :=
  "connections=" +:+ number (ss_connections_accepted st) +:+ " frames=" +:+ number (ss_frames_received st) +:+
  " batches=" +:+ number (ss_batches_applied st) +:+
  " rejected_frames=" +:+ number (ss_frames_rejected st) +:+
  " failures=" +:+ number (ss_batch_failures st) +:+ newline.

(** What [serve] and [stop] leave to print, and the exit code. *)
Definition server_ended (a : ServerArguments) (served stopped : Status) (st : ServerStats) : Printed :=
  after_output (stats_line st)
    (if negb (ok stopped) then failed kServer 1 (error_to_string stopped)
     else if negb (ok served) then failed kServer 1 (error_to_string served)
     else
       mkPrinted
         (if (0 <? sa_exit_after_batches a) && (ss_batches_applied st <? sa_exit_after_batches a)
          then 5 else 0) EmptyString EmptyString).

(** The process: [listening] is the port that the listening socket is bound to, [writable],
    whether the port file can be written, and [serve], what the accept loop of [Serve] makes of
    the connections that come.  Every way out of a started observatory stops it, by its
    destructor at the latest. *)
Section server.
Context (clock : nat → ReceiveTime) (record_bytes : Z).
Context (order : Directory → list (string * Entry)) (io : ProcessIo).
Context (listening : ServerArguments → Result Z) (writable : bool).
Context (serve : ServerArguments → Observatory → Observatory * Status * ServerStats).

Definition serve_and_stop (a : ServerArguments) (config : ObservatoryConfig) (ob : Observatory) :
    FileOp (option Printed) :=
  let cfg := store_config clock config in
  let stop ob := finish_stop cfg order config (pi_stop_read io) (pi_stop_write io) ob in
  match listening a with
  | Failure e => stopped ← stop ob; ret (Some (failed kServer 1 (error_to_string e)))
  | Value bound =>
      let out := listening_line a bound (ss_runtime_id (cfg_session cfg)) in
      if negb (bool_decide (sa_port_file a = EmptyString)) && negb writable then
        stopped ← stop ob;
        ret (Some (after_output out (failed kServer 1 "cannot write the port file")))
      else
        let '(ob, served, st) := serve a ob in
        stopped ← stop ob;
        ret (Some (after_output out (server_ended a served stopped.2 st)))
  end.

Definition server_main (arguments : list string) : FileOp (option Printed) :=
  match parse_server arguments default_server_arguments with
  | Complaint error => ret (Some (mkPrinted 2 EmptyString (error +:+ server_usage)))
  | Given a =>
      let config := server_configuration a in
      match create_observatory clock config with
      | Failure e => ret (Some (failed kServer 1 (error_to_string e)))
      | Value ob =>
          started ← start_observatory (store_config clock config) clock record_bytes order config
                      (pi_start io) (pi_allowed io) ob;
          match started with
          | None => ret None
          | Some (ob, st) =>
              if negb (ok st) then ret (Some (failed kServer 1 (error_to_string st)))
              else serve_and_stop a config ob
          end
      end
  end.
End server.

(** ** The client's program *)

Definition kClient : string := "qobs-transport-client".

Record ClientArguments := mkClientArguments {
  ca_host : string;
  ca_port : Z;
  ca_document_path : string;
  ca_document_text : string;
  ca_repeat : Z;
  ca_request_status : bool;
  ca_expect_accept : bool;
  ca_expect_accepted : Z
}.
Definition default_client_arguments : ClientArguments :=
  mkClientArguments "127.0.0.1" 0 EmptyString EmptyString 1 false false 0.

Definition client_flag (token : string) (a : ClientArguments) : option ClientArguments :=
  if bool_decide (token = "--status") then
    Some (mkClientArguments (ca_host a) (ca_port a) (ca_document_path a) (ca_document_text a)
            (ca_repeat a) true (ca_expect_accept a) (ca_expect_accepted a))
  else if bool_decide (token = "--expect-accept") then
    Some (mkClientArguments (ca_host a) (ca_port a) (ca_document_path a) (ca_document_text a)
            (ca_repeat a) (ca_request_status a) true (ca_expect_accepted a))
  else None.
Definition client_option (token value : string) (a : ClientArguments) :
    option (option ClientArguments) :=
  let number first f := Some (f <$> number_within first u64_max value) in
  if bool_decide (token = "--host") then
    Some (Some (mkClientArguments value (ca_port a) (ca_document_path a) (ca_document_text a)
                  (ca_repeat a) (ca_request_status a) (ca_expect_accept a) (ca_expect_accepted a)))
  else if bool_decide (token = "--port") then
    Some ((λ port, mkClientArguments (ca_host a) port (ca_document_path a) (ca_document_text a)
                     (ca_repeat a) (ca_request_status a) (ca_expect_accept a) (ca_expect_accepted a)) <$>
          number_within 0 65535 value)
  else if bool_decide (token = "--document") then
    Some (Some (mkClientArguments (ca_host a) (ca_port a) value (ca_document_text a)
                  (ca_repeat a) (ca_request_status a) (ca_expect_accept a) (ca_expect_accepted a)))
  else if bool_decide (token = "--document-text") then
    Some (Some (mkClientArguments (ca_host a) (ca_port a) (ca_document_path a) value
                  (ca_repeat a) (ca_request_status a) (ca_expect_accept a) (ca_expect_accepted a)))
  else if bool_decide (token = "--repeat") then
    number 1 (λ n, mkClientArguments (ca_host a) (ca_port a) (ca_document_path a) (ca_document_text a)
                     n (ca_request_status a) (ca_expect_accept a) (ca_expect_accepted a))
  else if bool_decide (token = "--expect-accepted") then
    number 0 (λ n, mkClientArguments (ca_host a) (ca_port a) (ca_document_path a) (ca_document_text a)
                     (ca_repeat a) (ca_request_status a) (ca_expect_accept a) n)
  else None.

Fixpoint parse_client (tokens : list string) (a : ClientArguments) : Argued ClientArguments :=
  match tokens with
  | [] => Given a
  | token :: tokens =>
      match client_flag token a with
      | Some a => parse_client tokens a
      | None =>
          if negb (is_some (client_option token EmptyString a)) then
            Complaint (kClient +:+ ": unknown option '" +:+ token +:+ "'" +:+ newline)
          else
            match tokens with
            | [] => Complaint EmptyString
            | value :: tokens =>
                match client_option token value a with
                | Some (Some a) => parse_client tokens a
                | _ => Complaint EmptyString
                end
            end
      end
  end.

Definition client_usage : string :=
  rows_text (λ line, line +:+ newline)
    [ "usage: qobs-transport-client --port N [--host H] [--document P | --document-text T]";
      "                             [--repeat N] [--status] [--expect-accept]";
      "                             [--expect-accepted N]" ].

Section client.
Context (socket_error : string) (double_in_range : string → bool) (files : string → DocumentFile).

Definition reply_line (reply : BatchReply) : string :=
  let decode := ig_decode (br_report reply) in
  let admission := ig_admission (br_report reply) in
  "ticket=" +:+ number (br_ticket reply) +:+ " lines=" +:+ number (do_lines decode) +:+
  " samples=" +:+ number (do_sample_count decode) +:+ " accepted=" +:+ number (bt_accepted admission) +:+
  " rejected=" +:+ number (bt_rejected admission) +:+ " fenced=" +:+ number (bt_fenced admission) +:+
  " duplicates=" +:+ number (bt_duplicates admission) +:+
  " applied=" +:+ truth (ig_accepted (br_report reply)) +:+ newline.

(** The loop that sends the document: how many samples were accepted, and what was printed. *)
Fixpoint send_repeatedly (times : nat) (document : string) (c : TransportClient) (accepted : Z)
    (out : string) : TransportClient * Z * string * Status :=
  match times with
  | O => (c, accepted, out, success)
  | S times =>
      match send_batch socket_error double_in_range document c with
      | (c, Failure e) => (c, accepted, out, e)
      | (c, Value reply) =>
          send_repeatedly times document c (accepted +u bt_accepted (ig_admission (br_report reply)))
            (out +:+ reply_line reply)
      end
  end.

(** [--status]: what is printed. *)
Definition asked_status (asked : bool) (c : TransportClient) : TransportClient * Result string :=
  if asked then
    match request_status socket_error c with
    | (c, Failure e) => (c, Failure e)
    | (c, Value payload) => (c, Value ("status=" +:+ payload +:+ newline))
    end
  else (c, Value EmptyString).

Definition expectations (a : ClientArguments) (accepted : Z) : Printed :=
  if ca_expect_accept a && (accepted =? 0) then
    failed kClient 6 "expected at least one accepted sample"
  else if negb (ca_expect_accepted a =? 0) && negb (accepted =? ca_expect_accepted a) then
    failed kClient 7
      ("expected " +:+ number (ca_expect_accepted a) +:+ " accepted samples, saw " +:+ number accepted)
  else prints EmptyString.

Definition client_document (a : ClientArguments) : Result string :=
  if bool_decide (ca_document_path a = EmptyString) then Value (ca_document_text a)
  else read_document_file files (ca_document_path a) 1048576.

(** Over an open connection; every way out leads through the client's destructor. *)
Definition client_session (a : ClientArguments) (document : string) (connected : Result Socket) :
    TransportClient * Printed :=
  let '(c, st) := connect_to socket_error connected kClient new_client in
  if negb (ok st) then (c, failed kClient 1 (error_to_string st))
  else
    let out := "welcome=" +:+ tc_welcome c +:+ newline in
    let times := if bool_decide (document = EmptyString) then O else Z.to_nat (ca_repeat a) in
    let '(c, accepted, out, sent) := send_repeatedly times document c 0 out in
    if negb (ok sent) then (c, after_output out (failed kClient 1 (error_to_string sent)))
    else
      match asked_status (ca_request_status a) c with
      | (c, Failure e) => (c, after_output out (failed kClient 1 (error_to_string e)))
      | (c, Value line) =>
          let '(c, closed) := close_client socket_error c in
          let out := out +:+ line in
          (c, if negb (ok closed) then after_output out (failed kClient 1 (error_to_string closed))
              else after_output out (expectations a accepted))
      end.

(** [main]; the client is what is left of the connection. *)
Definition client_main (arguments : list string) (connected : Result Socket) :
    TransportClient * Printed :=
  match parse_client arguments default_client_arguments with
  | Complaint error => (new_client, mkPrinted 2 EmptyString (error +:+ client_usage))
  | Given a =>
      if (ca_port a =? 0) && bool_decide (ca_document_path a = EmptyString) then
        (new_client, failed kClient 2 "--port is required")
      else
        match client_document a with
        | Failure e => (new_client, failed kClient 1 (error_to_string e))
        | Value document =>
            let '(c, p) := client_session a document connected in ((close_client socket_error c).1, p)
        end
  end.
End client.

(** ** A client and a server *)

Definition tool_document : string := encoded (cells_sample "leaf" "i1" 1 100).
Definition hello_payload : string :=
  match JsonWriter.written false (value_object (hello_members kClient)) with
  | Value payload => payload | Failure _ => EmptyString
  end.
Definition tool_requests : list Z :=
  stream [ text_frame FrameType.Hello hello_payload; batch_frame tool_document;
           batch_frame tool_document; text_frame FrameType.Bye EmptyString ].
(** What the server of the examples answers, and the program of the client on it. *)
Definition tool_answers : list Z :=
  so_sent (handle_connection "error" example_config example_clock example_record_bytes (λ _, true)
             server_config (mkSocket true [] [Arrived tool_requests] []) example_server).1.1.
Definition tool_client (arguments : list string) : TransportClient * Printed :=
  client_main "error" (λ _, true) (λ _, mkDocumentFile None false EmptyString) arguments
    (Value (mkSocket true [] [Arrived (take 50 tool_answers); Arrived (drop 50 tool_answers)] [])).

(** The client sends what the server was given, is done with two batches, of which the second
    repeats the first, and closes its connection. *)
Lemma client_meets_server :
  let '(c, p) :=
    tool_client ["--port"; "9000"; "--document-text"; tool_document; "--repeat"; "2";
                 "--expect-accepted"; "1"] in
  so_sent (tc_connection c) = tool_requests ∧ so_open (tc_connection c) = false ∧ pn_exit p = 0.
Proof. by vm_compute. Qed.

(** What the client expects decides its exit code. *)
Lemma client_expects_more :
  pn_exit (tool_client ["--port"; "9000"; "--document-text"; tool_document; "--repeat"; "2";
                        "--expect-accepted"; "2"]).2 = 7.
Proof. by vm_compute. Qed.

(** The port is only required of a client that has no document file. *)
Lemma document_hides_missing_port :
  (tool_client ["--document-text"; tool_document]).2 = failed kClient 2 "--port is required" ∧
  (tool_client ["--document"; "x"]).2 =
    failed kClient 1 "io_error: the document size could not be read: x".
Proof. by vm_compute. Qed.

(** The server's arguments. *)
Lemma server_arguments_read :
  parse_server ["--port"; "65536"] default_server_arguments = Complaint EmptyString ∧
  parse_server ["--max-connections"; "0"] default_server_arguments = Complaint EmptyString ∧
  parse_server ["--host"; "h"; "--workers"; "3"] default_server_arguments =
    Given (set_worker_threads 3 (set_host "h" default_server_arguments)).
Proof. by vm_compute. Qed.
